(** * Verification of the Mynavi crawl-and-deduplicate engine

    A shallow embedding of the TypeScript scraper (the document that
    starts at line 51 of [src/run.sh]) and the properties of its
    dedup ledger, CSV persistence, relay, configuration loading,
    session replay and pagination driver.

    JavaScript strings are sequences of UTF-16 code units; they are
    modelled as [list N].  The browser, the clock, the network and the
    operator's signals are an abstract world [W] with one oracle per
    external call; every effectful function of the source threads the
    world explicitly and records what it did in an event trace. *)

From Stdlib Require Import NArith ZArith QArith Qround List Bool Lia Ascii String.
From Stdlib Require Import DecimalString DecimalPos DecimalN.
From stdpp Require Import base decidable countable gmap sets list.
Import ListNotations.

Local Open Scope N_scope.
Local Open Scope list_scope.

(** ** JavaScript strings *)

Module JsString.

Abbreviation jsstring := (list N).

(** An ASCII literal as code units. *)
Definition lit (s : string) : jsstring :=
  List.map N_of_ascii (list_ascii_of_string s).

Definition dquote : N := 34.
Definition comma : N := 44.
Definition LF : N := 10.
Definition CR : N := 13.
Definition TAB : N := 9.
Definition SP : N := 32.

(** Truthiness of a string value: only the empty string is falsy. *)
Definition truthy (s : jsstring) : bool :=
  match s with [] => false | _ :: _ => true end.

(** The code units matched by [\s] and stripped by [trim]:
    WhiteSpace and LineTerminator of ECMAScript. *)
Definition isWhiteSpace (c : N) : bool :=
  (c =? 9) || (c =? 10) || (c =? 11) || (c =? 12) || (c =? 13) ||
  (c =? 32) || (c =? 0xA0) || (c =? 0x1680) ||
  ((0x2000 <=? c) && (c <=? 0x200A)) ||
  (c =? 0x2028) || (c =? 0x2029) || (c =? 0x202F) || (c =? 0x205F) ||
  (c =? 0x3000) || (c =? 0xFEFF).

(** The class [[\n\r\t]]. *)
Definition isLineOrTab (c : N) : bool :=
  (c =? LF) || (c =? CR) || (c =? TAB).

Fixpoint skipWhile (p : N -> bool) (s : jsstring) : jsstring :=
  match s with
  | [] => []
  | c :: t => if p c then skipWhile p t else s
  end.

Fixpoint runLength (p : N -> bool) (s : jsstring) : nat :=
  match s with
  | [] => O
  | c :: t => if p c then S (runLength p t) else O
  end.

Definition trimStart (s : jsstring) : jsstring := skipWhile isWhiteSpace s.
Definition trimEnd (s : jsstring) : jsstring :=
  rev (skipWhile isWhiteSpace (rev s)).
Definition trim (s : jsstring) : jsstring := trimEnd (trimStart s).

(** Canonicalisation of the [i] flag without the [u] flag, restricted
    to what can equal an ASCII pattern character: a code unit above
    127 never canonicalises to an ASCII one. *)
Definition asciiUpper (c : N) : N :=
  if (97 <=? c) && (c <=? 122) then c - 32 else c.

Fixpoint startsWith (pat s : jsstring) : bool :=
  match pat, s with
  | [], _ => true
  | _ :: _, [] => false
  | p :: pat', c :: s' => (p =? c) && startsWith pat' s'
  end.

(** [pat] is given in upper case. *)
Fixpoint startsWithIgnoreCase (pat s : jsstring) : bool :=
  match pat, s with
  | [], _ => true
  | _ :: _, [] => false
  | p :: pat', c :: s' => (p =? asciiUpper c) && startsWithIgnoreCase pat' s'
  end.

(** [String.prototype.includes]. *)
Fixpoint includes (s pat : jsstring) : bool :=
  startsWith pat s ||
  match s with
  | [] => false
  | _ :: t => includes t pat
  end.

(** [s.replace(pat, by)] with a string pattern: the first occurrence
    only. *)
Fixpoint replaceFirst (pat by_ s : jsstring) : jsstring :=
  if startsWith pat s then by_ ++ drop (length pat) s
  else match s with
       | [] => []
       | c :: t => c :: replaceFirst pat by_ t
       end.

(** [s.replace(re, by)] for a global regular expression that never
    matches the empty string.  [matchAt s] is the length of the match
    starting at the head of [s], when there is one; the scan resumes
    after the match ([skip] counts the code units still to drop). *)
Fixpoint replaceAll (matchAt : jsstring -> option nat) (by_ : jsstring)
         (skip : nat) (s : jsstring) : jsstring :=
  match s with
  | [] => []
  | c :: t =>
      match skip with
      | S k => replaceAll matchAt by_ k t
      | O =>
          match matchAt s with
          | Some n => by_ ++ replaceAll matchAt by_ (Nat.pred n) t
          | None => c :: replaceAll matchAt by_ O t
          end
      end
  end.

(** [/[\n\r\t]+/] and [/\s+/]: a maximal non-empty run. *)
Definition matchRun (p : N -> bool) (s : jsstring) : option nat :=
  match runLength p s with
  | O => None
  | n => Some n
  end.

End JsString.

Import JsString.

(** ** Files in UTF-8

    The ledger is written with [fs.appendFileSync] and
    [fs.writeFileSync] and read with [fs.readFileSync], all with the
    encoding utf8: a string goes to the file as the UTF-8 bytes of its
    code points, a surrogate without its partner as the bytes of
    U+FFFD, and the bytes of the file come back as the code units of
    what they decode to. *)

Module Utf8.

Definition REPLACEMENT : N := 0xFFFD.

Definition isHighSurrogate (c : N) : bool := (0xD800 <=? c) && (c <=? 0xDBFF).
Definition isLowSurrogate (c : N) : bool := (0xDC00 <=? c) && (c <=? 0xDFFF).

(** A code unit that stands for a code point on its own.  A value
    above 0xFFFF is no code unit and does not occur in a string; the
    functions below treat it like a surrogate without partner. *)
Definition isScalarUnit (c : N) : bool :=
  (c <? 0xD800) || ((0xDFFF <? c) && (c <=? 0xFFFF)).

(** The code point of a surrogate pair. *)
Definition pairValue (high low : N) : N :=
  0x10000 + (high - 0xD800) * 1024 + (low - 0xDC00).

(** The bytes of one code point: the low six bits of the value go to
    the last byte, the next six to the one before, and so on. *)
Definition encodePoint (cp : N) : list N :=
  if cp <? 0x80 then [cp]
  else if cp <? 0x800 then [0xC0 + cp / 64; 0x80 + cp mod 64]
  else if cp <? 0x10000
  then [0xE0 + cp / 64 / 64; 0x80 + (cp / 64) mod 64; 0x80 + cp mod 64]
  else [0xF0 + cp / 64 / 64 / 64; 0x80 + (cp / 64 / 64) mod 64;
        0x80 + (cp / 64) mod 64; 0x80 + cp mod 64].

(** [Buffer.from(s, 'utf8')], the bytes that a write puts into the
    file. *)
Fixpoint encode (s : jsstring) : list N :=
  match s with
  | [] => []
  | c :: rest =>
      if isScalarUnit c then encodePoint c ++ encode rest
      else if isHighSurrogate c then
        match rest with
        | d :: rest' =>
            if isLowSurrogate d
            then encodePoint (pairValue c d) ++ encode rest'
            else encodePoint REPLACEMENT ++ encode rest
        | [] => encodePoint REPLACEMENT
        end
      else encodePoint REPLACEMENT ++ encode rest
  end.

(** [s.toWellFormed()]: every surrogate without its partner replaced
    by U+FFFD. *)
Fixpoint toWellFormed (s : jsstring) : jsstring :=
  match s with
  | [] => []
  | c :: rest =>
      if isScalarUnit c then c :: toWellFormed rest
      else if isHighSurrogate c then
        match rest with
        | d :: rest' =>
            if isLowSurrogate d
            then c :: d :: toWellFormed rest'
            else REPLACEMENT :: toWellFormed rest
        | [] => [REPLACEMENT]
        end
      else REPLACEMENT :: toWellFormed rest
  end.

(** A surrogate at the head of [c :: s] that has no partner, or a
    value that is no code unit. *)
Definition lone (c : N) (s : jsstring) : Prop :=
  isScalarUnit c = false
  /\ (isHighSurrogate c = false
      \/ match s with d :: _ => isLowSurrogate d = false | [] => True end).

(** [s.isWellFormed()] *)
Definition isWellFormed (s : jsstring) : bool := bool_decide (toWellFormed s = s).

(** The state of the decoder between two bytes: nothing pending, or a
    code point begun, with the number of bytes it still needs and the
    range allowed for the next one. *)
Inductive Pending :=
| Idle
| Partial (codePoint : N) (needed : nat) (lower upper : N).

(** The code units of a decoded code point. *)
Definition unitsOf (cp : N) : jsstring :=
  if cp <? 0x10000 then [cp]
  else [0xD800 + (cp - 0x10000) / 1024; 0xDC00 + (cp - 0x10000) mod 1024].

(** A byte met with nothing pending. *)
Definition startByte (b : N) : jsstring * Pending :=
  if b <=? 0x7F then ([b], Idle)
  else if (0xC2 <=? b) && (b <=? 0xDF) then ([], Partial (b - 0xC0) 1 0x80 0xBF)
  else if (0xE0 <=? b) && (b <=? 0xEF)
  then ([], Partial (b - 0xE0) 2
              (if b =? 0xE0 then 0xA0 else 0x80) (if b =? 0xED then 0x9F else 0xBF))
  else if (0xF0 <=? b) && (b <=? 0xF4)
  then ([], Partial (b - 0xF0) 3
              (if b =? 0xF0 then 0x90 else 0x80) (if b =? 0xF4 then 0x8F else 0xBF))
  else ([REPLACEMENT], Idle).

(** One byte: a continuation byte in range adds its six bits; any
    other byte ends the pending code point with U+FFFD and is looked
    at again with nothing pending. *)
Definition decodeByte (state : Pending) (b : N) : jsstring * Pending :=
  match state with
  | Idle => startByte b
  | Partial codePoint needed lower upper =>
      if (lower <=? b) && (b <=? upper) then
        let codePoint := codePoint * 64 + (b - 0x80) in
        match needed with
        | S (S _ as left) => ([], Partial codePoint left 0x80 0xBF)
        | _ => (unitsOf codePoint, Idle)
        end
      else
        let (units, state) := startByte b in
        (REPLACEMENT :: units, state)
  end.

Fixpoint decodeFrom (state : Pending) (bytes : list N) : jsstring :=
  match bytes with
  | [] => match state with Idle => [] | Partial _ _ _ _ => [REPLACEMENT] end
  | b :: rest =>
      let (units, state) := decodeByte state b in
      units ++ decodeFrom state rest
  end.

(** [buffer.toString('utf8')], the text that a read makes of the
    bytes of the file; a byte order mark is kept. *)
Definition decode (bytes : list N) : jsstring := decodeFrom Idle bytes.

End Utf8.

Import Utf8.

(** ** Dedup ledger, pure part *)

Module Ledger.

Definition PICK_UP : jsstring := lit "PICK UP".

(** [/\s*PICK UP\s*/gi] at the head of [s].  The leading [\s*] is
    greedy and the marker does not start with white space, so the
    match exists exactly when the marker follows the white-space run. *)
Definition matchPickUp (s : jsstring) : option nat :=
  let k := runLength isWhiteSpace s in
  let r := drop k s in
  if startsWithIgnoreCase PICK_UP r
  then Some (k + length PICK_UP + runLength isWhiteSpace (drop (length PICK_UP) r))%nat
  else None.

Definition normalizeCompanyName (companyName : jsstring) : jsstring :=
  trim
    (replaceAll (matchRun isWhiteSpace) [SP] O
       (replaceAll (matchRun isLineOrTab) [SP] O
          (replaceAll matchPickUp [] O
             (trim companyName)))).

Definition has (x : jsstring) (s : gset jsstring) : bool := bool_decide (x ∈ s).

Definition checkCompanyExists (companyName : jsstring)
           (existingCompanies : gset jsstring) : bool :=
  if negb (truthy companyName) then false
  else has (normalizeCompanyName companyName) existingCompanies.

(** The set is mutated in place by the source; here the updated set is
    returned next to the result. *)
Definition checkAndAddCompany (companyName : jsstring)
           (existingCompanies : gset jsstring) : bool * gset jsstring :=
  if negb (truthy companyName) then (false, existingCompanies)
  else
    let normalized := normalizeCompanyName companyName in
    if has normalized existingCompanies then (true, existingCompanies)
    else (false, {[normalized]} ∪ existingCompanies).

End Ledger.

Import Ledger.

(** ** CSV ledger: records, serialisation and the quote-aware parser *)

Module Csv.

Record InternshipRow := { heading : jsstring; value : jsstring }.

(** [tableJson] holds [JSON.stringify] of one of three values; the
    value is kept, the JSON text is never read back by the program. *)
Inductive TableJson :=
| JsonText (s : jsstring)
| JsonRows (rows : list InternshipRow).

Record CsvRecord := {
  companyName : jsstring;
  phone : jsstring;
  email : jsstring;
  industry : jsstring;
  headOffice : jsstring;
  tableUrl : jsstring;
  tableJson : TableJson;
  annualRecruitment : jsstring;
  companySize : jsstring
}.

(** The one-character pattern of [escapeCsvValue] (a double quote)
    at the head of [s]. *)
Definition matchQuote (s : jsstring) : option nat :=
  match s with
  | c :: _ => if c =? dquote then Some 1%nat else None
  | [] => None
  end.

Definition escapeCsvValue (value : jsstring) : jsstring :=
  replaceAll matchQuote [dquote; dquote] O value.

(** The prefix of the list-source column: the site name and an
    opening parenthesis. *)
Definition MYNAVI_OPEN : jsstring := [0x30DE; 0x30A4; 0x30CA; 0x30D3; 0x28].

Definition listSource (timestamp : jsstring) : jsstring :=
  MYNAVI_OPEN ++ timestamp ++ lit ")".

(** The twenty columns of one record (the [row] array of
    [appendCsvRecord]). *)
Definition csvRow (record : CsvRecord) (listSource : jsstring) : list jsstring :=
  [ []; []; []; []; []; []; [];
    companyName record; phone record; email record;
    []; [];
    tableUrl record; listSource; companySize record; industry record;
    headOffice record; annualRecruitment record;
    []; [] ].

Definition q : jsstring := [dquote].
Definition qcq : jsstring := [dquote; comma; dquote].

(** The template literal of [appendCsvRecord]. *)
Definition csvLine (record : CsvRecord) (listSource : jsstring) : jsstring :=
  q ++ qcq ++ qcq ++ qcq ++ qcq ++ qcq ++ qcq ++ qcq
    ++ escapeCsvValue (companyName record) ++ qcq
    ++ escapeCsvValue (phone record) ++ qcq
    ++ escapeCsvValue (email record) ++ qcq
    ++ qcq
    ++ qcq
    ++ escapeCsvValue (tableUrl record) ++ qcq
    ++ escapeCsvValue listSource ++ qcq
    ++ escapeCsvValue (companySize record) ++ qcq
    ++ escapeCsvValue (industry record) ++ qcq
    ++ escapeCsvValue (headOffice record) ++ qcq
    ++ escapeCsvValue (annualRecruitment record) ++ qcq
    ++ qcq
    ++ q ++ [LF].

(** The same line, field by field: every value between double quotes,
    commas in between.  [csvLine] is this applied to [csvRow]. *)
Definition quoted (f : jsstring) : jsstring :=
  dquote :: escapeCsvValue f ++ [dquote].

Fixpoint joinQuoted (fields : list jsstring) : jsstring :=
  match fields with
  | [] => []
  | [f] => quoted f
  | f :: rest => quoted f ++ comma :: joinQuoted rest
  end.

(** What may follow the closing quote of a field: anything but a
    second double quote. *)
Definition closesQuote (tail : jsstring) : Prop :=
  match tail with
  | [] => True
  | c :: _ => c <> dquote
  end.

(** [row.length > 0 && row.some(f => f.trim())] *)
Definition keepRow (row : list jsstring) : bool :=
  (0 <? length row)%nat && existsb (fun f => truthy (trim f)) row.

Definition pushRow (rows : list (list jsstring)) (row : list jsstring)
  : list (list jsstring) :=
  if keepRow row then rows ++ [row] else rows.

(** The [while (i < content.length)] loop of [parseCsvContent]; the
    remaining input stands for the index [i]. *)
Fixpoint parseCsvLoop (content : jsstring) (rows : list (list jsstring))
         (currentRow : list jsstring) (currentField : jsstring)
         (inQuotes : bool) : list (list jsstring) :=
  match content with
  | [] =>
      if truthy currentField || (0 <? length currentRow)%nat
      then pushRow rows (currentRow ++ [currentField])
      else rows
  | char :: rest =>
      if char =? dquote then
        match rest with
        | nextChar :: rest' =>
            if inQuotes && (nextChar =? dquote)
            then parseCsvLoop rest' rows currentRow (currentField ++ [dquote]) inQuotes
            else parseCsvLoop rest rows currentRow currentField (negb inQuotes)
        | [] => parseCsvLoop rest rows currentRow currentField (negb inQuotes)
        end
      else if (char =? comma) && negb inQuotes then
        parseCsvLoop rest rows (currentRow ++ [currentField]) [] inQuotes
      else if ((char =? LF) || (char =? CR)) && negb inQuotes then
        let rows' := pushRow rows (currentRow ++ [currentField]) in
        match rest with
        | nextChar :: rest' =>
            if (char =? CR) && (nextChar =? LF)
            then parseCsvLoop rest' rows' [] [] inQuotes
            else parseCsvLoop rest rows' [] [] inQuotes
        | [] => parseCsvLoop rest rows' [] [] inQuotes
        end
      else parseCsvLoop rest rows currentRow (currentField ++ [char]) inQuotes
  end.

Definition parseCsvContent (content : jsstring) : list (list jsstring) :=
  parseCsvLoop content [] [] [] false.

(** The header line that [ensureCsvHeader] puts at the top of the
    ledger: the twenty column titles and a line feed. *)
Definition HEADER : jsstring :=
  [ 0x65E5; 0x4ED8; 0x2C; 0x62C5; 0x5F53; 0x8005; 0x2C; 0x6E29; 0x5EA6; 0x611F;
    0x2C; 0x53D7; 0x4ED8; 0x30D6; 0x30ED; 0x30C3; 0x30AF; 0x2C; 0x5546; 0x8AC7;
    0x4E2D; 0x2C; 0x55B6; 0x696D; 0x76EE; 0x7684; 0x2C; 0x63A1; 0x7528; 0x30BF;
    0x30FC; 0x30B2; 0x30C3; 0x30C8; 0x2C; 0x4F01; 0x696D; 0x540D; 0x2C; 0x96FB;
    0x8A71; 0x756A; 0x53F7; 0x2C; 0x30E1; 0x30FC; 0x30EB; 0x30A2; 0x30C9; 0x30EC;
    0x30B9; 0x2C; 0x48; 0x50; 0x2C; 0x62C5; 0x5F53; 0x8005; 0x69D8; 0x2C;
    0x5099; 0x8003; 0x2C; 0x30EA; 0x30B9; 0x30C8; 0x5143; 0x2C; 0x4F01; 0x696D;
    0x898F; 0x6A21; 0x2C; 0x696D; 0x754C; 0x2C; 0x672C; 0x793E; 0x5730; 0x57DF;
    0x2C; 0x5E74; 0x9593; 0x63A1; 0x7528; 0x4EBA; 0x6570; 0x2C; 0x4E0A; 0x5834;
    0x2C; 0x5C5E; 0x6027; 0xA ].

(** [loadExistingCompanyNames] applied to the text of the ledger file
    ([None]: the file does not exist). *)
Definition seedFromRow (companies : gset jsstring) (fields : list jsstring)
  : gset jsstring :=
  if (7 <? length fields)%nat then
    let companyName := trim (nth 7 fields []) in
    if truthy companyName then
      let normalized := normalizeCompanyName companyName in
      if truthy normalized then {[normalized]} ∪ companies else companies
    else companies
  else companies.

Definition loadExistingCompanyNames (file : option jsstring) : gset jsstring :=
  match file with
  | None => ∅
  | Some content => fold_left seedFromRow (drop 1 (parseCsvContent content)) ∅
  end.

End Csv.

Import Csv.

(** ** Configuration *)

Module Config.

(** What [JSON.parse] can put in a field that the loader inspects with
    [typeof]; numbers are kept exact. *)
Inductive Json :=
| JUndefined
| JNull
| JBool (b : bool)
| JNumber (x : Q)
| JString (s : jsstring)
| JOther.

(** [Partial<MynaviConfig>] as parsed.  The fields that the loader
    copies without looking at them have their declared type. *)
Record ParsedConfig := {
  parsed_SEARCH_URL : Json;
  parsed_START_PAGE : Json;
  parsed_MAX_COMPANIES : Json;
  parsed_SPREADSHEET_URL : option jsstring;
  parsed_CSV_PATH : option jsstring;
  parsed_GAS_UPLOAD_URL : option jsstring;
  parsed_GAS_UPLOAD_TOKEN : option jsstring
}.

Record MynaviConfig := {
  SEARCH_URL : jsstring;
  START_PAGE : nat;
  MAX_COMPANIES : option nat;
  SPREADSHEET_URL : option jsstring;
  CSV_PATH : option jsstring;
  GAS_UPLOAD_URL : option jsstring;
  GAS_UPLOAD_TOKEN : option jsstring
}.

Record GasConfig := { uploadUrl : jsstring; token : option jsstring }.

Record RequiredSheetConfig := { spreadsheetUrl : jsstring; csvPath : jsstring }.

Inductive ConfigError :=
| MissingSearchUrl
| MissingSpreadsheetUrl
| MissingCsvPath
| BadSpreadsheetUrl.

(** Truthiness of an optional string. *)
Definition present (o : option jsstring) : bool :=
  match o with
  | Some s => truthy s
  | None => false
  end.

(** [typeof v === 'number' && v >= 1 ? Math.floor(v) : fallback] *)
Definition floorAtLeastOne (v : Json) : option nat :=
  match v with
  | JNumber x => if Qle_bool 1 x then Some (Z.to_nat (Qfloor x)) else None
  | _ => None
  end.

Definition isDigit (c : N) : bool := (48 <=? c) && (c <=? 57).

Fixpoint digitsValue (acc : Z) (s : jsstring) : Z :=
  match s with
  | [] => acc
  | c :: t => if isDigit c then digitsValue (10 * acc + Z.of_N (c - 48))%Z t else acc
  end.

(** [parseInt(s, 10)]; [None] is [NaN].  The result is the value of
    the digits, which is the number that [parseInt] returns as long as
    that value is at most 2^53 in size; see [readsExactly]. *)
Definition parseInt10 (s : jsstring) : option Z :=
  let body := trimStart s in
  let '(sign, rest) :=
    match body with
    | c :: t => if c =? 45 then ((-1)%Z, t) else if c =? 43 then (1%Z, t) else (1%Z, body)
    | [] => (1%Z, body)
    end in
  match runLength isDigit rest with
  | O => None
  | _ => Some (sign * digitsValue 0 rest)%Z
  end.

(** [parseInt] returns the double nearest to the value of the digits.
    For digits worth at most 2^53 in size that double is the value
    itself; [parseInt10] is [parseInt] on such texts, and the
    properties of the functions that call it are stated for them. *)
Definition readsExactly (text : jsstring) : Prop :=
  forall v, parseInt10 text = Some v -> (Z.abs v <= 2 ^ 53)%Z.

Definition DEFAULT_SEARCH_URL : jsstring :=
  lit "https://job.mynavi.jp/27/pc/corpinfo/searchCorpListByGenCond/index/?cond=HR:13,14,25,26,27,28,29,30/ER:1".

Definition defaultConfig : MynaviConfig :=
  {| SEARCH_URL := DEFAULT_SEARCH_URL;
     START_PAGE := 1;
     MAX_COMPANIES := None;
     SPREADSHEET_URL := None;
     CSV_PATH := None;
     GAS_UPLOAD_URL := None;
     GAS_UPLOAD_TOKEN := None |}.

(** The body of the [try] block of [loadConfig].  [file] is the result
    of reading and parsing the configuration file ([None]: either step
    threw); [envMax] is [process.env.MAX_COMPANIES]. *)
Definition readConfig (file : option ParsedConfig) (envMax : option jsstring)
  : MynaviConfig + ConfigError :=
  match file with
  | None => inr MissingSearchUrl
  | Some parsed =>
      match parsed_SEARCH_URL parsed with
      | JString (c :: s) =>
          let startPage :=
            match floorAtLeastOne (parsed_START_PAGE parsed) with
            | Some n => n
            | None => 1%nat
            end in
          let fromEnv :=
            if present envMax then
              match parseInt10 (default [] envMax) with
              | Some v => if (1 <=? v)%Z then Some (Z.to_nat v) else None
              | None => None
              end
            else None in
          let maxCompanies :=
            match fromEnv with
            | Some n => Some n
            | None => floorAtLeastOne (parsed_MAX_COMPANIES parsed)
            end in
          inl {| SEARCH_URL := c :: s;
                 START_PAGE := startPage;
                 MAX_COMPANIES := maxCompanies;
                 SPREADSHEET_URL := parsed_SPREADSHEET_URL parsed;
                 CSV_PATH := parsed_CSV_PATH parsed;
                 GAS_UPLOAD_URL := parsed_GAS_UPLOAD_URL parsed;
                 GAS_UPLOAD_TOKEN := parsed_GAS_UPLOAD_TOKEN parsed |}
      | _ => inr MissingSearchUrl
      end
  end.

(** [loadConfig]: the [catch] clause warns and returns the built-in
    configuration.  The boolean tells whether the warning was printed. *)
Definition loadConfig (file : option ParsedConfig) (envMax : option jsstring)
  : MynaviConfig * bool :=
  match readConfig file envMax with
  | inl config => (config, false)
  | inr _ => (defaultConfig, true)
  end.

Definition getGasConfig (config : MynaviConfig) : option GasConfig :=
  match GAS_UPLOAD_URL config with
  | Some (c :: s) => Some {| uploadUrl := c :: s; token := GAS_UPLOAD_TOKEN config |}
  | _ => None
  end.

Definition getSheetConfig (config : MynaviConfig)
  : RequiredSheetConfig + ConfigError :=
  match SPREADSHEET_URL config with
  | Some (c :: s) =>
      match CSV_PATH config with
      | Some (d :: p) => inl {| spreadsheetUrl := c :: s; csvPath := d :: p |}
      | _ => inr MissingCsvPath
      end
  | _ => inr MissingSpreadsheetUrl
  end.

Definition SHEET_MARKER : jsstring := lit "/spreadsheets/d/".

Definition notSlash (c : N) : bool := negb (c =? 47).

(** The capture group of [/\/spreadsheets\/d\/([^/]+)/], leftmost match. *)
Fixpoint matchSheetId (s : jsstring) : option jsstring :=
  let after := drop (length SHEET_MARKER) s in
  if startsWith SHEET_MARKER s && (0 <? runLength notSlash after)%nat
  then Some (take (runLength notSlash after) after)
  else match s with
       | [] => None
       | _ :: t => matchSheetId t
       end.

Definition buildCsvExportUrl (spreadsheetUrl : jsstring) : jsstring + ConfigError :=
  match matchSheetId spreadsheetUrl with
  | Some sheetId =>
      inl (lit "https://docs.google.com/spreadsheets/d/" ++ sheetId ++ lit "/export?format=csv")
  | None => inr BadSpreadsheetUrl
  end.

End Config.

Import Config.

(** ** The outside world *)

Module CourseData.
Record t := {
  companyName : jsstring;
  tableRows : list InternshipRow;
  phones : list jsstring;
  emails : list jsstring;
  sourceUrl : jsstring
}.
End CourseData.

Module CompanyMeta.
Record t := {
  industry : jsstring;
  headOffice : jsstring;
  annualRecruitment : jsstring;
  companySize : jsstring
}.
End CompanyMeta.

Module World.

(** One entry of the list evaluated from the search-result anchors. *)
Record CompanyLink := { name : jsstring; url : jsstring }.

(** How the awaited [fetch] of [postRowToGas] ends. *)
Inductive FetchOutcome :=
| FetchAborted
| FetchRejected
| FetchResponse (status : N) (statusText body : jsstring).

Record RelayRequest := {
  requestUrl : jsstring;
  requestHeaders : list (jsstring * jsstring);
  bodyRow : list jsstring;
  bodyToken : jsstring
}.

(** How [extractInternshipTable] ends: it throws, returns [null]
    (no detail table within the time limit) or returns the course. *)
Inductive TableOutcome :=
| TableThrew
| TableAbsent
| TableFound (data : CourseData.t).

(** The external collaborators of the crawl.  Every call that awaits
    returns the world in which the program resumes; the run-control
    flags are read from the current world, so a signal may flip them
    across any await. *)
Class Host (W : Type) := {
  shouldStop : W -> bool;
  isPaused : W -> bool;
  timer : N -> W -> W;
  toISOString : W -> jsstring;
  urlParses : jsstring -> bool;
  fetchPost : RelayRequest -> W -> FetchOutcome * W;
  queryCompanyLinks : W -> list CompanyLink * W;
  newPage : W -> W;
  closePage : W -> W;
  goto : jsstring -> W -> bool * W;
  evaluateOutline : W -> option CompanyMeta.t * W;
  pageUrl : W -> jsstring;
  queryCourseLinks : W -> list jsstring * W;
  extractInternshipTable : jsstring -> jsstring -> W -> TableOutcome * W;
  queryNextButton : W -> option jsstring * W;
  clickNext : W -> W
}.

Inductive RelayError :=
| InvalidUploadUrl
| RelayTimeout
| RelayNetworkError
| RelayHttpError (status : N) (statusText body : jsstring).

Inductive Event :=
| EvPageTop (pageIndex : nat)
| EvEntityTop (companyName : jsstring)
| EvCourseTop (courseUrl : jsstring)
| EvWaitIfPaused
| EvTimer (ms : N)
| EvQueryCompanyLinks
| EvNewPage
| EvClosePage
| EvSkipKnown (companyName : jsstring)
| EvGoto (url : jsstring) (ok : bool)
| EvEvaluateOutline
| EvQueryCourseLinks
| EvExtractTable (url : jsstring) (outcome : TableOutcome)
| EvAppendCsv (line : jsstring)
| EvRelayPost (request : RelayRequest)
| EvRelayAnswer (text : jsstring)
| EvRelayError (error : RelayError)
| EvEntityFailed
| EvQueryNextButton
| EvClickNext.

(** Program state: the world, the shared dedup set, the text handed
    to the output ledger so far and what has been done so far.
    [csvFile] holds the code units given to the file functions; the
    bytes that reach the disk and the text that a later read makes of
    them are those of [Utf8.encode] and [Utf8.decode]. *)
Record Machine (W : Type) := {
  world : W;
  existingCompanies : gset jsstring;
  csvFile : jsstring;
  trace : list Event
}.
Arguments world {W} _.
Arguments existingCompanies {W} _.
Arguments csvFile {W} _.
Arguments trace {W} _.

Section Primitives.
Context {W : Type}.

Definition emit (e : Event) (m : Machine W) : Machine W :=
  {| world := world m; existingCompanies := existingCompanies m;
     csvFile := csvFile m; trace := trace m ++ [e] |}.

Definition setWorld (w : W) (m : Machine W) : Machine W :=
  {| world := w; existingCompanies := existingCompanies m;
     csvFile := csvFile m; trace := trace m |}.

Definition addCompany (x : jsstring) (m : Machine W) : Machine W :=
  {| world := world m; existingCompanies := {[x]} ∪ existingCompanies m;
     csvFile := csvFile m; trace := trace m |}.

(** [fs.appendFileSync(OUTPUT_CSV, line)]; the write is taken to
    succeed.  The line is recorded as it was handed over; on disk it is
    [Utf8.encode line]. *)
Definition appendFileSync (line : jsstring) (m : Machine W) : Machine W :=
  emit (EvAppendCsv line)
    {| world := world m; existingCompanies := existingCompanies m;
       csvFile := csvFile m ++ line; trace := trace m |}.

Definition initial (w : W) (existing : gset jsstring) (file : jsstring)
  : Machine W :=
  {| world := w; existingCompanies := existing; csvFile := file; trace := [] |}.

End Primitives.

End World.

Import World.

(** ** Relay and persistence *)

Module Persist.

Definition DELAY_MS : N := 300.

Definition isLineTerminator (c : N) : bool :=
  (c =? LF) || (c =? CR) || (c =? 0x2028) || (c =? 0x2029).

Definition notLineTerminator (c : N) : bool := negb (isLineTerminator c).

(** [s.replace(/\..+/, '')]: the first dot that is followed by at
    least one character of the same line, and the rest of that line. *)
Fixpoint stripFraction (s : jsstring) : jsstring :=
  match s with
  | [] => []
  | c :: t =>
      if (c =? 46) && (0 <? runLength notLineTerminator t)%nat
      then drop (runLength notLineTerminator t) t
      else c :: stripFraction t
  end.

(** [iso.replace(/T/, ' ').replace(/\..+/, '')] *)
Definition formatTimestamp (iso : jsstring) : jsstring :=
  stripFraction (replaceFirst (lit "T") [SP] iso).

Definition decimal (n : N) : jsstring :=
  lit (DecimalString.NilZero.string_of_uint (N.to_uint n)).

(** [res.ok] *)
Definition statusOk (status : N) : bool := (200 <=? status) && (status <=? 299).

Section WithHost.
Context {W : Type} {host : Host W}.

(** The request of [postRowToGas].  [requestUrl] is the configured
    text; the source posts to [new URL(uploadUrl).toString()], the same
    address in normalised spelling. *)
Definition relayRequest (gas : GasConfig) (row : list jsstring) : RelayRequest :=
  {| requestUrl := uploadUrl gas;
     requestHeaders :=
       (lit "Content-Type", lit "application/json; charset=utf-8")
         :: (if present (token gas)
             then [(lit "X-Auth-Token", default [] (token gas))]
             else []);
     bodyRow := row;
     bodyToken := default [] (token gas) |}.

(** [postRowToGas]: the answer text, or the error it throws. *)
Definition postRowToGas (gas : GasConfig) (row : list jsstring) (m : Machine W)
  : (jsstring + RelayError) * Machine W :=
  if negb (urlParses (uploadUrl gas)) then (inr InvalidUploadUrl, m)
  else
    let request := relayRequest gas row in
    let (outcome, w) := fetchPost request (world m) in
    let m1 := emit (EvRelayPost request) (setWorld w m) in
    match outcome with
    | FetchAborted => (inr RelayTimeout, m1)
    | FetchRejected => (inr RelayNetworkError, m1)
    | FetchResponse status statusText text =>
        if negb (statusOk status)
        then (inr (RelayHttpError status statusText text), m1)
        else (inl (if truthy text then text else lit "HTTP " ++ decimal status), m1)
    end.

(** [appendCsvRecord]: the line is appended first; a relay error is
    caught and logged. *)
Definition appendCsvRecord (record : CsvRecord) (gasConfig : option GasConfig)
           (m : Machine W) : Machine W :=
  let timestamp := formatTimestamp (toISOString (world m)) in
  let source := listSource timestamp in
  let m1 := appendFileSync (csvLine record source) m in
  match gasConfig with
  | None => m1
  | Some gas =>
      match postRowToGas gas (csvRow record source) m1 with
      | (inl resp, m2) => emit (EvRelayAnswer resp) m2
      | (inr err, m2) => emit (EvRelayError err) m2
      end
  end.

(** [saveRecordIfNew], with the module constant [GAS_CONFIG] as a
    parameter: [true] when the record was skipped. *)
Definition saveRecordIfNew (GAS_CONFIG : option GasConfig) (record : CsvRecord)
           (m : Machine W) : bool * Machine W :=
  let normalizedCompanyName := normalizeCompanyName (Csv.companyName record) in
  if has normalizedCompanyName (existingCompanies m) then (true, m)
  else (false, appendCsvRecord record GAS_CONFIG (addCompany normalizedCompanyName m)).

End WithHost.

End Persist.

Import Persist.

(** ** Session capture and replay for the spreadsheet export *)

Module Session.

Record Cookie := {
  cookieName : jsstring;
  cookieValue : jsstring;
  cookieDomain : jsstring;
  cookiePath : jsstring;
  cookieExpires : Z;
  httpOnly : bool;
  secure : bool;
  sameSite : jsstring
}.

Record Origin := {
  origin : jsstring;
  localStorage : list (jsstring * jsstring)
}.

Record StorageState := { cookies : list Cookie; origins : list Origin }.

(** How the interactive capture goes up to the snapshot: Chrome cannot
    be launched or attached to (thrown before the [try]), something
    throws while the operator logs in (inside the [try]), or the
    operator presses Enter and the context state is read. *)
Inductive CaptureOutcome :=
| LaunchFailed
| LoginFailed
| LoggedIn (state : StorageState).

Inductive HttpOutcome :=
| RequestThrew
| Responded (status : N) (statusText text : jsstring).

Class SheetHost (W : Type) := {
  requestGet : StorageState -> jsstring -> W -> HttpOutcome * W;
  operatorLogin : jsstring -> W -> CaptureOutcome * W
}.

Inductive SessionError :=
| SheetConfigError (e : ConfigError)
| CsvRequestFailed
| CsvRequestRefused (status : N) (statusText preview : jsstring)
| ChromeLaunchFailed
| CaptureAborted.

Inductive SessionEvent :=
| SevRequest (state : StorageState) (csvUrl : jsstring) (accepted : bool)
| SevReplayRejected
| SevCaptureStarted (spreadsheetUrl : jsstring)
| SevSaveSession (state : StorageState)
| SevCaptureCleanup
| SevSyncSkipped
| SevWriteCsv (csvPath : jsstring) (text : jsstring).

(** [sessionFile] is what [loadSession] reads: [None] when the file is
    missing or does not parse. *)
Record SessionMachine (W : Type) := {
  sworld : W;
  sessionFile : option StorageState;
  strace : list SessionEvent
}.
Arguments sworld {W} _.
Arguments sessionFile {W} _.
Arguments strace {W} _.

Inductive SyncResult :=
| SyncSkipped
| SyncDone
| SyncFailed (e : SessionError).

Section WithSheetHost.
Context {W : Type} {sheet : SheetHost W}.

Definition semit (e : SessionEvent) (m : SessionMachine W) : SessionMachine W :=
  {| sworld := sworld m; sessionFile := sessionFile m; strace := strace m ++ [e] |}.

Definition loadSession (m : SessionMachine W) : option StorageState :=
  sessionFile m.

Definition saveSession (state : StorageState) (m : SessionMachine W)
  : SessionMachine W :=
  semit (SevSaveSession state)
    {| sworld := sworld m; sessionFile := Some state; strace := strace m |}.

Definition downloadCsvWithSession (state : StorageState) (csvUrl : jsstring)
           (m : SessionMachine W) : (jsstring + SessionError) * SessionMachine W :=
  let (outcome, w) := requestGet state csvUrl (sworld m) in
  let m1 (accepted : bool) :=
    semit (SevRequest state csvUrl accepted)
      {| sworld := w; sessionFile := sessionFile m; strace := strace m |} in
  match outcome with
  | RequestThrew => (inr CsvRequestFailed, m1 false)
  | Responded status statusText text =>
      if negb (status =? 200)
      then (inr (CsvRequestRefused status statusText (take 500 text)), m1 false)
      else (inl text, m1 true)
  end.

Definition captureSessionInteractive (spreadsheetUrl : jsstring)
           (m : SessionMachine W) : (StorageState + SessionError) * SessionMachine W :=
  let (outcome, w) := operatorLogin spreadsheetUrl (sworld m) in
  let m1 := semit (SevCaptureStarted spreadsheetUrl)
              {| sworld := w; sessionFile := sessionFile m; strace := strace m |} in
  match outcome with
  | LaunchFailed => (inr ChromeLaunchFailed, m1)
  | LoginFailed => (inr CaptureAborted, semit SevCaptureCleanup m1)
  | LoggedIn storageState =>
      (inl storageState, semit SevCaptureCleanup (saveSession storageState m1))
  end.

Definition ensureSessionAndDownload (spreadsheetUrl : jsstring)
           (m : SessionMachine W) : (jsstring + SessionError) * SessionMachine W :=
  match buildCsvExportUrl spreadsheetUrl with
  | inr e => (inr (SheetConfigError e), m)
  | inl csvUrl =>
      let capture (m : SessionMachine W) :=
        match captureSessionInteractive spreadsheetUrl m with
        | (inr e, m1) => (inr e, m1)
        | (inl updatedState, m1) => downloadCsvWithSession updatedState csvUrl m1
        end in
      match loadSession m with
      | Some existingState =>
          match downloadCsvWithSession existingState csvUrl m with
          | (inl text, m1) => (inl text, m1)
          | (inr _, m1) => capture (semit SevReplayRejected m1)
          end
      | None => capture m
      end
  end.

(** [resolveCsvPath] is left to the file system: the event records
    the configured path. *)
Definition downloadCsvFromSpreadsheet (config : MynaviConfig)
           (m : SessionMachine W) : SyncResult * SessionMachine W :=
  if negb (present (SPREADSHEET_URL config)) || negb (present (CSV_PATH config))
  then (SyncSkipped, semit SevSyncSkipped m)
  else
    match getSheetConfig config with
    | inr e => (SyncFailed (SheetConfigError e), m)
    | inl required =>
        match ensureSessionAndDownload (spreadsheetUrl required) m with
        | (inr e, m1) => (SyncFailed e, m1)
        | (inl csvText, m1) =>
            (SyncDone, semit (SevWriteCsv (csvPath required) csvText) m1)
        end
    end.

End WithSheetHost.

(** Module initialisation and the head of [main], up to the point
    where the browser for the crawl is launched.  A rejected [main]
    ends in [process.exit(1)]. *)
Inductive StartupEnd :=
| ExitNonZero (e : SessionError)
| Crawling (CONFIG : MynaviConfig) (GAS_CONFIG : option GasConfig) (sync : SyncResult).

Definition startup {W : Type} {sheet : SheetHost W}
           (file : option ParsedConfig) (envMax : option jsstring)
           (m : SessionMachine W) : StartupEnd * SessionMachine W :=
  let (CONFIG, _) := loadConfig file envMax in
  let GAS_CONFIG := getGasConfig CONFIG in
  match downloadCsvFromSpreadsheet CONFIG m with
  | (SyncFailed e, m1) => (ExitNonZero e, m1)
  | (sync, m1) => (Crawling CONFIG GAS_CONFIG sync, m1)
  end.

Definition isCapture (e : SessionEvent) : bool :=
  match e with SevCaptureStarted _ => true | _ => false end.

Definition isRequest (e : SessionEvent) : bool :=
  match e with SevRequest _ _ _ => true | _ => false end.

Fixpoint countIf {A : Type} (p : A -> bool) (l : list A) : nat :=
  match l with
  | [] => 0
  | x :: rest => (if p x then 1 else 0) + countIf p rest
  end.

End Session.

Import Session.

(** ** Pagination driver and entity extractor *)

Module Crawl.

(** Literal markers written into records. *)
Definition EXTRACTION_FAILED : jsstring := [0x53D6; 0x5F97; 0x5931; 0x6557].
Definition NO_DETAIL : jsstring := [0x8A73; 0x7D30; 0x7121; 0x3057].
Definition NOT_LISTED : jsstring := [0x7121; 0x8A18; 0x8F09].
Definition UNKNOWN_COMPANY : jsstring :=
  [0x28; 0x4F01; 0x696D; 0x540D; 0x4E0D; 0x660E; 0x29].

(** [a || b] on strings. *)
Definition orElse (a b : jsstring) : jsstring := if truthy a then a else b.

(** The defaults applied by [extractCompanyMetaFromOutline] to what
    the page evaluation returned. *)
Definition extractCompanyMetaFromOutline (raw : CompanyMeta.t) : CompanyMeta.t :=
  {| CompanyMeta.industry := orElse (CompanyMeta.industry raw) EXTRACTION_FAILED;
     CompanyMeta.headOffice := orElse (CompanyMeta.headOffice raw) EXTRACTION_FAILED;
     CompanyMeta.annualRecruitment := orElse (CompanyMeta.annualRecruitment raw) [];
     CompanyMeta.companySize := orElse (CompanyMeta.companySize raw) [] |}.

(** *** Choice of the course a record is built from *)

Definition hasPhone (c : CourseData.t) : bool := (0 <? length (CourseData.phones c))%nat.
Definition hasEmail (c : CourseData.t) : bool := (0 <? length (CourseData.emails c))%nat.

Definition score (c : CourseData.t) : nat :=
  if hasPhone c && hasEmail c then 3
  else if hasPhone c then 2
  else if hasEmail c then 1
  else 0.

(** [scored.sort((a, b) => b.score - a.score)]: [Array.prototype.sort]
    is stable, so the result is the stable arrangement by descending
    score, computed here by insertion. *)
Fixpoint insertByScore (x : CourseData.t) (sorted : list CourseData.t)
  : list CourseData.t :=
  match sorted with
  | [] => [x]
  | y :: rest =>
      if (score y <=? score x)%nat then x :: y :: rest
      else y :: insertByScore x rest
  end.

Fixpoint sortByScore (l : list CourseData.t) : list CourseData.t :=
  match l with
  | [] => []
  | x :: rest => insertByScore x (sortByScore rest)
  end.

(** [scored[0]] *)
Definition bestCourse (courseDataList : list CourseData.t) : option CourseData.t :=
  head (sortByScore courseDataList).

(** The first course of maximal score: nothing before it scores as
    much, nothing after it scores more. *)
Definition FirstBest (l : list CourseData.t) (best : CourseData.t) : Prop :=
  exists before after,
    l = before ++ best :: after
    /\ Forall (fun c => (score c < score best)%nat) before
    /\ Forall (fun c => (score c <= score best)%nat) after.

Definition withCompanyName (finalCompanyName : jsstring) (data : CourseData.t)
  : CourseData.t :=
  {| CourseData.companyName := finalCompanyName;
     CourseData.tableRows := CourseData.tableRows data;
     CourseData.phones := CourseData.phones data;
     CourseData.emails := CourseData.emails data;
     CourseData.sourceUrl := CourseData.sourceUrl data |}.

Definition recordOfCourse (finalCompanyName : jsstring) (companyMeta : CompanyMeta.t)
           (best : CourseData.t) : CsvRecord :=
  {| Csv.companyName := finalCompanyName;
     phone := default NOT_LISTED (head (CourseData.phones best));
     email := default NOT_LISTED (head (CourseData.emails best));
     industry := CompanyMeta.industry companyMeta;
     headOffice := CompanyMeta.headOffice companyMeta;
     tableUrl := CourseData.sourceUrl best;
     tableJson := JsonRows (CourseData.tableRows best);
     annualRecruitment := CompanyMeta.annualRecruitment companyMeta;
     companySize := CompanyMeta.companySize companyMeta |}.

Definition recordWithoutCourse (finalCompanyName : jsstring)
           (companyMeta : CompanyMeta.t) (isPageUrl : jsstring) : CsvRecord :=
  {| Csv.companyName := orElse finalCompanyName UNKNOWN_COMPANY;
     phone := NO_DETAIL;
     email := NO_DETAIL;
     industry := CompanyMeta.industry companyMeta;
     headOffice := CompanyMeta.headOffice companyMeta;
     tableUrl := isPageUrl;
     tableJson := JsonText NO_DETAIL;
     annualRecruitment := CompanyMeta.annualRecruitment companyMeta;
     companySize := CompanyMeta.companySize companyMeta |}.

Definition recordWithoutTable (finalCompanyName : jsstring)
           (companyMeta : CompanyMeta.t) (isPageUrl : jsstring) : CsvRecord :=
  {| Csv.companyName := finalCompanyName;
     phone := EXTRACTION_FAILED;
     email := EXTRACTION_FAILED;
     industry := CompanyMeta.industry companyMeta;
     headOffice := CompanyMeta.headOffice companyMeta;
     tableUrl := isPageUrl;
     tableJson := JsonRows [];
     annualRecruitment := CompanyMeta.annualRecruitment companyMeta;
     companySize := CompanyMeta.companySize companyMeta |}.

(** [maxCompanies !== undefined && addedCompanyCount >= maxCompanies] *)
Definition capReached (maxCompanies : option nat) (addedCompanyCount : nat) : bool :=
  match maxCompanies with
  | Some cap => (cap <=? addedCompanyCount)%nat
  | None => false
  end.

(** How one pass through the body of the company loop ends. *)
Inductive Flow := Next | Break.

Inductive HaltReason :=
| StopAtPageTop
| CapAtPageTop
| StopAfterPage
| CapAfterPage
| NextButtonMissing
| NextButtonDisabled.

Section WithHost.
Context {W : Type} {host : Host W}.

(** What the course loop leaves: the courses read so far, or an
    exception on its way to the [catch] of the company loop. *)
Inductive CourseLoopEnd :=
| Collected (courseDataList : list CourseData.t) (m : Machine W)
| CourseThrew (m : Machine W).

Inductive PageStep :=
| Halted (reason : HaltReason) (m : Machine W) (addedCompanyCount : nat)
| Advance (m : Machine W) (addedCompanyCount : nat).

Record CrawlEnd := {
  haltReason : HaltReason;
  lastProcessedPageIndex : nat;
  addedCompanyCount : nat;
  final : Machine W
}.

(** Awaited calls: the world moves on and the call is recorded. *)
Definition waitForTimeout (ms : N) (m : Machine W) : Machine W :=
  emit (EvTimer ms) (setWorld (timer ms (world m)) m).

Definition doGoto (target : jsstring) (m : Machine W) : bool * Machine W :=
  let (ok, w) := goto target (world m) in
  (ok, emit (EvGoto target ok) (setWorld w m)).

Definition doEvaluateOutline (m : Machine W) : option CompanyMeta.t * Machine W :=
  let (raw, w) := evaluateOutline (world m) in
  (raw, emit EvEvaluateOutline (setWorld w m)).

Definition doQueryCourseLinks (m : Machine W) : list jsstring * Machine W :=
  let (links, w) := queryCourseLinks (world m) in
  (links, emit EvQueryCourseLinks (setWorld w m)).

Definition doExtractTable (target companyNameHint : jsstring) (m : Machine W)
  : TableOutcome * Machine W :=
  let (outcome, w) := extractInternshipTable target companyNameHint (world m) in
  (outcome, emit (EvExtractTable target outcome) (setWorld w m)).

Definition doQueryCompanyLinks (m : Machine W) : list CompanyLink * Machine W :=
  let (links, w) := queryCompanyLinks (world m) in
  (links, emit EvQueryCompanyLinks (setWorld w m)).

Definition doQueryNextButton (m : Machine W) : option jsstring * Machine W :=
  let (button, w) := queryNextButton (world m) in
  (button, emit EvQueryNextButton (setWorld w m)).

Definition doNewPage (m : Machine W) : Machine W :=
  emit EvNewPage (setWorld (newPage (world m)) m).

Definition doClosePage (m : Machine W) : Machine W :=
  emit EvClosePage (setWorld (closePage (world m)) m).

Definition doClickNext (m : Machine W) : Machine W :=
  emit EvClickNext (setWorld (clickNext (world m)) m).

(** The [while (isPaused && !shouldStop)] loop of [waitIfPaused];
    [polls] bounds the number of half-second sleeps. *)
Fixpoint pauseLoop (polls : nat) (m : Machine W) : option (Machine W) :=
  if isPaused (world m) && negb (shouldStop (world m)) then
    match polls with
    | O => None
    | S polls' => pauseLoop polls' (waitForTimeout 500 m)
    end
  else Some m.

Definition waitIfPaused (polls : nat) (m : Machine W) : option (Machine W) :=
  pauseLoop polls (emit EvWaitIfPaused m).

Section WithConfig.
Variable CONFIG : MynaviConfig.

Definition GAS_CONFIG : option GasConfig := getGasConfig CONFIG.

(** The [for (const courseUrl of courseLinks)] loop. *)
Fixpoint courseLoop (polls : nat) (finalCompanyName : jsstring)
         (courseLinks : list jsstring) (courseDataList : list CourseData.t)
         (m : Machine W) : option CourseLoopEnd :=
  match courseLinks with
  | [] => Some (Collected courseDataList m)
  | courseUrl :: rest =>
      let m := emit (EvCourseTop courseUrl) m in
      if shouldStop (world m) then Some (Collected courseDataList m)
      else
        match waitIfPaused polls m with
        | None => None
        | Some m =>
            let m := waitForTimeout DELAY_MS m in
            let (outcome, m) := doExtractTable courseUrl finalCompanyName m in
            match outcome with
            | TableThrew => Some (CourseThrew m)
            | TableAbsent => courseLoop polls finalCompanyName rest courseDataList m
            | TableFound data =>
                let data := withCompanyName finalCompanyName data in
                let courseDataList := courseDataList ++ [data] in
                if hasPhone data && hasEmail data
                then Some (Collected courseDataList m)
                else courseLoop polls finalCompanyName rest courseDataList m
            end
        end
  end.

(** A save on one of the two minimal-record paths: skipped means
    [continue]; otherwise the counter grows and the cap decides
    between [break] and [continue]. *)
Definition saveMinimal (maxCompanies : option nat) (record : CsvRecord)
           (m : Machine W) (addedCompanyCount : nat) : Flow * Machine W * nat :=
  let (skipped, m) := saveRecordIfNew GAS_CONFIG record m in
  if skipped then (Next, m, addedCompanyCount)
  else
    let addedCompanyCount := S addedCompanyCount in
    if capReached maxCompanies addedCompanyCount
    then (Break, m, addedCompanyCount)
    else (Next, m, addedCompanyCount).

(** The statements after the course enumeration: one record per
    company. *)
Definition persistCompany (maxCompanies : option nat)
           (finalCompanyName : jsstring) (companyMeta : CompanyMeta.t)
           (isPageUrl : jsstring) (courseDataList : list CourseData.t)
           (m : Machine W) (addedCompanyCount : nat) : Flow * Machine W * nat :=
  match bestCourse courseDataList with
  | None =>
      saveMinimal maxCompanies
        (recordWithoutTable finalCompanyName companyMeta isPageUrl)
        m addedCompanyCount
  | Some best =>
      let record := recordOfCourse finalCompanyName companyMeta best in
      let (skipped, m) := saveRecordIfNew GAS_CONFIG record m in
      let addedCompanyCount :=
        if skipped then addedCompanyCount else S addedCompanyCount in
      if capReached maxCompanies addedCompanyCount
      then (Break, m, addedCompanyCount)
      else (Next, m, addedCompanyCount)
  end.

(** The [catch] of the company loop. *)
Definition entityFailed (m : Machine W) (addedCompanyCount : nat)
  : option (Flow * Machine W * nat) :=
  Some (Next, emit EvEntityFailed m, addedCompanyCount).

(** The [try] block of the company loop together with its [catch]. *)
Definition processCompany (polls : nat) (maxCompanies : option nat)
           (link : CompanyLink) (m : Machine W) (addedCompanyCount : nat)
  : option (Flow * Machine W * nat) :=
  let companyNameFromSearch := name link in
  let companyUrl := url link in
  if negb (truthy companyNameFromSearch) then Some (Next, m, addedCompanyCount)
  else if checkCompanyExists companyNameFromSearch (existingCompanies m) then
    Some (Next,
          addCompany (normalizeCompanyName companyNameFromSearch)
            (emit (EvSkipKnown companyNameFromSearch) m),
          addedCompanyCount)
  else
    let finalCompanyName := companyNameFromSearch in
    let m := waitForTimeout DELAY_MS m in
    let (ok, m) := doGoto companyUrl m in
    if negb ok then entityFailed m addedCompanyCount
    else
      let (raw, m) := doEvaluateOutline m in
      match raw with
      | None => entityFailed m addedCompanyCount
      | Some raw =>
          let companyMeta := extractCompanyMetaFromOutline raw in
          let currentUrl := pageUrl (world m) in
          if negb (includes currentUrl (lit "outline"))
          then Some (Next, m, addedCompanyCount)
          else
            let m := waitForTimeout DELAY_MS m in
            let isPageUrl := replaceFirst (lit "outline") (lit "is") currentUrl in
            if negb (truthy isPageUrl) then Some (Next, m, addedCompanyCount)
            else
              let (ok, m) := doGoto isPageUrl m in
              if negb ok then entityFailed m addedCompanyCount
              else
                let (courseLinks, m) := doQueryCourseLinks m in
                match courseLinks with
                | [] =>
                    let (outcome, m) := doExtractTable isPageUrl finalCompanyName m in
                    match outcome with
                    | TableFound dataOnIs =>
                        Some (persistCompany maxCompanies finalCompanyName
                                companyMeta isPageUrl
                                [withCompanyName finalCompanyName dataOnIs]
                                m addedCompanyCount)
                    | _ =>
                        Some (saveMinimal maxCompanies
                                (recordWithoutCourse finalCompanyName companyMeta isPageUrl)
                                m addedCompanyCount)
                    end
                | _ :: _ =>
                    match courseLoop polls finalCompanyName courseLinks [] m with
                    | None => None
                    | Some (CourseThrew m) => entityFailed m addedCompanyCount
                    | Some (Collected courseDataList m) =>
                        Some (persistCompany maxCompanies finalCompanyName
                                companyMeta isPageUrl courseDataList
                                m addedCompanyCount)
                    end
                end
      end.

(** The same [try] block cut in two, for the proofs: [explore] is
    everything up to the choice of what to save, which never looks at
    the cap or the counter, and [settle] is the save with its cap
    checks.  [processCompany_factors] shows that nothing is lost. *)
Inductive Plan :=
| PlanNothing (m : Machine W)
| PlanMinimal (record : CsvRecord) (m : Machine W)
| PlanPersist (finalCompanyName : jsstring) (companyMeta : CompanyMeta.t)
              (isPageUrl : jsstring) (courseDataList : list CourseData.t)
              (m : Machine W).

Definition planMachine (plan : Plan) : Machine W :=
  match plan with
  | PlanNothing m => m
  | PlanMinimal _ m => m
  | PlanPersist _ _ _ _ m => m
  end.

Definition explore (polls : nat) (link : CompanyLink) (m : Machine W) : option Plan :=
  let companyNameFromSearch := name link in
  let companyUrl := url link in
  if negb (truthy companyNameFromSearch) then Some (PlanNothing m)
  else if checkCompanyExists companyNameFromSearch (existingCompanies m) then
    Some (PlanNothing
            (addCompany (normalizeCompanyName companyNameFromSearch)
               (emit (EvSkipKnown companyNameFromSearch) m)))
  else
    let finalCompanyName := companyNameFromSearch in
    let m := waitForTimeout DELAY_MS m in
    let (ok, m) := doGoto companyUrl m in
    if negb ok then Some (PlanNothing (emit EvEntityFailed m))
    else
      let (raw, m) := doEvaluateOutline m in
      match raw with
      | None => Some (PlanNothing (emit EvEntityFailed m))
      | Some raw =>
          let companyMeta := extractCompanyMetaFromOutline raw in
          let currentUrl := pageUrl (world m) in
          if negb (includes currentUrl (lit "outline"))
          then Some (PlanNothing m)
          else
            let m := waitForTimeout DELAY_MS m in
            let isPageUrl := replaceFirst (lit "outline") (lit "is") currentUrl in
            if negb (truthy isPageUrl) then Some (PlanNothing m)
            else
              let (ok, m) := doGoto isPageUrl m in
              if negb ok then Some (PlanNothing (emit EvEntityFailed m))
              else
                let (courseLinks, m) := doQueryCourseLinks m in
                match courseLinks with
                | [] =>
                    let (outcome, m) := doExtractTable isPageUrl finalCompanyName m in
                    match outcome with
                    | TableFound dataOnIs =>
                        Some (PlanPersist finalCompanyName companyMeta isPageUrl
                                [withCompanyName finalCompanyName dataOnIs] m)
                    | _ =>
                        Some (PlanMinimal
                                (recordWithoutCourse finalCompanyName companyMeta isPageUrl)
                                m)
                    end
                | _ :: _ =>
                    match courseLoop polls finalCompanyName courseLinks [] m with
                    | None => None
                    | Some (CourseThrew m) => Some (PlanNothing (emit EvEntityFailed m))
                    | Some (Collected courseDataList m) =>
                        Some (PlanPersist finalCompanyName companyMeta isPageUrl
                                courseDataList m)
                    end
                end
      end.

Definition settle (maxCompanies : option nat) (plan : Plan) (addedCompanyCount : nat)
  : Flow * Machine W * nat :=
  match plan with
  | PlanNothing m => (Next, m, addedCompanyCount)
  | PlanMinimal record m => saveMinimal maxCompanies record m addedCompanyCount
  | PlanPersist finalCompanyName companyMeta isPageUrl courseDataList m =>
      persistCompany maxCompanies finalCompanyName companyMeta isPageUrl
        courseDataList m addedCompanyCount
  end.

(** The [for (const { name, url } of companyData)] loop. *)
Fixpoint companyLoop (polls : nat) (maxCompanies : option nat)
         (companyData : list CompanyLink) (m : Machine W)
         (addedCompanyCount : nat) : option (Machine W * nat) :=
  match companyData with
  | [] => Some (m, addedCompanyCount)
  | link :: rest =>
      let m := emit (EvEntityTop (name link)) m in
      if shouldStop (world m) then Some (m, addedCompanyCount)
      else if capReached maxCompanies addedCompanyCount
      then Some (m, addedCompanyCount)
      else
        match waitIfPaused polls m with
        | None => None
        | Some m =>
            match processCompany polls maxCompanies link m addedCompanyCount with
            | None => None
            | Some (Break, m, addedCompanyCount) => Some (m, addedCompanyCount)
            | Some (Next, m, addedCompanyCount) =>
                companyLoop polls maxCompanies rest m addedCompanyCount
            end
        end
  end.

(** The next-page part of one pass through the [while (true)] body. *)
Definition advance (m : Machine W) (addedCompanyCount : nat) : PageStep :=
  let (nextButton, m) := doQueryNextButton m in
  match nextButton with
  | None => Halted NextButtonMissing m addedCompanyCount
  | Some nextButtonClass =>
      if includes nextButtonClass (lit "disabled")
      then Halted NextButtonDisabled m addedCompanyCount
      else Advance (doClickNext (waitForTimeout DELAY_MS m)) addedCompanyCount
  end.

(** One pass through the [while (true)] body. *)
Definition pageIteration (polls : nat) (maxCompanies : option nat)
           (pageIndex : nat) (m : Machine W) (addedCompanyCount : nat)
  : option PageStep :=
  let m := emit (EvPageTop pageIndex) m in
  if shouldStop (world m) then Some (Halted StopAtPageTop m addedCompanyCount)
  else if capReached maxCompanies addedCompanyCount
  then Some (Halted CapAtPageTop m addedCompanyCount)
  else
    match waitIfPaused polls m with
    | None => None
    | Some m =>
        let (companyData, m) := doQueryCompanyLinks m in
        if (START_PAGE CONFIG <=? pageIndex)%nat then
          let m := doNewPage m in
          match companyLoop polls maxCompanies companyData m addedCompanyCount with
          | None => None
          | Some (m, addedCompanyCount) =>
              let m := doClosePage m in
              if shouldStop (world m)
              then Some (Halted StopAfterPage m addedCompanyCount)
              else if capReached maxCompanies addedCompanyCount
              then Some (Halted CapAfterPage m addedCompanyCount)
              else Some (advance m addedCompanyCount)
          end
        else Some (advance m addedCompanyCount)
    end.

(** The [while (true)] loop; [pages] bounds the number of passes. *)
Fixpoint pageLoop (pages polls : nat) (maxCompanies : option nat)
         (pageIndex : nat) (m : Machine W) (addedCompanyCount : nat)
  : option CrawlEnd :=
  match pages with
  | O => None
  | S pages' =>
      match pageIteration polls maxCompanies pageIndex m addedCompanyCount with
      | None => None
      | Some (Halted reason m addedCompanyCount) =>
          Some {| haltReason := reason;
                  lastProcessedPageIndex := pageIndex;
                  addedCompanyCount := addedCompanyCount;
                  final := m |}
      | Some (Advance m addedCompanyCount) =>
          pageLoop pages' polls maxCompanies (S pageIndex) m addedCompanyCount
      end
  end.

Definition processAllCompaniesFromSearch (pages polls : nat)
           (maxCompanies : option nat) (m : Machine W) : option CrawlEnd :=
  pageLoop pages polls maxCompanies 1 m 0.

End WithConfig.
End WithHost.

End Crawl.

Import Crawl.

(** ** Reading traces *)

Module Trace.

Definition isAppend (e : Event) : bool :=
  match e with EvAppendCsv _ => true | _ => false end.

Definition isPauseWait (e : Event) : bool :=
  match e with EvWaitIfPaused => true | _ => false end.

Definition isRelay (e : Event) : bool :=
  match e with
  | EvRelayPost _ | EvRelayAnswer _ | EvRelayError _ => true
  | _ => false
  end.

Definition isFetch (e : Event) : bool :=
  match e with EvExtractTable _ _ => true | _ => false end.

(** The head of a pass through the page loop or the company loop. *)
Definition isPageOrEntityTop (e : Event) : bool :=
  match e with
  | EvPageTop _ | EvEntityTop _ => true
  | _ => false
  end.

(** The head of a pass through any of the three loops. *)
Definition isLoopTop (e : Event) : bool :=
  match e with
  | EvPageTop _ | EvEntityTop _ | EvCourseTop _ => true
  | _ => false
  end.

(** Every pause wait comes right after an event that [allowed]
    accepts; [previous] is the event before the list. *)
Fixpoint pausesFollow (allowed : Event -> bool) (previous : option Event)
         (events : list Event) : bool :=
  match events with
  | [] => true
  | e :: rest =>
      (if isPauseWait e
       then match previous with
            | Some p => allowed p
            | None => false
            end
       else true)
      && pausesFollow allowed (Some e) rest
  end.

(** Nothing follows a fetch that found a course with both a phone
    number and an e-mail address. *)
Fixpoint endsAtCompleteCourse (events : list Event) : bool :=
  match events with
  | [] => true
  | EvExtractTable _ (TableFound data) :: rest =>
      if hasPhone data && hasEmail data
      then match rest with [] => true | _ :: _ => false end
      else endsAtCompleteCourse rest
  | _ :: rest => endsAtCompleteCourse rest
  end.

(** The courses that the fetches of [events] found, in order, under
    the name of the company. *)
Fixpoint foundCourses (finalCompanyName : jsstring) (events : list Event)
  : list CourseData.t :=
  match events with
  | [] => []
  | EvExtractTable _ (TableFound data) :: rest =>
      withCompanyName finalCompanyName data :: foundCourses finalCompanyName rest
  | _ :: rest => foundCourses finalCompanyName rest
  end.

(** The pages that the fetches of [events] went to, in order. *)
Fixpoint fetchTargets (events : list Event) : list jsstring :=
  match events with
  | [] => []
  | EvExtractTable target _ :: rest => target :: fetchTargets rest
  | _ :: rest => fetchTargets rest
  end.

(** The lines written to the ledger, in order. *)
Fixpoint appendedLines (events : list Event) : list jsstring :=
  match events with
  | [] => []
  | EvAppendCsv line :: rest => line :: appendedLines rest
  | _ :: rest => appendedLines rest
  end.

(** Events by which the crawl takes up a page, a company or a course:
    probes, navigation, page queries, waits and writes.  What is left
    are the loop-head marks, the closing of the detail tab, relay
    traffic and the failure note. *)
Definition startsWork (e : Event) : bool :=
  match e with
  | EvPageTop _ | EvClosePage | EvEntityFailed => false
  | EvRelayPost _ | EvRelayAnswer _ | EvRelayError _ => false
  | _ => true
  end.

Definition isPauseTimer (e : Event) : Prop := e = EvTimer 500.

Definition IsRelay (e : Event) : Prop := isRelay e = true.

Section Footprints.
Context {W : Type} {host : Host W}.

(** The line [appendCsvRecord] writes for a record in the present
    world. *)
Definition lineOf (record : CsvRecord) (m : Machine W) : jsstring :=
  csvLine record (listSource (formatTimestamp (toISOString (world m)))).

(** A save that went through: the line is in the trace and in the
    ledger, followed by relay traffic only, and the identity is in the
    set. *)
Definition Saved (record : CsvRecord) (m m' : Machine W) : Prop :=
  exists relay,
    trace m' = trace m ++ EvAppendCsv (lineOf record m) :: relay
    /\ Forall IsRelay relay
    /\ csvFile m' = csvFile m ++ lineOf record m
    /\ existingCompanies m'
       = {[normalizeCompanyName (Csv.companyName record)]} ∪ existingCompanies m.

(** [m'] comes after [m] by events that write nothing and keep every
    pause wait right behind a loop head. *)
Definition Quiet (m m' : Machine W) : Prop :=
  exists events,
    trace m' = trace m ++ events
    /\ pausesFollow isLoopTop None events = true
    /\ appendedLines events = []
    /\ csvFile m' = csvFile m.

(** [m'] comes after [m] by events that keep every pause wait right
    behind a loop head; the counter has grown by the number of lines
    written, and those lines are what the ledger gained. *)
Definition Account (added : nat) (m m' : Machine W) (added' : nat) : Prop :=
  exists events,
    trace m' = trace m ++ events
    /\ pausesFollow isLoopTop None events = true
    /\ added' = (added + length (appendedLines events))%nat
    /\ csvFile m' = csvFile m ++ concat (appendedLines events).

(** [k] lines were written after [m], then one more, and since that
    last line only relay traffic was recorded. *)
Definition EndsWithAppend (m m' : Machine W) (k : nat) : Prop :=
  exists events line relay,
    trace m' = trace m ++ events ++ EvAppendCsv line :: relay
    /\ Forall IsRelay relay
    /\ length (appendedLines events) = k.

Definition stepMachine (step : @PageStep W) : Machine W :=
  match step with Halted _ m _ => m | Advance m _ => m end.

Definition stepCount (step : @PageStep W) : nat :=
  match step with Halted _ _ a => a | Advance _ a => a end.

End Footprints.

End Trace.

Import Trace.

(** ** Whole ledgers *)

Module Ledgers.

(** The titles of the twenty columns, as [parseCsvContent] reads them
    from [HEADER]. *)
Definition headerRow : list jsstring :=
  Eval vm_compute in nth 0 (parseCsvContent HEADER) [].

(** The text that a sequence of calls of [appendCsvRecord] leaves in
    the file: one line per record, each with the time stamp of its
    call. *)
Definition ledgerText (entries : list (CsvRecord * jsstring)) : jsstring :=
  concat (List.map (fun entry => csvLine entry.1 (listSource entry.2)) entries).

Definition ledgerRows (entries : list (CsvRecord * jsstring)) : list (list jsstring) :=
  List.map (fun entry => csvRow entry.1 (listSource entry.2)) entries.

(** The identity under which a record is kept in the dedup set. *)
Definition identityOf (record : CsvRecord) : jsstring :=
  normalizeCompanyName (Csv.companyName record).

(** The identities that seeding keeps: the non-empty ones. *)
Definition seedable (records : list CsvRecord) : list jsstring :=
  List.filter truthy (List.map identityOf records).

(** [line] is the line of [record] at some time stamp. *)
Definition Written (record : CsvRecord) (line : jsstring) : Prop :=
  exists timestamp, line = csvLine record (listSource timestamp).

(** The record as it comes back from the file: every text field with
    its unpaired surrogates replaced.  [tableJson] is not written. *)
Definition toWellFormedRecord (record : CsvRecord) : CsvRecord :=
  {| Csv.companyName := toWellFormed (Csv.companyName record);
     phone := toWellFormed (phone record);
     email := toWellFormed (email record);
     industry := toWellFormed (industry record);
     headOffice := toWellFormed (headOffice record);
     tableUrl := toWellFormed (tableUrl record);
     tableJson := tableJson record;
     annualRecruitment := toWellFormed (annualRecruitment record);
     companySize := toWellFormed (companySize record) |}.

Definition readBack (entry : CsvRecord * jsstring) : CsvRecord * jsstring :=
  (toWellFormedRecord entry.1, toWellFormed entry.2).

(** The bytes that a sequence of calls of [appendCsvRecord] adds to
    the file: each line is encoded by its own call of
    [fs.appendFileSync]. *)
Definition ledgerBytes (entries : list (CsvRecord * jsstring)) : list N :=
  concat (List.map (fun entry => encode (csvLine entry.1 (listSource entry.2))) entries).

(** The file that [ensureCsvHeader] creates and [appendCsvRecord]
    then extends. *)
Definition writtenFile (entries : list (CsvRecord * jsstring)) : list N :=
  encode HEADER ++ ledgerBytes entries.

(** [parseCsvLine] *)
Fixpoint parseCsvLineLoop (line : jsstring) (result : list jsstring)
         (current : jsstring) (inQuotes : bool) : list jsstring :=
  match line with
  | [] => result ++ [current]
  | char :: rest =>
      if char =? dquote then
        match rest with
        | nextChar :: rest' =>
            if inQuotes && (nextChar =? dquote)
            then parseCsvLineLoop rest' result (current ++ [dquote]) inQuotes
            else parseCsvLineLoop rest result current (negb inQuotes)
        | [] => parseCsvLineLoop rest result current (negb inQuotes)
        end
      else if (char =? comma) && negb inQuotes then
        parseCsvLineLoop rest (result ++ [current]) [] inQuotes
      else parseCsvLineLoop rest result (current ++ [char]) inQuotes
  end.

Definition parseCsvLine (line : jsstring) : list jsstring :=
  parseCsvLineLoop line [] [] false.

(** [s.split(sep)] for a separator of one code unit; the result is
    never empty. *)
Fixpoint split (sep : N) (s : jsstring) : list jsstring :=
  match s with
  | [] => [[]]
  | c :: rest =>
      if c =? sep then [] :: split sep rest
      else match split sep rest with
           | first :: more => (c :: first) :: more
           | [] => [[c]]
           end
  end.

(** [parts.join(sep)] *)
Fixpoint join (sep : N) (parts : list jsstring) : jsstring :=
  match parts with
  | [] => []
  | [part] => part
  | part :: more => part ++ sep :: join sep more
  end.

(** [header.trim()]: the header line without its line feed. *)
Definition headerLine : jsstring := Eval vm_compute in trim HEADER.

(** [ensureCsvHeader] as a function of the ledger file ([None]: the
    file does not exist); the result is the text of the file after the
    call. *)
Definition ensureCsvHeader (file : option jsstring) : jsstring :=
  match file with
  | None => HEADER
  | Some content =>
      let firstLine := default [] (head (split LF content)) in
      if bool_decide (trim firstLine <> trim HEADER)
      then join LF (trim HEADER :: drop 1 (split LF content))
      else content
  end.

Section Journals.
Context {W : Type}.

(** [m'] comes after [m] with nothing written and the dedup set as it
    was. *)
Definition Still (m m' : Machine W) : Prop :=
  Quiet m m' /\ existingCompanies m' = existingCompanies m.

(** [m'] comes after [m] by writing the lines of [records], in that
    order and nothing else, to the ledger; their identities are
    pairwise distinct, none of them was in the dedup set, and the set
    has gained exactly these. *)
Definition Journal (m m' : Machine W) (records : list CsvRecord) : Prop :=
  exists events,
    trace m' = trace m ++ events
    /\ Forall2 Written records (appendedLines events)
    /\ csvFile m' = csvFile m ++ concat (appendedLines events)
    /\ NoDup (List.map identityOf records)
    /\ (forall record, record ∈ records -> identityOf record ∉ existingCompanies m)
    /\ existingCompanies m'
       = existingCompanies m ∪ list_to_set (List.map identityOf records).

(** [Journal] with the counter of companies added. *)
Definition Tally (added : nat) (m m' : Machine W) (added' : nat) : Prop :=
  exists records, Journal m m' records /\ added' = (added + length records)%nat.

(** What turning the result pages leaves in the trace: the heads of
    the page loop, pause waits and timers, the two queries on the
    result page and the click on the next-page button. *)
Definition isPaging (e : Event) : bool :=
  match e with
  | EvPageTop _ | EvWaitIfPaused | EvTimer _
  | EvQueryCompanyLinks | EvQueryNextButton | EvClickNext => true
  | _ => false
  end.

(** [m'] comes after [m] by paging only; ledger and dedup set are as
    they were. *)
Definition Paging (m m' : Machine W) : Prop :=
  exists events,
    trace m' = trace m ++ events
    /\ Forall (fun e => isPaging e = true) events
    /\ csvFile m' = csvFile m
    /\ existingCompanies m' = existingCompanies m.

End Journals.

Section Names.
Context {W : Type}.

(** [m'] comes after [m] by events whose written lines are lines of
    records with a name of the kind [P]. *)
Definition Bearing (P : jsstring -> Prop) (m m' : Machine W) : Prop :=
  exists events,
    trace m' = trace m ++ events
    /\ Forall (fun line => exists record, Written record line /\ P (Csv.companyName record))
         (appendedLines events).

(** The bytes of the ledger file once a run that found [file] on disk
    has come to [m]: every line written was encoded and appended by
    its own call of [fs.appendFileSync].  The trace of the run starts
    empty. *)
Definition fileAfter (file : list N) (m : Machine W) : list N :=
  file ++ concat (List.map encode (appendedLines (trace m))).

End Names.

Section Listings.
Context {W : Type}.

(** What listing the result pages leaves in the trace when no company
    page is opened: the events of paging, the heads of the company
    loop, the opening and closing of the working tab and the notes
    that a company is already known. *)
Definition isListing (e : Event) : bool :=
  match e with
  | EvEntityTop _ | EvNewPage | EvClosePage | EvSkipKnown _ => true
  | _ => isPaging e
  end.

(** [m'] comes after [m] by listing only; ledger and dedup set are as
    they were. *)
Definition Listing (m m' : Machine W) : Prop :=
  exists events,
    trace m' = trace m ++ events
    /\ Forall (fun e => isListing e = true) events
    /\ csvFile m' = csvFile m
    /\ existingCompanies m' = existingCompanies m.

(** A link is settled when it has no name or its company is known. *)
Definition settled (known : gset jsstring) (link : CompanyLink) : Prop :=
  truthy (name link) = false \/ normalizeCompanyName (name link) ∈ known.

End Listings.

Section Runs.
Context {W : Type} {host : Host W} {V : Type} {sheet : SheetHost V}.

(** One start of the program: its configuration, the world that the
    crawl meets, the state in which the sheet sync starts, the file
    system's answer to whether a configured CSV path resolves to the
    ledger file, and the fuel of the two loops. *)
Record Launch := {
  launchConfig : MynaviConfig;
  launchWorld : W;
  launchSession : SessionMachine V;
  resolvesToLedger : jsstring -> bool;
  launchPages : nat;
  launchPolls : nat
}.

(** The path and the text of the [fs.writeFileSync] with which
    [downloadCsvFromSpreadsheet] has just ended. *)
Definition syncedText (session : SessionMachine V) : option (jsstring * jsstring) :=
  match last (strace session) with
  | Some (SevWriteCsv csvPath csvText) => Some (csvPath, csvText)
  | _ => None
  end.

(** The ledger file after the sync: replaced by the text of the sheet
    when the sync wrote to a path that resolves to it. *)
Definition afterSync (launch : Launch) (sync : SyncResult) (session : SessionMachine V)
           (file : option (list N)) : option (list N) :=
  match sync, syncedText session with
  | SyncDone, Some (csvPath, csvText) =>
      if resolvesToLedger launch csvPath then Some (encode csvText) else file
  | _, _ => file
  end.

(** [ensureCsvHeader] on the bytes of the ledger file ([None]: the
    file does not exist); the result is the file after the call. *)
Definition ensureCsvHeaderOnDisk (file : option (list N)) : list N :=
  match file with
  | None => encode HEADER
  | Some bytes =>
      let content := decode bytes in
      let firstLine := default [] (head (split LF content)) in
      if bool_decide (trim firstLine <> trim HEADER)
      then encode (join LF (trim HEADER :: drop 1 (split LF content)))
      else bytes
  end.

(** How [main] ends: rejected by the sync, which exits with status 1,
    or at the end of the crawl. *)
Inductive MainEnd :=
| MainExit (e : SessionError)
| MainDone (finish : @CrawlEnd W).

(** [main] as far as the ledger file goes: the sync, the header, the
    seeding of the dedup set and the crawl with the configured cap.
    The launch of the browser and the login between seeding and crawl
    are taken to succeed.  The result is how the run ended and the
    ledger file it leaves; [None] when the crawl does not end within
    its fuel. *)
Definition main (launch : Launch) (file : option (list N))
  : option (MainEnd * option (list N)) :=
  let CONFIG := launchConfig launch in
  match downloadCsvFromSpreadsheet CONFIG (launchSession launch) with
  | (SyncFailed e, _) => Some (MainExit e, file)
  | (sync, session) =>
      let disk := ensureCsvHeaderOnDisk (afterSync launch sync session file) in
      let existingCompanies := loadExistingCompanyNames (Some (decode disk)) in
      match processAllCompaniesFromSearch CONFIG (launchPages launch) (launchPolls launch)
              (MAX_COMPANIES CONFIG)
              (initial (launchWorld launch) existingCompanies (decode disk)) with
      | None => None
      | Some finish => Some (MainDone finish, Some (fileAfter disk (final finish)))
      end
  end.

(** Successive runs of the program on the same ledger file. *)
Fixpoint runs (launches : list Launch) (file : option (list N))
  : option (option (list N)) :=
  match launches with
  | [] => Some file
  | launch :: more =>
      match main launch file with
      | None => None
      | Some (_, file') => runs more file'
      end
  end.

(** The sync of this launch leaves the ledger file alone: it is
    switched off, or its CSV path resolves to another file. *)
Definition sparesLedger (launch : Launch) : Prop :=
  present (SPREADSHEET_URL (launchConfig launch)) = false
  \/ present (CSV_PATH (launchConfig launch)) = false
  \/ forall csvPath,
      CSV_PATH (launchConfig launch) = Some csvPath ->
      resolvesToLedger launch csvPath = false.

End Runs.

(** A ledger file as this program keeps it: missing, or the header
    followed by one line per record, the names well-formed and no two
    records with the same non-empty identity. *)
Definition WellKept (file : option (list N)) : Prop :=
  match file with
  | None => True
  | Some bytes =>
      exists entries,
        bytes = writtenFile entries
        /\ Forall (fun entry => isWellFormed (Csv.companyName entry.1) = true) entries
        /\ NoDup (seedable (List.map fst entries))
  end.

End Ledgers.

Import Ledgers.

(** ** The desktop shell *)

Module Desktop.

(** [String(n)] for a whole number: its decimal digits.  Whole numbers
    up to two to the 53 are doubles and print exactly; what is proved
    about this function stays in that range. *)
Definition numberToString (n : nat) : jsstring := decimal (N.of_nat n).

(** The [MAX_COMPANIES] entry of the environment that [startScraper]
    gives to the scraper.  [fileMax] is the [MAX_COMPANIES] field of
    the parsed configuration file ([None]: the file is missing, or
    reading it threw); [inherited] is the entry of [process.env]. *)
Definition scraperEnv (fileMax : option Json) (inherited : option jsstring)
  : option jsstring :=
  match fileMax with
  | Some v =>
      match floorAtLeastOne v with
      | Some maxCompanies => Some (numberToString maxCompanies)
      | None => inherited
      end
  | None => inherited
  end.

End Desktop.

Import Desktop.

(** ** The relay script on the sheet *)

Module Gas.

Definition AUTH_TOKEN : jsstring := lit "change-me".

(** What [doPost] finds as the body.  [BodyMissing]: no event, no
    [postData] or empty [contents].  [BodyNotJson]: [JSON.parse]
    throws.  [BodyNull]: the text parses to [null], so that reading a
    property throws.  [BodyData row token]: anything else; [row] is
    there when [data.row] is an array, [token] when [data.token] is a
    string. *)
Inductive PostBody :=
| BodyMissing
| BodyNotJson
| BodyNull
| BodyData (row : option (list jsstring)) (token : option jsstring).

(** [headers] is [e.headers] where the platform passes it on. *)
Record PostEvent := {
  postData : PostBody;
  headers : option (list (jsstring * jsstring))
}.

Inductive Thrown := JsonSyntaxError | NullBodyError | SheetNotFound.

(** The answers of [doPost], named after their texts: [No body],
    [Unauthorized], [Invalid payload: row is required], [OK], and
    [Error: ] followed by what was thrown. *)
Inductive Reply :=
| NoBody
| Unauthorized
| InvalidPayload
| Ok
| Failed (error : Thrown).

(** [headers[key]], the empty string standing for [undefined]. *)
Fixpoint headerValue (key : jsstring) (headers : list (jsstring * jsstring)) : jsstring :=
  match headers with
  | [] => []
  | (k, v) :: rest => if bool_decide (k = key) then v else headerValue key rest
  end.

(** [doPost] with the constant [AUTH_TOKEN] as a parameter.  [sheet]
    holds the rows of the sheet named [SHEET_NAME] ([None]: there is
    no such sheet); the result is the answer and the sheet after the
    call. *)
Definition doPostWith (authToken : jsstring) (e : PostEvent)
           (sheet : option (list (list jsstring)))
  : Reply * option (list (list jsstring)) :=
  match postData e with
  | BodyMissing => (NoBody, sheet)
  | BodyNotJson => (Failed JsonSyntaxError, sheet)
  | BodyNull => (Failed NullBodyError, sheet)
  | BodyData row tokenField =>
      let headers := default [] (headers e) in
      let tokenHeader :=
        orElse (headerValue (lit "X-Auth-Token") headers)
          (orElse (headerValue (lit "x-auth-token") headers) []) in
      let tokenBody := default [] tokenField in
      let token := orElse tokenHeader tokenBody in
      if truthy authToken && bool_decide (token <> authToken)
      then (Unauthorized, sheet)
      else
        match row with
        | None => (InvalidPayload, sheet)
        | Some row =>
            match sheet with
            | None => (Failed SheetNotFound, sheet)
            | Some rows => (Ok, Some (rows ++ [row]))
            end
        end
  end.

Definition doPost : PostEvent -> option (list (list jsstring))
                    -> Reply * option (list (list jsstring)) :=
  doPostWith AUTH_TOKEN.

(** The request of [postRowToGas] as it reaches [doPost]: the body is
    the JSON text of an object with the row and the token, which parses
    back to these; the headers are passed on or not. *)
Definition deliver (withHeaders : bool) (request : RelayRequest) : PostEvent :=
  {| postData := BodyData (Some (bodyRow request)) (Some (bodyToken request));
     headers := if withHeaders then Some (requestHeaders request) else None |}.

End Gas.

Import Gas.

(** ** The settings form *)

Module Form.








End Form.

Import Form.

(** ** Pause ticks *)

Module Pauses.

Section Pauses.
Context {W : Type} {host : Host W}.

(** The world after [k] half-second sleeps of the pause loop. *)
Fixpoint ticks (k : nat) (w : W) : W :=
  match k with
  | O => w
  | S k' => ticks k' (timer 500 w)
  end.

(** The condition of the pause loop. *)
Definition held (w : W) : bool := isPaused w && negb (shouldStop w).

End Pauses.

End Pauses.

Import Pauses.

(** ** Run controls *)

Module Controls.

(** The two module flags that the signal and key handlers set. *)
Record Flags := { isPaused : bool; shouldStop : bool }.

Definition asciiLower (c : N) : N :=
  if (65 <=? c) && (c <=? 90) then c + 32 else c.

(** [s.toLowerCase() === letter] for one of the letters [p] and [q]:
    the text is that letter or its capital; no other code unit
    lower-cases to either of them. *)
Definition lowersTo (letter : N) (s : jsstring) : bool :=
  bool_decide (List.map asciiLower s = [letter]).

(** What reaches the handlers: a signal ([SIGINT] or [SIGTERM]) or a
    chunk of key input. *)
Inductive Input :=
| Signal
| Data (key : jsstring).

Definition stop (flags : Flags) : Flags :=
  {| isPaused := isPaused flags; shouldStop := true |}.

(** The [data] listener of [setupInteractiveControls]. *)
Definition onData (key : jsstring) (flags : Flags) : Flags :=
  if bool_decide (key = [3]) then stop flags
  else
    let trimmed := trim key in
    if lowersTo 112 trimmed
    then {| isPaused := negb (isPaused flags); shouldStop := shouldStop flags |}
    else if lowersTo 113 trimmed then stop flags
    else flags.

Definition handle (flags : Flags) (input : Input) : Flags :=
  match input with
  | Signal => stop flags
  | Data key => onData key flags
  end.

(** The inputs that ask for the end of the run, and those that toggle
    the pause. *)
Definition asksStop (input : Input) : bool :=
  match input with
  | Signal => true
  | Data key => bool_decide (key = [3]) || lowersTo 113 (trim key)
  end.

Definition togglesPause (input : Input) : bool :=
  match input with
  | Signal => false
  | Data key => lowersTo 112 (trim key)
  end.

End Controls.

(** ** The second scraper: links of the result page *)

Module Rikunabi.

(** An anchor of the result page as the page evaluation reads it. *)
Record Anchor := { href : option jsstring; textContent : option jsstring }.

Definition ORIGIN : jsstring := lit "https://job.rikunabi.com".

Definition fullUrl (href : jsstring) : jsstring :=
  if negb (startsWith (lit "http") href) then
    if startsWith (lit "/") href then ORIGIN ++ href
    else ORIGIN ++ lit "/" ++ href
  else href.

Definition COMPANY_MARK : jsstring := lit "/2026/company/r".

(** What may follow the mark up to the end of the address: digits, at
    least one, and at most one slash. *)
Definition companyTail (rest : jsstring) : bool :=
  let digits := runLength isDigit rest in
  (0 <? digits)%nat
  && (bool_decide (drop digits rest = []) || bool_decide (drop digits rest = [47])).

(** [/\/2026\/company\/r\d+\/?$/.test(url)] *)
Fixpoint companyUrlPattern (url : jsstring) : bool :=
  (startsWith COMPANY_MARK url && companyTail (drop (length COMPANY_MARK) url))
  || match url with
     | [] => false
     | _ :: rest => companyUrlPattern rest
     end.

Definition toLink (anchor : Anchor) : CompanyLink :=
  {| name := match textContent anchor with
             | Some text => trim text
             | None => []
             end;
     url := fullUrl (default [] (href anchor)) |}.

(** [extractCompanyLinks]; [None]: the page evaluation threw. *)
Definition extractCompanyLinks (anchors : option (list Anchor)) : list CompanyLink :=
  match anchors with
  | None => []
  | Some elements =>
      List.filter (fun link => truthy (name link) && companyUrlPattern (url link))
        (List.map toLink elements)
  end.

(** [s.replace(/\/$/, '')] *)
Definition stripSlash (s : jsstring) : jsstring :=
  match rev s with
  | c :: before => if c =? 47 then rev before else s
  | [] => s
  end.

(** The address the detail tab is sent to. *)
Definition normalizedUrl (companyUrl : jsstring) : jsstring :=
  orElse (stripSlash companyUrl) companyUrl.

End Rikunabi.

(** ** The shape of a normalised name *)

Module Names.

(** Every white-space unit of [s] is a space with a unit that is not
    white space right behind it. *)
Fixpoint singleSpaced (s : jsstring) : bool :=
  match s with
  | [] => true
  | c :: rest =>
      (if isWhiteSpace c
       then (c =? SP) && match rest with
                         | d :: _ => negb (isWhiteSpace d)
                         | [] => false
                         end
       else true)
      && singleSpaced rest
  end.

(** The same, but a space may also be the last unit. *)
Fixpoint looseSpaced (s : jsstring) : bool :=
  match s with
  | [] => true
  | c :: rest =>
      (if isWhiteSpace c
       then (c =? SP) && match rest with
                         | d :: _ => negb (isWhiteSpace d)
                         | [] => true
                         end
       else true)
      && looseSpaced rest
  end.

(** [s.replace(/\s+/g, ' ')], the third step of [normalizeCompanyName]. *)
Definition collapse : jsstring -> jsstring :=
  replaceAll (matchRun isWhiteSpace) [SP] O.

End Names.

Import Names.

(** ** Quoted CSV text with any line ending *)

Module Sheets.

(** The three line endings that [parseCsvContent] takes for the end of
    a row. *)
Inductive Ending := EndLF | EndCR | EndCRLF.

Definition endingText (ending : Ending) : jsstring :=
  match ending with
  | EndLF => [LF]
  | EndCR => [CR]
  | EndCRLF => [CR; LF]
  end.

(** Rows written with every field between double quotes, each row with
    its own line ending. *)
Definition quotedText (lines : list (list jsstring * Ending)) : jsstring :=
  concat (List.map (fun line => joinQuoted line.1 ++ endingText line.2) lines).

(** What follows a lone carriage return is not a line feed. *)
Definition noLineFeedAhead (rest : jsstring) : Prop :=
  match rest with
  | c :: _ => c <> LF
  | [] => True
  end.

(** A text without a line feed or a carriage return. *)
Definition breakFree (line : jsstring) : Prop := (LF ∉ line) /\ (CR ∉ line).

End Sheets.

Import Sheets.

(** ** Phone numbers and mail addresses in a text *)

Module Contacts.

(** [Array.from(text.matchAll(re), m => m[0])] for a global regular
    expression that never matches the empty string: the matches from
    left to right, the scan resuming behind each of them.  [matchAt s]
    is the length of the match at the head of [s]; [skip] counts the
    code units of the last match still to pass. *)
Fixpoint matchAll (matchAt : jsstring -> option nat) (skip : nat) (s : jsstring)
  : list jsstring :=
  match s with
  | [] => []
  | _ :: t =>
      match skip with
      | S k => matchAll matchAt k t
      | O =>
          match matchAt s with
          | Some n => take n s :: matchAll matchAt (Nat.pred n) t
          | None => matchAll matchAt O t
          end
      end
  end.

(** [\d{1,4}-] at the head of [s]: the number of digits.  A hyphen is
    no digit, so the digits are the whole run in front of it. *)
Definition digitsThenHyphen (s : jsstring) : option nat :=
  let run := runLength isDigit s in
  if (1 <=? run)%nat && (run <=? 4)%nat
     && match drop run s with
        | c :: _ => c =? 45
        | [] => false
        end
  then Some run
  else None.

(** [PHONE_REGEX], [/0\d{1,4}-\d{1,4}-\d{3,4}/], at the head of [s]. *)
Definition matchPhone (s : jsstring) : option nat :=
  match s with
  | c :: t =>
      if c =? 48 then
        match digitsThenHyphen t with
        | Some a =>
            match digitsThenHyphen (drop (S a) t) with
            | Some b =>
                let run := runLength isDigit (drop (S b) (drop (S a) t)) in
                if (3 <=? run)%nat then Some (1 + a + 1 + b + 1 + Nat.min run 4)%nat
                else None
            | None => None
            end
        | None => None
        end
      else None
  | [] => None
  end.

Definition isLetter (c : N) : bool :=
  ((65 <=? c) && (c <=? 90)) || ((97 <=? c) && (c <=? 122)).

(** [[A-Za-z0-9.-]] *)
Definition isDomainChar (c : N) : bool :=
  isLetter c || isDigit c || (c =? 46) || (c =? 45).

(** [[A-Za-z0-9._%+-]] *)
Definition isLocalChar (c : N) : bool :=
  isLetter c || isDigit c || (c =? 46) || (c =? 95) || (c =? 37) || (c =? 43) || (c =? 45).

(** [[A-Za-z0-9.-]+\.[A-Za-z]{2,}] at the head of a text of which [k]
    units of the domain have been read: the length of what is matched
    from here on.  The domain takes as much as it can, so the dot is
    the last one of the run that has two letters or more behind it. *)
Fixpoint matchDomain (k : nat) (s : jsstring) : option nat :=
  match s with
  | c :: t =>
      if isDomainChar c then
        match matchDomain (S k) t with
        | Some n => Some (S n)
        | None =>
            if (c =? 46) && (1 <=? k)%nat && (2 <=? runLength isLetter t)%nat
            then Some (S (runLength isLetter t))
            else None
        end
      else None
  | [] => None
  end.

(** [EMAIL_REGEX], [/[A-Za-z0-9._%+-]+@[A-Za-z0-9.-]+\.[A-Za-z]{2,}/],
    at the head of [s].  The at sign is not in the class of the local
    part, so the local part is the whole run in front of it. *)
Definition matchEmail (s : jsstring) : option nat :=
  let run := runLength isLocalChar s in
  if (1 <=? run)%nat then
    match drop run s with
    | c :: t =>
        if c =? 64 then
          match matchDomain 0 t with
          | Some n => Some (run + 1 + n)%nat
          | None => None
          end
        else None
    | [] => None
    end
  else None.

Definition extractContactInfo (text : jsstring) : list jsstring * list jsstring :=
  (matchAll matchPhone O text, matchAll matchEmail O text).

(** The form of a phone number and of a mail address. *)
Definition PhoneShaped (phone : jsstring) : Prop :=
  exists a b c,
    phone = 48 :: a ++ 45 :: b ++ 45 :: c
    /\ forallb isDigit (a ++ b ++ c) = true
    /\ (1 <= length a <= 4)%nat /\ (1 <= length b <= 4)%nat /\ (3 <= length c <= 4)%nat.

Definition EmailShaped (email : jsstring) : Prop :=
  exists localPart domain tld,
    email = localPart ++ 64 :: domain ++ 46 :: tld
    /\ localPart <> [] /\ forallb isLocalChar localPart = true
    /\ domain <> [] /\ forallb isDomainChar domain = true
    /\ (2 <= length tld)%nat /\ forallb isLetter tld = true.

End Contacts.

(** ** The second scraper: contact data of a company page *)

Module RikunabiContact.
Import Contacts.

(** [s.match(re)] for a regular expression without the global flag:
    the first place, from the left, where [matchAt] finds something;
    the result is what [matchAt] returns there. *)
Fixpoint firstMatch {A : Type} (matchAt : jsstring -> option A) (s : jsstring) : option A :=
  match matchAt s with
  | Some found => Some found
  | None =>
      match s with
      | [] => None
      | _ :: t => firstMatch matchAt t
      end
  end.

(** [/&nbsp;/] at the head of [s]. *)
Definition matchNbsp (s : jsstring) : option nat :=
  if startsWith (lit "&nbsp;") s then Some 6%nat else None.

(** [/<br\s*\/?>/i] at the head of [s]. *)
Definition matchBr (s : jsstring) : option nat :=
  if startsWithIgnoreCase (lit "<BR") s then
    let space := runLength isWhiteSpace (drop 3 s) in
    match drop space (drop 3 s) with
    | c :: rest =>
        if c =? 62 then Some (3 + space + 1)%nat
        else if c =? 47 then
               match rest with
               | d :: _ => if d =? 62 then Some (3 + space + 2)%nat else None
               | [] => None
               end
             else None
    | [] => None
    end
  else None.

Definition notCloser (c : N) : bool := negb (c =? 62).

(** [/<[^>]+>/] at the head of [s]. *)
Definition matchTag (s : jsstring) : option nat :=
  match s with
  | c :: t =>
      if c =? 60 then
        let run := runLength notCloser t in
        if (1 <=? run)%nat then
          match drop run t with
          | _ :: _ => Some (1 + run + 1)%nat
          | [] => None
          end
        else None
      else None
  | [] => None
  end.

(** The text in which the contact data is looked for. *)
Definition cleanText (raw : jsstring) : jsstring :=
  trim
    (collapse
       (replaceAll matchTag [] O
          (replaceAll matchBr [LF] O
             (replaceAll matchNbsp [SP] O raw)))).

Definition TEL_LABEL : jsstring := [0x3010; 84; 69; 76; 0x3011].
Definition MAIL_LABEL : jsstring := [0x3010; 69; 45; 77; 97; 105; 108; 0x3011].

Definition isDigitOrHyphen (c : N) : bool := isDigit c || (c =? 45).

(** The capture of the labelled phone pattern at the head of [s]:
    the label, white space, and the run of digits and hyphens. *)
Definition matchLabelledPhone (s : jsstring) : option jsstring :=
  if startsWith TEL_LABEL s then
    let after := skipWhile isWhiteSpace (drop (length TEL_LABEL) s) in
    match runLength isDigitOrHyphen after with
    | O => None
    | run => Some (take run after)
    end
  else None.

(** The capture of the labelled mail pattern at the head of [s]. *)
Definition matchLabelledEmail (s : jsstring) : option jsstring :=
  if startsWith MAIL_LABEL s then
    let after := skipWhile isWhiteSpace (drop (length MAIL_LABEL) s) in
    match matchEmail after with
    | Some n => Some (take n after)
    | None => None
    end
  else None.

(** The whole match of a pattern at the head of [s]. *)
Definition whole (matchAt : jsstring -> option nat) (s : jsstring) : option jsstring :=
  match matchAt s with
  | Some n => Some (take n s)
  | None => None
  end.

(** [extractContactInfo] of the second scraper.  [data] is what the
    page gives for the contact block: its [innerHTML] and its
    [textContent] ([None]: there is no such block, or reading it
    threw). *)
Definition extractContactInfo (data : option (jsstring * jsstring)) : jsstring * jsstring :=
  match data with
  | None => ([], [])
  | Some (html, text) =>
      if negb (truthy html) && negb (truthy text) then ([], [])
      else
        let text := cleanText (orElse html text) in
        let phone := trim (default [] (firstMatch matchLabelledPhone text)) in
        let email := trim (default [] (firstMatch matchLabelledEmail text)) in
        let finalPhone :=
          if negb (truthy phone)
          then default [] (firstMatch (whole matchPhone) text)
          else phone in
        let finalEmail :=
          if negb (truthy email)
          then default [] (firstMatch (whole matchEmail) text)
          else email in
        (finalPhone, finalEmail)
  end.

(** The failure mark that stands in for a missing value. *)
Definition FAILED : jsstring := [0x53D6; 0x5F97; 0x5931; 0x6557].

End RikunabiContact.

(** ** The second scraper: the crawl *)

Module RikunabiCrawl.
Import Rikunabi RikunabiContact.

Definition DELAY_MS : N := 1000.

Record CsvRecord := {
  companyName : jsstring;
  phone : jsstring;
  email : jsstring;
  sourceUrl : jsstring
}.

(** The [row] array and the template literal of [appendCsvRecord]. *)
Definition csvRow (record : CsvRecord) : list jsstring :=
  [companyName record; phone record; email record; sourceUrl record].

Definition csvLine (record : CsvRecord) : jsstring :=
  q ++ escapeCsvValue (companyName record) ++ qcq
    ++ escapeCsvValue (phone record) ++ qcq
    ++ escapeCsvValue (email record) ++ qcq
    ++ escapeCsvValue (sourceUrl record) ++ q ++ [LF].

(** What the pages of the second site answer, beside the calls the two
    scrapers share: the anchors of the result page ([None]: the page
    evaluation threw), the contact block of a company page, and the
    class of the list item around the next-page link ([None]: there is
    no such item). *)
Class Page (W : Type) := {
  queryAnchors : W -> option (list Anchor) * W;
  evaluateContact : W -> option (jsstring * jsstring) * W;
  queryNextParent : W -> option jsstring * W
}.

Inductive HaltReason :=
| StopAtPageTop
| NoCompanyLinks
| StopAfterPage
| NextButtonMissing
| NextParentMissing
| NextButtonDisabled.

Section WithHost.
Context {W : Type} {host : Host W} {page : Page W}.

Record CrawlEnd := {
  haltReason : HaltReason;
  lastPageIndex : nat;
  processedCount : nat;
  final : Machine W
}.

(** How [processAllCompaniesFromSearch] ends: the first navigation
    throws, or the page loop is left. *)
Inductive Outcome :=
| Rejected (m : Machine W)
| Finished (finish : CrawlEnd).

Definition appendCsvRecord (record : CsvRecord) (gasConfig : option GasConfig)
           (m : Machine W) : Machine W :=
  let m1 := appendFileSync (csvLine record) m in
  match gasConfig with
  | None => m1
  | Some gas =>
      match postRowToGas gas (csvRow record) m1 with
      | (inl resp, m2) => emit (EvRelayAnswer resp) m2
      | (inr err, m2) => emit (EvRelayError err) m2
      end
  end.

Definition doQueryAnchors (m : Machine W) : option (list Anchor) * Machine W :=
  let (anchors, w) := queryAnchors (world m) in
  (anchors, emit EvQueryCompanyLinks (setWorld w m)).

Definition doEvaluateContact (m : Machine W) : option (jsstring * jsstring) * Machine W :=
  let (data, w) := evaluateContact (world m) in
  (data, setWorld w m).

Definition doQueryNextParent (m : Machine W) : option jsstring * Machine W :=
  let (parentClass, w) := queryNextParent (world m) in
  (parentClass, setWorld w m).

(** The body of the [try] block of the company loop. *)
Definition processCompany (gasConfig : option GasConfig) (link : CompanyLink)
           (m : Machine W) (processedCount : nat) : Machine W * nat :=
  if negb (truthy (name link)) then (m, processedCount)
  else
    let m := waitForTimeout DELAY_MS m in
    let (ok, m) := doGoto (normalizedUrl (url link)) m in
    if negb ok then (emit EvEntityFailed m, processedCount)
    else
      let m := waitForTimeout 500 m in
      let (data, m) := doEvaluateContact m in
      let contact := extractContactInfo data in
      let record :=
        {| companyName := name link;
           phone := orElse contact.1 FAILED;
           email := orElse contact.2 FAILED;
           sourceUrl := url link |} in
      (appendCsvRecord record gasConfig m, S processedCount).

(** The [for] loop over the links of one result page. *)
Fixpoint companyLoop (polls : nat) (gasConfig : option GasConfig)
         (companyLinks : list CompanyLink) (m : Machine W) (processedCount : nat)
  : option (Machine W * nat) :=
  match companyLinks with
  | [] => Some (m, processedCount)
  | link :: rest =>
      let m := emit (EvEntityTop (name link)) m in
      if shouldStop (world m) then Some (m, processedCount)
      else
        match waitIfPaused polls m with
        | None => None
        | Some m =>
            let (m, processedCount) := processCompany gasConfig link m processedCount in
            companyLoop polls gasConfig rest m processedCount
        end
  end.

(** The [while (true)] loop; [pages] bounds the number of passes. *)
Fixpoint pageLoop (pages polls : nat) (gasConfig : option GasConfig)
         (pageIndex : nat) (m : Machine W) (processedCount : nat) : option CrawlEnd :=
  match pages with
  | O => None
  | S pages' =>
      let halt reason m processedCount :=
        Some {| haltReason := reason; lastPageIndex := pageIndex;
                processedCount := processedCount; final := m |} in
      let m := emit (EvPageTop pageIndex) m in
      if shouldStop (world m) then halt StopAtPageTop m processedCount
      else
        match waitIfPaused polls m with
        | None => None
        | Some m =>
            let (anchors, m) := doQueryAnchors m in
            match extractCompanyLinks anchors with
            | [] => halt NoCompanyLinks m processedCount
            | companyLinks =>
                let m := doNewPage m in
                match companyLoop polls gasConfig companyLinks m processedCount with
                | None => None
                | Some (m, processedCount) =>
                    let m := doClosePage m in
                    if shouldStop (world m) then halt StopAfterPage m processedCount
                    else
                      let (nextButton, m) := doQueryNextButton m in
                      match nextButton with
                      | None => halt NextButtonMissing m processedCount
                      | Some _ =>
                          let (parent, m) := doQueryNextParent m in
                          match parent with
                          | None => halt NextParentMissing m processedCount
                          | Some parentClass =>
                              if includes parentClass (lit "disabled")
                                 || includes parentClass (lit "ts-h-search-pagerItem_disabled")
                              then halt NextButtonDisabled m processedCount
                              else
                                pageLoop pages' polls gasConfig (S pageIndex)
                                  (doClickNext (waitForTimeout DELAY_MS m)) processedCount
                          end
                      end
                end
            end
        end
  end.

Definition processAllCompaniesFromSearch (pages polls : nat) (searchUrl : jsstring)
           (gasConfig : option GasConfig) (m : Machine W) : option Outcome :=
  let (ok, m) := doGoto searchUrl m in
  if negb ok then Some (Rejected m)
  else Finished <$> pageLoop pages polls gasConfig 1 m 0.

(** [m'] comes after [m] by writing the lines of [records], in that
    order and nothing else. *)
Definition Logged (m m' : Machine W) (records : list CsvRecord) : Prop :=
  exists events,
    trace m' = trace m ++ events
    /\ appendedLines events = List.map csvLine records
    /\ csvFile m' = csvFile m ++ concat (List.map csvLine records).

End WithHost.

(** A record as the crawl writes it: a name, the address of a company
    page, and for phone and mail either what was found or the failure
    mark. *)
Definition WellFormed (record : CsvRecord) : Prop :=
  companyName record <> []
  /\ companyUrlPattern (sourceUrl record) = true
  /\ (phone record = FAILED
      \/ (phone record <> [] /\ forallb isDigitOrHyphen (phone record) = true))
  /\ (email record = FAILED
      \/ Contacts.EmailShaped (email record)).

End RikunabiCrawl.

(** ** A scripted site

    A host whose answers are read off a table: the search pages by
    number of clicks on the next-page control, the course links and the
    detail tables by URL.  The operator never pauses; the stop flag
    rises once [stopAfter] timers have run. *)

Module Script.

Record Site := {
  searchPages : list (list CompanyLink * option jsstring);
  courseLinksOf : list (jsstring * list jsstring);
  tablesOf : list (jsstring * TableOutcome);
  relayAnswer : FetchOutcome;
  stopAfter : option nat
}.

Record Sim := { clicks : nat; timers : nat; location : jsstring }.

Definition start : Sim := {| clicks := 0; timers := 0; location := [] |}.

Definition moveTo (target : jsstring) (w : Sim) : Sim :=
  {| clicks := clicks w; timers := timers w; location := target |}.

Fixpoint assoc {A : Type} (key : jsstring) (table : list (jsstring * A)) : option A :=
  match table with
  | [] => None
  | (k, v) :: rest => if bool_decide (k = key) then Some v else assoc key rest
  end.

Definition plainMeta : CompanyMeta.t :=
  {| CompanyMeta.industry := lit "IT";
     CompanyMeta.headOffice := lit "Tokyo";
     CompanyMeta.annualRecruitment := lit "12";
     CompanyMeta.companySize := [] |}.

Definition scripted (site : Site) : Host Sim :=
  {| shouldStop := fun w =>
       match stopAfter site with
       | Some n => (n <=? timers w)%nat
       | None => false
       end;
     isPaused := fun _ => false;
     timer := fun _ w =>
       {| clicks := clicks w; timers := S (timers w); location := location w |};
     toISOString := fun _ => lit "2026-01-02T03:04:05.678Z";
     urlParses := fun _ => true;
     fetchPost := fun _ w => (relayAnswer site, w);
     queryCompanyLinks := fun w =>
       (default [] (fst <$> (searchPages site !! clicks w)), w);
     newPage := fun w => w;
     closePage := fun w => w;
     goto := fun target w => (true, moveTo target w);
     evaluateOutline := fun w => (Some plainMeta, w);
     pageUrl := location;
     queryCourseLinks := fun w =>
       (default [] (assoc (location w) (courseLinksOf site)), w);
     extractInternshipTable := fun target _ w =>
       (default TableAbsent (assoc target (tablesOf site)), moveTo target w);
     queryNextButton := fun w =>
       (default None (snd <$> (searchPages site !! clicks w)), w);
     clickNext := fun w =>
       {| clicks := S (clicks w); timers := timers w; location := location w |} |}.

Definition course (phones emails : list jsstring) (sourceUrl : jsstring) : CourseData.t :=
  {| CourseData.companyName := [];
     CourseData.tableRows := [];
     CourseData.phones := phones;
     CourseData.emails := emails;
     CourseData.sourceUrl := sourceUrl |}.

Definition plainConfig : MynaviConfig := defaultConfig.

(** Two companies on a single page; the first one lists two courses,
    the first without contact data, the second with a phone number. *)
Definition twoCompanies : Site :=
  {| searchPages :=
       [ ([ {| name := lit "Alpha"; url := lit "https://site/alpha/outline.html" |};
            {| name := lit "Beta"; url := lit "https://site/beta/outline.html" |} ],
          None) ];
     courseLinksOf :=
       [ (lit "https://site/alpha/is.html",
          [lit "https://site/alpha/c1"; lit "https://site/alpha/c2"]) ];
     tablesOf :=
       [ (lit "https://site/alpha/c1", TableFound (course [] [] (lit "https://site/alpha/c1")));
         (lit "https://site/alpha/c2",
          TableFound (course [lit "03-1234-5678"] [] (lit "https://site/alpha/c2")));
         (lit "https://site/beta/is.html",
          TableFound (course [lit "06-1111-2222"] [lit "hr@beta.example"]
                        (lit "https://site/beta/is.html"))) ];
     relayAnswer := FetchResponse 200 (lit "OK") (lit "OK");
     stopAfter := None |}.

(** Two search pages with one company each; the next-page control of
    the second page is marked disabled. *)
Definition twoPages : Site :=
  {| searchPages :=
       [ ([ {| name := lit "Alpha"; url := lit "https://site/alpha/outline.html" |} ],
          Some (lit "next"));
         ([ {| name := lit "Beta"; url := lit "https://site/beta/outline.html" |} ],
          Some (lit "next disabled")) ];
     courseLinksOf := [];
     tablesOf :=
       [ (lit "https://site/alpha/is.html",
          TableFound (course [lit "03-1234-5678"] [] (lit "https://site/alpha/is.html")));
         (lit "https://site/beta/is.html",
          TableFound (course [] [lit "hr@beta.example"] (lit "https://site/beta/is.html"))) ];
     relayAnswer := FetchResponse 200 (lit "OK") (lit "OK");
     stopAfter := None |}.

(** One company with four courses that score 0, 2, 3 and 1 in the
    order of the listing. *)
Definition scoreZero : CourseData.t := course [] [] (lit "https://site/gamma/c0").
Definition scoreTwo : CourseData.t := course [lit "03-1234-5678"] [] (lit "https://site/gamma/c2").
Definition scoreThree : CourseData.t :=
  course [lit "06-1111-2222"] [lit "hr@gamma.example"] (lit "https://site/gamma/c3").
Definition scoreOne : CourseData.t := course [] [lit "info@gamma.example"] (lit "https://site/gamma/c1").

Definition fourCourses : Site :=
  {| searchPages :=
       [ ([ {| name := lit "Gamma"; url := lit "https://site/gamma/outline.html" |} ], None) ];
     courseLinksOf :=
       [ (lit "https://site/gamma/is.html",
          [lit "https://site/gamma/c0"; lit "https://site/gamma/c2";
           lit "https://site/gamma/c3"; lit "https://site/gamma/c1"]) ];
     tablesOf :=
       [ (lit "https://site/gamma/c0", TableFound scoreZero);
         (lit "https://site/gamma/c2", TableFound scoreTwo);
         (lit "https://site/gamma/c3", TableFound scoreThree);
         (lit "https://site/gamma/c1", TableFound scoreOne) ];
     relayAnswer := FetchResponse 200 (lit "OK") (lit "OK");
     stopAfter := None |}.

Definition gammaLinks : list jsstring :=
  [lit "https://site/gamma/c0"; lit "https://site/gamma/c2";
   lit "https://site/gamma/c3"; lit "https://site/gamma/c1"].

(** Fresh runs on a scripted site. *)
Definition fresh : Machine Sim := initial start ∅ [].

Definition crawl (site : Site) (maxCompanies : option nat) : option (@CrawlEnd Sim) :=
  @processAllCompaniesFromSearch Sim (scripted site) plainConfig 5 5 maxCompanies fresh.

Definition crawlTrace (site : Site) (maxCompanies : option nat) : list Event :=
  match crawl site maxCompanies with
  | Some finish => trace (final finish)
  | None => []
  end.

(** A search page whose only anchor has no text. *)
Definition namelessSite : Site :=
  {| searchPages :=
       [ ([ {| name := []; url := lit "https://site/nameless/outline.html" |} ], None) ];
     courseLinksOf := [];
     tablesOf := [];
     relayAnswer := FetchAborted;
     stopAfter := None |}.

Definition namelessRecord : CsvRecord :=
  {| Csv.companyName := [];
     phone := lit "03-0000-0000";
     email := lit "a@b.example";
     industry := lit "IT";
     headOffice := lit "Tokyo";
     tableUrl := lit "https://site/nameless/is.html";
     tableJson := JsonRows [];
     annualRecruitment := [];
     companySize := [] |}.

(** A record with a comma, double quotes and a line break in it. *)
Definition awkwardRecord : CsvRecord :=
  {| Csv.companyName := lit "Acme, " ++ [dquote] ++ lit "Best" ++ [dquote; LF] ++ lit "Corp";
     phone := lit "03-1234-5678";
     email := [dquote];
     industry := lit "IT, media";
     headOffice := [dquote; dquote; comma];
     tableUrl := lit "https://site/acme/is.html";
     tableJson := JsonRows [];
     annualRecruitment := lit "12";
     companySize := [] |}.

Definition sampleRelay : GasConfig :=
  {| uploadUrl := lit "https://script.example/exec"; token := Some (lit "secret") |}.

(** A spreadsheet service that accepts the fresh session only. *)
Definition staleState : StorageState := {| cookies := []; origins := [] |}.

Definition freshState : StorageState :=
  {| cookies := [];
     origins := [ {| origin := lit "https://docs.google.com"; localStorage := [] |} ] |}.

Definition isFresh (state : StorageState) : bool :=
  match origins state with [] => false | _ :: _ => true end.

Definition sheetService (login : CaptureOutcome) : SheetHost nat :=
  {| requestGet := fun state _ w =>
       (if isFresh state
        then Responded 200 (lit "OK") (lit "name,phone")
        else Responded 401 (lit "Unauthorized") (lit "login required"),
        S w);
     operatorLogin := fun _ w => (login, S w) |}.

Definition sheetUrl : jsstring := lit "https://docs.google.com/spreadsheets/d/abc123/edit".

Definition withSession (saved : option StorageState) : SessionMachine nat :=
  {| sworld := 0%nat; sessionFile := saved; strace := [] |}.

Definition noSearchUrl : ParsedConfig :=
  {| parsed_SEARCH_URL := JUndefined;
     parsed_START_PAGE := JNumber 3;
     parsed_MAX_COMPANIES := JUndefined;
     parsed_SPREADSHEET_URL := None;
     parsed_CSV_PATH := None;
     parsed_GAS_UPLOAD_URL := None;
     parsed_GAS_UPLOAD_TOKEN := None |}.

Definition sheetOnlyConfig : MynaviConfig :=
  {| SEARCH_URL := lit "https://job.mynavi.jp/search";
     START_PAGE := 1;
     MAX_COMPANIES := None;
     SPREADSHEET_URL := None;
     CSV_PATH := Some (lit "sheet.csv");
     GAS_UPLOAD_URL := None;
     GAS_UPLOAD_TOKEN := None |}.

(** A CSV path without a spreadsheet URL. *)
Definition pathOnly : ParsedConfig :=
  {| parsed_SEARCH_URL := JString (lit "https://job.mynavi.jp/search");
     parsed_START_PAGE := JUndefined;
     parsed_MAX_COMPANIES := JUndefined;
     parsed_SPREADSHEET_URL := None;
     parsed_CSV_PATH := Some (lit "sheet.csv");
     parsed_GAS_UPLOAD_URL := None;
     parsed_GAS_UPLOAD_TOKEN := None |}.

Definition badSheetConfig : ParsedConfig :=
  {| parsed_SEARCH_URL := JString (lit "https://job.mynavi.jp/search");
     parsed_START_PAGE := JUndefined;
     parsed_MAX_COMPANIES := JUndefined;
     parsed_SPREADSHEET_URL := Some (lit "https://example.com/not-a-sheet");
     parsed_CSV_PATH := Some (lit "sheet.csv");
     parsed_GAS_UPLOAD_URL := None;
     parsed_GAS_UPLOAD_TOKEN := None |}.

(** Sample names: the first and the third share a normalised form. *)
Definition sampleA : jsstring := lit "Acme  Corp PICK UP".
Definition sampleB : jsstring := lit " acme corp".
Definition sampleC : jsstring := lit " Acme Corp ".

(** A start on the site of two companies, with the sheet sync off. *)
Definition sampleLaunch : @Launch Sim nat :=
  {| launchConfig := plainConfig; launchWorld := start;
     launchSession := withSession None;
     resolvesToLedger := fun _ => true;
     launchPages := 5; launchPolls := 5 |}.

(** The built-in configuration, starting at the second result page. *)
Definition lateStart : MynaviConfig :=
  {| SEARCH_URL := DEFAULT_SEARCH_URL;
     START_PAGE := 2;
     MAX_COMPANIES := None;
     SPREADSHEET_URL := None;
     CSV_PATH := None;
     GAS_UPLOAD_URL := None;
     GAS_UPLOAD_TOKEN := None |}.

(** A configuration file with a cap of two and a half. *)
Definition cappedFile : ParsedConfig :=
  {| parsed_SEARCH_URL := JString (lit "https://job.mynavi.jp/search");
     parsed_START_PAGE := JUndefined;
     parsed_MAX_COMPANIES := JNumber (5 # 2);
     parsed_SPREADSHEET_URL := None;
     parsed_CSV_PATH := None;
     parsed_GAS_UPLOAD_URL := None;
     parsed_GAS_UPLOAD_TOKEN := None |}.

(** Two anchors of a result page of the second site: a company page
    and one of its sub-pages. *)
Definition resultAnchors : list Rikunabi.Anchor :=
  [ {| Rikunabi.href := Some (lit "/2026/company/r123456/");
       Rikunabi.textContent := Some (lit "  Acme  ") |};
    {| Rikunabi.href := Some (lit "/2026/company/r123456/entries/");
       Rikunabi.textContent := Some (lit "Acme entries") |} ].

Definition acmeLink : CompanyLink :=
  {| name := lit "Acme"; url := lit "https://job.rikunabi.com/2026/company/r123456/" |}.

(** Three quoted rows with the three line endings, the second one
    blank, and a short unquoted text with an empty line. *)
Definition sampleLines : list (list jsstring * Ending) :=
  [ ([lit "a,b"; lit "c"], EndCRLF);
    ([[]; lit " "], EndCR);
    ([lit "d"], EndLF) ].

Definition sampleSheet : jsstring := lit "a,b" ++ [LF; LF] ++ lit "c".

(** The second site, scripted: one result page with the two anchors,
    and a company page that shows a phone number and a mail address. *)
Definition rikunabiPage : RikunabiCrawl.Page Sim :=
  {| RikunabiCrawl.queryAnchors := fun w => (Some resultAnchors, w);
     RikunabiCrawl.evaluateContact := fun w =>
       (Some (lit "<p>0120-11-2222<br>saiyo@example.co.jp</p>", []), w);
     RikunabiCrawl.queryNextParent := fun w => (None, w) |}.

(** A machine that has seen both companies of [twoPages]. *)
Definition seenBoth : Machine Sim :=
  initial start ({[lit "Alpha"]} ∪ {[lit "Beta"]}) HEADER.



End Script.

Import Script.

(** * Properties *)

(** ** Reading back what was written to a file *)

Section Utf8Facts.

Ltac bounds :=
  repeat match goal with
         | H : (_ <? _) = true |- _ => apply N.ltb_lt in H
         | H : (_ <? _) = false |- _ => apply N.ltb_ge in H
         | H : (_ <=? _) = true |- _ => apply N.leb_le in H
         | H : (_ <=? _) = false |- _ => apply N.leb_gt in H
         | H : (_ =? _) = true |- _ => apply N.eqb_eq in H
         | H : (_ =? _) = false |- _ => apply N.eqb_neq in H
         | H : _ && _ = true |- _ => apply andb_true_iff in H; destruct H
         | H : _ || _ = false |- _ => apply orb_false_iff in H; destruct H
         end.

Ltac decide_tests :=
  repeat match goal with
         | |- context [?a <=? ?b] =>
             first [ replace (a <=? b) with true by (symmetry; apply N.leb_le; lia)
                   | replace (a <=? b) with false by (symmetry; apply N.leb_gt; lia) ]
         | |- context [?a <? ?b] =>
             first [ replace (a <? b) with true by (symmetry; apply N.ltb_lt; lia)
                   | replace (a <? b) with false by (symmetry; apply N.ltb_ge; lia) ]
         | |- context [?a =? ?b] =>
             first [ replace (a =? b) with true by (symmetry; apply N.eqb_eq; lia)
                   | replace (a =? b) with false by (symmetry; apply N.eqb_neq; lia) ]
         end.

(** The bytes of a code point decode to its code units, whatever
    follows. *)
Lemma decode_encodePoint cp bytes :
  cp <= 0x10FFFF -> (cp < 0xD800 \/ 0xDFFF < cp) ->
  decodeFrom Idle (encodePoint cp ++ bytes) = unitsOf cp ++ decodeFrom Idle bytes.
Proof.
  intros Hmax Hscalar. unfold encodePoint.
  pose proof (N.div_mod' cp 64) as H1. pose proof (N.mod_upper_bound cp 64) as B1.
  pose proof (N.div_mod' (cp / 64) 64) as H2.
  pose proof (N.mod_upper_bound (cp / 64) 64) as B2.
  pose proof (N.div_mod' (cp / 64 / 64) 64) as H3.
  pose proof (N.mod_upper_bound (cp / 64 / 64) 64) as B3.
  specialize (B1 ltac:(lia)). specialize (B2 ltac:(lia)). specialize (B3 ltac:(lia)).
  revert H1 H2 H3 B1 B2 B3.
  generalize (cp mod 64) as r1, ((cp / 64) mod 64) as r2, ((cp / 64 / 64) mod 64) as r3.
  generalize (cp / 64 / 64 / 64) as q3. generalize (cp / 64 / 64) as q2.
  generalize (cp / 64) as q1.
  intros q1 q2 q3 r1 r2 r3 H1 H2 H3 B1 B2 B3.
  destruct (cp <? 0x80) eqn:Ha; bounds.
  { cbn [app decodeFrom decodeByte]. unfold startByte. decide_tests.
    unfold unitsOf. decide_tests. reflexivity. }
  destruct (cp <? 0x800) eqn:Hb; bounds.
  { cbn [app decodeFrom decodeByte]. unfold startByte. decide_tests. cbn [andb].
    cbn [app decodeFrom decodeByte]. decide_tests. cbn [andb app].
    replace ((192 + q1 - 192) * 64 + (128 + r1 - 128)) with cp by lia.
    reflexivity. }
  destruct (cp <? 0x10000) eqn:Hc; bounds.
  { cbn [app decodeFrom decodeByte]. unfold startByte. decide_tests. cbn [andb].
    assert (Hlow : (if 224 + q2 =? 224 then 160 else 128) <= 128 + r2).
    { destruct (N.eqb_spec (224 + q2) 224); lia. }
    assert (Hhigh : 128 + r2 <= (if 224 + q2 =? 237 then 159 else 191)).
    { destruct (N.eqb_spec (224 + q2) 237); lia. }
    revert Hlow Hhigh.
    generalize (if 224 + q2 =? 224 then 160 else 128) as lower.
    generalize (if 224 + q2 =? 237 then 159 else 191) as upper.
    intros upper lower Hlow Hhigh.
    cbn [app decodeFrom decodeByte]. decide_tests. cbn [andb app].
    cbn [decodeFrom decodeByte]. decide_tests. cbn [andb app].
    replace (((224 + q2 - 224) * 64 + (128 + r2 - 128)) * 64 + (128 + r1 - 128))
      with cp by lia.
    reflexivity. }
  cbn [app decodeFrom decodeByte]. unfold startByte. decide_tests. cbn [andb].
  assert (Hlow : (if 240 + q3 =? 240 then 144 else 128) <= 128 + r3).
  { destruct (N.eqb_spec (240 + q3) 240); lia. }
  assert (Hhigh : 128 + r3 <= (if 240 + q3 =? 244 then 143 else 191)).
  { destruct (N.eqb_spec (240 + q3) 244); lia. }
  revert Hlow Hhigh.
  generalize (if 240 + q3 =? 240 then 144 else 128) as lower.
  generalize (if 240 + q3 =? 244 then 143 else 191) as upper.
  intros upper lower Hlow Hhigh.
  cbn [app decodeFrom decodeByte]. decide_tests. cbn [andb app].
  cbn [decodeFrom decodeByte]. decide_tests. cbn [andb app].
  cbn [decodeFrom decodeByte]. decide_tests. cbn [andb app].
  replace ((((240 + q3 - 240) * 64 + (128 + r3 - 128)) * 64 + (128 + r2 - 128)) * 64
           + (128 + r1 - 128)) with cp by lia.
  reflexivity.
Qed.

Lemma encode_lone c s : lone c s -> encode (c :: s) = encodePoint REPLACEMENT ++ encode s.
Proof.
  intros [Hc Hlone]. cbn [encode]. rewrite Hc.
  destruct (isHighSurrogate c); [| reflexivity].
  destruct Hlone as [Hhigh | Hnext]; [discriminate |].
  destruct s as [| d s]; [rewrite app_nil_r; reflexivity |].
  rewrite Hnext. reflexivity.
Qed.

Lemma toWellFormed_lone c s : lone c s -> toWellFormed (c :: s) = REPLACEMENT :: toWellFormed s.
Proof.
  intros [Hc Hlone]. cbn [toWellFormed]. rewrite Hc.
  destruct (isHighSurrogate c); [| reflexivity].
  destruct Hlone as [Hhigh | Hnext]; [discriminate |].
  destruct s as [| d s]; [reflexivity |].
  rewrite Hnext. reflexivity.
Qed.

Lemma encode_pair c d s :
  isScalarUnit c = false -> isHighSurrogate c = true -> isLowSurrogate d = true ->
  encode (c :: d :: s) = encodePoint (pairValue c d) ++ encode s.
Proof. intros Hc Hhigh Hlow. cbn [encode]. rewrite Hc, Hhigh, Hlow. reflexivity. Qed.

Lemma toWellFormed_pair c d s :
  isScalarUnit c = false -> isHighSurrogate c = true -> isLowSurrogate d = true ->
  toWellFormed (c :: d :: s) = c :: d :: toWellFormed s.
Proof. intros Hc Hhigh Hlow. cbn [toWellFormed]. rewrite Hc, Hhigh, Hlow. reflexivity. Qed.

Lemma toWellFormed_scalar c s :
  isScalarUnit c = true -> toWellFormed (c :: s) = c :: toWellFormed s.
Proof. intros Hc. cbn [toWellFormed]. rewrite Hc. reflexivity. Qed.

Lemma encode_scalar c s :
  isScalarUnit c = true -> encode (c :: s) = encodePoint c ++ encode s.
Proof. intros Hc. cbn [encode]. rewrite Hc. reflexivity. Qed.

(** Strings are read one code point at a time: a code unit that
    stands for itself, a surrogate pair, or a surrogate without
    partner. *)
Lemma by_code_point (P : jsstring -> Prop) :
  P [] ->
  (forall c s, isScalarUnit c = true -> P s -> P (c :: s)) ->
  (forall c d s,
      isScalarUnit c = false -> isHighSurrogate c = true -> isLowSurrogate d = true ->
      P s -> P (c :: d :: s)) ->
  (forall c s, lone c s -> P s -> P (c :: s)) ->
  forall s, P s.
Proof.
  intros Hnil Hscalar Hpair Hlone s.
  assert (Hboth : P s /\ forall c, P (c :: s)).
  { induction s as [| d s [IHs IHcons]].
    - split; [exact Hnil |]. intros c.
      destruct (isScalarUnit c) eqn:Hc; [apply Hscalar; assumption |].
      apply Hlone; [| exact Hnil]. split; [exact Hc | right; exact I].
    - split; [apply IHcons |]. intros c.
      destruct (isScalarUnit c) eqn:Hc; [apply Hscalar; [exact Hc | apply IHcons] |].
      destruct (isHighSurrogate c) eqn:Hhigh.
      + destruct (isLowSurrogate d) eqn:Hlow.
        * apply Hpair; assumption.
        * apply Hlone; [| apply IHcons]. split; [exact Hc | right; exact Hlow].
      + apply Hlone; [| apply IHcons]. split; [exact Hc | left; exact Hhigh]. }
  apply Hboth.
Qed.

Lemma unitsOf_scalar c : isScalarUnit c = true -> unitsOf c = [c].
Proof.
  unfold isScalarUnit, unitsOf. intros Hc.
  replace (c <? 65536) with true; [reflexivity |].
  symmetry. apply N.ltb_lt. apply orb_true_iff in Hc. destruct Hc as [Hc | Hc]; bounds; lia.
Qed.

Lemma unitsOf_pair c d :
  isHighSurrogate c = true -> isLowSurrogate d = true -> unitsOf (pairValue c d) = [c; d].
Proof.
  unfold isHighSurrogate, isLowSurrogate, unitsOf, pairValue. intros Hc Hd. bounds.
  replace (_ <? 65536) with false by (symmetry; apply N.ltb_ge; lia).
  replace (65536 + (c - 55296) * 1024 + (d - 56320) - 65536)
    with ((d - 56320) + (c - 55296) * 1024) by lia.
  rewrite N.div_add by lia. rewrite N.Div0.mod_add.
  rewrite N.div_small by lia. rewrite N.mod_small by lia.
  f_equal; [lia | f_equal; lia].
Qed.

(** Reading back what was written: the bytes of a string decode to
    the string with every surrogate without partner replaced. *)
Lemma decode_encode_app s :
  forall bytes,
    decodeFrom Idle (encode s ++ bytes) = toWellFormed s ++ decodeFrom Idle bytes.
Proof.
  induction s as [| c s Hc IH | c d s Hc Hhigh Hlow IH | c s Hlone IH] using by_code_point;
    intros bytes.
  - reflexivity.
  - rewrite encode_scalar, toWellFormed_scalar by exact Hc.
    rewrite <- app_assoc, decode_encodePoint, IH, (unitsOf_scalar _ Hc); [reflexivity | |].
    + unfold isScalarUnit in Hc. apply orb_true_iff in Hc. destruct Hc; bounds; lia.
    + unfold isScalarUnit in Hc. apply orb_true_iff in Hc. destruct Hc; bounds; lia.
  - rewrite encode_pair, toWellFormed_pair by assumption.
    rewrite <- app_assoc, decode_encodePoint, IH, (unitsOf_pair _ _ Hhigh Hlow);
      [reflexivity | |].
    + unfold isHighSurrogate, isLowSurrogate, pairValue in *. bounds. lia.
    + unfold isHighSurrogate, isLowSurrogate, pairValue in *. bounds. lia.
  - rewrite encode_lone, toWellFormed_lone by exact Hlone.
    rewrite <- app_assoc, decode_encodePoint, IH; [reflexivity | |];
      unfold REPLACEMENT; lia.
Qed.


(** Each write is encoded on its own; the file is decoded as a whole. *)
Lemma decode_chunks chunks :
  forall bytes,
    decodeFrom Idle (concat (List.map encode chunks) ++ bytes)
    = concat (List.map toWellFormed chunks) ++ decodeFrom Idle bytes.
Proof.
  induction chunks as [| chunk chunks IH]; intros bytes; [reflexivity |].
  cbn [List.map concat]. rewrite <- !app_assoc, decode_encode_app, IH. reflexivity.
Qed.

(** A code unit that stands for itself separates what comes before
    it from what comes after. *)
Lemma toWellFormed_app_scalar a c b :
  isScalarUnit c = true ->
  toWellFormed (a ++ c :: b) = toWellFormed a ++ c :: toWellFormed b.
Proof.
  intros Hc.
  induction a as [| x a Hx IH | x y a Hx Hhigh Hlow IH | x a Hlone IH] using by_code_point.
  - cbn [app]. apply toWellFormed_scalar. exact Hc.
  - cbn [app]. rewrite !toWellFormed_scalar by exact Hx. rewrite IH. reflexivity.
  - cbn [app]. rewrite !toWellFormed_pair by assumption. rewrite IH. reflexivity.
  - cbn [app]. rewrite (toWellFormed_lone x a Hlone).
    rewrite toWellFormed_lone; [rewrite IH; reflexivity |].
    destruct Hlone as [Hx Hnext]. split; [exact Hx |].
    destruct Hnext as [Hhigh | Hnext]; [left; exact Hhigh | right].
    destruct a as [| d a]; [| exact Hnext]. cbn [app].
    unfold isScalarUnit, isLowSurrogate in *.
    apply orb_true_iff in Hc. destruct Hc; bounds.
    + apply andb_false_iff. left. apply N.leb_gt. lia.
    + apply andb_false_iff. right. apply N.leb_gt. lia.
Qed.

Lemma toWellFormed_scalars a b :
  forallb isScalarUnit a = true -> toWellFormed (a ++ b) = a ++ toWellFormed b.
Proof.
  induction a as [| c a IH]; intros Hall; [reflexivity |].
  cbn [forallb] in Hall. apply andb_true_iff in Hall. destruct Hall as [Hc Ha].
  cbn [app]. rewrite toWellFormed_scalar by exact Hc. rewrite IH by exact Ha. reflexivity.
Qed.

Lemma toWellFormed_snoc a c :
  isScalarUnit c = true -> toWellFormed (a ++ [c]) = toWellFormed a ++ [c].
Proof. intros Hc. rewrite toWellFormed_app_scalar by exact Hc. reflexivity. Qed.

Lemma toWellFormed_idempotent s : toWellFormed (toWellFormed s) = toWellFormed s.
Proof.
  induction s as [| c s Hc IH | c d s Hc Hhigh Hlow IH | c s Hlone IH] using by_code_point.
  - reflexivity.
  - rewrite toWellFormed_scalar by exact Hc. rewrite toWellFormed_scalar by exact Hc.
    rewrite IH. reflexivity.
  - rewrite toWellFormed_pair by assumption. rewrite toWellFormed_pair by assumption.
    rewrite IH. reflexivity.
  - rewrite toWellFormed_lone by exact Hlone.
    rewrite toWellFormed_scalar by reflexivity. rewrite IH. reflexivity.
Qed.

End Utf8Facts.

(** ** Strings and normalisation, by evaluation *)

Example normalize_pick_up :
  normalizeCompanyName (lit "  Acme   Corp PICK UP ") = lit "Acme Corp".
Proof. vm_compute. reflexivity. Qed.

Example normalize_marker_lowercase :
  normalizeCompanyName (lit "pick up Acme") = lit "Acme".
Proof. vm_compute. reflexivity. Qed.

Example normalize_ideographic_space :
  normalizeCompanyName ([0x682A; 0x5F0F; 0x3000; 0x3000; 0x4F1A; 0x793E; LF])
  = [0x682A; 0x5F0F; SP; 0x4F1A; 0x793E].
Proof. vm_compute. reflexivity. Qed.

Example normalize_only_marker : normalizeCompanyName (lit "PICK UP") = [].
Proof. vm_compute. reflexivity. Qed.

Example parse_two_lines :
  parseCsvContent
    (lit "a,b" ++ [CR; LF] ++ q ++ lit "x,y" ++ [dquote; dquote; LF] ++ lit "z" ++ q ++ lit ",w")
  = [ [lit "a"; lit "b"]; [lit "x,y" ++ [dquote; LF] ++ lit "z"; lit "w"] ].
Proof. vm_compute. reflexivity. Qed.

Example parseInt_examples :
  parseInt10 (lit " 42abc") = Some 42%Z /\ parseInt10 (lit "-7") = Some (-7)%Z
  /\ parseInt10 (lit "abc") = None.
Proof. vm_compute. repeat split. Qed.

(** ** Dedup ledger *)

Section LedgerFacts.
Implicit Types (s : gset jsstring) (a b : jsstring).

Lemma truthy_nonempty a : a <> [] -> truthy a = true.
Proof. destruct a; [congruence | reflexivity]. Qed.

Lemma has_true x s : has x s = true <-> x ∈ s.
Proof. unfold has. apply bool_decide_eq_true. Qed.

Lemma has_false x s : has x s = false <-> x ∉ s.
Proof. unfold has. apply bool_decide_eq_false. Qed.

Lemma checkCompanyExists_spec a s :
  a <> [] -> checkCompanyExists a s = true <-> normalizeCompanyName a ∈ s.
Proof.
  intros Ha. unfold checkCompanyExists.
  rewrite (truthy_nonempty a Ha). simpl. apply has_true.
Qed.

Lemma checkAndAddCompany_present a s :
  a <> [] -> normalizeCompanyName a ∈ s -> checkAndAddCompany a s = (true, s).
Proof.
  intros Ha Hin. unfold checkAndAddCompany.
  rewrite (truthy_nonempty a Ha). simpl.
  apply has_true in Hin. rewrite Hin. reflexivity.
Qed.

Lemma checkAndAddCompany_fresh a s :
  a <> [] -> normalizeCompanyName a ∉ s ->
  checkAndAddCompany a s = (false, {[normalizeCompanyName a]} ∪ s).
Proof.
  intros Ha Hnin. unfold checkAndAddCompany.
  rewrite (truthy_nonempty a Ha). simpl.
  apply has_false in Hnin. rewrite Hnin. reflexivity.
Qed.

Lemma checkAndAddCompany_records a s :
  a <> [] -> normalizeCompanyName a ∈ (checkAndAddCompany a s).2.
Proof.
  intros Ha. destruct (decide (normalizeCompanyName a ∈ s)) as [Hin | Hnin].
  - rewrite checkAndAddCompany_present by assumption. exact Hin.
  - rewrite checkAndAddCompany_fresh by assumption. simpl. set_solver.
Qed.

Lemma probe_after_insert a b s :
  a <> [] -> b <> [] -> normalizeCompanyName a = normalizeCompanyName b ->
  checkCompanyExists b (checkAndAddCompany a s).2 = true
  /\ (checkAndAddCompany b (checkAndAddCompany a s).2).1 = true.
Proof.
  intros Ha Hb Heq.
  assert (Hin : normalizeCompanyName b ∈ (checkAndAddCompany a s).2).
  { rewrite <- Heq. apply checkAndAddCompany_records. exact Ha. }
  split.
  - apply checkCompanyExists_spec; assumption.
  - rewrite checkAndAddCompany_present by assumption. reflexivity.
Qed.

End LedgerFacts.

(** C1. Two non-empty raw names with the same normalised form are one
    identity: after [checkAndAddCompany] on one of them, both the
    existence probe and the check-and-insert guard report the other as a
    duplicate, in either order.  For a non-empty name the guard returns
    [true] and leaves the set as it is exactly when the normalised name
    is already in the set; otherwise it returns [false] and the set
    gains the normalised name. *)
Theorem checkAndAddCompany_dedup (a b : jsstring) (s : gset jsstring) :
  a <> [] -> b <> [] -> normalizeCompanyName a = normalizeCompanyName b ->
  (checkCompanyExists b (checkAndAddCompany a s).2 = true
   /\ (checkAndAddCompany b (checkAndAddCompany a s).2).1 = true)
  /\ (checkCompanyExists a (checkAndAddCompany b s).2 = true
      /\ (checkAndAddCompany a (checkAndAddCompany b s).2).1 = true)
  /\ ((checkAndAddCompany a s).1 = true <-> normalizeCompanyName a ∈ s)
  /\ (normalizeCompanyName a ∈ s -> checkAndAddCompany a s = (true, s))
  /\ (normalizeCompanyName a ∉ s ->
      checkAndAddCompany a s = (false, {[normalizeCompanyName a]} ∪ s)).
Proof.
  intros Ha Hb Heq.
  split; [apply probe_after_insert; assumption |].
  split; [apply probe_after_insert; [assumption | assumption | symmetry; assumption] |].
  split; [| split].
  - destruct (decide (normalizeCompanyName a ∈ s)) as [Hin | Hnin].
    + rewrite checkAndAddCompany_present by assumption. simpl. tauto.
    + rewrite checkAndAddCompany_fresh by assumption. simpl.
      split; [discriminate | contradiction].
  - apply checkAndAddCompany_present. exact Ha.
  - apply checkAndAddCompany_fresh. exact Ha.
Qed.

Lemma checkAndAddCompany_dedup_witness :
  normalizeCompanyName sampleA = normalizeCompanyName sampleC
  /\ normalizeCompanyName sampleA <> normalizeCompanyName sampleB
  /\ checkCompanyExists sampleC (checkAndAddCompany sampleA ∅).2 = true
  /\ checkAndAddCompany sampleA ∅ = (false, {[lit "Acme Corp"]} ∪ ∅).
Proof.
  assert (Ha : sampleA <> []) by discriminate.
  assert (Hc : sampleC <> []) by discriminate.
  assert (Heq : normalizeCompanyName sampleA = normalizeCompanyName sampleC)
    by (vm_compute; reflexivity).
  pose proof (checkAndAddCompany_dedup sampleA sampleC ∅ Ha Hc Heq)
    as (Hac & _ & _ & _ & Hfresh).
  split; [exact Heq |].
  split; [vm_compute; discriminate |].
  split; [exact (proj1 Hac) |].
  apply Hfresh. apply not_elem_of_empty.
Defined.

(** ** CSV round trip *)

Section CsvFacts.

Lemma escapeCsvValue_nil : escapeCsvValue [] = [].
Proof. reflexivity. Qed.

Lemma escapeCsvValue_cons c v :
  escapeCsvValue (c :: v) =
  if c =? dquote then dquote :: dquote :: escapeCsvValue v
  else c :: escapeCsvValue v.
Proof.
  unfold escapeCsvValue. simpl. destruct (c =? dquote); reflexivity.
Qed.

(** Inside quotes the parser reads an escaped value back and stops at
    the closing quote. *)
Lemma parse_quoted_value v :
  forall tail rows row field,
    closesQuote tail ->
    parseCsvLoop (escapeCsvValue v ++ dquote :: tail) rows row field true
    = parseCsvLoop tail rows row (field ++ v) false.
Proof.
  induction v as [| c v IH]; intros tail rows row field Htail.
  - rewrite escapeCsvValue_nil, app_nil_r. simpl.
    destruct tail as [| d tail']; [reflexivity |].
    simpl in Htail. apply N.eqb_neq in Htail. rewrite Htail. reflexivity.
  - rewrite escapeCsvValue_cons.
    destruct (c =? dquote) eqn:Hc.
    + apply N.eqb_eq in Hc. subst c.
      change ((dquote :: dquote :: escapeCsvValue v) ++ dquote :: tail)
        with (dquote :: dquote :: (escapeCsvValue v ++ dquote :: tail)).
      cbn [parseCsvLoop]. rewrite N.eqb_refl. cbn [andb].
      rewrite IH by assumption. rewrite <- app_assoc. reflexivity.
    + change ((c :: escapeCsvValue v) ++ dquote :: tail)
        with (c :: (escapeCsvValue v ++ dquote :: tail)).
      cbn [parseCsvLoop]. rewrite Hc. cbn [negb andb].
      rewrite !andb_false_r.
      rewrite IH by assumption. rewrite <- app_assoc. reflexivity.
Qed.

Lemma parse_quoted_field f tail rows row :
  closesQuote tail ->
  parseCsvLoop (quoted f ++ tail) rows row [] false
  = parseCsvLoop tail rows row f false.
Proof.
  intros Htail. unfold quoted.
  change ((dquote :: escapeCsvValue f ++ [dquote]) ++ tail)
    with (dquote :: ((escapeCsvValue f ++ [dquote]) ++ tail)).
  rewrite <- app_assoc. simpl ([dquote] ++ tail).
  cbn [parseCsvLoop]. rewrite N.eqb_refl. cbn [andb negb].
  destruct (escapeCsvValue f ++ dquote :: tail) eqn:Hshape.
  - destruct (escapeCsvValue f); discriminate.
  - rewrite <- Hshape. rewrite parse_quoted_value by assumption. reflexivity.
Qed.


Lemma csvLine_joinQuoted record source :
  csvLine record source = joinQuoted (csvRow record source) ++ [LF].
Proof.
  unfold csvLine, csvRow, joinQuoted, quoted, q, qcq.
  rewrite !escapeCsvValue_nil. cbn [app].
  repeat (rewrite <- !app_assoc; cbn [app]).
  reflexivity.
Qed.

End CsvFacts.

Lemma truthy_rev_cons (c : N) (l : jsstring) : truthy (rev (c :: l)) = true.
Proof. simpl. destruct (rev l); reflexivity. Qed.

Lemma trim_keeps_ink (c d : N) (body : jsstring) :
  isWhiteSpace c = false -> isWhiteSpace d = false ->
  truthy (trim ((c :: body) ++ [d])) = true.
Proof.
  intros Hc Hd. unfold trim, trimStart, trimEnd.
  cbn [app skipWhile]. rewrite Hc.
  change (c :: body ++ [d]) with ((c :: body) ++ [d]).
  rewrite rev_app_distr.
  change (rev [d] ++ rev (c :: body)) with (d :: rev (c :: body)).
  cbn [skipWhile]. rewrite Hd. apply truthy_rev_cons.
Qed.

(** The list-source column is never blank, so the line of a record is
    always kept by the parser. *)
Lemma ledger_row_always_kept (record : CsvRecord) (timestamp : jsstring) :
  keepRow (csvRow record (listSource timestamp)) = true.
Proof.
  unfold keepRow. apply andb_true_intro. split; [reflexivity |].
  apply existsb_exists. exists (listSource timestamp). split.
  - unfold csvRow. simpl. tauto.
  - unfold listSource, MYNAVI_OPEN.
    change ([12510; 12452; 12490; 12499; 40] ++ timestamp ++ lit ")")
      with ((12510 :: [12452; 12490; 12499; 40] ++ timestamp) ++ [41]).
    apply trim_keeps_ink; reflexivity.
Qed.

(** A ledger of the header and two written lines seeds the dedup set
    with the two normalised names. *)
Example seed_after_write :
  loadExistingCompanyNames
    (Some (HEADER
             ++ csvLine awkwardRecord (listSource (lit "2026-01-02 03:04:05"))
             ++ csvLine namelessRecord (listSource (lit "2026-01-02 03:04:06"))))
  = {[normalizeCompanyName (Csv.companyName awkwardRecord)]}
  /\ length (parseCsvContent HEADER) = 1%nat
  /\ (length <$> head (parseCsvContent HEADER)) = Some 20%nat.
Proof. vm_compute. repeat split. Qed.

(** ** Empty names *)

(** C9, as the code has it.  The existence probe and the
    check-and-insert guard answer [false] for the empty raw name and
    leave the set alone, whatever it holds; the crawl drops a search
    entry without a name before any probe, navigation or save, so
    nothing is written for it; and the record built on the no-course
    path carries the fallback label in place of an empty name. *)
Theorem empty_name_has_no_identity (s : gset jsstring) :
  checkCompanyExists [] s = false
  /\ checkAndAddCompany [] s = (false, s)
  /\ (forall (W : Type) (host : Host W) (CONFIG : MynaviConfig) (polls : nat)
             (maxCompanies : option nat) (link : CompanyLink) (m : Machine W)
             (addedCompanyCount : nat),
         name link = [] ->
         processCompany CONFIG polls maxCompanies link m addedCompanyCount
         = Some (Next, m, addedCompanyCount))
  /\ (forall (companyMeta : CompanyMeta.t) (isPageUrl : jsstring),
         Csv.companyName (recordWithoutCourse [] companyMeta isPageUrl) = UNKNOWN_COMPANY).
Proof.
  split; [reflexivity |]. split; [reflexivity |]. split.
  - intros W host CONFIG polls maxCompanies link m added Hname.
    unfold processCompany. rewrite Hname. reflexivity.
  - intros. reflexivity.
Qed.

(** C9, counterexample.  [saveRecordIfNew] has no guard for the empty
    name: on an empty set it inserts the empty identity, writes the row
    with an empty name column instead of the fallback label, and
    reports the next nameless record as a duplicate.  And the crawl
    writes nothing at all for a search entry without a name. *)
Lemma empty_name_counterexample :
  (@saveRecordIfNew Sim (scripted namelessSite) None namelessRecord
     (initial start ∅ [])).1 = false
  /\ has [] (existingCompanies
               (@saveRecordIfNew Sim (scripted namelessSite) None namelessRecord
                  (initial start ∅ [])).2) = true
  /\ nth 7 (nth 0 (parseCsvContent
                      (csvFile (@saveRecordIfNew Sim (scripted namelessSite) None
                                  namelessRecord (initial start ∅ [])).2)) [])
         UNKNOWN_COMPANY = []
  /\ (@saveRecordIfNew Sim (scripted namelessSite) None namelessRecord
        (@saveRecordIfNew Sim (scripted namelessSite) None namelessRecord
           (initial start ∅ [])).2).1 = true
  /\ (csvFile ∘ final <$>
        @processAllCompaniesFromSearch Sim (scripted namelessSite) plainConfig 3 3 None
          (initial start ∅ [])) = Some [].
Proof. vm_compute. repeat split. Qed.

(** ** Relay failures *)

Section RelayFacts.
Context {W : Type} {host : Host W}.

Lemma postRowToGas_keeps_ledger (gas : GasConfig) (row : list jsstring) (m : Machine W) :
  csvFile (postRowToGas gas row m).2 = csvFile m
  /\ existingCompanies (postRowToGas gas row m).2 = existingCompanies m.
Proof.
  unfold postRowToGas.
  destruct (urlParses (uploadUrl gas)); [| split; reflexivity].
  cbn [negb]. destruct (fetchPost _ _) as [outcome w].
  destruct outcome as [| | status statusText text];
    try (split; reflexivity).
  destruct (statusOk status); split; reflexivity.
Qed.

End RelayFacts.

(** C6. [appendCsvRecord] writes the line to the ledger before the
    relay is contacted, and whatever the relay does (the upload URL does
    not parse, the request is aborted by the ten-second timer, the
    network fails, the answer is not 2xx, or the answer is fine) the
    routine returns normally with the ledger holding the old text
    followed by the new line and the dedup set untouched; each failure
    leaves an error entry after the append.  A new record is therefore
    reported as saved by [saveRecordIfNew] whatever the relay does. *)
Theorem relay_failure_is_contained {W : Type} {host : Host W}
        (record : CsvRecord) (gas : GasConfig) (m : Machine W) :
  let source := listSource (formatTimestamp (toISOString (world m))) in
  let line := csvLine record source in
  let request := relayRequest gas (csvRow record source) in
  let m' := appendCsvRecord record (Some gas) m in
  csvFile m' = csvFile m ++ line
  /\ existingCompanies m' = existingCompanies m
  /\ (exists relay,
        trace m' = trace m ++ EvAppendCsv line :: relay
        /\ (if negb (urlParses (uploadUrl gas))
            then relay = [EvRelayError InvalidUploadUrl]
            else
              match (fetchPost request (world m)).1 with
              | FetchAborted => relay = [EvRelayPost request; EvRelayError RelayTimeout]
              | FetchRejected => relay = [EvRelayPost request; EvRelayError RelayNetworkError]
              | FetchResponse status statusText text =>
                  if statusOk status
                  then exists answer, relay = [EvRelayPost request; EvRelayAnswer answer]
                  else relay = [EvRelayPost request;
                                EvRelayError (RelayHttpError status statusText text)]
              end))
  /\ (has (normalizeCompanyName (Csv.companyName record)) (existingCompanies m) = false ->
      (saveRecordIfNew (Some gas) record m).1 = false
      /\ csvFile (saveRecordIfNew (Some gas) record m).2 = csvFile m ++ line).
Proof.
  intros source line request m'.
  assert (Hshape :
            csvFile m' = csvFile m ++ line
            /\ existingCompanies m' = existingCompanies m
            /\ exists relay,
                trace m' = trace m ++ EvAppendCsv line :: relay
                /\ (if negb (urlParses (uploadUrl gas))
                    then relay = [EvRelayError InvalidUploadUrl]
                    else
                      match (fetchPost request (world m)).1 with
                      | FetchAborted => relay = [EvRelayPost request; EvRelayError RelayTimeout]
                      | FetchRejected =>
                          relay = [EvRelayPost request; EvRelayError RelayNetworkError]
                      | FetchResponse status statusText text =>
                          if statusOk status
                          then exists answer, relay = [EvRelayPost request; EvRelayAnswer answer]
                          else relay = [EvRelayPost request;
                                        EvRelayError (RelayHttpError status statusText text)]
                      end)).
  { subst m'. unfold appendCsvRecord, postRowToGas.
    fold source. fold line. fold request.
    destruct (urlParses (uploadUrl gas)); cbn [negb].
    - cbn [appendFileSync emit world setWorld].
      destruct (fetchPost request (world m)) as [outcome w]. cbn [fst].
      destruct outcome as [| | status statusText text].
      + cbn. rewrite <- !app_assoc. split; [reflexivity |]. split; [reflexivity |].
        eexists. split; reflexivity.
      + cbn. rewrite <- !app_assoc. split; [reflexivity |]. split; [reflexivity |].
        eexists. split; reflexivity.
      + destruct (statusOk status); cbn; rewrite <- !app_assoc;
          (split; [reflexivity |]); (split; [reflexivity |]);
          eexists; (split; [reflexivity |]); [eexists |]; reflexivity.
    - cbn. rewrite <- !app_assoc. split; [reflexivity |]. split; [reflexivity |].
      eexists. split; reflexivity. }
  destruct Hshape as (Hfile & Hset & Hrelay).
  split; [exact Hfile |]. split; [exact Hset |]. split; [exact Hrelay |].
  intros Hnew. unfold saveRecordIfNew. rewrite Hnew. cbn [fst snd].
  split; [reflexivity |].
  unfold appendCsvRecord. cbn [world addCompany].
  fold source. fold line.
  destruct (postRowToGas gas (csvRow record source)
              (appendFileSync line (addCompany (normalizeCompanyName (Csv.companyName record)) m)))
    as [[resp | err] m2] eqn:Hpost;
    pose proof (postRowToGas_keeps_ledger gas (csvRow record source)
                  (appendFileSync line
                     (addCompany (normalizeCompanyName (Csv.companyName record)) m)))
      as [Hkeep _];
    rewrite Hpost in Hkeep; cbn [snd] in Hkeep; cbn [emit csvFile];
    rewrite Hkeep; reflexivity.
Qed.

Example relay_timeout_after_append :
  let m' := @appendCsvRecord Sim (scripted namelessSite) awkwardRecord
              (Some sampleRelay) (initial start ∅ (lit "header" ++ [LF])) in
  List.map (fun e => match e with
                     | EvAppendCsv _ => 1
                     | EvRelayPost _ => 2
                     | EvRelayError RelayTimeout => 3
                     | _ => 0
                     end) (trace m') = [1; 2; 3]
  /\ length (parseCsvContent (csvFile m')) = 2%nat.
Proof. vm_compute. split; reflexivity. Qed.

(** ** Configuration at startup *)

Section ConfigFacts.

Lemma loadConfig_fallback file envMax e :
  readConfig file envMax = inr e -> loadConfig file envMax = (defaultConfig, true).
Proof. intros H. unfold loadConfig. rewrite H. reflexivity. Qed.

Lemma readConfig_missing_search_url parsed envMax :
  (forall s, parsed_SEARCH_URL parsed = JString s -> s = []) ->
  readConfig (Some parsed) envMax = inr MissingSearchUrl.
Proof.
  intros H. unfold readConfig.
  destruct (parsed_SEARCH_URL parsed) as [| | | | s |]; try reflexivity.
  destruct s as [| c s]; [reflexivity |].
  specialize (H (c :: s) eq_refl). discriminate.
Qed.

Lemma sync_skipped_without_settings {W : Type} {sheet : SheetHost W}
      (config : MynaviConfig) (m : SessionMachine W) :
  present (SPREADSHEET_URL config) = false \/ present (CSV_PATH config) = false ->
  downloadCsvFromSpreadsheet config m = (SyncSkipped, semit SevSyncSkipped m).
Proof.
  intros H. unfold downloadCsvFromSpreadsheet.
  destruct H as [H | H]; rewrite H; cbn [negb orb]; [reflexivity |].
  rewrite orb_true_r. reflexivity.
Qed.

End ConfigFacts.

(** C8, as the code has it.  A configuration file that cannot be read
    or parsed, or that has no non-empty string [SEARCH_URL], is not
    fatal: [loadConfig] warns and returns the built-in configuration,
    and startup goes on to the crawl with spreadsheet sync skipped and
    the relay off.  [getSheetConfig] raises a configuration error when
    the spreadsheet URL is missing.  When the loaded configuration has
    a spreadsheet URL and a CSV path and the URL is of the wrong form,
    startup ends with a non-zero exit before anything is requested.
    When the spreadsheet URL or the CSV path is missing, startup goes
    on to the crawl with the sync skipped; a missing relay URL only
    leaves the relay off. *)
Theorem config_fallback_and_optional_features
        {W : Type} {sheet : SheetHost W}
        (parsed : ParsedConfig) (envMax : option jsstring)
        (config : MynaviConfig) (m : SessionMachine W) :
  (forall s, parsed_SEARCH_URL parsed = JString s -> s = []) ->
  (loadConfig (Some parsed) envMax = (defaultConfig, true)
   /\ loadConfig None envMax = (defaultConfig, true)
   /\ startup (Some parsed) envMax m
      = (Crawling defaultConfig None SyncSkipped, semit SevSyncSkipped m))
  /\ (present (SPREADSHEET_URL config) = false ->
      getSheetConfig config = inr MissingSpreadsheetUrl)
  /\ (present (SPREADSHEET_URL config) = true -> present (CSV_PATH config) = true ->
      (forall url, SPREADSHEET_URL config = Some url -> matchSheetId url = None) ->
      (downloadCsvFromSpreadsheet config m).1
      = SyncFailed (SheetConfigError BadSpreadsheetUrl)
      /\ forall file env,
          (loadConfig file env).1 = config ->
          startup file env m = (ExitNonZero (SheetConfigError BadSpreadsheetUrl), m))
  /\ (present (GAS_UPLOAD_URL config) = false -> getGasConfig config = None)
  /\ (present (SPREADSHEET_URL config) = false \/ present (CSV_PATH config) = false ->
      downloadCsvFromSpreadsheet config m = (SyncSkipped, semit SevSyncSkipped m)
      /\ forall file env,
          (loadConfig file env).1 = config ->
          startup file env m
          = (Crawling config (getGasConfig config) SyncSkipped, semit SevSyncSkipped m)).
Proof.
  intros Hmissing.
  assert (Hload : loadConfig (Some parsed) envMax = (defaultConfig, true)).
  { eapply loadConfig_fallback. apply readConfig_missing_search_url. exact Hmissing. }
  split; [| split; [| split; [| split]]].
  - split; [exact Hload |]. split; [reflexivity |].
    unfold startup. rewrite Hload.
    rewrite sync_skipped_without_settings by (left; reflexivity). reflexivity.
  - intros Hurl. unfold getSheetConfig.
    destruct (SPREADSHEET_URL config) as [[| c s] |]; try reflexivity.
    discriminate.
  - intros Hurl Hpath Hbad.
    assert (Hsync : downloadCsvFromSpreadsheet config m
                    = (SyncFailed (SheetConfigError BadSpreadsheetUrl), m)).
    { unfold downloadCsvFromSpreadsheet.
      rewrite Hurl, Hpath. cbn [negb orb]. unfold getSheetConfig.
      destruct (SPREADSHEET_URL config) as [[| c s] |] eqn:Hsheet; try discriminate.
      destruct (CSV_PATH config) as [[| d p] |]; try discriminate.
      cbn [spreadsheetUrl]. unfold ensureSessionAndDownload, buildCsvExportUrl.
      rewrite (Hbad (c :: s) eq_refl). reflexivity. }
    split; [rewrite Hsync; reflexivity |].
    intros file env Hfile. unfold startup.
    destruct (loadConfig file env) as [CONFIG warned]. cbn [fst] in Hfile. subst CONFIG.
    rewrite Hsync. reflexivity.
  - intros Hgas. unfold getGasConfig.
    destruct (GAS_UPLOAD_URL config) as [[| c s] |]; try reflexivity.
    discriminate.
  - intros Hoff.
    pose proof (sync_skipped_without_settings config m Hoff) as Hsync.
    split; [exact Hsync |].
    intros file env Hfile. unfold startup.
    destruct (loadConfig file env) as [CONFIG warned]. cbn [fst] in Hfile. subst CONFIG.
    rewrite Hsync. reflexivity.
Qed.

Lemma config_fallback_witness :
  loadConfig (Some noSearchUrl) (Some (lit "25")) = (defaultConfig, true)
  /\ getSheetConfig sheetOnlyConfig = inr MissingSpreadsheetUrl
  /\ getGasConfig sheetOnlyConfig = None
  /\ @downloadCsvFromSpreadsheet nat (sheetService LaunchFailed) sheetOnlyConfig
       (withSession None)
     = (SyncSkipped, @semit nat SevSyncSkipped (withSession None))
  /\ @startup nat (sheetService LaunchFailed) (Some badSheetConfig) None (withSession None)
     = (ExitNonZero (SheetConfigError BadSpreadsheetUrl), withSession None)
  /\ @startup nat (sheetService LaunchFailed) (Some pathOnly) None (withSession None)
     = (Crawling (loadConfig (Some pathOnly) None).1 None SyncSkipped,
        @semit nat SevSyncSkipped (withSession None)).
Proof.
  assert (Hmissing : forall s, parsed_SEARCH_URL noSearchUrl = JString s -> s = [])
    by (intros s H; discriminate).
  pose proof (@config_fallback_and_optional_features nat (sheetService LaunchFailed)
                noSearchUrl (Some (lit "25")) sheetOnlyConfig (withSession None) Hmissing)
    as ((Hload & _ & _) & Hsheet & _ & Hgas & Hskip).
  pose proof (@config_fallback_and_optional_features nat (sheetService LaunchFailed)
                noSearchUrl None (loadConfig (Some badSheetConfig) None).1
                (withSession None) Hmissing)
    as (_ & _ & Hbad & _ & _).
  pose proof (@config_fallback_and_optional_features nat (sheetService LaunchFailed)
                noSearchUrl None (loadConfig (Some pathOnly) None).1
                (withSession None) Hmissing)
    as (_ & _ & _ & _ & Hoff).
  split; [exact Hload |].
  split; [apply Hsheet; reflexivity |].
  split; [apply Hgas; reflexivity |].
  split; [apply Hskip; left; reflexivity |].
  split.
  - apply Hbad; [reflexivity | reflexivity | | reflexivity].
    intros url [= <-]. vm_compute. reflexivity.
  - apply (Hoff ltac:(left; reflexivity)). reflexivity.
Defined.

(** C8, counterexample.  A configuration file without [SEARCH_URL] does
    not stop the program: the loader answers with the built-in search
    URL and startup reaches the crawl.  Nor does a CSV path without a
    spreadsheet URL: the sync is skipped.  What does end startup with a
    non-zero exit is a spreadsheet URL of the wrong form. *)
Lemma missing_search_url_counterexample :
  readConfig (Some noSearchUrl) None = inr MissingSearchUrl
  /\ loadConfig (Some noSearchUrl) None = (defaultConfig, true)
  /\ (@startup nat (sheetService LaunchFailed) (Some noSearchUrl) None (withSession None)).1
     = Crawling defaultConfig None SyncSkipped
  /\ (exists CONFIG,
        (@startup nat (sheetService LaunchFailed) (Some pathOnly) None (withSession None)).1
        = Crawling CONFIG None SyncSkipped
        /\ SPREADSHEET_URL CONFIG = None /\ CSV_PATH CONFIG = Some (lit "sheet.csv"))
  /\ (@startup nat (sheetService LaunchFailed) (Some badSheetConfig) None (withSession None)).1
     = ExitNonZero (SheetConfigError BadSpreadsheetUrl).
Proof.
  split; [reflexivity |]. split; [reflexivity |]. split; [reflexivity |].
  split; [| vm_compute; reflexivity].
  eexists. split; [vm_compute; reflexivity |]. split; reflexivity.
Qed.

(** ** Session replay *)

Section SessionFacts.
Context {W : Type} {sheet : SheetHost W}.

Lemma countIf_app {A : Type} (p : A -> bool) (l1 l2 : list A) :
  countIf p (l1 ++ l2) = (countIf p l1 + countIf p l2)%nat.
Proof. induction l1 as [| x l1 IH]; simpl; [reflexivity | rewrite IH; lia]. Qed.

(** What one request leaves behind. *)
Lemma downloadCsvWithSession_shape state csvUrl (m : SessionMachine W) :
  exists accepted,
    strace (downloadCsvWithSession state csvUrl m).2
    = strace m ++ [SevRequest state csvUrl accepted]
    /\ sessionFile (downloadCsvWithSession state csvUrl m).2 = sessionFile m
    /\ (accepted = true <-> exists text, (downloadCsvWithSession state csvUrl m).1 = inl text)
    /\ (accepted = false <-> exists e, (downloadCsvWithSession state csvUrl m).1 = inr e).
Proof.
  unfold downloadCsvWithSession.
  destruct (requestGet state csvUrl (sworld m)) as [outcome w].
  destruct outcome as [| status statusText text].
  - exists false. cbn. repeat split; try discriminate; eauto.
    intros [text H]. discriminate.
  - destruct (status =? 200); cbn [negb].
    + exists true. cbn. repeat split; try discriminate; eauto.
      intros [e H]. discriminate.
    + exists false. cbn. repeat split; try discriminate; eauto.
      intros [t H]. discriminate.
Qed.

End SessionFacts.

Section SessionRetry.
Context {W : Type} {sheet : SheetHost W}.

(** What a request answers, as [downloadCsvWithSession] reads it. *)
Lemma downloadCsvWithSession_result state csvUrl (m : SessionMachine W) :
  (downloadCsvWithSession state csvUrl m).1
  = match (requestGet state csvUrl (sworld m)).1 with
    | RequestThrew => inr CsvRequestFailed
    | Responded status statusText text =>
        if status =? 200 then inl text
        else inr (CsvRequestRefused status statusText (take 500 text))
    end.
Proof.
  unfold downloadCsvWithSession.
  destruct (requestGet state csvUrl (sworld m)) as [[| status statusText text] w];
    cbn [fst]; [reflexivity |].
  destruct (status =? 200); reflexivity.
Qed.

(** The capture and what follows it, from any state [m0] that the
    call has reached. *)
Lemma capture_and_retry spreadsheetUrl csvUrl (m0 : SessionMachine W) :
  let run :=
    match captureSessionInteractive spreadsheetUrl m0 with
    | (inr e, m1) => (inr e, m1)
    | (inl updatedState, m1) => downloadCsvWithSession updatedState csvUrl m1
    end in
  match operatorLogin spreadsheetUrl (sworld m0) with
  | (LaunchFailed, _) =>
      strace run.2 = strace m0 ++ [SevCaptureStarted spreadsheetUrl]
      /\ sessionFile run.2 = sessionFile m0
      /\ run.1 = inr ChromeLaunchFailed
  | (LoginFailed, _) =>
      strace run.2 = strace m0 ++ [SevCaptureStarted spreadsheetUrl; SevCaptureCleanup]
      /\ sessionFile run.2 = sessionFile m0
      /\ run.1 = inr CaptureAborted
  | (LoggedIn state, w) =>
      exists accepted,
        strace run.2
        = strace m0 ++ [SevCaptureStarted spreadsheetUrl; SevSaveSession state;
                        SevCaptureCleanup; SevRequest state csvUrl accepted]
        /\ sessionFile run.2 = Some state
        /\ run.1
           = match (requestGet state csvUrl w).1 with
             | RequestThrew => inr CsvRequestFailed
             | Responded status statusText text =>
                 if status =? 200 then inl text
                 else inr (CsvRequestRefused status statusText (take 500 text))
             end
        /\ (accepted = true <-> exists text, run.1 = inl text)
  end.
Proof.
  intros run. subst run. unfold captureSessionInteractive.
  destruct (operatorLogin spreadsheetUrl (sworld m0)) as [[| | state] w].
  - cbn. repeat split.
  - cbn. rewrite <- app_assoc. repeat split.
  - set (m1 := semit SevCaptureCleanup
                 (saveSession state
                    (semit (SevCaptureStarted spreadsheetUrl)
                       {| sworld := w; sessionFile := sessionFile m0;
                          strace := strace m0 |}))).
    destruct (downloadCsvWithSession_shape state csvUrl m1)
      as (accepted & Htrace & Hfile & Hyes & _).
    exists accepted. split.
    { rewrite Htrace. subst m1. cbn. rewrite <- !app_assoc. reflexivity. }
    split; [rewrite Hfile; reflexivity |].
    split; [apply downloadCsvWithSession_result | exact Hyes].
Qed.

End SessionRetry.

(** C5.  With a well-formed spreadsheet URL, [ensureSessionAndDownload]
    starts the interactive capture at most once.  When the saved
    session is accepted by the export request there is no capture at
    all: the one request is all that happens, its text is returned and
    the saved session is left as it was.  When there is no saved
    session, or the request made with it fails, the capture runs
    exactly once, from the state the call is then in.  If Chrome
    cannot be launched, or the login is broken off, the call fails
    with that, without a request.  If the operator logs in, the
    captured state is written to the session file, the browser is
    cleaned up and exactly one request is made with the captured
    state; nothing happens after it, and what it answers is what the
    call answers: its text, or its failure. *)
Theorem session_captured_at_most_once {W : Type} {sheet : SheetHost W}
        (spreadsheetUrl csvUrl : jsstring) (m : SessionMachine W) :
  buildCsvExportUrl spreadsheetUrl = inl csvUrl ->
  (countIf isCapture
     (drop (length (strace m)) (strace (ensureSessionAndDownload spreadsheetUrl m).2))
   <= 1)%nat
  /\ (forall saved text,
         sessionFile m = Some saved ->
         (downloadCsvWithSession saved csvUrl m).1 = inl text ->
         strace (ensureSessionAndDownload spreadsheetUrl m).2
         = strace m ++ [SevRequest saved csvUrl true]
         /\ (ensureSessionAndDownload spreadsheetUrl m).1 = inl text
         /\ sessionFile (ensureSessionAndDownload spreadsheetUrl m).2 = Some saved)
  /\ (forall (m0 : SessionMachine W) (before : list SessionEvent),
         (sessionFile m = None /\ m0 = m /\ before = [])
         \/ (exists saved e,
                sessionFile m = Some saved
                /\ (downloadCsvWithSession saved csvUrl m).1 = inr e
                /\ m0 = semit SevReplayRejected (downloadCsvWithSession saved csvUrl m).2
                /\ before = [SevRequest saved csvUrl false; SevReplayRejected]) ->
         strace m0 = strace m ++ before
         /\ sessionFile m0 = sessionFile m
         /\ match operatorLogin spreadsheetUrl (sworld m0) with
            | (LaunchFailed, _) =>
                strace (ensureSessionAndDownload spreadsheetUrl m).2
                = strace m ++ before ++ [SevCaptureStarted spreadsheetUrl]
                /\ sessionFile (ensureSessionAndDownload spreadsheetUrl m).2 = sessionFile m
                /\ (ensureSessionAndDownload spreadsheetUrl m).1 = inr ChromeLaunchFailed
            | (LoginFailed, _) =>
                strace (ensureSessionAndDownload spreadsheetUrl m).2
                = strace m ++ before ++ [SevCaptureStarted spreadsheetUrl; SevCaptureCleanup]
                /\ sessionFile (ensureSessionAndDownload spreadsheetUrl m).2 = sessionFile m
                /\ (ensureSessionAndDownload spreadsheetUrl m).1 = inr CaptureAborted
            | (LoggedIn state, w) =>
                exists accepted,
                  strace (ensureSessionAndDownload spreadsheetUrl m).2
                  = strace m ++ before
                      ++ [SevCaptureStarted spreadsheetUrl; SevSaveSession state;
                          SevCaptureCleanup; SevRequest state csvUrl accepted]
                  /\ sessionFile (ensureSessionAndDownload spreadsheetUrl m).2 = Some state
                  /\ (ensureSessionAndDownload spreadsheetUrl m).1
                     = match (requestGet state csvUrl w).1 with
                       | RequestThrew => inr CsvRequestFailed
                       | Responded status statusText text =>
                           if status =? 200 then inl text
                           else inr (CsvRequestRefused status statusText (take 500 text))
                       end
                  /\ (accepted = true
                      <-> exists text,
                          (ensureSessionAndDownload spreadsheetUrl m).1 = inl text)
            end).
Proof.
  intros Hurl.
  (* the fallback, once and for all *)
  assert (Hfallback :
            forall (m0 : SessionMachine W) (before : list SessionEvent),
              (sessionFile m = None /\ m0 = m /\ before = [])
              \/ (exists saved e,
                     sessionFile m = Some saved
                     /\ (downloadCsvWithSession saved csvUrl m).1 = inr e
                     /\ m0 = semit SevReplayRejected
                               (downloadCsvWithSession saved csvUrl m).2
                     /\ before = [SevRequest saved csvUrl false; SevReplayRejected]) ->
              strace m0 = strace m ++ before
              /\ sessionFile m0 = sessionFile m
              /\ ensureSessionAndDownload spreadsheetUrl m
                 = match captureSessionInteractive spreadsheetUrl m0 with
                   | (inr e, m1) => (inr e, m1)
                   | (inl updatedState, m1) => downloadCsvWithSession updatedState csvUrl m1
                   end).
  { intros m0 before [(Hnone & -> & ->) | (saved & e & Hsaved & Hfail & -> & ->)].
    - rewrite app_nil_r. split; [reflexivity |]. split; [reflexivity |].
      unfold ensureSessionAndDownload, loadSession. rewrite Hurl, Hnone. reflexivity.
    - destruct (downloadCsvWithSession_shape saved csvUrl m)
        as (accepted & Htrace & Hfile & _ & Hno).
      assert (accepted = false) as -> by (apply Hno; eauto).
      split; [cbn; rewrite Htrace, <- app_assoc; reflexivity |].
      split; [exact Hfile |].
      unfold ensureSessionAndDownload, loadSession. rewrite Hurl, Hsaved.
      destruct (downloadCsvWithSession saved csvUrl m) as [[text | e'] m1];
        [discriminate | reflexivity]. }
  split; [| split].
  - destruct (sessionFile m) as [saved |] eqn:Hsaved.
    + destruct (downloadCsvWithSession_shape saved csvUrl m)
        as (accepted & Htrace & Hfile & Hyes & Hno).
      destruct ((downloadCsvWithSession saved csvUrl m).1) as [text | e] eqn:Hreplay.
      * assert (Hrun : ensureSessionAndDownload spreadsheetUrl m
                       = downloadCsvWithSession saved csvUrl m).
        { unfold ensureSessionAndDownload, loadSession. rewrite Hurl, Hsaved.
          destruct (downloadCsvWithSession saved csvUrl m) as [[text' | e'] m1];
            [reflexivity | discriminate]. }
        rewrite Hrun, Htrace, drop_app_length. cbn. lia.
      * assert (Hcase :
                  (Some saved = None
                   /\ semit SevReplayRejected (downloadCsvWithSession saved csvUrl m).2 = m
                   /\ [SevRequest saved csvUrl false; SevReplayRejected] = [])
                  \/ (exists saved0 e0,
                         Some saved = Some saved0
                         /\ (downloadCsvWithSession saved0 csvUrl m).1 = inr e0
                         /\ semit SevReplayRejected (downloadCsvWithSession saved csvUrl m).2
                            = semit SevReplayRejected
                                (downloadCsvWithSession saved0 csvUrl m).2
                         /\ [SevRequest saved csvUrl false; SevReplayRejected]
                            = [SevRequest saved0 csvUrl false; SevReplayRejected])).
        { right. exists saved, e. repeat split. exact Hreplay. }
        destruct (Hfallback _ _ Hcase) as (Hbefore & _ & ->).
        pose proof (capture_and_retry spreadsheetUrl csvUrl
                      (semit SevReplayRejected (downloadCsvWithSession saved csvUrl m).2))
          as Hcapture.
        cbv zeta in Hcapture.
        destruct (operatorLogin spreadsheetUrl _) as [[| | state] w].
        -- destruct Hcapture as (-> & _). rewrite Hbefore, <- app_assoc, drop_app_length.
           cbn. lia.
        -- destruct Hcapture as (-> & _). rewrite Hbefore, <- app_assoc, drop_app_length.
           cbn. lia.
        -- destruct Hcapture as (accepted' & -> & _).
           rewrite Hbefore, <- app_assoc, drop_app_length. cbn. lia.
    + destruct (Hfallback m []) as (_ & _ & ->); [left; repeat split |].
      pose proof (capture_and_retry spreadsheetUrl csvUrl m) as Hcapture.
      cbv zeta in Hcapture.
      destruct (operatorLogin spreadsheetUrl _) as [[| | state] w].
      * destruct Hcapture as (-> & _). rewrite drop_app_length. cbn. lia.
      * destruct Hcapture as (-> & _). rewrite drop_app_length. cbn. lia.
      * destruct Hcapture as (accepted' & -> & _). rewrite drop_app_length. cbn. lia.
  - intros saved text Hsaved Hreplay.
    destruct (downloadCsvWithSession_shape saved csvUrl m)
      as (accepted & Htrace & Hfile & Hyes & _).
    assert (accepted = true) as -> by (apply Hyes; eauto).
    assert (Hrun : ensureSessionAndDownload spreadsheetUrl m
                   = downloadCsvWithSession saved csvUrl m).
    { unfold ensureSessionAndDownload, loadSession. rewrite Hurl, Hsaved.
      destruct (downloadCsvWithSession saved csvUrl m) as [[text' | e'] m1];
        [reflexivity | discriminate]. }
    rewrite Hrun. split; [exact Htrace |]. split; [exact Hreplay |].
    rewrite Hfile. exact Hsaved.
  - intros m0 before Hcase.
    destruct (Hfallback m0 before Hcase) as (Hbefore & Hfile & ->).
    split; [exact Hbefore |]. split; [exact Hfile |].
    pose proof (capture_and_retry spreadsheetUrl csvUrl m0) as Hcapture.
    cbv zeta in Hcapture.
    destruct (operatorLogin spreadsheetUrl (sworld m0)) as [[| | state] w].
    + destruct Hcapture as (Htrace & Hsession & Hresult).
      rewrite Htrace, Hbefore, Hsession, Hfile, <- app_assoc. repeat split. exact Hresult.
    + destruct Hcapture as (Htrace & Hsession & Hresult).
      rewrite Htrace, Hbefore, Hsession, Hfile, <- app_assoc. repeat split. exact Hresult.
    + destruct Hcapture as (accepted & Htrace & Hsession & Hresult & Hyes).
      exists accepted. rewrite Htrace, Hbefore, <- app_assoc.
      split; [reflexivity |]. split; [exact Hsession |]. split; [exact Hresult | exact Hyes].
Qed.

Lemma session_captured_at_most_once_witness :
  (exists accepted,
      strace (@ensureSessionAndDownload nat (sheetService (LoggedIn freshState)) sheetUrl
                (withSession (Some staleState))).2
      = [] ++ [SevRequest staleState
                 (lit "https://docs.google.com/spreadsheets/d/abc123/export?format=csv") false;
               SevReplayRejected]
           ++ [SevCaptureStarted sheetUrl;
               SevSaveSession freshState;
               SevCaptureCleanup;
               SevRequest freshState
                 (lit "https://docs.google.com/spreadsheets/d/abc123/export?format=csv")
                 accepted])
  /\ (exists accepted,
         strace (@ensureSessionAndDownload nat (sheetService (LoggedIn freshState)) sheetUrl
                   (withSession None)).2
         = [] ++ [] ++ [SevCaptureStarted sheetUrl;
                        SevSaveSession freshState;
                        SevCaptureCleanup;
                        SevRequest freshState
                          (lit "https://docs.google.com/spreadsheets/d/abc123/export?format=csv")
                          accepted]
         /\ sessionFile (@ensureSessionAndDownload nat (sheetService (LoggedIn freshState))
                           sheetUrl (withSession None)).2 = Some freshState
         /\ (@ensureSessionAndDownload nat (sheetService (LoggedIn freshState))
               sheetUrl (withSession None)).1 = inl (lit "name,phone")).
Proof.
  assert (Hurl : buildCsvExportUrl sheetUrl
                 = inl (lit "https://docs.google.com/spreadsheets/d/abc123/export?format=csv"))
    by (vm_compute; reflexivity).
  split.
  - destruct (@session_captured_at_most_once nat (sheetService (LoggedIn freshState))
                sheetUrl _ (withSession (Some staleState)) Hurl) as (_ & _ & Hfallback).
    destruct (Hfallback _ _
                (or_intror
                   (ex_intro _ staleState
                      (ex_intro _ (CsvRequestRefused 401 (lit "Unauthorized")
                                     (lit "login required"))
                         (conj eq_refl (conj eq_refl (conj eq_refl eq_refl)))))))
      as (_ & _ & accepted & Htrace & _).
    exists accepted. exact Htrace.
  - destruct (@session_captured_at_most_once nat (sheetService (LoggedIn freshState))
                sheetUrl _ (withSession None) Hurl) as (_ & _ & Hfallback).
    destruct (Hfallback _ _ (or_introl (conj eq_refl (conj eq_refl eq_refl))))
      as (_ & _ & accepted & Htrace & Hfile & Hresult & _).
    exists accepted. split; [exact Htrace |]. split; [exact Hfile | exact Hresult].
Defined.

Example replay_accepted_no_capture :
  strace (@ensureSessionAndDownload nat (sheetService LaunchFailed) sheetUrl
            (withSession (Some freshState))).2
  = [SevRequest freshState (lit "https://docs.google.com/spreadsheets/d/abc123/export?format=csv") true].
Proof. vm_compute. reflexivity. Qed.

Example retry_rejected_fails :
  let run := @ensureSessionAndDownload nat (sheetService (LoggedIn staleState)) sheetUrl
               (withSession None) in
  run.1 = inr (CsvRequestRefused 401 (lit "Unauthorized") (lit "login required"))
  /\ countIf isCapture (strace run.2) = 1%nat
  /\ countIf isRequest (strace run.2) = 1%nat.
Proof. vm_compute. repeat split. Qed.

(** ** Choice of the course *)

Section ScoreFacts.

Lemma score_table (c : CourseData.t) :
  score c = match hasPhone c, hasEmail c with
            | true, true => 3
            | true, false => 2
            | false, true => 1
            | false, false => 0
            end%nat.
Proof. unfold score. destruct (hasPhone c), (hasEmail c); reflexivity. Qed.

Lemma score_complete (c : CourseData.t) :
  score c = 3%nat <-> hasPhone c && hasEmail c = true.
Proof.
  rewrite score_table. destruct (hasPhone c), (hasEmail c); cbn; split;
    intros H; try reflexivity; discriminate.
Qed.

Lemma score_withCompanyName (n : jsstring) (c : CourseData.t) :
  score (withCompanyName n c) = score c.
Proof. reflexivity. Qed.

Lemma head_insertByScore (x : CourseData.t) (sorted : list CourseData.t) :
  head (insertByScore x sorted) =
  match head sorted with
  | None => Some x
  | Some y => if (score y <=? score x)%nat then Some x else Some y
  end.
Proof.
  destruct sorted as [| y rest]; [reflexivity |].
  cbn. destruct (score y <=? score x)%nat; reflexivity.
Qed.

Lemma bestCourse_first_best (l : list CourseData.t) :
  l <> [] -> exists best, bestCourse l = Some best /\ FirstBest l best.
Proof.
  induction l as [| x rest IH]; [congruence |]. intros _.
  unfold bestCourse in *. cbn [sortByScore]. rewrite head_insertByScore.
  destruct rest as [| y rest'].
  - exists x. split; [reflexivity |]. exists [], []. repeat split; constructor.
  - destruct IH as (best & Hbest & before & after & Hl & Hbefore & Hafter);
      [discriminate |].
    rewrite Hbest.
    destruct (score best <=? score x)%nat eqn:Hcmp.
    + apply Nat.leb_le in Hcmp. exists x. split; [reflexivity |].
      exists [], (y :: rest'). split; [reflexivity |]. split; [constructor |].
      rewrite Hl. apply Forall_app. split.
      * eapply Forall_impl; [exact Hbefore |]. cbn. intros c Hc. lia.
      * constructor; [exact Hcmp |].
        eapply Forall_impl; [exact Hafter |]. cbn. intros c Hc. lia.
    + apply Nat.leb_gt in Hcmp. exists best. split; [reflexivity |].
      exists (x :: before), after. split; [rewrite Hl; reflexivity |].
      split; [constructor; assumption | assumption].
Qed.

Lemma bestCourse_none (l : list CourseData.t) : bestCourse l = None <-> l = [].
Proof.
  split; [| intros ->; reflexivity].
  destruct l as [| x rest]; [reflexivity |]. intros H.
  destruct (bestCourse_first_best (x :: rest)) as (best & Hbest & _); [discriminate |].
  congruence.
Qed.

Lemma endsAtCompleteCourse_spec (events : list Event) :
  endsAtCompleteCourse events = true ->
  forall before target data after,
    events = before ++ EvExtractTable target (TableFound data) :: after ->
    score data = 3%nat -> after = [].
Proof.
  induction events as [| e rest IH]; intros Hends before target data after Hsplit Hscore.
  - destruct before; discriminate.
  - apply score_complete in Hscore.
    destruct before as [| b before'].
    + cbn in Hsplit. injection Hsplit as -> ->.
      cbn [endsAtCompleteCourse] in Hends. rewrite Hscore in Hends.
      destruct after; [reflexivity | discriminate].
    + cbn in Hsplit. injection Hsplit as -> Hrest.
      apply (IH) with (before := before') (target := target) (data := data);
        [| exact Hrest | apply score_complete; exact Hscore].
      cbn [endsAtCompleteCourse] in Hends.
      destruct b as [| | | | | | | | | | | | u [| | d] | | | | | | |]; try exact Hends.
      destruct (hasPhone d && hasEmail d); [| exact Hends].
      rewrite Hrest in Hends. destruct before'; discriminate.
Qed.

Lemma endsAtCompleteCourse_skip (segment rest : list Event) :
  Forall (fun e => isFetch e = false) segment ->
  endsAtCompleteCourse (segment ++ rest) = endsAtCompleteCourse rest.
Proof.
  induction segment as [| e segment IH]; intros Hquiet; [reflexivity |].
  inversion Hquiet as [| ? ? He Hrest]; subst.
  cbn [app]. destruct e; try discriminate; cbn [endsAtCompleteCourse]; apply IH; exact Hrest.
Qed.

End ScoreFacts.

(** ** The crawl: shape of what each step leaves in the trace *)

Section CrawlShapes.
Context {W : Type} {host : Host W}.

Lemma pauseLoop_shape (polls : nat) :
  forall (m m' : Machine W),
    pauseLoop polls m = Some m' ->
    exists timers,
      trace m' = trace m ++ timers
      /\ Forall isPauseTimer timers
      /\ csvFile m' = csvFile m
      /\ existingCompanies m' = existingCompanies m.
Proof.
  induction polls as [| polls IH]; intros m m' Hrun; cbn in Hrun.
  - destruct (isPaused (world m) && negb (shouldStop (world m))); [discriminate |].
    injection Hrun as <-. exists []. rewrite app_nil_r. repeat split. constructor.
  - destruct (isPaused (world m) && negb (shouldStop (world m))).
    + apply IH in Hrun. destruct Hrun as (timers & Htrace & Htimers & Hfile & Hset).
      exists (EvTimer 500 :: timers). cbn in Htrace. rewrite <- app_assoc in Htrace.
      repeat split; try assumption. constructor; [reflexivity | assumption].
    + injection Hrun as <-. exists []. rewrite app_nil_r. repeat split. constructor.
Qed.

Lemma waitIfPaused_shape (polls : nat) (m m' : Machine W) :
  waitIfPaused polls m = Some m' ->
  exists timers,
    trace m' = trace m ++ EvWaitIfPaused :: timers
    /\ Forall isPauseTimer timers
    /\ csvFile m' = csvFile m
    /\ existingCompanies m' = existingCompanies m.
Proof.
  unfold waitIfPaused. intros Hrun. apply pauseLoop_shape in Hrun.
  destruct Hrun as (timers & Htrace & Htimers & Hfile & Hset).
  exists timers. cbn in Htrace. rewrite <- app_assoc in Htrace.
  repeat split; assumption.
Qed.

(** An operator who never pauses does not hold the crawl up. *)
Lemma waitIfPaused_not_paused (polls : nat) (m : Machine W) :
  isPaused (world m) = false -> waitIfPaused polls m = Some (emit EvWaitIfPaused m).
Proof.
  intros Hrun. unfold waitIfPaused.
  destruct polls; cbn; rewrite Hrun; reflexivity.
Qed.

Lemma pauseTimers_not_fetch (timers : list Event) :
  Forall isPauseTimer timers -> Forall (fun e => isFetch e = false) timers.
Proof.
  intros Htimers. eapply Forall_impl; [exact Htimers |].
  intros e ->. reflexivity.
Qed.

Section WithConfig.
Variable CONFIG : MynaviConfig.

(** The course loop stops reading at the first complete course. *)
Lemma courseLoop_early_exit (polls : nat) (finalCompanyName : jsstring)
      (courseLinks : list jsstring) :
  forall (courseDataList : list CourseData.t) (m : Machine W) collected m',
    courseLoop polls finalCompanyName courseLinks courseDataList m
    = Some (Collected collected m') ->
    exists events found,
      trace m' = trace m ++ events
      /\ collected = courseDataList ++ found
      /\ endsAtCompleteCourse events = true
      /\ (forall before c after,
             found = before ++ c :: after -> score c = 3%nat -> after = []).
Proof.
  induction courseLinks as [| courseUrl rest IH];
    intros courseDataList m collected m' Hrun; cbn [courseLoop] in Hrun.
  - injection Hrun as <- <-. exists [], []. rewrite !app_nil_r.
    repeat split. intros before c after H. destruct before; discriminate.
  - destruct (shouldStop (world (emit (EvCourseTop courseUrl) m))).
    { injection Hrun as <- <-. exists [EvCourseTop courseUrl], [].
      rewrite app_nil_r. repeat split.
      intros before c after H. destruct before; discriminate. }
    destruct (waitIfPaused polls (emit (EvCourseTop courseUrl) m)) as [m1 |] eqn:Hwait;
      [| discriminate].
    apply waitIfPaused_shape in Hwait.
    destruct Hwait as (timers & Htrace1 & Htimers & _ & _).
    unfold doExtractTable in Hrun.
    destruct (extractInternshipTable courseUrl finalCompanyName
                (world (waitForTimeout DELAY_MS m1))) as [outcome w] eqn:Hfetch.
    set (m2 := emit (EvExtractTable courseUrl outcome)
                 (setWorld w (waitForTimeout DELAY_MS m1))) in *.
    set (segment := [EvCourseTop courseUrl; EvWaitIfPaused] ++ timers ++ [EvTimer DELAY_MS]).
    assert (Htrace2 : trace m2 = trace m ++ segment ++ [EvExtractTable courseUrl outcome]).
    { subst m2 segment. cbn. rewrite Htrace1. cbn. rewrite <- !app_assoc. reflexivity. }
    assert (Hquiet : Forall (fun e => isFetch e = false) segment).
    { subst segment. cbn. repeat constructor. apply Forall_app. split.
      - apply pauseTimers_not_fetch. exact Htimers.
      - repeat constructor. }
    clearbody segment m2.
    destruct outcome as [| | data].
    + discriminate.
    + apply IH in Hrun. destruct Hrun as (events & found & Htrace & Hlist & Hends & Hlast).
      exists (segment ++ EvExtractTable courseUrl TableAbsent :: events), found.
      split; [rewrite Htrace, Htrace2, <- !app_assoc; reflexivity |].
      split; [exact Hlist |]. split; [| exact Hlast].
      rewrite endsAtCompleteCourse_skip by exact Hquiet. exact Hends.
    + destruct (hasPhone (withCompanyName finalCompanyName data)
                && hasEmail (withCompanyName finalCompanyName data)) eqn:Hcomplete.
      * injection Hrun as <- <-.
        exists (segment ++ [EvExtractTable courseUrl (TableFound data)]),
               [withCompanyName finalCompanyName data].
        split; [exact Htrace2 |]. split; [reflexivity |]. split.
        { rewrite endsAtCompleteCourse_skip by exact Hquiet.
          cbn [endsAtCompleteCourse]. change (hasPhone data && hasEmail data)
            with (hasPhone (withCompanyName finalCompanyName data)
                  && hasEmail (withCompanyName finalCompanyName data)).
          rewrite Hcomplete. reflexivity. }
        intros before c after H _.
        destruct before as [| b [| b' before']]; try discriminate.
        injection H as _ <-. reflexivity.
      * apply IH in Hrun.
        destruct Hrun as (events & found & Htrace & Hlist & Hends & Hlast).
        exists (segment ++ EvExtractTable courseUrl (TableFound data) :: events),
               (withCompanyName finalCompanyName data :: found).
        split; [rewrite Htrace, Htrace2, <- !app_assoc; reflexivity |].
        split; [rewrite Hlist, <- app_assoc; reflexivity |]. split.
        { rewrite endsAtCompleteCourse_skip by exact Hquiet.
          cbn [endsAtCompleteCourse]. change (hasPhone data && hasEmail data)
            with (hasPhone (withCompanyName finalCompanyName data)
                  && hasEmail (withCompanyName finalCompanyName data)).
          rewrite Hcomplete. exact Hends. }
        intros before c after H Hscore.
        destruct before as [| b before'].
        { cbn in H. injection H as <- _.
          apply score_complete in Hscore. congruence. }
        cbn in H. injection H as _ H. eapply Hlast; eassumption.
Qed.

End WithConfig.
End CrawlShapes.

(** ** Saving one record *)

Section SaveShapes.
Context {W : Type} {host : Host W}.
Implicit Types m : Machine W.

Lemma postRowToGas_shape (gas : GasConfig) (row : list jsstring) (m : Machine W) :
  exists relay,
    trace (postRowToGas gas row m).2 = trace m ++ relay
    /\ Forall IsRelay relay
    /\ csvFile (postRowToGas gas row m).2 = csvFile m
    /\ existingCompanies (postRowToGas gas row m).2 = existingCompanies m.
Proof.
  unfold postRowToGas.
  destruct (urlParses (uploadUrl gas)); cbn [negb].
  - destruct (fetchPost _ _) as [outcome w].
    exists [EvRelayPost (relayRequest gas row)].
    assert (Hrelay : Forall IsRelay [EvRelayPost (relayRequest gas row)])
      by (repeat constructor).
    destruct outcome as [| | status statusText text];
      try (repeat split; [exact Hrelay]).
    destruct (statusOk status); repeat split; exact Hrelay.
  - exists []. rewrite app_nil_r. repeat split. constructor.
Qed.

Lemma appendCsvRecord_shape (record : CsvRecord) (gasConfig : option GasConfig)
      (m : Machine W) :
  exists relay,
    trace (appendCsvRecord record gasConfig m)
    = trace m ++ EvAppendCsv (lineOf record m) :: relay
    /\ Forall IsRelay relay
    /\ csvFile (appendCsvRecord record gasConfig m) = csvFile m ++ lineOf record m
    /\ existingCompanies (appendCsvRecord record gasConfig m) = existingCompanies m.
Proof.
  unfold appendCsvRecord, lineOf.
  set (line := csvLine record (listSource (formatTimestamp (toISOString (world m))))).
  destruct gasConfig as [gas |].
  - set (row := csvRow record (listSource (formatTimestamp (toISOString (world m))))).
    destruct (postRowToGas_shape gas row (appendFileSync line m))
      as (relay & Htrace & Hrelay & Hfile & Hset).
    destruct (postRowToGas gas row (appendFileSync line m)) as [[resp | err] m2];
      cbn [snd] in *.
    + exists (relay ++ [EvRelayAnswer resp]). cbn [emit trace csvFile existingCompanies].
      rewrite Htrace, Hfile, Hset. cbn. rewrite <- !app_assoc.
      repeat split. apply Forall_app. split; [exact Hrelay | repeat constructor].
    + exists (relay ++ [EvRelayError err]). cbn [emit trace csvFile existingCompanies].
      rewrite Htrace, Hfile, Hset. cbn. rewrite <- !app_assoc.
      repeat split. apply Forall_app. split; [exact Hrelay | repeat constructor].
  - exists []. cbn. repeat split. constructor.
Qed.

Lemma saveRecordIfNew_shape (gasConfig : option GasConfig) (record : CsvRecord)
      (m : Machine W) :
  (has (normalizeCompanyName (Csv.companyName record)) (existingCompanies m) = true
   /\ saveRecordIfNew gasConfig record m = (true, m))
  \/ (has (normalizeCompanyName (Csv.companyName record)) (existingCompanies m) = false
      /\ (saveRecordIfNew gasConfig record m).1 = false
      /\ Saved record m (saveRecordIfNew gasConfig record m).2).
Proof.
  unfold saveRecordIfNew.
  destruct (has _ (existingCompanies m)); [left; split; reflexivity | right].
  split; [reflexivity |]. split; [reflexivity |]. cbn [snd].
  destruct (appendCsvRecord_shape record gasConfig
              (addCompany (normalizeCompanyName (Csv.companyName record)) m))
    as (relay & Htrace & Hrelay & Hfile & Hset).
  exists relay. repeat split; assumption.
Qed.

End SaveShapes.

(** ** Bookkeeping over traces *)

Section TraceFacts.

Lemma pausesFollow_weaken allowed previous events :
  pausesFollow allowed None events = true ->
  pausesFollow allowed previous events = true.
Proof.
  destruct events as [| e rest]; [reflexivity |]. cbn.
  destruct (isPauseWait e); [discriminate |]. cbn. destruct previous; auto.
Qed.

Lemma pausesFollow_app allowed previous first second :
  pausesFollow allowed previous first = true ->
  pausesFollow allowed None second = true ->
  pausesFollow allowed previous (first ++ second) = true.
Proof.
  revert previous. induction first as [| e rest IH]; intros previous Hfirst Hsecond.
  - cbn. apply pausesFollow_weaken. exact Hsecond.
  - cbn in *. apply andb_prop in Hfirst. destruct Hfirst as [He Hrest].
    rewrite He. cbn. apply IH; assumption.
Qed.

Lemma appendedLines_app first second :
  appendedLines (first ++ second) = appendedLines first ++ appendedLines second.
Proof.
  induction first as [| e rest IH]; [reflexivity |].
  destruct e; cbn; rewrite ?IH; reflexivity.
Qed.

Lemma pauseTimers_quiet allowed previous timers :
  Forall isPauseTimer timers ->
  pausesFollow allowed previous timers = true /\ appendedLines timers = [].
Proof.
  revert previous. induction timers as [| e rest IH]; intros previous Htimers.
  - split; reflexivity.
  - inversion Htimers as [| ? ? He Hrest]; subst. rewrite He. cbn.
    apply IH. exact Hrest.
Qed.

Lemma relay_quiet allowed previous relay :
  Forall IsRelay relay ->
  pausesFollow allowed previous relay = true /\ appendedLines relay = [].
Proof.
  revert previous. induction relay as [| e rest IH]; intros previous Hrelay.
  - split; reflexivity.
  - inversion Hrelay as [| ? ? He Hrest]; subst.
    destruct e; try discriminate; cbn; apply IH; exact Hrest.
Qed.

Lemma relay_no_work relay :
  Forall IsRelay relay -> Forall (fun e => startsWork e = false) relay.
Proof.
  intros Hrelay. eapply Forall_impl; [exact Hrelay |].
  intros e He. destruct e; try discriminate; reflexivity.
Qed.

End TraceFacts.

Section CrawlBookkeeping.
Context {W : Type} {host : Host W}.
Implicit Types m : Machine W.

Lemma Quiet_refl m : Quiet m m.
Proof. exists []. rewrite app_nil_r. repeat split. Qed.

Lemma Quiet_trans m m1 m2 : Quiet m m1 -> Quiet m1 m2 -> Quiet m m2.
Proof.
  intros (e1 & Ht1 & Hp1 & Ha1 & Hf1) (e2 & Ht2 & Hp2 & Ha2 & Hf2).
  exists (e1 ++ e2). rewrite Ht2, Ht1, <- app_assoc.
  split; [reflexivity |]. split; [apply pausesFollow_app; assumption |].
  split; [rewrite appendedLines_app, Ha1, Ha2; reflexivity | congruence].
Qed.

Lemma Quiet_emit e m m0 :
  isPauseWait e = false -> isAppend e = false -> Quiet m m0 -> Quiet m (emit e m0).
Proof.
  intros Hwait Happend Hq. eapply Quiet_trans; [exact Hq |].
  exists [e]. split; [reflexivity |]. cbn. rewrite Hwait. split; [reflexivity |].
  split; [| reflexivity]. destruct e; try reflexivity; discriminate.
Qed.

Lemma Quiet_setWorld w m m0 : Quiet m m0 -> Quiet m (setWorld w m0).
Proof. intros (e & Ht & Hp & Ha & Hf). exists e. repeat split; assumption. Qed.

Lemma Quiet_addCompany x m m0 : Quiet m m0 -> Quiet m (addCompany x m0).
Proof. intros (e & Ht & Hp & Ha & Hf). exists e. repeat split; assumption. Qed.

Lemma Quiet_waitForTimeout ms m m0 : Quiet m m0 -> Quiet m (waitForTimeout ms m0).
Proof.
  intros Hq. unfold waitForTimeout.
  apply Quiet_emit; [reflexivity | reflexivity |]. apply Quiet_setWorld. exact Hq.
Qed.

Lemma Quiet_doGoto target ok m m0 m1 :
  Quiet m m0 -> doGoto target m0 = (ok, m1) -> Quiet m m1.
Proof.
  unfold doGoto. destruct (goto target (world m0)) as [ok' w].
  intros Hq [= _ <-]. apply Quiet_emit; [reflexivity | reflexivity |].
  apply Quiet_setWorld. exact Hq.
Qed.

Lemma Quiet_doEvaluateOutline raw m m0 m1 :
  Quiet m m0 -> doEvaluateOutline m0 = (raw, m1) -> Quiet m m1.
Proof.
  unfold doEvaluateOutline. destruct (evaluateOutline (world m0)) as [raw' w].
  intros Hq [= _ <-]. apply Quiet_emit; [reflexivity | reflexivity |].
  apply Quiet_setWorld. exact Hq.
Qed.

Lemma Quiet_doQueryCourseLinks links m m0 m1 :
  Quiet m m0 -> doQueryCourseLinks m0 = (links, m1) -> Quiet m m1.
Proof.
  unfold doQueryCourseLinks. destruct (queryCourseLinks (world m0)) as [links' w].
  intros Hq [= _ <-]. apply Quiet_emit; [reflexivity | reflexivity |].
  apply Quiet_setWorld. exact Hq.
Qed.

Lemma Quiet_doExtractTable target hint outcome m m0 m1 :
  Quiet m m0 -> doExtractTable target hint m0 = (outcome, m1) -> Quiet m m1.
Proof.
  unfold doExtractTable.
  destruct (extractInternshipTable target hint (world m0)) as [outcome' w].
  intros Hq [= _ <-]. apply Quiet_emit; [reflexivity | reflexivity |].
  apply Quiet_setWorld. exact Hq.
Qed.

Lemma Quiet_doQueryCompanyLinks links m m0 m1 :
  Quiet m m0 -> doQueryCompanyLinks m0 = (links, m1) -> Quiet m m1.
Proof.
  unfold doQueryCompanyLinks. destruct (queryCompanyLinks (world m0)) as [links' w].
  intros Hq [= _ <-]. apply Quiet_emit; [reflexivity | reflexivity |].
  apply Quiet_setWorld. exact Hq.
Qed.

Lemma Quiet_doQueryNextButton button m m0 m1 :
  Quiet m m0 -> doQueryNextButton m0 = (button, m1) -> Quiet m m1.
Proof.
  unfold doQueryNextButton. destruct (queryNextButton (world m0)) as [button' w].
  intros Hq [= _ <-]. apply Quiet_emit; [reflexivity | reflexivity |].
  apply Quiet_setWorld. exact Hq.
Qed.

(** A pause wait right behind a loop head. *)
Lemma Quiet_top_wait top polls m m0 m1 :
  isLoopTop top = true ->
  Quiet m m0 -> waitIfPaused polls (emit top m0) = Some m1 -> Quiet m m1.
Proof.
  intros Htop Hq Hwait. apply waitIfPaused_shape in Hwait.
  destruct Hwait as (timers & Htrace & Htimers & Hfile & _).
  eapply Quiet_trans; [exact Hq |].
  destruct (pauseTimers_quiet isLoopTop (Some EvWaitIfPaused) timers Htimers)
    as [Hpauses Hnone].
  exists (top :: EvWaitIfPaused :: timers).
  split; [rewrite Htrace; cbn; rewrite <- app_assoc; reflexivity |].
  split.
  { cbn. rewrite Htop, Hpauses. destruct top; try discriminate; reflexivity. }
  split; [| exact Hfile].
  destruct top; try discriminate; cbn; exact Hnone.
Qed.

Lemma Quiet_top top m m0 : isLoopTop top = true -> Quiet m m0 -> Quiet m (emit top m0).
Proof.
  intros Htop Hq. apply Quiet_emit; [| | exact Hq];
    destruct top; try discriminate; reflexivity.
Qed.

End CrawlBookkeeping.

Section CrawlAccounts.
Context {W : Type} {host : Host W}.
Implicit Types m : Machine W.
Variable CONFIG : MynaviConfig.

Lemma Quiet_courseLoop polls finalCompanyName courseLinks :
  forall courseDataList (m m0 : Machine W) finish,
    Quiet m m0 ->
    courseLoop polls finalCompanyName courseLinks courseDataList m0 = Some finish ->
    Quiet m match finish with
            | Collected _ m1 => m1
            | CourseThrew m1 => m1
            end.
Proof.
  induction courseLinks as [| courseUrl rest IH];
    intros courseDataList m m0 finish Hq Hrun; cbn [courseLoop] in Hrun.
  - injection Hrun as <-. exact Hq.
  - destruct (shouldStop (world (emit (EvCourseTop courseUrl) m0))).
    { injection Hrun as <-. apply Quiet_top; [reflexivity | exact Hq]. }
    destruct (waitIfPaused polls (emit (EvCourseTop courseUrl) m0)) as [m1 |] eqn:Hwait;
      [| discriminate].
    assert (Hq1 : Quiet m m1)
      by (eapply Quiet_top_wait; [| exact Hq | exact Hwait]; reflexivity).
    destruct (doExtractTable courseUrl finalCompanyName (waitForTimeout DELAY_MS m1))
      as [outcome m2] eqn:Hfetch.
    assert (Hq2 : Quiet m m2).
    { eapply Quiet_doExtractTable; [| exact Hfetch]. apply Quiet_waitForTimeout. exact Hq1. }
    destruct outcome as [| | data].
    + injection Hrun as <-. exact Hq2.
    + eapply IH; [exact Hq2 | exact Hrun].
    + destruct (hasPhone (withCompanyName finalCompanyName data)
                && hasEmail (withCompanyName finalCompanyName data)).
      * injection Hrun as <-. exact Hq2.
      * eapply IH; [exact Hq2 | exact Hrun].
Qed.

(** The [try] block is the exploration followed by the save. *)
Lemma processCompany_factors polls maxCompanies link (m : Machine W) added :
  processCompany CONFIG polls maxCompanies link m added
  = match explore polls link m with
    | None => None
    | Some plan => Some (settle CONFIG maxCompanies plan added)
    end.
Proof.
  unfold processCompany, explore, entityFailed.
  destruct (negb (truthy (name link))); [reflexivity |].
  destruct (checkCompanyExists (name link) (existingCompanies m)); [reflexivity |].
  destruct (doGoto (url link) (waitForTimeout DELAY_MS m)) as [ok m1].
  destruct (negb ok); [reflexivity |].
  destruct (doEvaluateOutline m1) as [[raw |] m2]; [| reflexivity].
  destruct (negb (includes (pageUrl (world m2)) (lit "outline"))); [reflexivity |].
  destruct (negb (truthy (replaceFirst (lit "outline") (lit "is") (pageUrl (world m2)))));
    [reflexivity |].
  destruct (doGoto _ (waitForTimeout DELAY_MS m2)) as [ok' m3].
  destruct (negb ok'); [reflexivity |].
  destruct (doQueryCourseLinks m3) as [[| courseUrl rest] m4].
  - destruct (doExtractTable _ (name link) m4) as [[| | dataOnIs] m5]; reflexivity.
  - destruct (courseLoop polls (name link) (courseUrl :: rest) [] m4)
      as [[courseDataList m5 | m5] |]; reflexivity.
Qed.

Lemma Quiet_explore polls link (m m0 : Machine W) plan :
  Quiet m m0 -> explore polls link m0 = Some plan -> Quiet m (planMachine plan).
Proof.
  intros Hq Hrun. unfold explore in Hrun.
  destruct (negb (truthy (name link))); [injection Hrun as <-; exact Hq |].
  destruct (checkCompanyExists (name link) (existingCompanies m0)).
  { injection Hrun as <-. cbn [planMachine].
    apply Quiet_addCompany. apply Quiet_emit; [reflexivity | reflexivity | exact Hq]. }
  destruct (doGoto (url link) (waitForTimeout DELAY_MS m0)) as [ok m1] eqn:Hgoto.
  assert (Hq1 : Quiet m m1).
  { eapply Quiet_doGoto; [| exact Hgoto]. apply Quiet_waitForTimeout. exact Hq. }
  destruct (negb ok).
  { injection Hrun as <-. apply Quiet_emit; [reflexivity | reflexivity | exact Hq1]. }
  destruct (doEvaluateOutline m1) as [[raw |] m2] eqn:Houtline.
  2:{ injection Hrun as <-. apply Quiet_emit; [reflexivity | reflexivity |].
      eapply Quiet_doEvaluateOutline; [exact Hq1 | exact Houtline]. }
  assert (Hq2 : Quiet m m2) by (eapply Quiet_doEvaluateOutline; [exact Hq1 | exact Houtline]).
  destruct (negb (includes (pageUrl (world m2)) (lit "outline")));
    [injection Hrun as <-; exact Hq2 |].
  destruct (negb (truthy (replaceFirst (lit "outline") (lit "is") (pageUrl (world m2))))).
  { injection Hrun as <-. apply Quiet_waitForTimeout. exact Hq2. }
  destruct (doGoto _ (waitForTimeout DELAY_MS m2)) as [ok' m3] eqn:Hgoto'.
  assert (Hq3 : Quiet m m3).
  { eapply Quiet_doGoto; [| exact Hgoto']. apply Quiet_waitForTimeout. exact Hq2. }
  destruct (negb ok').
  { injection Hrun as <-. apply Quiet_emit; [reflexivity | reflexivity | exact Hq3]. }
  destruct (doQueryCourseLinks m3) as [[| courseUrl rest] m4] eqn:Hlinks;
    (assert (Hq4 : Quiet m m4)
      by (eapply Quiet_doQueryCourseLinks; [exact Hq3 | exact Hlinks])).
  - destruct (doExtractTable _ (name link) m4) as [outcome m5] eqn:Hfetch.
    assert (Hq5 : Quiet m m5) by (eapply Quiet_doExtractTable; [exact Hq4 | exact Hfetch]).
    destruct outcome; injection Hrun as <-; exact Hq5.
  - destruct (courseLoop polls (name link) (courseUrl :: rest) [] m4)
      as [finish |] eqn:Hloop; [| discriminate].
    pose proof (Quiet_courseLoop _ _ _ _ _ _ _ Hq4 Hloop) as Hq5.
    destruct finish; injection Hrun as <-; [exact Hq5 |].
    apply Quiet_emit; [reflexivity | reflexivity | exact Hq5].
Qed.

Lemma Account_refl added (m : Machine W) : Account added m m added.
Proof.
  exists []. rewrite !app_nil_r. cbn. repeat split. lia.
Qed.

Lemma Account_trans a (m : Machine W) a1 m1 a2 m2 :
  Account a m m1 a1 -> Account a1 m1 m2 a2 -> Account a m m2 a2.
Proof.
  intros (e1 & Ht1 & Hp1 & Ha1 & Hf1) (e2 & Ht2 & Hp2 & Ha2 & Hf2).
  exists (e1 ++ e2). rewrite Ht2, Ht1, <- app_assoc.
  split; [reflexivity |]. split; [apply pausesFollow_app; assumption |].
  rewrite appendedLines_app, length_app, concat_app.
  split; [lia |]. rewrite Hf2, Hf1, <- app_assoc. reflexivity.
Qed.

Lemma Quiet_Account added (m m' : Machine W) : Quiet m m' -> Account added m m' added.
Proof.
  intros (e & Ht & Hp & Ha & Hf). exists e. rewrite Ha. cbn. rewrite app_nil_r.
  repeat split; try assumption. lia.
Qed.

Lemma Saved_Account added record (m m' : Machine W) :
  Saved record m m' -> Account added m m' (S added).
Proof.
  intros (relay & Htrace & Hrelay & Hfile & _).
  destruct (relay_quiet isLoopTop (Some (EvAppendCsv (lineOf record m))) relay Hrelay)
    as [Hpauses Hnone].
  exists (EvAppendCsv (lineOf record m) :: relay).
  split; [exact Htrace |]. split; [cbn; exact Hpauses |].
  cbn. rewrite Hnone. cbn. rewrite app_nil_r. split; [lia | exact Hfile].
Qed.

(** What the save part does to the counter, whatever the cap. *)
Lemma settle_outcome maxCompanies plan added :
  let '(flow, m', added') := settle CONFIG maxCompanies plan added in
  (added' = added /\ m' = planMachine plan
   /\ (flow = Break -> capReached maxCompanies added = true))
  \/ (added' = S added
      /\ (exists record, Saved record (planMachine plan) m')
      /\ flow = if capReached maxCompanies (S added) then Break else Next).
Proof.
  destruct plan as [m | record m | finalCompanyName companyMeta isPageUrl courseDataList m];
    cbn [settle planMachine].
  - left. repeat split. discriminate.
  - unfold saveMinimal.
    destruct (saveRecordIfNew_shape (GAS_CONFIG CONFIG) record m)
      as [(_ & Hskip) | (_ & Hran & Hsaved)].
    + rewrite Hskip. left. repeat split. discriminate.
    + destruct (saveRecordIfNew (GAS_CONFIG CONFIG) record m) as [skipped m1].
      cbn [fst snd] in *. subst skipped.
      destruct (capReached maxCompanies (S added)); right; repeat split; eauto.
  - unfold persistCompany.
    destruct (bestCourse courseDataList) as [best |].
    + destruct (saveRecordIfNew_shape (GAS_CONFIG CONFIG)
                  (recordOfCourse finalCompanyName companyMeta best) m)
        as [(_ & Hskip) | (_ & Hran & Hsaved)].
      * rewrite Hskip.
        destruct (capReached maxCompanies added) eqn:Hcap; left; repeat split;
          intros; congruence.
      * destruct (saveRecordIfNew (GAS_CONFIG CONFIG)
                    (recordOfCourse finalCompanyName companyMeta best) m) as [skipped m1].
        cbn [fst snd] in *. subst skipped.
        destruct (capReached maxCompanies (S added)); right; repeat split; eauto.
    + unfold saveMinimal.
      destruct (saveRecordIfNew_shape (GAS_CONFIG CONFIG)
                  (recordWithoutTable finalCompanyName companyMeta isPageUrl) m)
        as [(_ & Hskip) | (_ & Hran & Hsaved)].
      * rewrite Hskip. left. repeat split. discriminate.
      * destruct (saveRecordIfNew (GAS_CONFIG CONFIG)
                    (recordWithoutTable finalCompanyName companyMeta isPageUrl) m)
          as [skipped m1].
        cbn [fst snd] in *. subst skipped.
        destruct (capReached maxCompanies (S added)); right; repeat split; eauto.
Qed.

Lemma Account_settle maxCompanies plan added flow m' added' :
  settle CONFIG maxCompanies plan added = (flow, m', added') ->
  Account added (planMachine plan) m' added'.
Proof.
  intros Hrun. pose proof (settle_outcome maxCompanies plan added) as Hout.
  rewrite Hrun in Hout.
  destruct Hout as [(-> & -> & _) | (-> & (record & Hsaved) & _)].
  - apply Account_refl.
  - eapply Saved_Account. exact Hsaved.
Qed.

Lemma Account_processCompany polls maxCompanies link (m : Machine W) added flow m' added' :
  processCompany CONFIG polls maxCompanies link m added = Some (flow, m', added') ->
  Account added m m' added'.
Proof.
  rewrite processCompany_factors.
  destruct (explore polls link m) as [plan |] eqn:Hplan; [| discriminate].
  intros [= Hsettle]. eapply Account_trans.
  - apply Quiet_Account. eapply Quiet_explore; [apply Quiet_refl | exact Hplan].
  - eapply Account_settle. exact Hsettle.
Qed.

Lemma Account_companyLoop polls maxCompanies companyData :
  forall (m : Machine W) added m' added',
    companyLoop CONFIG polls maxCompanies companyData m added = Some (m', added') ->
    Account added m m' added'.
Proof.
  induction companyData as [| link rest IH]; intros m added m' added' Hrun;
    cbn [companyLoop] in Hrun.
  - injection Hrun as <- <-. apply Account_refl.
  - assert (Htop : Account added m (emit (EvEntityTop (name link)) m) added).
    { apply Quiet_Account. apply Quiet_top; [reflexivity | apply Quiet_refl]. }
    destruct (shouldStop (world (emit (EvEntityTop (name link)) m))).
    { injection Hrun as <- <-. exact Htop. }
    destruct (capReached maxCompanies added).
    { injection Hrun as <- <-. exact Htop. }
    destruct (waitIfPaused polls (emit (EvEntityTop (name link)) m)) as [m1 |] eqn:Hwait;
      [| discriminate].
    assert (Hq1 : Account added m m1 added).
    { apply Quiet_Account.
      eapply Quiet_top_wait; [| apply Quiet_refl | exact Hwait]; reflexivity. }
    destruct (processCompany CONFIG polls maxCompanies link m1 added)
      as [[[flow m2] added2] |] eqn:Hcompany; [| discriminate].
    apply Account_processCompany in Hcompany.
    destruct flow.
    + eapply Account_trans; [exact Hq1 |]. eapply Account_trans; [exact Hcompany |].
      apply IH. exact Hrun.
    + injection Hrun as <- <-. eapply Account_trans; eassumption.
Qed.

Lemma Account_advance (m : Machine W) added :
  Account added m
    match advance m added with Halted _ m' _ => m' | Advance m' _ => m' end
    match advance m added with Halted _ _ a' => a' | Advance _ a' => a' end.
Proof.
  unfold advance.
  destruct (doQueryNextButton m) as [button m1] eqn:Hquery.
  assert (Hq : Quiet m m1) by (eapply Quiet_doQueryNextButton; [apply Quiet_refl | exact Hquery]).
  destruct button as [nextButtonClass |]; [| apply Quiet_Account; exact Hq].
  destruct (includes nextButtonClass (lit "disabled")); apply Quiet_Account; [exact Hq |].
  unfold doClickNext. apply Quiet_emit; [reflexivity | reflexivity |].
  apply Quiet_setWorld. apply Quiet_waitForTimeout. exact Hq.
Qed.

Lemma Account_pageIteration polls maxCompanies pageIndex (m : Machine W) added step :
  pageIteration CONFIG polls maxCompanies pageIndex m added = Some step ->
  Account added m
    match step with Halted _ m' _ => m' | Advance m' _ => m' end
    match step with Halted _ _ a' => a' | Advance _ a' => a' end.
Proof.
  unfold pageIteration. intros Hrun.
  assert (Htop : Account added m (emit (EvPageTop pageIndex) m) added).
  { apply Quiet_Account. apply Quiet_top; [reflexivity | apply Quiet_refl]. }
  destruct (shouldStop (world (emit (EvPageTop pageIndex) m))).
  { injection Hrun as <-. exact Htop. }
  destruct (capReached maxCompanies added).
  { injection Hrun as <-. exact Htop. }
  destruct (waitIfPaused polls (emit (EvPageTop pageIndex) m)) as [m1 |] eqn:Hwait;
    [| discriminate].
  assert (Hq1 : Quiet m m1)
    by (eapply Quiet_top_wait; [| apply Quiet_refl | exact Hwait]; reflexivity).
  destruct (doQueryCompanyLinks m1) as [companyData m2] eqn:Hlinks.
  assert (Hq2 : Quiet m m2) by (eapply Quiet_doQueryCompanyLinks; [exact Hq1 | exact Hlinks]).
  destruct (START_PAGE CONFIG <=? pageIndex)%nat.
  - destruct (companyLoop CONFIG polls maxCompanies companyData (doNewPage m2) added)
      as [[m3 added3] |] eqn:Hloop; [| discriminate].
    apply Account_companyLoop in Hloop.
    assert (Hq3 : Account added m (doClosePage m3) added3).
    { eapply Account_trans; [| eapply Account_trans; [exact Hloop |]].
      - apply Quiet_Account. unfold doNewPage.
        apply Quiet_emit; [reflexivity | reflexivity |]. apply Quiet_setWorld. exact Hq2.
      - apply Quiet_Account. unfold doClosePage.
        apply Quiet_emit; [reflexivity | reflexivity |]. apply Quiet_setWorld.
        apply Quiet_refl. }
    destruct (shouldStop (world (doClosePage m3))); [injection Hrun as <-; exact Hq3 |].
    destruct (capReached maxCompanies added3); [injection Hrun as <-; exact Hq3 |].
    injection Hrun as <-. eapply Account_trans; [exact Hq3 | apply Account_advance].
  - injection Hrun as <-.
    eapply Account_trans; [apply Quiet_Account; exact Hq2 | apply Account_advance].
Qed.

Lemma Account_pageLoop pages polls maxCompanies :
  forall pageIndex (m : Machine W) added finish,
    pageLoop CONFIG pages polls maxCompanies pageIndex m added = Some finish ->
    Account added m (final finish) (addedCompanyCount finish).
Proof.
  induction pages as [| pages IH]; intros pageIndex m added finish Hrun;
    cbn [pageLoop] in Hrun; [discriminate |].
  destruct (pageIteration CONFIG polls maxCompanies pageIndex m added) as [step |] eqn:Hstep;
    [| discriminate].
  apply Account_pageIteration in Hstep.
  destruct step as [reason m1 added1 | m1 added1].
  - injection Hrun as <-. exact Hstep.
  - eapply Account_trans; [exact Hstep |]. eapply IH. exact Hrun.
Qed.

End CrawlAccounts.

(** ** The courses of a company, from the pages to the record *)

Section CourseFacts.
Context {W : Type} {host : Host W}.
Implicit Types m : Machine W.
Variable CONFIG : MynaviConfig.

Lemma foundCourses_app n first second :
  foundCourses n (first ++ second) = foundCourses n first ++ foundCourses n second.
Proof.
  induction first as [| e rest IH]; [reflexivity |].
  destruct e as [| | | | | | | | | | | | target [| | data] | | | | | | |];
    cbn [app foundCourses]; rewrite ?IH; reflexivity.
Qed.

Lemma fetchTargets_app first second :
  fetchTargets (first ++ second) = fetchTargets first ++ fetchTargets second.
Proof.
  induction first as [| e rest IH]; [reflexivity |].
  destruct e; cbn [app fetchTargets]; rewrite ?IH; reflexivity.
Qed.

Lemma foundCourses_fetchless n events :
  Forall (fun e => isFetch e = false) events -> foundCourses n events = [].
Proof.
  induction events as [| e rest IH]; intros Hall; [reflexivity |].
  inversion Hall as [| ? ? He Hrest]; subst.
  destruct e; try discriminate; cbn [foundCourses]; apply IH; exact Hrest.
Qed.

Lemma fetchTargets_fetchless events :
  Forall (fun e => isFetch e = false) events -> fetchTargets events = [].
Proof.
  induction events as [| e rest IH]; intros Hall; [reflexivity |].
  inversion Hall as [| ? ? He Hrest]; subst.
  destruct e; try discriminate; cbn [fetchTargets]; apply IH; exact Hrest.
Qed.

Lemma relay_fetchless relay :
  Forall IsRelay relay -> Forall (fun e => isFetch e = false) relay.
Proof.
  intros Hrelay. eapply Forall_impl; [exact Hrelay |].
  intros e He. destruct e; try discriminate He; reflexivity.
Qed.

(** The course loop: what it fetched is a front part of the links, in
    their order; what it collected is what these fetches found; and
    the fetch that found a complete course is the last thing it did. *)
Lemma courseLoop_collects (polls : nat) (finalCompanyName : jsstring)
      (courseLinks : list jsstring) :
  forall (courseDataList : list CourseData.t) m finish,
    courseLoop polls finalCompanyName courseLinks courseDataList m = Some finish ->
    exists events,
      trace match finish with Collected _ m1 => m1 | CourseThrew m1 => m1 end
      = trace m ++ events
      /\ endsAtCompleteCourse events = true
      /\ (exists k, fetchTargets events = take k courseLinks)
      /\ match finish with
         | Collected collected _ =>
             collected = courseDataList ++ foundCourses finalCompanyName events
         | CourseThrew _ => True
         end.
Proof.
  induction courseLinks as [| courseUrl rest IH];
    intros courseDataList m finish Hrun; cbn [courseLoop] in Hrun.
  - injection Hrun as <-. exists []. rewrite !app_nil_r.
    repeat split. exists 0%nat. reflexivity.
  - destruct (shouldStop (world (emit (EvCourseTop courseUrl) m))).
    { injection Hrun as <-. exists [EvCourseTop courseUrl].
      rewrite app_nil_r. repeat split. exists 0%nat. reflexivity. }
    destruct (waitIfPaused polls (emit (EvCourseTop courseUrl) m)) as [m1 |] eqn:Hwait;
      [| discriminate].
    apply waitIfPaused_shape in Hwait.
    destruct Hwait as (timers & Htrace1 & Htimers & _ & _).
    unfold doExtractTable in Hrun.
    destruct (extractInternshipTable courseUrl finalCompanyName
                (world (waitForTimeout DELAY_MS m1))) as [outcome w] eqn:Hfetch.
    set (m2 := emit (EvExtractTable courseUrl outcome)
                 (setWorld w (waitForTimeout DELAY_MS m1))) in *.
    set (segment := [EvCourseTop courseUrl; EvWaitIfPaused] ++ timers ++ [EvTimer DELAY_MS]).
    assert (Htrace2 : trace m2 = trace m ++ segment ++ [EvExtractTable courseUrl outcome]).
    { subst m2 segment. cbn. rewrite Htrace1. cbn. rewrite <- !app_assoc. reflexivity. }
    assert (Hquiet : Forall (fun e => isFetch e = false) segment).
    { subst segment. cbn. repeat constructor. apply Forall_app. split.
      - apply pauseTimers_not_fetch. exact Htimers.
      - repeat constructor. }
    clearbody segment m2.
    assert (Hsegment : forall events,
               fetchTargets (segment ++ EvExtractTable courseUrl outcome :: events)
               = courseUrl :: fetchTargets events).
    { intros events.
      rewrite fetchTargets_app, (fetchTargets_fetchless _ Hquiet). reflexivity. }
    assert (Hfound : forall events,
               foundCourses finalCompanyName
                 (segment ++ EvExtractTable courseUrl outcome :: events)
               = foundCourses finalCompanyName [EvExtractTable courseUrl outcome]
                   ++ foundCourses finalCompanyName events).
    { intros events.
      rewrite foundCourses_app, (foundCourses_fetchless _ _ Hquiet).
      change (EvExtractTable courseUrl outcome :: events)
        with ([EvExtractTable courseUrl outcome] ++ events).
      rewrite foundCourses_app. reflexivity. }
    destruct outcome as [| | data].
    + injection Hrun as <-. exists (segment ++ [EvExtractTable courseUrl TableThrew]).
      split; [exact Htrace2 |]. split.
      { rewrite endsAtCompleteCourse_skip by exact Hquiet. reflexivity. }
      split; [| exact I]. exists 1%nat. rewrite Hsegment. reflexivity.
    + apply IH in Hrun. destruct Hrun as (events & Htrace & Hends & (k & Hk) & Hlist).
      exists (segment ++ EvExtractTable courseUrl TableAbsent :: events).
      split; [rewrite Htrace, Htrace2, <- !app_assoc; reflexivity |].
      split; [rewrite endsAtCompleteCourse_skip by exact Hquiet; exact Hends |].
      split; [exists (S k); rewrite Hsegment, Hk; reflexivity |].
      destruct finish; [| exact I]. rewrite Hfound. exact Hlist.
    + destruct (hasPhone (withCompanyName finalCompanyName data)
                && hasEmail (withCompanyName finalCompanyName data)) eqn:Hcomplete.
      * injection Hrun as <-.
        exists (segment ++ [EvExtractTable courseUrl (TableFound data)]).
        split; [exact Htrace2 |]. split.
        { rewrite endsAtCompleteCourse_skip by exact Hquiet.
          cbn [endsAtCompleteCourse]. change (hasPhone data && hasEmail data)
            with (hasPhone (withCompanyName finalCompanyName data)
                  && hasEmail (withCompanyName finalCompanyName data)).
          rewrite Hcomplete. reflexivity. }
        split; [exists 1%nat; rewrite Hsegment; reflexivity |].
        rewrite Hfound. reflexivity.
      * apply IH in Hrun. destruct Hrun as (events & Htrace & Hends & (k & Hk) & Hlist).
        exists (segment ++ EvExtractTable courseUrl (TableFound data) :: events).
        split; [rewrite Htrace, Htrace2, <- !app_assoc; reflexivity |].
        split.
        { rewrite endsAtCompleteCourse_skip by exact Hquiet.
          cbn [endsAtCompleteCourse]. change (hasPhone data && hasEmail data)
            with (hasPhone (withCompanyName finalCompanyName data)
                  && hasEmail (withCompanyName finalCompanyName data)).
          rewrite Hcomplete. exact Hends. }
        split; [exists (S k); rewrite Hsegment, Hk; reflexivity |].
        destruct finish; [| exact I]. rewrite Hfound, Hlist, <- app_assoc. reflexivity.
Qed.

(** Before the save a company is read in three parts: the way to its
    course pages, the fetches, and the failure note when a fetch
    throws.  The plan carries the name of the link and the courses
    that the fetches found. *)
Lemma explore_courses polls link m plan :
  explore polls link m = Some plan ->
  exists pre events post,
    trace (planMachine plan) = trace m ++ pre ++ events ++ post
    /\ Forall (fun e => isFetch e = false) pre
    /\ Forall (fun e => isFetch e = false) post
    /\ endsAtCompleteCourse events = true
    /\ match plan with
       | PlanNothing _ => True
       | PlanMinimal record _ =>
           foundCourses (name link) events = []
           /\ Csv.companyName record = name link
       | PlanPersist finalCompanyName _ _ courseDataList _ =>
           finalCompanyName = name link
           /\ courseDataList = foundCourses (name link) events
       end.
Proof.
  intros Hrun. unfold explore in Hrun.
  assert (Hnothing : forall m1 pre,
             trace m1 = trace m ++ pre ->
             Forall (fun e => isFetch e = false) pre ->
             exists pre events post,
               trace m1 = trace m ++ pre ++ events ++ post
               /\ Forall (fun e => isFetch e = false) pre
               /\ Forall (fun e => isFetch e = false) post
               /\ endsAtCompleteCourse events = true /\ True).
  { intros m1 pre Htrace Hpre. exists pre, [], []. rewrite !app_nil_r.
    repeat split; try assumption. constructor. }
  destruct (truthy (name link)) eqn:Hname; cbn [negb] in Hrun.
  2:{ injection Hrun as <-. apply (Hnothing m []); [rewrite app_nil_r; reflexivity | constructor]. }
  destruct (checkCompanyExists (name link) (existingCompanies m)).
  { injection Hrun as <-. apply (Hnothing _ [EvSkipKnown (name link)]);
      [reflexivity | repeat constructor]. }
  unfold doGoto, doEvaluateOutline, doQueryCourseLinks, doExtractTable in Hrun.
  destruct (goto (url link) (world (waitForTimeout DELAY_MS m))) as [ok w1].
  set (m1 := emit (EvGoto (url link) ok) (setWorld w1 (waitForTimeout DELAY_MS m))) in *.
  assert (H1 : trace m1 = trace m ++ [EvTimer DELAY_MS; EvGoto (url link) ok]).
  { subst m1. cbn. rewrite <- app_assoc. reflexivity. }
  clearbody m1.
  destruct ok; cbn [negb] in Hrun.
  2:{ injection Hrun as <-.
      apply (Hnothing _ [EvTimer DELAY_MS; EvGoto (url link) false; EvEntityFailed]);
        [cbn; rewrite H1, <- app_assoc; reflexivity | repeat constructor]. }
  destruct (evaluateOutline (world m1)) as [raw w2].
  set (m2 := emit EvEvaluateOutline (setWorld w2 m1)) in *.
  assert (H2 : trace m2
               = trace m ++ [EvTimer DELAY_MS; EvGoto (url link) true; EvEvaluateOutline]).
  { subst m2. cbn. rewrite H1, <- app_assoc. reflexivity. }
  clearbody m2.
  destruct raw as [raw |].
  2:{ injection Hrun as <-.
      apply (Hnothing _ [EvTimer DELAY_MS; EvGoto (url link) true; EvEvaluateOutline;
                         EvEntityFailed]);
        [cbn; rewrite H2, <- app_assoc; reflexivity | repeat constructor]. }
  destruct (negb (includes (pageUrl (world m2)) (lit "outline"))).
  { injection Hrun as <-. apply (Hnothing _ _ H2). repeat constructor. }
  set (isPageUrl := replaceFirst (lit "outline") (lit "is") (pageUrl (world m2))) in *.
  destruct (negb (truthy isPageUrl)).
  { injection Hrun as <-.
    apply (Hnothing _ [EvTimer DELAY_MS; EvGoto (url link) true; EvEvaluateOutline;
                       EvTimer DELAY_MS]);
      [cbn; rewrite H2, <- app_assoc; reflexivity | repeat constructor]. }
  destruct (goto isPageUrl (world (waitForTimeout DELAY_MS m2))) as [ok' w3].
  set (m3 := emit (EvGoto isPageUrl ok') (setWorld w3 (waitForTimeout DELAY_MS m2))) in *.
  assert (H3 : trace m3
               = trace m ++ [EvTimer DELAY_MS; EvGoto (url link) true; EvEvaluateOutline;
                             EvTimer DELAY_MS; EvGoto isPageUrl ok']).
  { subst m3. cbn. rewrite H2, <- !app_assoc. reflexivity. }
  clearbody m3.
  destruct ok'; cbn [negb] in Hrun.
  2:{ injection Hrun as <-.
      apply (Hnothing _ [EvTimer DELAY_MS; EvGoto (url link) true; EvEvaluateOutline;
                         EvTimer DELAY_MS; EvGoto isPageUrl false; EvEntityFailed]);
        [cbn; rewrite H3, <- app_assoc; reflexivity | repeat constructor]. }
  destruct (queryCourseLinks (world m3)) as [courseLinks w4].
  set (m4 := emit EvQueryCourseLinks (setWorld w4 m3)) in *.
  set (pre := [EvTimer DELAY_MS; EvGoto (url link) true; EvEvaluateOutline;
               EvTimer DELAY_MS; EvGoto isPageUrl true; EvQueryCourseLinks]).
  assert (H4 : trace m4 = trace m ++ pre).
  { subst m4 pre. cbn. rewrite H3, <- !app_assoc. reflexivity. }
  assert (Hpre : Forall (fun e => isFetch e = false) pre) by (repeat constructor).
  clearbody m4 pre.
  destruct courseLinks as [| courseUrl rest].
  - destruct (extractInternshipTable isPageUrl (name link) (world m4)) as [outcome w5].
    exists pre, [EvExtractTable isPageUrl outcome], [].
    assert (Htrace : trace (emit (EvExtractTable isPageUrl outcome) (setWorld w5 m4))
                     = trace m ++ pre ++ [EvExtractTable isPageUrl outcome] ++ []).
    { cbn. rewrite H4, <- app_assoc. reflexivity. }
    destruct outcome as [| | dataOnIs]; injection Hrun as <-; cbn [planMachine];
      (split; [exact Htrace |]); (split; [exact Hpre |]); (split; [constructor |]).
    + split; [reflexivity |]. split; [reflexivity |].
      cbn [recordWithoutCourse Csv.companyName]. unfold orElse. rewrite Hname. reflexivity.
    + split; [reflexivity |]. split; [reflexivity |].
      cbn [recordWithoutCourse Csv.companyName]. unfold orElse. rewrite Hname. reflexivity.
    + split; [cbn [endsAtCompleteCourse];
             destruct (hasPhone dataOnIs && hasEmail dataOnIs); reflexivity |].
      split; reflexivity.
  - destruct (courseLoop polls (name link) (courseUrl :: rest) [] m4)
      as [finish |] eqn:Hloop; [| discriminate].
    apply courseLoop_collects in Hloop.
    destruct Hloop as (events & Htrace & Hends & _ & Hlist).
    destruct finish as [collected m5 | m5]; injection Hrun as <-; cbn [planMachine].
    + exists pre, events, []. rewrite app_nil_r, Htrace, H4, <- app_assoc.
      split; [reflexivity |]. split; [exact Hpre |]. split; [constructor |].
      split; [exact Hends |]. split; [reflexivity | exact Hlist].
    + exists pre, events, [EvEntityFailed]. cbn. rewrite Htrace, H4, <- !app_assoc.
      split; [reflexivity |]. split; [exact Hpre |]. split; [repeat constructor |].
      split; [exact Hends | exact I].
Qed.

(** What the save adds to the trace: nothing, or one line and the
    relay traffic for it. *)
Lemma saveRecordIfNew_line record m skipped m1 :
  saveRecordIfNew (GAS_CONFIG CONFIG) record m = (skipped, m1) ->
  (skipped = true /\ m1 = m)
  \/ (skipped = false
      /\ exists relay,
          trace m1 = trace m ++ EvAppendCsv (lineOf record m) :: relay
          /\ Forall IsRelay relay).
Proof.
  intros Hrun.
  destruct (saveRecordIfNew_shape (GAS_CONFIG CONFIG) record m)
    as [(_ & Hskip) | (_ & Hran & (relay & Htrace & Hrelay & _))].
  - rewrite Hskip in Hrun. injection Hrun as <- <-. left. split; reflexivity.
  - rewrite Hrun in Hran, Htrace. cbn [fst snd] in Hran, Htrace. right.
    split; [exact Hran |]. exists relay. split; assumption.
Qed.

Lemma settle_line maxCompanies plan added flow m' added' :
  settle CONFIG maxCompanies plan added = (flow, m', added') ->
  m' = planMachine plan
  \/ exists record relay,
      trace m' = trace (planMachine plan)
                   ++ EvAppendCsv (lineOf record (planMachine plan)) :: relay
      /\ Forall IsRelay relay
      /\ match plan with
         | PlanNothing _ => False
         | PlanMinimal minimal _ => record = minimal
         | PlanPersist finalCompanyName companyMeta isPageUrl courseDataList _ =>
             match bestCourse courseDataList with
             | Some best => record = recordOfCourse finalCompanyName companyMeta best
             | None => record = recordWithoutTable finalCompanyName companyMeta isPageUrl
             end
         end.
Proof.
  destruct plan as [m | record m | finalCompanyName companyMeta isPageUrl courseDataList m];
    cbn [settle planMachine].
  - intros [= _ <- _]. left. reflexivity.
  - unfold saveMinimal.
    destruct (saveRecordIfNew (GAS_CONFIG CONFIG) record m) as [skipped m1] eqn:Hrun.
    apply saveRecordIfNew_line in Hrun.
    destruct Hrun as [(-> & ->) | (-> & relay & Htrace & Hrelay)].
    + intros [= _ <- _]. left. reflexivity.
    + destruct (capReached maxCompanies (S added)); intros [= _ <- _];
        right; exists record, relay; repeat split; assumption.
  - unfold persistCompany, saveMinimal.
    destruct (bestCourse courseDataList) as [best |].
    + destruct (saveRecordIfNew (GAS_CONFIG CONFIG) _ m) as [skipped m1] eqn:Hrun.
      apply saveRecordIfNew_line in Hrun.
      destruct Hrun as [(-> & ->) | (-> & relay & Htrace & Hrelay)].
      * destruct (capReached maxCompanies added); intros [= _ <- _]; left; reflexivity.
      * destruct (capReached maxCompanies (S added)); intros [= _ <- _];
          right; eexists _, relay; repeat split; try eassumption.
    + destruct (saveRecordIfNew (GAS_CONFIG CONFIG) _ m) as [skipped m1] eqn:Hrun.
      apply saveRecordIfNew_line in Hrun.
      destruct Hrun as [(-> & ->) | (-> & relay & Htrace & Hrelay)].
      * intros [= _ <- _]. left. reflexivity.
      * destruct (capReached maxCompanies (S added)); intros [= _ <- _];
          right; eexists _, relay; repeat split; try eassumption.
Qed.

(** In a list that starts without a fetch, a fetch lies behind that
    start. *)
Lemma fetch_behind pre rest before e after :
  Forall (fun e => isFetch e = false) pre ->
  isFetch e = true ->
  pre ++ rest = before ++ e :: after ->
  exists before', rest = before' ++ e :: after.
Proof.
  revert before. induction pre as [| x pre IH]; intros before Hpre He Hsplit.
  - exists before. exact Hsplit.
  - inversion Hpre as [| ? ? Hx Hrest]; subst.
    destruct before as [| b before].
    + cbn in Hsplit. injection Hsplit as -> _. congruence.
    + cbn in Hsplit. injection Hsplit as _ Hsplit.
      apply (IH before Hrest He Hsplit).
Qed.

(** No page is fetched after the one that gave a complete course. *)
Lemma no_fetch_after_complete events tail :
  endsAtCompleteCourse events = true ->
  Forall (fun e => isFetch e = false) tail ->
  forall before target data after,
    events ++ tail = before ++ EvExtractTable target (TableFound data) :: after ->
    score data = 3%nat ->
    Forall (fun e => isFetch e = false) after.
Proof.
  intros Hends Htail before target data after Hsplit Hscore.
  apply score_complete in Hscore.
  revert before Hsplit. induction events as [| e events IH]; intros before Hsplit.
  - cbn in Hsplit. exfalso.
    assert (Hin : In (EvExtractTable target (TableFound data)) tail).
    { rewrite Hsplit. apply in_or_app. right. left. reflexivity. }
    pose proof (proj1 (List.Forall_forall _ _) Htail _ Hin) as Hno. discriminate.
  - destruct before as [| b before].
    + cbn in Hsplit. injection Hsplit as -> <-.
      cbn [endsAtCompleteCourse] in Hends. rewrite Hscore in Hends.
      destruct events; [exact Htail | discriminate].
    + cbn in Hsplit. injection Hsplit as -> Hsplit.
      cbn [endsAtCompleteCourse] in Hends.
      assert (Hrest : endsAtCompleteCourse events = true
                      \/ events = []).
      { destruct b as [| | | | | | | | | | | | u [| | d] | | | | | | |];
          try (left; exact Hends).
        destruct (hasPhone d && hasEmail d); [| left; exact Hends].
        destruct events; [right; reflexivity | discriminate]. }
      destruct Hrest as [Hrest | ->]; [apply (IH Hrest before Hsplit) |].
      apply (IH eq_refl before Hsplit).
Qed.

End CourseFacts.

(** C2.  A course scores 3 with a phone number and an e-mail address,
    2 with a phone number only, 1 with an e-mail address only, 0 with
    neither.  For a non-empty list of courses the record handed to the
    ledger is built from the first course of maximal score: it carries
    the name of the company, the first phone number and the first
    e-mail address of that course, or the not-listed mark where the
    course has none, the address and the table of that course and the
    data of the outline page; when the company is new, the line
    appended is the line of that record.  The course loop fetches a
    front part of the course links in their order; what it collects is
    what these fetches found, in that order, under the name of the
    company; and it reads no further sub-page once a course with both
    a phone number and an e-mail address has been read.  For a company
    as a whole: the candidates are the courses found by its fetches,
    no page is fetched after one that gave a complete course, at most
    one line is written, and when there are candidates the line is
    that of the first candidate of maximal score. *)
Theorem best_course_is_persisted {W : Type} {host : Host W} (CONFIG : MynaviConfig) :
  (forall c : CourseData.t,
      score c = match hasPhone c, hasEmail c with
                | true, true => 3
                | true, false => 2
                | false, true => 1
                | false, false => 0
                end%nat)
  /\ (forall (maxCompanies : option nat) (finalCompanyName : jsstring)
             (companyMeta : CompanyMeta.t) (isPageUrl : jsstring)
             (courseDataList : list CourseData.t) (m : Machine W) (added : nat),
         courseDataList <> [] ->
         exists best,
           bestCourse courseDataList = Some best
           /\ FirstBest courseDataList best
           /\ let '(_, m', added') :=
                persistCompany CONFIG maxCompanies finalCompanyName companyMeta
                  isPageUrl courseDataList m added in
              (added' = added /\ m' = m
               /\ has (normalizeCompanyName finalCompanyName) (existingCompanies m) = true)
              \/ (added' = S added
                  /\ exists record,
                      Saved record m m'
                      /\ Csv.companyName record = finalCompanyName
                      /\ phone record
                         = match CourseData.phones best with
                           | first :: _ => first
                           | [] => NOT_LISTED
                           end
                      /\ email record
                         = match CourseData.emails best with
                           | first :: _ => first
                           | [] => NOT_LISTED
                           end
                      /\ tableUrl record = CourseData.sourceUrl best
                      /\ tableJson record = JsonRows (CourseData.tableRows best)
                      /\ industry record = CompanyMeta.industry companyMeta
                      /\ headOffice record = CompanyMeta.headOffice companyMeta
                      /\ annualRecruitment record
                         = CompanyMeta.annualRecruitment companyMeta
                      /\ companySize record = CompanyMeta.companySize companyMeta))
  /\ (forall (polls : nat) (finalCompanyName : jsstring) (courseLinks : list jsstring)
             (m : Machine W) collected m',
         courseLoop polls finalCompanyName courseLinks [] m = Some (Collected collected m') ->
         exists events,
           trace m' = trace m ++ events
           /\ collected = foundCourses finalCompanyName events
           /\ (exists k, fetchTargets events = take k courseLinks)
           /\ (forall before target data after,
                  events = before ++ EvExtractTable target (TableFound data) :: after ->
                  score data = 3%nat -> after = [])
           /\ (forall before c after,
                  collected = before ++ c :: after -> score c = 3%nat -> after = []))
  /\ (forall (polls : nat) (maxCompanies : option nat) (link : CompanyLink)
             (m : Machine W) (added : nat) flow m' added',
         processCompany CONFIG polls maxCompanies link m added = Some (flow, m', added') ->
         exists events,
           trace m' = trace m ++ events
           /\ (forall before target data after,
                  events = before ++ EvExtractTable target (TableFound data) :: after ->
                  score data = 3%nat -> Forall (fun e => isFetch e = false) after)
           /\ (appendedLines events = []
               \/ exists line,
                   appendedLines events = [line]
                   /\ (foundCourses (name link) events <> [] ->
                       exists best record,
                         FirstBest (foundCourses (name link) events) best
                         /\ Written record line
                         /\ Csv.companyName record = name link
                         /\ phone record
                            = match CourseData.phones best with
                              | first :: _ => first
                              | [] => NOT_LISTED
                              end
                         /\ email record
                            = match CourseData.emails best with
                              | first :: _ => first
                              | [] => NOT_LISTED
                              end
                         /\ tableUrl record = CourseData.sourceUrl best
                         /\ tableJson record = JsonRows (CourseData.tableRows best)))).
Proof.
  split; [exact score_table |]. split; [| split].
  - intros maxCompanies finalCompanyName companyMeta isPageUrl courseDataList m added Hne.
    destruct (bestCourse_first_best courseDataList Hne) as (best & Hbest & Hfirst).
    exists best. split; [exact Hbest |]. split; [exact Hfirst |].
    unfold persistCompany. rewrite Hbest.
    destruct (saveRecordIfNew_shape (GAS_CONFIG CONFIG)
                (recordOfCourse finalCompanyName companyMeta best) m)
      as [(Hknown & Hskip) | (Hnew & Hran & Hsaved)].
    + rewrite Hskip.
      destruct (capReached maxCompanies added); left; repeat split; exact Hknown.
    + destruct (saveRecordIfNew (GAS_CONFIG CONFIG)
                  (recordOfCourse finalCompanyName companyMeta best) m) as [skipped m1].
      cbn [fst snd] in *. subst skipped.
      destruct (capReached maxCompanies (S added)); right; (split; [reflexivity |]);
        exists (recordOfCourse finalCompanyName companyMeta best);
        (split; [exact Hsaved |]); cbn [recordOfCourse Csv.companyName phone email tableUrl
                                        tableJson industry headOffice annualRecruitment
                                        companySize];
        repeat split; destruct (CourseData.phones best), (CourseData.emails best);
        reflexivity.
  - intros polls finalCompanyName courseLinks m collected m' Hrun.
    pose proof (courseLoop_collects polls finalCompanyName courseLinks [] m _ Hrun)
      as (events & Htrace & Hends & Hfront & Hlist).
    cbn [app] in Hlist.
    apply courseLoop_early_exit in Hrun.
    destruct Hrun as (events' & found & Htrace' & Hlist' & _ & Hlast).
    exists events. split; [exact Htrace |]. split; [exact Hlist |].
    split; [exact Hfront |]. split.
    + apply endsAtCompleteCourse_spec. exact Hends.
    + cbn in Hlist'. subst found. exact Hlast.
  - intros polls maxCompanies link m added flow m' added' Hrun.
    rewrite processCompany_factors in Hrun.
    destruct (explore polls link m) as [plan |] eqn:Hplan; [| discriminate].
    injection Hrun as Hsettle.
    pose proof (Quiet_explore polls link m m plan (Quiet_refl m) Hplan)
      as (quiet & Hquiet & _ & Hnone & _).
    apply explore_courses in Hplan.
    destruct Hplan as (pre & events & post & Htrace & Hpre & Hpost & Hends & Hcourses).
    assert (Hsame : quiet = pre ++ events ++ post).
    { rewrite Hquiet in Htrace. apply app_inv_head in Htrace. exact Htrace. }
    subst quiet.
    assert (Hfound : forall tail,
               Forall (fun e => isFetch e = false) tail ->
               foundCourses (name link) (pre ++ events ++ post ++ tail)
               = foundCourses (name link) events).
    { intros tail Htail.
      rewrite !foundCourses_app, (foundCourses_fetchless _ _ Hpre),
        (foundCourses_fetchless _ _ Hpost), (foundCourses_fetchless _ _ Htail), !app_nil_r.
      reflexivity. }
    assert (Hstops : forall tail,
               Forall (fun e => isFetch e = false) tail ->
               forall before target data after,
                 pre ++ events ++ post ++ tail
                 = before ++ EvExtractTable target (TableFound data) :: after ->
                 score data = 3%nat -> Forall (fun e => isFetch e = false) after).
    { intros tail Htail before target data after Hsplit Hscore.
      destruct (fetch_behind pre _ before (EvExtractTable target (TableFound data)) after
                  Hpre eq_refl Hsplit) as (before' & Hrest).
      assert (Hquietly : Forall (fun e => isFetch e = false) (post ++ tail))
        by (apply Forall_app; split; assumption).
      apply (no_fetch_after_complete events (post ++ tail) Hends Hquietly
               before' target data after Hrest Hscore). }
    apply (settle_line CONFIG) in Hsettle.
    destruct Hsettle as [-> | (record & relay & Hline & Hrelay & Hrecord)].
    + exists (pre ++ events ++ post). split; [exact Htrace |]. split.
      * intros before target data after Hsplit.
        intros Hscore.
        refine (Hstops [] _ before target data after _ Hscore); [constructor |].
        rewrite app_nil_r. exact Hsplit.
      * left. exact Hnone.
    + set (line := lineOf record (planMachine plan)) in *.
      assert (Htail : Forall (fun e => isFetch e = false) (EvAppendCsv line :: relay)).
      { constructor; [reflexivity | apply relay_fetchless; exact Hrelay]. }
      exists (pre ++ events ++ post ++ EvAppendCsv line :: relay).
      split; [rewrite Hline, Htrace, <- !app_assoc; reflexivity |].
      split; [apply (Hstops _ Htail) |].
      right. exists line. split.
      { replace (pre ++ events ++ post ++ EvAppendCsv line :: relay)
          with ((pre ++ events ++ post) ++ EvAppendCsv line :: relay)
          by (rewrite <- !app_assoc; reflexivity).
        rewrite appendedLines_app, Hnone. cbn [app appendedLines].
        destruct (relay_quiet isLoopTop None relay Hrelay) as [_ ->]. reflexivity. }
      rewrite (Hfound _ Htail). intros Hne.
      destruct plan as [m0 | minimal m0 | finalCompanyName companyMeta isPageUrl
                                            courseDataList m0];
        [contradiction | destruct Hcourses as [Hnil _]; congruence |].
      destruct Hcourses as [-> ->].
      destruct (bestCourse_first_best _ Hne) as (best & Hbest & Hfirst).
      rewrite Hbest in Hrecord. subst record.
      exists best, (recordOfCourse (name link) companyMeta best).
      split; [exact Hfirst |]. split; [eexists; reflexivity |].
      cbn [recordOfCourse Csv.companyName phone email tableUrl tableJson].
      repeat split; destruct (CourseData.phones best), (CourseData.emails best);
        reflexivity.
Qed.

Lemma best_course_is_persisted_witness :
  bestCourse [scoreZero; scoreTwo; scoreThree; scoreOne] = Some scoreThree
  /\ List.map score [scoreZero; scoreTwo; scoreThree; scoreOne] = [0; 2; 3; 1]%nat
  /\ (exists best, bestCourse [scoreZero; scoreTwo; scoreTwo] = Some best
                   /\ FirstBest [scoreZero; scoreTwo; scoreTwo] best)
  /\ List.filter isFetch
       (crawlTrace fourCourses None)
     = [EvExtractTable (lit "https://site/gamma/c0") (TableFound scoreZero);
        EvExtractTable (lit "https://site/gamma/c2") (TableFound scoreTwo);
        EvExtractTable (lit "https://site/gamma/c3") (TableFound scoreThree)].
Proof.
  split; [vm_compute; reflexivity |].
  split; [vm_compute; reflexivity |].
  split; [| vm_compute; reflexivity].
  destruct (@best_course_is_persisted Sim (scripted fourCourses) plainConfig)
    as (_ & Hbest & _).
  destruct (Hbest None (lit "Gamma") plainMeta (lit "https://site/gamma/is.html")
              [scoreZero; scoreTwo; scoreTwo] fresh 0%nat)
    as (best & Hsome & Hfirst & _); [discriminate |].
  exists best. split; assumption.
Defined.

(** ** Pagination *)

Section PaginationFacts.
Context {W : Type} {host : Host W}.

Lemma advance_cases (m : Machine W) (added : nat) :
  match (queryNextButton (world m)).1 with
  | None => exists m', advance m added = Halted NextButtonMissing m' added
  | Some nextButtonClass =>
      if includes nextButtonClass (lit "disabled")
      then exists m', advance m added = Halted NextButtonDisabled m' added
      else exists m',
          advance m added = Advance m' added
          /\ trace m' = trace m ++ [EvQueryNextButton; EvTimer DELAY_MS; EvClickNext]
  end.
Proof.
  unfold advance, doQueryNextButton.
  destruct (queryNextButton (world m)) as [[nextButtonClass |] w]; cbn [fst].
  - destruct (includes nextButtonClass (lit "disabled")); eexists; [reflexivity |].
    split; [reflexivity |]. cbn. rewrite <- !app_assoc. reflexivity.
  - eexists. reflexivity.
Qed.

End PaginationFacts.

(** C4.  One pass through the page loop either halts the loop or moves
    on to the next page, and the loop ends in that pass exactly when it
    halts, reporting the index of the page of that pass.  A pass halts
    on the stop flag or the cap (at the head of the pass, or after the
    companies of the page), or else at the next-page control: when the
    control is missing, or when its class contains the word
    [disabled].  In every other case the pass goes on with the page
    index raised by one, after waiting the inter-page delay and
    clicking the control, in that order. *)
Theorem pagination_halts_at_last_page {W : Type} {host : Host W}
        (CONFIG : MynaviConfig) (polls : nat) (maxCompanies : option nat)
        (pageIndex : nat) (m : Machine W) (added : nat) (step : PageStep) :
  pageIteration CONFIG polls maxCompanies pageIndex m added = Some step ->
  (forall pages,
      pageLoop CONFIG (S pages) polls maxCompanies pageIndex m added
      = match step with
        | Halted reason m' added' =>
            Some {| haltReason := reason;
                    lastProcessedPageIndex := pageIndex;
                    addedCompanyCount := added';
                    final := m' |}
        | Advance m' added' =>
            pageLoop CONFIG pages polls maxCompanies (S pageIndex) m' added'
        end)
  /\ match step with
     | Halted StopAtPageTop _ _ => shouldStop (world m) = true
     | Halted CapAtPageTop _ _ =>
         shouldStop (world m) = false /\ capReached maxCompanies added = true
     | Halted StopAfterPage m' _ => shouldStop (world m') = true
     | Halted CapAfterPage m' added' =>
         shouldStop (world m') = false /\ capReached maxCompanies added' = true
     | Halted NextButtonMissing m' added' =>
         exists m1, advance m1 added' = step
                    /\ (queryNextButton (world m1)).1 = None
     | Halted NextButtonDisabled m' added' =>
         exists m1 nextButtonClass,
           advance m1 added' = step
           /\ (queryNextButton (world m1)).1 = Some nextButtonClass
           /\ includes nextButtonClass (lit "disabled") = true
     | Advance m' added' =>
         exists m1 nextButtonClass,
           advance m1 added' = step
           /\ (queryNextButton (world m1)).1 = Some nextButtonClass
           /\ includes nextButtonClass (lit "disabled") = false
           /\ trace m' = trace m1 ++ [EvQueryNextButton; EvTimer DELAY_MS; EvClickNext]
     end.
Proof.
  intros Hstep. split.
  { intros pages. cbn [pageLoop]. rewrite Hstep. destruct step; reflexivity. }
  assert (Hadvance :
            forall m1 added1,
              advance m1 added1 = step ->
              match step with
              | Halted StopAtPageTop _ _ => shouldStop (world m) = true
              | Halted CapAtPageTop _ _ =>
                  shouldStop (world m) = false /\ capReached maxCompanies added = true
              | Halted StopAfterPage m' _ => shouldStop (world m') = true
              | Halted CapAfterPage m' added' =>
                  shouldStop (world m') = false /\ capReached maxCompanies added' = true
              | Halted NextButtonMissing m' added' =>
                  exists m1, advance m1 added' = step
                             /\ (queryNextButton (world m1)).1 = None
              | Halted NextButtonDisabled m' added' =>
                  exists m1 nextButtonClass,
                    advance m1 added' = step
                    /\ (queryNextButton (world m1)).1 = Some nextButtonClass
                    /\ includes nextButtonClass (lit "disabled") = true
              | Advance m' added' =>
                  exists m1 nextButtonClass,
                    advance m1 added' = step
                    /\ (queryNextButton (world m1)).1 = Some nextButtonClass
                    /\ includes nextButtonClass (lit "disabled") = false
                    /\ trace m' = trace m1
                                  ++ [EvQueryNextButton; EvTimer DELAY_MS; EvClickNext]
              end).
  { intros m1 added1 Hrun. pose proof (advance_cases m1 added1) as Hcases.
    destruct ((queryNextButton (world m1)).1) as [nextButtonClass |] eqn:Hbutton.
    - destruct (includes nextButtonClass (lit "disabled")) eqn:Hdisabled.
      + destruct Hcases as (m' & Heq). rewrite Heq in Hrun. subst step.
        exists m1, nextButtonClass. repeat split; assumption.
      + destruct Hcases as (m' & Heq & Htrace). rewrite Heq in Hrun. subst step.
        exists m1, nextButtonClass. repeat split; assumption.
    - destruct Hcases as (m' & Heq). rewrite Heq in Hrun. subst step.
      exists m1. split; assumption. }
  unfold pageIteration in Hstep.
  change (world (emit (EvPageTop pageIndex) m)) with (world m) in Hstep.
  destruct (shouldStop (world m)) eqn:Hstop; [injection Hstep as <-; reflexivity |].
  destruct (capReached maxCompanies added) eqn:Hcap;
    [injection Hstep as <-; split; reflexivity |].
  destruct (waitIfPaused polls (emit (EvPageTop pageIndex) m)) as [m1 |]; [| discriminate].
  destruct (doQueryCompanyLinks m1) as [companyData m2].
  destruct (START_PAGE CONFIG <=? pageIndex)%nat.
  - destruct (companyLoop CONFIG polls maxCompanies companyData (doNewPage m2) added)
      as [[m3 added3] |]; [| discriminate].
    destruct (shouldStop (world (doClosePage m3))) eqn:Hstop';
      [injection Hstep as <-; exact Hstop' |].
    destruct (capReached maxCompanies added3) eqn:Hcap';
      [injection Hstep as <-; split; assumption |].
    injection Hstep as Hstep. eapply Hadvance. exact Hstep.
  - injection Hstep as Hstep. eapply Hadvance. exact Hstep.
Qed.

Lemma pagination_halts_at_last_page_witness :
  (exists m' added',
      @pageIteration Sim (scripted twoPages) plainConfig 5 None 1 fresh 0
      = Some (Advance m' added')
      /\ forall pages,
          @pageLoop Sim (scripted twoPages) plainConfig (S pages) 5 None 1 fresh 0
          = @pageLoop Sim (scripted twoPages) plainConfig pages 5 None 2 m' added')
  /\ (haltReason <$> crawl twoPages None) = Some NextButtonDisabled
  /\ (lastProcessedPageIndex <$> crawl twoPages None) = Some 2%nat.
Proof.
  split; [| split; vm_compute; reflexivity].
  destruct (@pageIteration Sim (scripted twoPages) plainConfig 5 None 1 fresh 0)
    as [[reason m' added' | m' added'] |] eqn:Hstep;
    try (vm_compute in Hstep; discriminate).
  exists m', added'. split; [reflexivity |].
  exact (proj1 (@pagination_halts_at_last_page Sim (scripted twoPages) plainConfig 5 None 1
                  fresh 0 (Advance m' added') Hstep)).
Defined.

(** ** Pause checkpoints *)

(** C7, as the code has it.  In every run of the crawl each pause wait
    comes right after the head of a pass through one of the three
    loops, the page loop, the company loop or the course loop of a
    company, and nowhere else. *)
Theorem pause_only_at_loop_heads {W : Type} {host : Host W}
        (CONFIG : MynaviConfig) (pages polls : nat) (maxCompanies : option nat)
        (w : W) (existing : gset jsstring) (file : jsstring) (finish : CrawlEnd) :
  processAllCompaniesFromSearch CONFIG pages polls maxCompanies (initial w existing file)
  = Some finish ->
  pausesFollow isLoopTop None (trace (final finish)) = true.
Proof.
  unfold processAllCompaniesFromSearch. intros Hrun.
  apply Account_pageLoop in Hrun. destruct Hrun as (events & Htrace & Hpauses & _).
  rewrite Htrace. exact Hpauses.
Qed.

Lemma pause_only_at_loop_heads_witness :
  pausesFollow isLoopTop None (crawlTrace twoCompanies None) = true.
Proof.
  unfold crawlTrace, crawl, fresh.
  destruct (@processAllCompaniesFromSearch Sim (scripted twoCompanies) plainConfig 5 5 None
              (initial start ∅ [])) as [finish |] eqn:Hrun; [| reflexivity].
  exact (@pause_only_at_loop_heads Sim (scripted twoCompanies) plainConfig 5 5 None
           start ∅ [] finish Hrun).
Defined.

(** C7, counterexample.  The first company of the sample site lists two
    courses.  Its outline page is opened at position 7 of the trace and
    its record is written at position 20; in between, at positions 13
    and 17, the crawl waits on the pause flag at the head of each pass
    through the course loop, so not every pause wait follows the head
    of a page or of a company. *)
Lemma pause_inside_company_counterexample :
  pausesFollow isPageOrEntityTop None (crawlTrace twoCompanies None) = false
  /\ crawlTrace twoCompanies None !! 4%nat = Some (EvEntityTop (lit "Alpha"))
  /\ crawlTrace twoCompanies None !! 7%nat
     = Some (EvGoto (lit "https://site/alpha/outline.html") true)
  /\ crawlTrace twoCompanies None !! 12%nat
     = Some (EvCourseTop (lit "https://site/alpha/c1"))
  /\ crawlTrace twoCompanies None !! 13%nat = Some EvWaitIfPaused
  /\ crawlTrace twoCompanies None !! 17%nat = Some EvWaitIfPaused
  /\ (isAppend <$> crawlTrace twoCompanies None !! 20%nat) = Some true
  /\ crawlTrace twoCompanies None !! 21%nat = Some (EvEntityTop (lit "Beta")).
Proof. vm_compute. repeat split. Qed.

(** ** The cap on new records *)

Section CapFacts.
Context {W : Type} {host : Host W}.
Implicit Types m : Machine W.
Variable CONFIG : MynaviConfig.
Variable cap : nat.

Lemma EndsWithAppend_after a (m : Machine W) a1 m1 m' :
  Account a m m1 a1 -> (a1 < cap)%nat ->
  EndsWithAppend m1 m' (cap - S a1) -> EndsWithAppend m m' (cap - S a).
Proof.
  intros (e1 & Ht1 & _ & Ha1 & _) Hlt (e2 & line & relay & Ht2 & Hrelay & Hcount).
  exists (e1 ++ e2), line, relay.
  split; [rewrite Ht2, Ht1, <- !app_assoc; reflexivity |].
  split; [exact Hrelay |].
  rewrite appendedLines_app, length_app. lia.
Qed.

Lemma Account_extends a (m : Machine W) a' m' :
  Account a m m' a' -> (a <= a')%nat /\ exists rest, trace m' = trace m ++ rest.
Proof.
  intros (events & Htrace & _ & Hcount & _). split; [lia | eauto].
Qed.

Lemma capReached_below added : (added < cap)%nat -> capReached (Some cap) added = false.
Proof. intros H. cbn. apply Nat.leb_gt. exact H. Qed.

(** Below the cap the save does the same with and without it; the cap
    only decides whether the company loop is left afterwards. *)
Lemma settle_capped plan added :
  (added < cap)%nat ->
  settle CONFIG (Some cap) plan added
  = let '(_, m', added') := settle CONFIG None plan added in
    (if (cap <=? added')%nat then Break else Next, m', added').
Proof.
  intros Hlt. pose proof (capReached_below added Hlt) as Hbelow. cbn in Hbelow.
  destruct plan as [m | record m | finalCompanyName companyMeta isPageUrl courseDataList m];
    cbn [settle].
  - rewrite Hbelow. reflexivity.
  - unfold saveMinimal.
    destruct (saveRecordIfNew (GAS_CONFIG CONFIG) record m) as [[|] m1]; cbn [capReached].
    + rewrite Hbelow. reflexivity.
    + destruct (cap <=? S added)%nat; reflexivity.
  - unfold persistCompany, saveMinimal.
    destruct (bestCourse courseDataList) as [best |].
    + destruct (saveRecordIfNew (GAS_CONFIG CONFIG) _ m) as [[|] m1]; cbn [capReached].
      * rewrite Hbelow. reflexivity.
      * destruct (cap <=? S added)%nat; reflexivity.
    + destruct (saveRecordIfNew (GAS_CONFIG CONFIG) _ m) as [[|] m1]; cbn [capReached].
      * rewrite Hbelow. reflexivity.
      * destruct (cap <=? S added)%nat; reflexivity.
Qed.

Lemma settle_uncapped plan added flow m' added' :
  settle CONFIG None plan added = (flow, m', added') ->
  (added' = added /\ m' = planMachine plan)
  \/ (added' = S added /\ exists record, Saved record (planMachine plan) m').
Proof.
  intros Hrun. pose proof (settle_outcome CONFIG None plan added) as Hout.
  rewrite Hrun in Hout.
  destruct Hout as [(-> & -> & _) | (-> & Hsaved & _)]; [left | right]; auto.
Qed.

Lemma Saved_EndsWithAppend record (m m0 m' : Machine W) :
  Quiet m m0 -> Saved record m0 m' -> EndsWithAppend m m' 0.
Proof.
  intros (events & Htrace & _ & Hnone & _) (relay & Htrace' & Hrelay & _).
  exists events, (lineOf record m0), relay.
  split; [rewrite Htrace', Htrace, <- app_assoc; reflexivity |].
  split; [exact Hrelay |]. rewrite Hnone. reflexivity.
Qed.

(** The company loop with and without the cap: the two agree while the
    counter stays below the cap; when the uncapped loop gets to the cap
    or beyond, the capped loop leaves right after the write that
    reaches the cap. *)
Lemma companyLoop_capped polls companyData :
  forall (m : Machine W) added m_u added_u,
    (added < cap)%nat ->
    companyLoop CONFIG polls None companyData m added = Some (m_u, added_u) ->
    ((added_u < cap)%nat
     /\ companyLoop CONFIG polls (Some cap) companyData m added = Some (m_u, added_u))
    \/ ((cap <= added_u)%nat
        /\ exists m_c,
            companyLoop CONFIG polls (Some cap) companyData m added = Some (m_c, cap)
            /\ EndsWithAppend m m_c (cap - S added)
            /\ exists rest, trace m_u = trace m_c ++ rest).
Proof.
  induction companyData as [| link rest IH]; intros m added m_u added_u Hlt Hrun;
    cbn [companyLoop] in *.
  - injection Hrun as <- <-. left. split; [exact Hlt | reflexivity].
  - destruct (shouldStop (world (emit (EvEntityTop (name link)) m))).
    { injection Hrun as <- <-. left. split; [exact Hlt | reflexivity]. }
    rewrite (capReached_below added Hlt). cbn [capReached] in Hrun.
    destruct (waitIfPaused polls (emit (EvEntityTop (name link)) m)) as [m1 |] eqn:Hwait;
      [| discriminate].
    assert (Hq1 : Quiet m m1)
      by (eapply Quiet_top_wait; [| apply Quiet_refl | exact Hwait]; reflexivity).
    rewrite processCompany_factors in *.
    destruct (explore polls link m1) as [plan |] eqn:Hplan; [| discriminate].
    assert (Hq2 : Quiet m (planMachine plan)) by (eapply Quiet_explore; eassumption).
    rewrite (settle_capped plan added Hlt).
    destruct (settle CONFIG None plan added) as [[flow m2] added2] eqn:Hsettle.
    assert (Hacc : Account added m m2 added2).
    { eapply Account_trans; [apply Quiet_Account; exact Hq2 |].
      eapply Account_settle. exact Hsettle. }
    assert (flow = Next) as ->.
    { pose proof (settle_outcome CONFIG None plan added) as Hout. rewrite Hsettle in Hout.
      destruct Hout as [(_ & _ & Hflow) | (_ & _ & Hflow)]; [| exact Hflow].
      destruct flow; [reflexivity |]. specialize (Hflow eq_refl). discriminate. }
    pose proof (Account_companyLoop CONFIG _ _ _ _ _ _ _ Hrun) as Hrest.
    destruct (Account_extends _ _ _ _ Hrest) as (Hle & tail & Htail).
    apply settle_uncapped in Hsettle.
    destruct (cap <=? added2)%nat eqn:Hcap.
    + apply Nat.leb_le in Hcap.
      destruct Hsettle as [(-> & _) | (-> & record & Hsaved)]; [lia |].
      assert (cap = S added) as Hcap' by lia.
      right. split; [lia |]. exists m2. rewrite <- Hcap'.
      split; [reflexivity |]. split.
      * rewrite Hcap', Nat.sub_diag. eapply Saved_EndsWithAppend; eassumption.
      * exists tail. exact Htail.
    + apply Nat.leb_gt in Hcap.
      destruct (IH m2 added2 m_u added_u Hcap Hrun)
        as [(Hbelow & Hsame) | (Habove & m_c & Hcapped & Hends & Hprefix)].
      * left. split; assumption.
      * right. split; [exact Habove |]. exists m_c.
        split; [exact Hcapped |]. split; [| exact Hprefix].
        eapply EndsWithAppend_after; eassumption.
Qed.

(** One pass through the page loop with and without the cap. *)
Lemma pageIteration_capped polls pageIndex (m : Machine W) added step_u :
  (added < cap)%nat ->
  pageIteration CONFIG polls None pageIndex m added = Some step_u ->
  ((stepCount step_u < cap)%nat
   /\ pageIteration CONFIG polls (Some cap) pageIndex m added = Some step_u)
  \/ (exists reason m_c,
         pageIteration CONFIG polls (Some cap) pageIndex m added
         = Some (Halted reason (doClosePage m_c) cap)
         /\ (reason = StopAfterPage \/ reason = CapAfterPage)
         /\ EndsWithAppend m m_c (cap - S added)
         /\ exists rest, trace (stepMachine step_u) = trace m_c ++ rest).
Proof.
  intros Hlt Hrun. unfold pageIteration in *.
  destruct (shouldStop (world (emit (EvPageTop pageIndex) m))).
  { injection Hrun as <-. left. split; [exact Hlt | reflexivity]. }
  rewrite (capReached_below added Hlt). cbn [capReached] in Hrun.
  destruct (waitIfPaused polls (emit (EvPageTop pageIndex) m)) as [m1 |] eqn:Hwait;
    [| discriminate].
  assert (Hq1 : Quiet m m1)
    by (eapply Quiet_top_wait; [| apply Quiet_refl | exact Hwait]; reflexivity).
  destruct (doQueryCompanyLinks m1) as [companyData m2] eqn:Hlinks.
  assert (Hq2 : Quiet m m2) by (eapply Quiet_doQueryCompanyLinks; eassumption).
  assert (Hadvance : forall m3 added3, stepCount (advance m3 added3) = added3).
  { intros m3 added3. unfold advance.
    destruct (doQueryNextButton m3) as [[nextButtonClass |] m4]; [| reflexivity].
    destruct (includes nextButtonClass (lit "disabled")); reflexivity. }
  destruct (START_PAGE CONFIG <=? pageIndex)%nat.
  - destruct (companyLoop CONFIG polls None companyData (doNewPage m2) added)
      as [[m3 added3] |] eqn:Hloop; [| discriminate].
    assert (Hq3 : Account added m (doNewPage m2) added).
    { apply Quiet_Account. unfold doNewPage.
      apply Quiet_emit; [reflexivity | reflexivity |]. apply Quiet_setWorld. exact Hq2. }
    destruct (companyLoop_capped polls companyData (doNewPage m2) added m3 added3 Hlt Hloop)
      as [(Hbelow & Hsame) | (Habove & m_c & Hcapped & Hends & tail & Htail)].
    + rewrite Hsame. left.
      destruct (shouldStop (world (doClosePage m3))).
      { injection Hrun as <-. split; [exact Hbelow | reflexivity]. }
      rewrite (capReached_below added3 Hbelow). cbn [capReached] in Hrun.
      injection Hrun as <-. rewrite Hadvance. split; [exact Hbelow | reflexivity].
    + rewrite Hcapped. right.
      assert (Hends' : EndsWithAppend m m_c (cap - S added)).
      { eapply EndsWithAppend_after; [exact Hq3 | exact Hlt | exact Hends]. }
      assert (Hafter : exists rest, trace (stepMachine step_u) = trace m_c ++ rest).
      { assert (Hclose : exists more, trace (stepMachine step_u) = trace m3 ++ more).
        { destruct (shouldStop (world (doClosePage m3))).
          { injection Hrun as <-. eexists. reflexivity. }
          cbn [capReached] in Hrun. injection Hrun as <-.
          pose proof (Account_advance (doClosePage m3) added3) as Hadv.
          apply Account_extends in Hadv. destruct Hadv as (_ & more & Hmore).
          change (match advance (doClosePage m3) added3 with
                  | Halted _ m' _ => m'
                  | Advance m' _ => m'
                  end) with (stepMachine (advance (doClosePage m3) added3)) in Hmore.
          exists (EvClosePage :: more). rewrite Hmore. cbn. rewrite <- app_assoc. reflexivity. }
        destruct Hclose as (more & Hmore). exists (tail ++ more).
        rewrite Hmore, Htail, <- app_assoc. reflexivity. }
      destruct (shouldStop (world (doClosePage m_c))).
      * exists StopAfterPage, m_c. repeat split; auto.
      * cbn [capReached]. rewrite Nat.leb_refl.
        exists CapAfterPage, m_c. repeat split; auto.
  - injection Hrun as <-. left. rewrite Hadvance. split; [exact Hlt | reflexivity].
Qed.

(** The whole page loop with and without the cap. *)
Lemma pageLoop_capped pages polls :
  forall pageIndex (m : Machine W) added finish_u,
    (added < cap)%nat ->
    pageLoop CONFIG pages polls None pageIndex m added = Some finish_u ->
    (cap <= addedCompanyCount finish_u)%nat ->
    exists finish_c m_c,
      pageLoop CONFIG pages polls (Some cap) pageIndex m added = Some finish_c
      /\ addedCompanyCount finish_c = cap
      /\ (haltReason finish_c = StopAfterPage \/ haltReason finish_c = CapAfterPage)
      /\ final finish_c = doClosePage m_c
      /\ EndsWithAppend m m_c (cap - S added)
      /\ exists rest, trace (final finish_u) = trace m_c ++ rest.
Proof.
  induction pages as [| pages IH]; intros pageIndex m added finish_u Hlt Hrun Hreach;
    cbn [pageLoop] in *; [discriminate |].
  destruct (pageIteration CONFIG polls None pageIndex m added) as [step_u |] eqn:Hstep;
    [| discriminate].
  pose proof (Account_pageIteration CONFIG _ _ _ _ _ _ Hstep) as Hacc.
  destruct (pageIteration_capped polls pageIndex m added step_u Hlt Hstep)
    as [(Hbelow & Hsame) | (reason & m_c & Hhalt & Hreason & Hends & tail & Htail)].
  - rewrite Hsame. destruct step_u as [reason m1 added1 | m1 added1]; cbn in Hbelow.
    + injection Hrun as <-. cbn in Hreach. lia.
    + destruct (IH (S pageIndex) m1 added1 finish_u Hbelow Hrun Hreach)
        as (finish_c & m_c & Hcapped & Hcount & Hreason & Hfinal & Hends & Hprefix).
      exists finish_c, m_c. repeat split; try assumption.
      eapply EndsWithAppend_after; [exact Hacc | exact Hbelow | exact Hends].
  - rewrite Hhalt. eexists. exists m_c.
    split; [reflexivity |]. cbn.
    split; [reflexivity |]. split; [exact Hreason |]. split; [reflexivity |].
    split; [exact Hends |].
    destruct step_u as [reason' m1 added1 | m1 added1]; cbn in Htail.
    + injection Hrun as <-. exists tail. exact Htail.
    + apply Account_pageLoop in Hrun. apply Account_extends in Hrun.
      destruct Hrun as (_ & more & Hmore). exists (tail ++ more).
      rewrite Hmore, Htail, <- app_assoc. reflexivity.
Qed.

End CapFacts.

(** C3.  Take a crawl that, run without a cap, writes more than [cap]
    records.  Run with the cap, the same crawl ends, and it has written
    exactly [cap] records: the counter is [cap], the trace holds [cap]
    writes and the ledger has grown by [cap] lines.  Up to the write
    that reaches the cap the capped run does what the uncapped run
    does; after it the capped run takes up no further company or page:
    no probe, no navigation, no page query, no pause wait, only the
    relay traffic of that last write and the closing of the detail
    tab. *)
Theorem cap_stops_the_crawl {W : Type} {host : Host W}
        (CONFIG : MynaviConfig) (pages polls cap : nat)
        (w : W) (existing : gset jsstring) (file : jsstring) (uncapped : CrawlEnd) :
  processAllCompaniesFromSearch CONFIG pages polls None (initial w existing file)
  = Some uncapped ->
  (cap < length (appendedLines (trace (final uncapped))))%nat ->
  exists capped done winding,
    processAllCompaniesFromSearch CONFIG pages polls (Some cap) (initial w existing file)
    = Some capped
    /\ addedCompanyCount capped = cap
    /\ trace (final capped) = done ++ winding
    /\ length (appendedLines done) = cap
    /\ (cap = 0%nat \/ exists before line, done = before ++ [EvAppendCsv line])
    /\ Forall (fun e => startsWork e = false) winding
    /\ (exists rest, trace (final uncapped) = done ++ rest)
    /\ exists lines,
        length lines = cap /\ csvFile (final capped) = file ++ concat lines.
Proof.
  unfold processAllCompaniesFromSearch. intros Hrun Hmore.
  pose proof (Account_pageLoop CONFIG _ _ _ _ _ _ _ Hrun) as Hacc_u.
  destruct Hacc_u as (events_u & Htrace_u & _ & Hcount_u & _).
  cbn in Htrace_u. rewrite Htrace_u in Hmore. cbn in Hcount_u.
  destruct cap as [| cap'].
  - (* a cap of zero halts at the head of the first pass *)
    destruct pages as [| pages]; [discriminate |].
    cbn [pageLoop]. unfold pageIteration. cbn [capReached Nat.leb].
    exists {| haltReason :=
                if shouldStop (world (emit (EvPageTop 1) (initial w existing file)))
                then StopAtPageTop else CapAtPageTop;
              lastProcessedPageIndex := 1;
              addedCompanyCount := 0;
              final := emit (EvPageTop 1) (initial w existing file) |},
           [], [EvPageTop 1].
    split.
    { destruct (shouldStop (world (emit (EvPageTop 1) (initial w existing file))));
        reflexivity. }
    split; [reflexivity |]. split; [reflexivity |]. split; [reflexivity |].
    split; [left; reflexivity |]. split; [repeat constructor |].
    split; [eexists; reflexivity |].
    exists []. split; [reflexivity |]. cbn. rewrite app_nil_r. reflexivity.
  - destruct (pageLoop_capped CONFIG (S cap') pages polls 1 (initial w existing file) 0
                uncapped) as (capped & m_c & Hcapped & Hcount & _ & Hfinal & Hends & Hprefix);
      [lia | exact Hrun | lia |].
    destruct Hends as (events & line & relay & Htrace & Hrelay & Hlines).
    cbn in Htrace.
    pose proof (Account_pageLoop CONFIG _ _ _ _ _ _ _ Hcapped) as Hacc_c.
    destruct Hacc_c as (events_c & Htrace_c & _ & Hcount_c & Hfile_c).
    cbn in Htrace_c, Hcount_c, Hfile_c.
    exists capped, (events ++ [EvAppendCsv line]), (relay ++ [EvClosePage]).
    split; [exact Hcapped |]. split; [exact Hcount |].
    split.
    { rewrite Hfinal. cbn. rewrite Htrace, <- !app_assoc. reflexivity. }
    split.
    { rewrite appendedLines_app, length_app, Hlines. cbn. lia. }
    split; [right; eauto |].
    split.
    { apply Forall_app. split; [apply relay_no_work; exact Hrelay | repeat constructor]. }
    split.
    { destruct Hprefix as (rest & Hrest). exists (relay ++ rest).
      rewrite Hrest, Htrace, <- !app_assoc. reflexivity. }
    exists (appendedLines events_c). split; [lia | exact Hfile_c].
Qed.

Lemma cap_stops_the_crawl_witness :
  (addedCompanyCount <$> crawl twoCompanies None) = Some 2%nat
  /\ exists capped done winding,
      crawl twoCompanies (Some 1%nat) = Some capped
      /\ addedCompanyCount capped = 1%nat
      /\ trace (final capped) = done ++ winding
      /\ length (appendedLines done) = 1%nat
      /\ Forall (fun e => startsWork e = false) winding.
Proof.
  split; [vm_compute; reflexivity |].
  unfold crawl, fresh.
  destruct (@processAllCompaniesFromSearch Sim (scripted twoCompanies) plainConfig 5 5 None
              (initial start ∅ [])) as [uncapped |] eqn:Hrun;
    [| vm_compute in Hrun; discriminate].
  assert (Hmore : (1 < length (appendedLines (trace (final uncapped))))%nat).
  { vm_compute in Hrun. injection Hrun as <-. vm_compute. lia. }
  destruct (@cap_stops_the_crawl Sim (scripted twoCompanies) plainConfig 5 5 1
              start ∅ [] uncapped Hrun Hmore)
    as (capped & done & winding & Hcapped & Hcount & Htrace & Hdone & _ & Hquiet & _).
  exists capped, done, winding. repeat split; assumption.
Defined.

(** * Further properties of the code *)

(** ** Trimming and the identity seeded from a written name *)

Section TrimFacts.

Lemma skipWhile_idempotent (p : N -> bool) (s : jsstring) :
  skipWhile p (skipWhile p s) = skipWhile p s.
Proof.
  induction s as [| c t IH]; [reflexivity |].
  cbn. destruct (p c) eqn:Hc; [exact IH |]. cbn. rewrite Hc. reflexivity.
Qed.

Lemma skipWhile_head (p : N -> bool) (s : jsstring) c t :
  skipWhile p s = c :: t -> p c = false.
Proof.
  induction s as [| d s' IH]; [discriminate |].
  cbn. destruct (p d) eqn:Hd; [exact IH |].
  intros [= -> _]. exact Hd.
Qed.

Lemma skipWhile_snoc (p : N -> bool) (s : jsstring) c :
  p c = false -> skipWhile p (s ++ [c]) = skipWhile p s ++ [c].
Proof.
  intros Hc. induction s as [| d s' IH]; cbn.
  - rewrite Hc. reflexivity.
  - destruct (p d); [exact IH | reflexivity].
Qed.

Lemma trimEnd_idempotent (s : jsstring) : trimEnd (trimEnd s) = trimEnd s.
Proof.
  unfold trimEnd. rewrite rev_involutive, skipWhile_idempotent. reflexivity.
Qed.

Lemma trimStart_trim (s : jsstring) : trimStart (trim s) = trim s.
Proof.
  unfold trim, trimStart.
  destruct (skipWhile isWhiteSpace s) as [| c t] eqn:Hs; [reflexivity |].
  pose proof (skipWhile_head _ _ _ _ Hs) as Hc.
  unfold trimEnd. cbn [rev]. rewrite skipWhile_snoc by exact Hc.
  rewrite rev_app_distr. cbn. rewrite Hc. reflexivity.
Qed.

Lemma trim_idempotent (s : jsstring) : trim (trim s) = trim s.
Proof.
  unfold trim at 1. rewrite trimStart_trim.
  unfold trim. apply trimEnd_idempotent.
Qed.

Lemma normalizeCompanyName_trim (s : jsstring) :
  normalizeCompanyName (trim s) = normalizeCompanyName s.
Proof. unfold normalizeCompanyName. rewrite trim_idempotent. reflexivity. Qed.

Lemma normalizeCompanyName_blank (s : jsstring) :
  truthy (trim s) = false -> normalizeCompanyName s = [].
Proof.
  intros Hblank. unfold normalizeCompanyName.
  destruct (trim s); [reflexivity | discriminate].
Qed.

End TrimFacts.

(** ** Reading a whole ledger back *)

Section LedgerFacts2.

Lemma parse_quoted_field_from f tail rows row field :
  closesQuote tail ->
  parseCsvLoop (quoted f ++ tail) rows row field false
  = parseCsvLoop tail rows row (field ++ f) false.
Proof.
  intros Htail. unfold quoted.
  change ((dquote :: escapeCsvValue f ++ [dquote]) ++ tail)
    with (dquote :: ((escapeCsvValue f ++ [dquote]) ++ tail)).
  rewrite <- app_assoc. simpl ([dquote] ++ tail).
  cbn [parseCsvLoop]. rewrite N.eqb_refl. cbn [andb negb].
  destruct (escapeCsvValue f ++ dquote :: tail) eqn:Hshape.
  - destruct (escapeCsvValue f); discriminate.
  - rewrite <- Hshape. apply parse_quoted_value. exact Htail.
Qed.

(** A serialised row in the middle of a file: the parser pushes the row
    and goes on with the text after the line feed. *)
Lemma parse_joined_row_then fields :
  fields <> [] ->
  forall rest rows row field,
    parseCsvLoop (joinQuoted fields ++ LF :: rest) rows row field false
    = parseCsvLoop rest
        (pushRow rows (row ++ (field ++ default [] (head fields)) :: drop 1 fields))
        [] [] false.
Proof.
  induction fields as [| f more IH]; intros Hne rest rows row field; [congruence |].
  destruct more as [| g more'].
  - cbn [joinQuoted]. rewrite parse_quoted_field_from by (simpl; discriminate).
    cbn [parseCsvLoop]. change (LF =? dquote) with false. cbv iota.
    change (LF =? comma) with false. cbn [andb orb negb].
    change (LF =? LF) with true. cbn [andb orb negb head default drop].
    destruct rest; reflexivity.
  - change (joinQuoted (f :: g :: more'))
      with (quoted f ++ comma :: joinQuoted (g :: more')).
    rewrite <- app_assoc. rewrite parse_quoted_field_from by (simpl; discriminate).
    change ((comma :: joinQuoted (g :: more')) ++ LF :: rest)
      with (comma :: (joinQuoted (g :: more') ++ LF :: rest)).
    cbn [parseCsvLoop]. change (comma =? dquote) with false. cbv iota.
    rewrite N.eqb_refl. cbn [andb negb].
    rewrite IH by discriminate. cbn [head default drop app].
    rewrite <- app_assoc. reflexivity.
Qed.

Lemma parse_written_line record source rest rows :
  parseCsvLoop (csvLine record source ++ rest) rows [] [] false
  = parseCsvLoop rest (pushRow rows (csvRow record source)) [] [] false.
Proof.
  rewrite csvLine_joinQuoted, <- app_assoc. cbn [app].
  rewrite parse_joined_row_then by discriminate. reflexivity.
Qed.

Lemma parse_header rest :
  parseCsvLoop (HEADER ++ rest) [] [] [] false
  = parseCsvLoop rest [headerRow] [] [] false.
Proof. destruct rest; reflexivity. Qed.

Lemma parse_ledger_lines entries :
  forall rows,
    parseCsvLoop (ledgerText entries) rows [] [] false = rows ++ ledgerRows entries.
Proof.
  induction entries as [| [record timestamp] more IH]; intros rows.
  - cbn. rewrite app_nil_r. reflexivity.
  - unfold ledgerText, ledgerRows in *. cbn [List.map concat fst snd].
    rewrite parse_written_line. rewrite IH.
    unfold pushRow. rewrite ledger_row_always_kept.
    rewrite <- app_assoc. reflexivity.
Qed.

End LedgerFacts2.

Section SeedFacts.

Lemma seedFromRow_written (companies : gset jsstring) record source :
  seedFromRow companies (csvRow record source)
  = if truthy (identityOf record) then {[identityOf record]} ∪ companies else companies.
Proof.
  unfold seedFromRow, identityOf. cbn [csvRow length Nat.ltb Nat.leb nth].
  destruct (truthy (trim (Csv.companyName record))) eqn:Hname.
  - rewrite normalizeCompanyName_trim. reflexivity.
  - rewrite (normalizeCompanyName_blank _ Hname). reflexivity.
Qed.

Lemma seed_ledger_rows entries :
  forall companies : gset jsstring,
    fold_left seedFromRow (ledgerRows entries) companies
    = companies ∪ list_to_set (seedable (List.map fst entries)).
Proof.
  induction entries as [| [record timestamp] more IH]; intros companies.
  - cbn. set_solver.
  - unfold ledgerRows, seedable in *. cbn [List.map fold_left fst snd List.filter].
    rewrite seedFromRow_written, IH.
    destruct (truthy (identityOf record)); cbn [list_to_set]; set_solver.
Qed.

Lemma parse_ledger entries :
  parseCsvContent (HEADER ++ ledgerText entries) = headerRow :: ledgerRows entries.
Proof.
  unfold parseCsvContent. rewrite parse_header, parse_ledger_lines. reflexivity.
Qed.

Lemma seed_ledger entries :
  loadExistingCompanyNames (Some (HEADER ++ ledgerText entries))
  = list_to_set (seedable (List.map fst entries)).
Proof.
  unfold loadExistingCompanyNames. rewrite parse_ledger.
  change (drop 1 (headerRow :: ledgerRows entries)) with (ledgerRows entries).
  rewrite seed_ledger_rows. set_solver.
Qed.

Lemma seedable_spec records id :
  id ∈ seedable records <-> id <> [] /\ exists record, record ∈ records /\ identityOf record = id.
Proof.
  unfold seedable. rewrite list_elem_of_In, filter_In, in_map_iff.
  split.
  - intros [(record & Hid & Hin) Htruthy]. split.
    + intros ->. discriminate.
    + exists record. rewrite list_elem_of_In. split; assumption.
  - intros (Hne & record & Hin & Hid). split.
    + exists record. rewrite list_elem_of_In in Hin. split; assumption.
    + destruct id; [congruence | reflexivity].
Qed.

End SeedFacts.


(** ** The ledger on disk *)

Section DiskFacts.

Lemma quote_is_scalar : isScalarUnit dquote = true.
Proof. reflexivity. Qed.

Lemma toWellFormed_escapeCsvValue v :
  toWellFormed (escapeCsvValue v) = escapeCsvValue (toWellFormed v).
Proof.
  induction v as [| c v Hc IH | c d v Hc Hhigh Hlow IH | c v Hlone IH] using by_code_point.
  - reflexivity.
  - rewrite (toWellFormed_scalar c v Hc), !escapeCsvValue_cons.
    destruct (c =? dquote) eqn:Hq.
    + rewrite !toWellFormed_scalar by reflexivity. rewrite IH. reflexivity.
    + rewrite toWellFormed_scalar by exact Hc. rewrite IH. reflexivity.
  - assert (Hcq : (c =? dquote) = false).
    { apply N.eqb_neq. intros ->. discriminate. }
    assert (Hdq : (d =? dquote) = false).
    { apply N.eqb_neq. intros ->. discriminate. }
    rewrite (toWellFormed_pair c d v Hc Hhigh Hlow), !escapeCsvValue_cons, Hcq, Hdq.
    rewrite toWellFormed_pair by assumption. rewrite IH. reflexivity.
  - assert (Hcq : (c =? dquote) = false).
    { apply N.eqb_neq. intros ->. destruct Hlone as [Hc _]. discriminate. }
    rewrite (toWellFormed_lone c v Hlone), !escapeCsvValue_cons, Hcq.
    change (REPLACEMENT =? dquote) with false. cbv iota.
    rewrite toWellFormed_lone; [rewrite IH; reflexivity |].
    destruct Hlone as [Hc Hnext]. split; [exact Hc |].
    destruct Hnext as [Hhigh | Hnext]; [left; exact Hhigh | right].
    destruct v as [| d v]; [exact I |].
    rewrite escapeCsvValue_cons. destruct (d =? dquote) eqn:Hd; [reflexivity | exact Hnext].
Qed.

Lemma toWellFormed_quoted f tail :
  toWellFormed (quoted f ++ tail) = quoted (toWellFormed f) ++ toWellFormed tail.
Proof.
  unfold quoted. cbn [app]. rewrite toWellFormed_scalar by reflexivity.
  rewrite <- app_assoc. cbn [app].
  rewrite toWellFormed_app_scalar by reflexivity.
  rewrite toWellFormed_escapeCsvValue, <- app_assoc. reflexivity.
Qed.

Lemma toWellFormed_joinQuoted fields :
  forall tail,
    toWellFormed (joinQuoted fields ++ tail)
    = joinQuoted (List.map toWellFormed fields) ++ toWellFormed tail.
Proof.
  induction fields as [| f rest IH]; intros tail; [reflexivity |].
  destruct rest as [| g rest'].
  - cbn [joinQuoted List.map]. apply toWellFormed_quoted.
  - change (joinQuoted (f :: g :: rest'))
      with (quoted f ++ comma :: joinQuoted (g :: rest')).
    change (joinQuoted (List.map toWellFormed (f :: g :: rest')))
      with (quoted (toWellFormed f)
              ++ comma :: joinQuoted (List.map toWellFormed (g :: rest'))).
    rewrite <- !app_assoc, toWellFormed_quoted. cbn [app].
    rewrite toWellFormed_scalar by reflexivity. rewrite IH. reflexivity.
Qed.

Lemma toWellFormed_listSource timestamp :
  toWellFormed (listSource timestamp) = listSource (toWellFormed timestamp).
Proof.
  unfold listSource. rewrite toWellFormed_scalars by reflexivity.
  change (lit ")") with [41]. rewrite toWellFormed_snoc by reflexivity. reflexivity.
Qed.

(** The line of a record comes back from the file as the line of the
    record read back. *)
Lemma toWellFormed_csvLine record timestamp :
  toWellFormed (csvLine record (listSource timestamp))
  = csvLine (toWellFormedRecord record) (listSource (toWellFormed timestamp)).
Proof.
  rewrite !csvLine_joinQuoted, toWellFormed_joinQuoted.
  unfold csvRow. cbn [List.map toWellFormedRecord Csv.companyName phone email tableUrl
                        companySize industry headOffice annualRecruitment].
  rewrite toWellFormed_listSource. reflexivity.
Qed.

Lemma toWellFormed_HEADER : toWellFormed HEADER = HEADER.
Proof. vm_compute. reflexivity. Qed.

Lemma decode_ledgerBytes entries :
  forall bytes,
    decodeFrom Idle (ledgerBytes entries ++ bytes)
    = ledgerText (List.map readBack entries) ++ decodeFrom Idle bytes.
Proof.
  induction entries as [| [record timestamp] entries IH]; intros bytes; [reflexivity |].
  unfold ledgerBytes, ledgerText in *. cbn [List.map concat fst snd readBack].
  rewrite <- !app_assoc, decode_encode_app, IH, toWellFormed_csvLine. reflexivity.
Qed.

(** What a run reads from the file that earlier runs wrote. *)
Lemma decode_writtenFile entries :
  decode (writtenFile entries) = HEADER ++ ledgerText (List.map readBack entries).
Proof.
  unfold decode, writtenFile.
  rewrite decode_encode_app, toWellFormed_HEADER.
  rewrite <- (app_nil_r (ledgerBytes entries)), decode_ledgerBytes, app_nil_r.
  reflexivity.
Qed.

Lemma readBack_wellFormed record timestamp :
  toWellFormedRecord record = record -> toWellFormed timestamp = timestamp ->
  readBack (record, timestamp) = (record, timestamp).
Proof. intros Hr Ht. unfold readBack. cbn [fst snd]. rewrite Hr, Ht. reflexivity. Qed.

End DiskFacts.




(** X1.  A ledger file made of the header and the lines written for
    any sequence of records is read by the next run as the header row
    followed by the twenty values of each record, in order, with every
    surrogate without partner replaced by U+FFFD, and it seeds the
    dedup set with exactly the non-empty identities of the records as
    read back.  So the probe of a later run finds every company
    written under a well-formed name, under any non-empty raw name
    with the same normal form; when all names are well-formed the
    seeded set is the set of non-empty identities written. *)
Theorem written_ledger_seeds_its_identities (entries : list (CsvRecord * jsstring)) :
  decode (writtenFile entries) = HEADER ++ ledgerText (List.map readBack entries)
  /\ parseCsvContent (decode (writtenFile entries))
     = headerRow :: ledgerRows (List.map readBack entries)
  /\ loadExistingCompanyNames (Some (decode (writtenFile entries)))
     = list_to_set (seedable (List.map (fun entry => toWellFormedRecord entry.1) entries))
  /\ (forall record timestamp rawName,
         (record, timestamp) ∈ entries ->
         isWellFormed (Csv.companyName record) = true ->
         identityOf record <> [] ->
         rawName <> [] ->
         normalizeCompanyName rawName = identityOf record ->
         checkCompanyExists rawName
           (loadExistingCompanyNames (Some (decode (writtenFile entries)))) = true)
  /\ (Forall (fun entry => isWellFormed (Csv.companyName entry.1) = true) entries ->
      loadExistingCompanyNames (Some (decode (writtenFile entries)))
      = list_to_set (seedable (List.map fst entries)))
  /\ loadExistingCompanyNames None = ∅.
Proof.
  assert (Hseed : loadExistingCompanyNames (Some (decode (writtenFile entries)))
                  = list_to_set
                      (seedable (List.map (fun entry => toWellFormedRecord entry.1) entries))).
  { rewrite decode_writtenFile, seed_ledger, List.map_map. reflexivity. }
  split; [apply decode_writtenFile |].
  split; [rewrite decode_writtenFile; apply parse_ledger |].
  split; [exact Hseed |]. split; [| split; [| reflexivity]].
  - intros record timestamp rawName Hin Hname Hid Hraw Hsame.
    apply checkCompanyExists_spec; [exact Hraw |].
    rewrite Hseed, Hsame. apply elem_of_list_to_set. apply seedable_spec.
    split; [exact Hid |]. exists (toWellFormedRecord record). split.
    + apply list_elem_of_In. apply in_map_iff. exists (record, timestamp).
      split; [reflexivity |]. apply list_elem_of_In. exact Hin.
    + apply bool_decide_eq_true in Hname.
      unfold identityOf. cbn [toWellFormedRecord Csv.companyName].
      rewrite Hname. reflexivity.
  - intros Hall. rewrite Hseed. f_equal. unfold seedable. f_equal.
    rewrite !List.map_map. apply map_ext_in. intros entry Hin.
    apply list_elem_of_In in Hin.
    pose proof (proj1 (Forall_forall _ _) Hall entry Hin) as Hname.
    apply bool_decide_eq_true in Hname.
    unfold identityOf. cbn [toWellFormedRecord Csv.companyName].
    rewrite Hname. reflexivity.
Qed.

(** ** The one-line parser *)

Section LineParserFacts.

Lemma parseCsvLine_quoted_value v :
  forall tail result current,
    closesQuote tail ->
    parseCsvLineLoop (escapeCsvValue v ++ dquote :: tail) result current true
    = parseCsvLineLoop tail result (current ++ v) false.
Proof.
  induction v as [| c v IH]; intros tail result current Htail.
  - rewrite escapeCsvValue_nil, app_nil_r. simpl.
    destruct tail as [| d tail']; [reflexivity |].
    simpl in Htail. apply N.eqb_neq in Htail. rewrite Htail. reflexivity.
  - rewrite escapeCsvValue_cons.
    destruct (c =? dquote) eqn:Hc.
    + apply N.eqb_eq in Hc. subst c.
      change ((dquote :: dquote :: escapeCsvValue v) ++ dquote :: tail)
        with (dquote :: dquote :: (escapeCsvValue v ++ dquote :: tail)).
      cbn [parseCsvLineLoop]. rewrite N.eqb_refl. cbn [andb].
      rewrite IH by assumption. rewrite <- app_assoc. reflexivity.
    + change ((c :: escapeCsvValue v) ++ dquote :: tail)
        with (c :: (escapeCsvValue v ++ dquote :: tail)).
      cbn [parseCsvLineLoop]. rewrite Hc. cbn [negb andb].
      rewrite !andb_false_r.
      rewrite IH by assumption. rewrite <- app_assoc. reflexivity.
Qed.

Lemma parseCsvLine_quoted_field f tail result :
  closesQuote tail ->
  parseCsvLineLoop (quoted f ++ tail) result [] false
  = parseCsvLineLoop tail result f false.
Proof.
  intros Htail. unfold quoted.
  change ((dquote :: escapeCsvValue f ++ [dquote]) ++ tail)
    with (dquote :: ((escapeCsvValue f ++ [dquote]) ++ tail)).
  rewrite <- app_assoc. simpl ([dquote] ++ tail).
  cbn [parseCsvLineLoop]. rewrite N.eqb_refl. cbn [andb negb].
  destruct (escapeCsvValue f ++ dquote :: tail) eqn:Hshape.
  - destruct (escapeCsvValue f); discriminate.
  - rewrite <- Hshape. rewrite parseCsvLine_quoted_value by assumption. reflexivity.
Qed.

Lemma parseCsvLine_joined fields :
  fields <> [] ->
  forall result,
    parseCsvLineLoop (joinQuoted fields) result [] false = result ++ fields.
Proof.
  induction fields as [| f more IH]; intros Hne result; [congruence |].
  destruct more as [| g more'].
  - cbn [joinQuoted]. rewrite <- (app_nil_r (quoted f)).
    rewrite parseCsvLine_quoted_field by exact I. reflexivity.
  - change (joinQuoted (f :: g :: more'))
      with (quoted f ++ comma :: joinQuoted (g :: more')).
    rewrite parseCsvLine_quoted_field by (simpl; discriminate).
    cbn [parseCsvLineLoop]. change (comma =? dquote) with false. cbv iota.
    rewrite N.eqb_refl. cbn [andb negb].
    rewrite IH by discriminate. rewrite <- app_assoc. reflexivity.
Qed.

Lemma parseCsvLineLoop_nonempty (n : nat) :
  forall line result current inQuotes,
    (length line <= n)%nat ->
    parseCsvLineLoop line result current inQuotes <> [].
Proof.
  induction n as [| n IH]; intros line result current inQuotes Hlen.
  - destruct line; [| cbn in Hlen; lia]. cbn. destruct result; discriminate.
  - destruct line as [| c rest]; [cbn; destruct result; discriminate |].
    cbn in Hlen. cbn [parseCsvLineLoop].
    destruct (c =? dquote).
    + destruct rest as [| d rest']; [apply IH; cbn; lia |].
      cbn in Hlen.
      destruct (inQuotes && (d =? dquote)); apply IH; cbn; lia.
    + destruct ((c =? comma) && negb inQuotes); apply IH; lia.
Qed.

End LineParserFacts.

(** X2.  [parseCsvLine] reads back any non-empty list of values that
    were written between double quotes with the quotes inside doubled
    and commas in between, whatever the values contain.  It never
    returns an empty list: the empty line is one empty value. *)
Theorem parseCsvLine_round_trip (fields : list jsstring) :
  fields <> [] ->
  parseCsvLine (joinQuoted fields) = fields
  /\ parseCsvLine [] = [[]]
  /\ (forall line, parseCsvLine line <> []).
Proof.
  intros Hne. split; [| split; [reflexivity |]].
  - unfold parseCsvLine. rewrite parseCsvLine_joined by exact Hne. reflexivity.
  - intros line. unfold parseCsvLine.
    apply (parseCsvLineLoop_nonempty (length line)). lia.
Qed.

Lemma parseCsvLine_round_trip_witness :
  parseCsvLine (joinQuoted (csvRow awkwardRecord (lit "src")))
  = csvRow awkwardRecord (lit "src").
Proof.
  apply (parseCsvLine_round_trip (csvRow awkwardRecord (lit "src"))).
  discriminate.
Defined.

(** ** What a run writes *)

Section JournalFacts.
Context {W : Type} {host : Host W}.
Implicit Types m : Machine W.
Variable CONFIG : MynaviConfig.

Lemma Still_refl m : Still m m.
Proof. split; [apply Quiet_refl | reflexivity]. Qed.

Lemma Still_trans m m1 m2 : Still m m1 -> Still m1 m2 -> Still m m2.
Proof.
  intros [Hq1 Hs1] [Hq2 Hs2]. split; [eapply Quiet_trans; eassumption | congruence].
Qed.

Lemma Still_emit e m m0 :
  isPauseWait e = false -> isAppend e = false -> Still m m0 -> Still m (emit e m0).
Proof. intros Hw Ha [Hq Hs]. split; [apply Quiet_emit; assumption | exact Hs]. Qed.

Lemma Still_setWorld w m m0 : Still m m0 -> Still m (setWorld w m0).
Proof. intros [Hq Hs]. split; [apply Quiet_setWorld; exact Hq | exact Hs]. Qed.

Lemma Still_waitForTimeout ms m m0 : Still m m0 -> Still m (waitForTimeout ms m0).
Proof. intros [Hq Hs]. split; [apply Quiet_waitForTimeout; exact Hq | exact Hs]. Qed.

Lemma Still_doGoto target ok m m0 m1 :
  Still m m0 -> doGoto target m0 = (ok, m1) -> Still m m1.
Proof.
  intros [Hq Hs] Hrun. split; [eapply Quiet_doGoto; eassumption |].
  unfold doGoto in Hrun. destruct (goto target (world m0)).
  injection Hrun as _ <-. exact Hs.
Qed.

Lemma Still_doEvaluateOutline raw m m0 m1 :
  Still m m0 -> doEvaluateOutline m0 = (raw, m1) -> Still m m1.
Proof.
  intros [Hq Hs] Hrun. split; [eapply Quiet_doEvaluateOutline; eassumption |].
  unfold doEvaluateOutline in Hrun. destruct (evaluateOutline (world m0)).
  injection Hrun as _ <-. exact Hs.
Qed.

Lemma Still_doQueryCourseLinks links m m0 m1 :
  Still m m0 -> doQueryCourseLinks m0 = (links, m1) -> Still m m1.
Proof.
  intros [Hq Hs] Hrun. split; [eapply Quiet_doQueryCourseLinks; eassumption |].
  unfold doQueryCourseLinks in Hrun. destruct (queryCourseLinks (world m0)).
  injection Hrun as _ <-. exact Hs.
Qed.

Lemma Still_doExtractTable target hint outcome m m0 m1 :
  Still m m0 -> doExtractTable target hint m0 = (outcome, m1) -> Still m m1.
Proof.
  intros [Hq Hs] Hrun. split; [eapply Quiet_doExtractTable; eassumption |].
  unfold doExtractTable in Hrun. destruct (extractInternshipTable target hint (world m0)).
  injection Hrun as _ <-. exact Hs.
Qed.

Lemma Still_doQueryCompanyLinks links m m0 m1 :
  Still m m0 -> doQueryCompanyLinks m0 = (links, m1) -> Still m m1.
Proof.
  intros [Hq Hs] Hrun. split; [eapply Quiet_doQueryCompanyLinks; eassumption |].
  unfold doQueryCompanyLinks in Hrun. destruct (queryCompanyLinks (world m0)).
  injection Hrun as _ <-. exact Hs.
Qed.

Lemma Still_doQueryNextButton button m m0 m1 :
  Still m m0 -> doQueryNextButton m0 = (button, m1) -> Still m m1.
Proof.
  intros [Hq Hs] Hrun. split; [eapply Quiet_doQueryNextButton; eassumption |].
  unfold doQueryNextButton in Hrun. destruct (queryNextButton (world m0)).
  injection Hrun as _ <-. exact Hs.
Qed.

Lemma Still_top top m m0 : isLoopTop top = true -> Still m m0 -> Still m (emit top m0).
Proof. intros Htop [Hq Hs]. split; [apply Quiet_top; assumption | exact Hs]. Qed.

Lemma Still_top_wait top polls m m0 m1 :
  isLoopTop top = true ->
  Still m m0 -> waitIfPaused polls (emit top m0) = Some m1 -> Still m m1.
Proof.
  intros Htop [Hq Hs] Hwait. split; [eapply Quiet_top_wait; eassumption |].
  apply waitIfPaused_shape in Hwait. destruct Hwait as (_ & _ & _ & _ & Hset).
  rewrite Hset. exact Hs.
Qed.

Lemma Still_courseLoop polls finalCompanyName courseLinks :
  forall courseDataList m m0 finish,
    Still m m0 ->
    courseLoop polls finalCompanyName courseLinks courseDataList m0 = Some finish ->
    Still m match finish with
            | Collected _ m1 => m1
            | CourseThrew m1 => m1
            end.
Proof.
  induction courseLinks as [| courseUrl rest IH];
    intros courseDataList m m0 finish Hq Hrun; cbn [courseLoop] in Hrun.
  - injection Hrun as <-. exact Hq.
  - destruct (shouldStop (world (emit (EvCourseTop courseUrl) m0))).
    { injection Hrun as <-. apply Still_top; [reflexivity | exact Hq]. }
    destruct (waitIfPaused polls (emit (EvCourseTop courseUrl) m0)) as [m1 |] eqn:Hwait;
      [| discriminate].
    assert (Hq1 : Still m m1)
      by (eapply Still_top_wait; [| exact Hq | exact Hwait]; reflexivity).
    destruct (doExtractTable courseUrl finalCompanyName (waitForTimeout DELAY_MS m1))
      as [outcome m2] eqn:Hfetch.
    assert (Hq2 : Still m m2).
    { eapply Still_doExtractTable; [| exact Hfetch]. apply Still_waitForTimeout. exact Hq1. }
    destruct outcome as [| | data].
    + injection Hrun as <-. exact Hq2.
    + eapply IH; [exact Hq2 | exact Hrun].
    + destruct (hasPhone (withCompanyName finalCompanyName data)
                && hasEmail (withCompanyName finalCompanyName data)).
      * injection Hrun as <-. exact Hq2.
      * eapply IH; [exact Hq2 | exact Hrun].
Qed.

(** Up to the save a company changes neither the ledger nor the set:
    the probe that hits re-adds an identity the set already has. *)
Lemma Still_explore polls link m m0 plan :
  Still m m0 -> explore polls link m0 = Some plan -> Still m (planMachine plan).
Proof.
  intros Hq Hrun. unfold explore in Hrun.
  destruct (negb (truthy (name link))) eqn:Hname; [injection Hrun as <-; exact Hq |].
  destruct (checkCompanyExists (name link) (existingCompanies m0)) eqn:Hprobe.
  { injection Hrun as <-. cbn [planMachine]. destruct Hq as [Hq Hs]. split.
    - apply Quiet_addCompany. apply Quiet_emit; [reflexivity | reflexivity | exact Hq].
    - cbn. rewrite <- Hs.
      apply checkCompanyExists_spec in Hprobe.
      + set_solver.
      + intros Hempty. rewrite Hempty in Hname. discriminate. }
  destruct (doGoto (url link) (waitForTimeout DELAY_MS m0)) as [ok m1] eqn:Hgoto.
  assert (Hq1 : Still m m1).
  { eapply Still_doGoto; [| exact Hgoto]. apply Still_waitForTimeout. exact Hq. }
  destruct (negb ok).
  { injection Hrun as <-. apply Still_emit; [reflexivity | reflexivity | exact Hq1]. }
  destruct (doEvaluateOutline m1) as [[raw |] m2] eqn:Houtline.
  2:{ injection Hrun as <-. apply Still_emit; [reflexivity | reflexivity |].
      eapply Still_doEvaluateOutline; [exact Hq1 | exact Houtline]. }
  assert (Hq2 : Still m m2) by (eapply Still_doEvaluateOutline; [exact Hq1 | exact Houtline]).
  destruct (negb (includes (pageUrl (world m2)) (lit "outline")));
    [injection Hrun as <-; exact Hq2 |].
  destruct (negb (truthy (replaceFirst (lit "outline") (lit "is") (pageUrl (world m2))))).
  { injection Hrun as <-. apply Still_waitForTimeout. exact Hq2. }
  destruct (doGoto _ (waitForTimeout DELAY_MS m2)) as [ok' m3] eqn:Hgoto'.
  assert (Hq3 : Still m m3).
  { eapply Still_doGoto; [| exact Hgoto']. apply Still_waitForTimeout. exact Hq2. }
  destruct (negb ok').
  { injection Hrun as <-. apply Still_emit; [reflexivity | reflexivity | exact Hq3]. }
  destruct (doQueryCourseLinks m3) as [[| courseUrl rest] m4] eqn:Hlinks;
    (assert (Hq4 : Still m m4)
      by (eapply Still_doQueryCourseLinks; [exact Hq3 | exact Hlinks])).
  - destruct (doExtractTable _ (name link) m4) as [outcome m5] eqn:Hfetch.
    assert (Hq5 : Still m m5) by (eapply Still_doExtractTable; [exact Hq4 | exact Hfetch]).
    destruct outcome; injection Hrun as <-; exact Hq5.
  - destruct (courseLoop polls (name link) (courseUrl :: rest) [] m4)
      as [finish |] eqn:Hloop; [| discriminate].
    pose proof (Still_courseLoop _ _ _ _ _ _ _ Hq4 Hloop) as Hq5.
    destruct finish; injection Hrun as <-; [exact Hq5 |].
    apply Still_emit; [reflexivity | reflexivity | exact Hq5].
Qed.

Lemma Journal_refl m : Journal m m [].
Proof.
  exists []. rewrite !app_nil_r. cbn.
  split; [reflexivity |]. split; [constructor |]. split; [reflexivity |].
  split; [constructor |]. split; [| set_solver].
  intros record Hin. inversion Hin.
Qed.

Lemma Still_Journal m m0 : Still m m0 -> Journal m m0 [].
Proof.
  intros [(events & Htrace & _ & Hnone & Hfile) Hset].
  exists events. rewrite Hnone. cbn. rewrite app_nil_r.
  split; [exact Htrace |]. split; [constructor |]. split; [exact Hfile |].
  split; [constructor |]. split; [| rewrite Hset; set_solver].
  intros record Hin. inversion Hin.
Qed.

Lemma Journal_trans m m1 m2 records1 records2 :
  Journal m m1 records1 -> Journal m1 m2 records2 -> Journal m m2 (records1 ++ records2).
Proof.
  intros (e1 & Ht1 & Hw1 & Hf1 & Hd1 & Hn1 & Hs1) (e2 & Ht2 & Hw2 & Hf2 & Hd2 & Hn2 & Hs2).
  exists (e1 ++ e2). rewrite Ht2, Ht1, <- app_assoc.
  split; [reflexivity |]. rewrite appendedLines_app, concat_app.
  split; [apply Forall2_app; assumption |].
  split; [rewrite Hf2, Hf1, <- app_assoc; reflexivity |].
  rewrite map_app. split.
  { apply NoDup_app. split; [exact Hd1 |]. split; [| exact Hd2].
    intros id Hin1 Hin2.
    apply list_elem_of_In, in_map_iff in Hin2. destruct Hin2 as (record & <- & Hrec).
    apply list_elem_of_In in Hrec. apply (Hn2 record Hrec).
    rewrite Hs1. apply elem_of_union_r. apply elem_of_list_to_set. exact Hin1. }
  split.
  { intros record Hin. apply elem_of_app in Hin. destruct Hin as [Hin | Hin].
    - apply Hn1. exact Hin.
    - intros Hold. apply (Hn2 record Hin). rewrite Hs1. set_solver. }
  rewrite Hs2, Hs1. rewrite list_to_set_app_L. set_solver.
Qed.

Lemma Journal_saved record m m' :
  has (identityOf record) (existingCompanies m) = false ->
  Saved record m m' -> Journal m m' [record].
Proof.
  intros Hnew (relay & Htrace & Hrelay & Hfile & Hset).
  destruct (relay_quiet isLoopTop None relay Hrelay) as [_ Hnone].
  exists (EvAppendCsv (lineOf record m) :: relay).
  split; [exact Htrace |]. cbn [appendedLines]. rewrite Hnone. cbn.
  split.
  { constructor; [| constructor]. eexists. reflexivity. }
  split; [rewrite app_nil_r; exact Hfile |].
  split; [constructor; [set_solver | constructor] |].
  apply has_false in Hnew. split.
  - intros r Hin. apply list_elem_of_singleton in Hin. subst r. exact Hnew.
  - rewrite Hset. unfold identityOf. set_solver.
Qed.

(** The save part writes at most one record, a new one. *)
Lemma Journal_settle maxCompanies plan added flow m' added' :
  settle CONFIG maxCompanies plan added = (flow, m', added') ->
  exists records,
    Journal (planMachine plan) m' records
    /\ (length records <= 1)%nat
    /\ added' = (added + length records)%nat.
Proof.
  assert (Hsave :
            forall record m skipped m1,
              saveRecordIfNew (GAS_CONFIG CONFIG) record m = (skipped, m1) ->
              exists records,
                Journal m m1 records
                /\ length records = (if skipped then 0 else 1)%nat).
  { intros record m skipped m1 Hrun.
    destruct (saveRecordIfNew_shape (GAS_CONFIG CONFIG) record m)
      as [(_ & Hskip) | (Hnew & Hran & Hsaved)].
    - rewrite Hskip in Hrun. injection Hrun as <- <-.
      exists []. split; [apply Journal_refl | reflexivity].
    - rewrite Hrun in Hran, Hsaved. cbn in Hran, Hsaved. subst skipped.
      exists [record]. split; [| reflexivity].
      apply Journal_saved; assumption. }
  destruct plan as [m | record m | finalCompanyName companyMeta isPageUrl courseDataList m];
    cbn [settle planMachine].
  - intros [= <- <- <-]. exists []. split; [apply Journal_refl |]. cbn. split; lia.
  - unfold saveMinimal.
    destruct (saveRecordIfNew (GAS_CONFIG CONFIG) record m) as [skipped m1] eqn:Hrun.
    destruct (Hsave _ _ _ _ Hrun) as (records & Hjournal & Hlen).
    destruct skipped.
    + intros [= <- <- <-]. exists records. rewrite Hlen. split; [exact Hjournal |]. split; lia.
    + destruct (capReached maxCompanies (S added)); intros [= <- <- <-];
        exists records; rewrite Hlen; (split; [exact Hjournal |]); split; lia.
  - unfold persistCompany, saveMinimal.
    destruct (bestCourse courseDataList) as [best |].
    + destruct (saveRecordIfNew (GAS_CONFIG CONFIG) _ m) as [skipped m1] eqn:Hrun.
      destruct (Hsave _ _ _ _ Hrun) as (records & Hjournal & Hlen).
      destruct skipped.
      * destruct (capReached maxCompanies added); intros [= <- <- <-];
          exists records; rewrite Hlen; (split; [exact Hjournal |]); split; lia.
      * destruct (capReached maxCompanies (S added)); intros [= <- <- <-];
          exists records; rewrite Hlen; (split; [exact Hjournal |]); split; lia.
    + destruct (saveRecordIfNew (GAS_CONFIG CONFIG) _ m) as [skipped m1] eqn:Hrun.
      destruct (Hsave _ _ _ _ Hrun) as (records & Hjournal & Hlen).
      destruct skipped.
      * intros [= <- <- <-]. exists records. rewrite Hlen.
        split; [exact Hjournal |]. split; lia.
      * destruct (capReached maxCompanies (S added)); intros [= <- <- <-];
          exists records; rewrite Hlen; (split; [exact Hjournal |]); split; lia.
Qed.

Lemma Tally_refl added m : Tally added m m added.
Proof. exists []. split; [apply Journal_refl | cbn; lia]. Qed.

Lemma Tally_still added m m0 : Still m m0 -> Tally added m m0 added.
Proof. intros H. exists []. split; [apply Still_Journal; exact H | cbn; lia]. Qed.

Lemma Tally_trans a m a1 m1 a2 m2 :
  Tally a m m1 a1 -> Tally a1 m1 m2 a2 -> Tally a m m2 a2.
Proof.
  intros (r1 & Hj1 & Ha1) (r2 & Hj2 & Ha2). exists (r1 ++ r2).
  split; [eapply Journal_trans; eassumption |]. rewrite length_app. lia.
Qed.

Lemma Tally_processCompany polls maxCompanies link m added flow m' added' :
  processCompany CONFIG polls maxCompanies link m added = Some (flow, m', added') ->
  Tally added m m' added'.
Proof.
  rewrite processCompany_factors.
  destruct (explore polls link m) as [plan |] eqn:Hplan; [| discriminate].
  intros [= Hsettle]. eapply Tally_trans.
  - apply Tally_still. eapply Still_explore; [apply Still_refl | exact Hplan].
  - apply Journal_settle in Hsettle. destruct Hsettle as (records & Hj & _ & Ha).
    exists records. split; assumption.
Qed.

Lemma Tally_companyLoop polls maxCompanies companyData :
  forall m added m' added',
    companyLoop CONFIG polls maxCompanies companyData m added = Some (m', added') ->
    Tally added m m' added'.
Proof.
  induction companyData as [| link rest IH]; intros m added m' added' Hrun;
    cbn [companyLoop] in Hrun.
  - injection Hrun as <- <-. apply Tally_refl.
  - assert (Htop : Tally added m (emit (EvEntityTop (name link)) m) added).
    { apply Tally_still. apply Still_top; [reflexivity | apply Still_refl]. }
    destruct (shouldStop (world (emit (EvEntityTop (name link)) m))).
    { injection Hrun as <- <-. exact Htop. }
    destruct (capReached maxCompanies added).
    { injection Hrun as <- <-. exact Htop. }
    destruct (waitIfPaused polls (emit (EvEntityTop (name link)) m)) as [m1 |] eqn:Hwait;
      [| discriminate].
    assert (Hq1 : Tally added m m1 added).
    { apply Tally_still.
      eapply Still_top_wait; [| apply Still_refl | exact Hwait]; reflexivity. }
    destruct (processCompany CONFIG polls maxCompanies link m1 added)
      as [[[flow m2] added2] |] eqn:Hcompany; [| discriminate].
    apply Tally_processCompany in Hcompany.
    destruct flow.
    + eapply Tally_trans; [exact Hq1 |]. eapply Tally_trans; [exact Hcompany |].
      apply IH. exact Hrun.
    + injection Hrun as <- <-. eapply Tally_trans; eassumption.
Qed.

Lemma Still_advance m added :
  Still m (stepMachine (advance m added)) /\ stepCount (advance m added) = added.
Proof.
  unfold advance.
  destruct (doQueryNextButton m) as [button m1] eqn:Hquery.
  assert (Hq : Still m m1) by (eapply Still_doQueryNextButton; [apply Still_refl | exact Hquery]).
  destruct button as [nextButtonClass |]; [| split; [exact Hq | reflexivity]].
  destruct (includes nextButtonClass (lit "disabled")); (split; [| reflexivity]);
    [exact Hq |].
  cbn [stepMachine]. unfold doClickNext. apply Still_emit; [reflexivity | reflexivity |].
  apply Still_setWorld. apply Still_waitForTimeout. exact Hq.
Qed.

Lemma Tally_pageIteration polls maxCompanies pageIndex m added step :
  pageIteration CONFIG polls maxCompanies pageIndex m added = Some step ->
  Tally added m (stepMachine step) (stepCount step).
Proof.
  unfold pageIteration. intros Hrun.
  assert (Htop : Tally added m (emit (EvPageTop pageIndex) m) added).
  { apply Tally_still. apply Still_top; [reflexivity | apply Still_refl]. }
  destruct (shouldStop (world (emit (EvPageTop pageIndex) m))).
  { injection Hrun as <-. exact Htop. }
  destruct (capReached maxCompanies added).
  { injection Hrun as <-. exact Htop. }
  destruct (waitIfPaused polls (emit (EvPageTop pageIndex) m)) as [m1 |] eqn:Hwait;
    [| discriminate].
  assert (Hq1 : Still m m1)
    by (eapply Still_top_wait; [| apply Still_refl | exact Hwait]; reflexivity).
  destruct (doQueryCompanyLinks m1) as [companyData m2] eqn:Hlinks.
  assert (Hq2 : Still m m2) by (eapply Still_doQueryCompanyLinks; [exact Hq1 | exact Hlinks]).
  destruct (START_PAGE CONFIG <=? pageIndex)%nat.
  - destruct (companyLoop CONFIG polls maxCompanies companyData (doNewPage m2) added)
      as [[m3 added3] |] eqn:Hloop; [| discriminate].
    apply Tally_companyLoop in Hloop.
    assert (Hq3 : Tally added m (doClosePage m3) added3).
    { eapply Tally_trans; [| eapply Tally_trans; [exact Hloop |]].
      - apply Tally_still. unfold doNewPage.
        apply Still_emit; [reflexivity | reflexivity |]. apply Still_setWorld. exact Hq2.
      - apply Tally_still. unfold doClosePage.
        apply Still_emit; [reflexivity | reflexivity |]. apply Still_setWorld.
        apply Still_refl. }
    destruct (shouldStop (world (doClosePage m3))); [injection Hrun as <-; exact Hq3 |].
    destruct (capReached maxCompanies added3); [injection Hrun as <-; exact Hq3 |].
    injection Hrun as <-.
    destruct (Still_advance (doClosePage m3) added3) as [Hstill Hcount].
    rewrite Hcount. eapply Tally_trans; [exact Hq3 | apply Tally_still; exact Hstill].
  - injection Hrun as <-.
    destruct (Still_advance m2 added) as [Hstill Hcount]. rewrite Hcount.
    eapply Tally_trans; [apply Tally_still; exact Hq2 | apply Tally_still; exact Hstill].
Qed.

Lemma Tally_pageLoop pages polls maxCompanies :
  forall pageIndex m added finish,
    pageLoop CONFIG pages polls maxCompanies pageIndex m added = Some finish ->
    Tally added m (final finish) (addedCompanyCount finish).
Proof.
  induction pages as [| pages IH]; intros pageIndex m added finish Hrun;
    cbn [pageLoop] in Hrun; [discriminate |].
  destruct (pageIteration CONFIG polls maxCompanies pageIndex m added) as [step |] eqn:Hstep;
    [| discriminate].
  apply Tally_pageIteration in Hstep.
  destruct step as [reason m1 added1 | m1 added1]; cbn in Hstep.
  - injection Hrun as <-. exact Hstep.
  - eapply Tally_trans; [exact Hstep |]. eapply IH. exact Hrun.
Qed.

End JournalFacts.

(** X3.  A run writes each company at most once.  Whatever the site
    answers and whatever the cap, a crawl that ends has written the
    lines of some records, in order and nothing else, at the end of the
    ledger it started with; the identities of these records are
    pairwise distinct, none of them was in the dedup set when the run
    started, the set the run ends with is the one it started with plus
    exactly these identities, and the counter the run returns is the
    number of lines written. *)
Theorem run_writes_each_company_once {W : Type} {host : Host W}
        (CONFIG : MynaviConfig) (pages polls : nat) (maxCompanies : option nat)
        (m : Machine W) (finish : CrawlEnd) :
  processAllCompaniesFromSearch CONFIG pages polls maxCompanies m = Some finish ->
  exists records lines,
    Forall2 Written records lines
    /\ appendedLines (trace (final finish)) = appendedLines (trace m) ++ lines
    /\ csvFile (final finish) = csvFile m ++ concat lines
    /\ NoDup (List.map identityOf records)
    /\ (forall record, record ∈ records -> identityOf record ∉ existingCompanies m)
    /\ existingCompanies (final finish)
       = existingCompanies m ∪ list_to_set (List.map identityOf records)
    /\ addedCompanyCount finish = length records.
Proof.
  unfold processAllCompaniesFromSearch. intros Hrun.
  apply Tally_pageLoop in Hrun.
  destruct Hrun as (records & (events & Htrace & Hwritten & Hfile & Hdup & Hnew & Hset) & Hcount).
  exists records, (appendedLines events).
  rewrite Htrace, appendedLines_app. repeat split; assumption.
Qed.

Lemma run_writes_each_company_once_witness :
  exists finish records lines,
    crawl twoCompanies None = Some finish
    /\ Forall2 Written records lines
    /\ csvFile (final finish) = concat lines
    /\ NoDup (List.map identityOf records)
    /\ existingCompanies (final finish) = list_to_set (List.map identityOf records)
    /\ addedCompanyCount finish = 2%nat.
Proof.
  unfold crawl.
  destruct (@processAllCompaniesFromSearch Sim (scripted twoCompanies) plainConfig 5 5 None
              fresh) as [finish |] eqn:Hrun;
    [| vm_compute in Hrun; discriminate].
  destruct (@run_writes_each_company_once Sim (scripted twoCompanies) plainConfig 5 5 None
              fresh finish Hrun)
    as (records & lines & Hwritten & _ & Hfile & Hdup & _ & Hset & Hcount).
  exists finish, records, lines.
  split; [reflexivity |]. split; [exact Hwritten |].
  split; [exact Hfile |]. split; [exact Hdup |].
  split.
  { rewrite Hset. change (existingCompanies fresh) with (∅ : gset jsstring).
    apply (left_id_L ∅ (∪)). }
  vm_compute in Hrun. injection Hrun as <-. reflexivity.
Defined.

(** ** From one run to the next *)

Section NextRun.
Context {W : Type} {host : Host W}.
Implicit Types m : Machine W.

Lemma written_lines records :
  forall lines,
    Forall2 Written records lines ->
    exists entries,
      List.map fst entries = records /\ concat lines = ledgerText entries.
Proof.
  induction records as [| record more IH]; intros lines Hall; inversion Hall; subst.
  - exists []. split; reflexivity.
  - match goal with
    | H : Written record _ |- _ => destruct H as (timestamp & ->)
    end.
    match goal with
    | H : Forall2 Written more _ |- _ => destruct (IH _ H) as (entries & Hfst & Htext)
    end.
    exists ((record, timestamp) :: entries). split.
    + cbn. rewrite Hfst. reflexivity.
    + unfold ledgerText in *. cbn [List.map concat fst snd]. rewrite Htext. reflexivity.
Qed.

Lemma ledgerText_app entries more :
  ledgerText (entries ++ more) = ledgerText entries ++ ledgerText more.
Proof. unfold ledgerText. rewrite map_app, concat_app. reflexivity. Qed.

Lemma seedable_app records more : seedable (records ++ more) = seedable records ++ seedable more.
Proof. unfold seedable. rewrite map_app, List.filter_app. reflexivity. Qed.

Lemma seedable_set records :
  (list_to_set (seedable records) : gset jsstring)
  = list_to_set (List.map identityOf records) ∖ {[ [] ]}.
Proof.
  apply set_eq. intros id.
  rewrite elem_of_list_to_set, seedable_spec, elem_of_difference, elem_of_list_to_set,
    list_elem_of_In, in_map_iff, not_elem_of_singleton.
  split.
  - intros (Hne & record & Hin & Hid). split; [| exact Hne].
    exists record. rewrite list_elem_of_In in Hin. split; assumption.
  - intros ((record & Hid & Hin) & Hne). split; [exact Hne |].
    exists record. rewrite list_elem_of_In. split; assumption.
Qed.

End NextRun.

(** ** The names a run writes *)

Section WrittenNames.
Context {W : Type} {host : Host W}.
Implicit Types m : Machine W.
Variable CONFIG : MynaviConfig.
Variable P : jsstring -> Prop.

Lemma Bearing_refl m : Bearing P m m.
Proof. exists []. rewrite app_nil_r. split; [reflexivity | constructor]. Qed.

Lemma Bearing_trans m m1 m2 : Bearing P m m1 -> Bearing P m1 m2 -> Bearing P m m2.
Proof.
  intros (e1 & Ht1 & Hp1) (e2 & Ht2 & Hp2).
  exists (e1 ++ e2). rewrite Ht2, Ht1, <- app_assoc. split; [reflexivity |].
  rewrite appendedLines_app. apply Forall_app. split; assumption.
Qed.

Lemma Bearing_still m m0 : Still m m0 -> Bearing P m m0.
Proof.
  intros [(events & Htrace & _ & Hnone & _) _].
  exists events. split; [exact Htrace |]. rewrite Hnone. constructor.
Qed.

Lemma Bearing_settle maxCompanies plan added flow m' added' :
  match plan with
  | PlanNothing _ => True
  | PlanMinimal record _ => P (Csv.companyName record)
  | PlanPersist finalCompanyName _ _ _ _ => P finalCompanyName
  end ->
  settle CONFIG maxCompanies plan added = (flow, m', added') ->
  Bearing P (planMachine plan) m'.
Proof.
  intros Hplan Hsettle. apply (settle_line CONFIG) in Hsettle.
  destruct Hsettle as [-> | (record & relay & Htrace & Hrelay & Hrecord)];
    [apply Bearing_refl |].
  exists (EvAppendCsv (lineOf record (planMachine plan)) :: relay).
  split; [exact Htrace |]. cbn [appendedLines].
  destruct (relay_quiet isLoopTop None relay Hrelay) as [_ ->].
  constructor; [| constructor]. exists record. split; [eexists; reflexivity |].
  destruct plan as [m0 | minimal m0 | finalCompanyName companyMeta isPageUrl
                                        courseDataList m0];
    [contradiction | subst record; exact Hplan |].
  destruct (bestCourse courseDataList); subst record; exact Hplan.
Qed.

Lemma Bearing_processCompany polls maxCompanies link m added flow m' added' :
  P (name link) ->
  processCompany CONFIG polls maxCompanies link m added = Some (flow, m', added') ->
  Bearing P m m'.
Proof.
  intros Hname Hrun. rewrite processCompany_factors in Hrun.
  destruct (explore polls link m) as [plan |] eqn:Hplan; [| discriminate].
  injection Hrun as Hsettle.
  eapply Bearing_trans.
  - apply Bearing_still. eapply Still_explore; [apply Still_refl | exact Hplan].
  - eapply Bearing_settle; [| exact Hsettle].
    apply explore_courses in Hplan.
    destruct Hplan as (pre & events & post & _ & _ & _ & _ & Hcourses).
    destruct plan as [m0 | minimal m0 | finalCompanyName companyMeta isPageUrl
                                          courseDataList m0]; [exact I | |].
    + destruct Hcourses as [_ Hsame]. rewrite Hsame. exact Hname.
    + destruct Hcourses as [Hsame _]. rewrite Hsame. exact Hname.
Qed.

Lemma Bearing_companyLoop polls maxCompanies companyData :
  forall m added m' added',
    Forall (fun link => P (name link)) companyData ->
    companyLoop CONFIG polls maxCompanies companyData m added = Some (m', added') ->
    Bearing P m m'.
Proof.
  induction companyData as [| link rest IH]; intros m added m' added' Hall Hrun;
    cbn [companyLoop] in Hrun.
  - injection Hrun as <- _. apply Bearing_refl.
  - inversion Hall as [| ? ? Hlink Hrest]; subst.
    assert (Htop : Bearing P m (emit (EvEntityTop (name link)) m)).
    { apply Bearing_still. apply Still_top; [reflexivity | apply Still_refl]. }
    destruct (shouldStop (world (emit (EvEntityTop (name link)) m))).
    { injection Hrun as <- _. exact Htop. }
    destruct (capReached maxCompanies added).
    { injection Hrun as <- _. exact Htop. }
    destruct (waitIfPaused polls (emit (EvEntityTop (name link)) m)) as [m1 |] eqn:Hwait;
      [| discriminate].
    assert (Hq1 : Bearing P m m1).
    { apply Bearing_still.
      eapply Still_top_wait; [| apply Still_refl | exact Hwait]; reflexivity. }
    destruct (processCompany CONFIG polls maxCompanies link m1 added)
      as [[[flow m2] added2] |] eqn:Hcompany; [| discriminate].
    apply (Bearing_processCompany _ _ _ _ _ _ _ _ Hlink) in Hcompany.
    destruct flow.
    + eapply Bearing_trans; [exact Hq1 |]. eapply Bearing_trans; [exact Hcompany |].
      eapply IH; [exact Hrest | exact Hrun].
    + injection Hrun as <- _. eapply Bearing_trans; eassumption.
Qed.

Hypothesis site_names : forall w, Forall (fun link => P (name link)) (queryCompanyLinks w).1.

Lemma Bearing_pageIteration polls maxCompanies pageIndex m added step :
  pageIteration CONFIG polls maxCompanies pageIndex m added = Some step ->
  Bearing P m (stepMachine step).
Proof.
  unfold pageIteration. intros Hrun.
  assert (Htop : Bearing P m (emit (EvPageTop pageIndex) m)).
  { apply Bearing_still. apply Still_top; [reflexivity | apply Still_refl]. }
  destruct (shouldStop (world (emit (EvPageTop pageIndex) m))).
  { injection Hrun as <-. exact Htop. }
  destruct (capReached maxCompanies added).
  { injection Hrun as <-. exact Htop. }
  destruct (waitIfPaused polls (emit (EvPageTop pageIndex) m)) as [m1 |] eqn:Hwait;
    [| discriminate].
  assert (Hq1 : Still m m1)
    by (eapply Still_top_wait; [| apply Still_refl | exact Hwait]; reflexivity).
  pose proof (site_names (world m1)) as Hlinks.
  destruct (doQueryCompanyLinks m1) as [companyData m2] eqn:Hquery.
  assert (Hq2 : Still m m2) by (eapply Still_doQueryCompanyLinks; [exact Hq1 | exact Hquery]).
  assert (Hdata : Forall (fun link => P (name link)) companyData).
  { unfold doQueryCompanyLinks in Hquery.
    destruct (queryCompanyLinks (world m1)) as [links w]. injection Hquery as <- _.
    exact Hlinks. }
  destruct (START_PAGE CONFIG <=? pageIndex)%nat.
  - destruct (companyLoop CONFIG polls maxCompanies companyData (doNewPage m2) added)
      as [[m3 added3] |] eqn:Hloop; [| discriminate].
    apply (Bearing_companyLoop _ _ _ _ _ _ _ Hdata) in Hloop.
    assert (Hq3 : Bearing P m (doClosePage m3)).
    { eapply Bearing_trans; [| eapply Bearing_trans; [exact Hloop |]].
      - apply Bearing_still. unfold doNewPage.
        apply Still_emit; [reflexivity | reflexivity |]. apply Still_setWorld. exact Hq2.
      - apply Bearing_still. unfold doClosePage.
        apply Still_emit; [reflexivity | reflexivity |]. apply Still_setWorld.
        apply Still_refl. }
    destruct (shouldStop (world (doClosePage m3))); [injection Hrun as <-; exact Hq3 |].
    destruct (capReached maxCompanies added3); [injection Hrun as <-; exact Hq3 |].
    injection Hrun as <-.
    destruct (Still_advance (doClosePage m3) added3) as [Hstill _].
    eapply Bearing_trans; [exact Hq3 | apply Bearing_still; exact Hstill].
  - injection Hrun as <-.
    destruct (Still_advance m2 added) as [Hstill _].
    eapply Bearing_trans; [apply Bearing_still; exact Hq2 | apply Bearing_still; exact Hstill].
Qed.

Lemma Bearing_pageLoop pages polls maxCompanies :
  forall pageIndex m added finish,
    pageLoop CONFIG pages polls maxCompanies pageIndex m added = Some finish ->
    Bearing P m (final finish).
Proof.
  induction pages as [| pages IH]; intros pageIndex m added finish Hrun;
    cbn [pageLoop] in Hrun; [discriminate |].
  destruct (pageIteration CONFIG polls maxCompanies pageIndex m added) as [step |] eqn:Hstep;
    [| discriminate].
  apply Bearing_pageIteration in Hstep.
  destruct step as [reason m1 added1 | m1 added1]; cbn in Hstep.
  - injection Hrun as <-. exact Hstep.
  - eapply Bearing_trans; [exact Hstep |]. eapply IH. exact Hrun.
Qed.

End WrittenNames.

Section NamedRecords.

(** A line is the line of one name only. *)
Lemma Written_name record record' line :
  Written record line -> Written record' line ->
  Csv.companyName record = Csv.companyName record'.
Proof.
  intros (timestamp & ->) (timestamp' & Hsame).
  assert (Hrows : [csvRow record (listSource timestamp)]
                  = [csvRow record' (listSource timestamp')]).
  { pose proof (parse_written_line record (listSource timestamp) [] []) as H1.
    pose proof (parse_written_line record' (listSource timestamp') [] []) as H2.
    rewrite app_nil_r in H1, H2. rewrite <- Hsame in H2. rewrite H1 in H2.
    unfold pushRow in H2. rewrite !ledger_row_always_kept in H2. exact H2. }
  injection Hrows as Hrow _. exact Hrow.
Qed.

Lemma named_records (P : jsstring -> Prop) records :
  forall lines,
    Forall2 Written records lines ->
    Forall (fun line => exists record, Written record line /\ P (Csv.companyName record))
      lines ->
    Forall (fun record => P (Csv.companyName record)) records.
Proof.
  induction records as [| record records IH]; intros lines Hall Hnamed;
    inversion Hall; subst; [constructor |].
  inversion Hnamed as [| ? ? (record' & Hline & Hname) Hrest]; subst.
  constructor; [| eapply IH; eassumption].
  match goal with
  | H : Written record _ |- _ => rewrite (Written_name _ _ _ H Hline)
  end.
  exact Hname.
Qed.

Lemma ledgerBytes_app entries more :
  ledgerBytes (entries ++ more) = ledgerBytes entries ++ ledgerBytes more.
Proof. unfold ledgerBytes. rewrite map_app, concat_app. reflexivity. Qed.

Lemma seedable_readBack entries :
  Forall (fun entry => isWellFormed (Csv.companyName entry.1) = true) entries ->
  seedable (List.map fst (List.map readBack entries)) = seedable (List.map fst entries).
Proof.
  intros Hall. unfold seedable. f_equal. rewrite !List.map_map.
  apply map_ext_in. intros entry Hin. apply list_elem_of_In in Hin.
  pose proof (proj1 (Forall_forall _ _) Hall entry Hin) as Hname.
  apply bool_decide_eq_true in Hname.
  unfold identityOf. cbn [readBack fst toWellFormedRecord Csv.companyName].
  rewrite Hname. reflexivity.
Qed.

End NamedRecords.

Section NextRunOnDisk.

Lemma written_entries records :
  forall lines,
    Forall2 Written records lines ->
    exists entries,
      List.map fst entries = records
      /\ lines = List.map (fun entry => csvLine entry.1 (listSource entry.2)) entries.
Proof.
  induction records as [| record more IH]; intros lines Hall; inversion Hall; subst.
  - exists []. split; reflexivity.
  - match goal with
    | H : Written record _ |- _ => destruct H as (timestamp & ->)
    end.
    match goal with
    | H : Forall2 Written more _ |- _ => destruct (IH _ H) as (entries & Hfst & Hlines)
    end.
    exists ((record, timestamp) :: entries). split.
    + cbn. rewrite Hfst. reflexivity.
    + cbn [List.map fst snd]. rewrite Hlines. reflexivity.
Qed.

Lemma ledgerBytes_lines entries :
  concat (List.map encode
            (List.map (fun entry => csvLine entry.1 (listSource entry.2)) entries))
  = ledgerBytes entries.
Proof. unfold ledgerBytes. rewrite List.map_map. reflexivity. Qed.

Lemma seed_writtenFile entries :
  loadExistingCompanyNames (Some (decode (writtenFile entries)))
  = list_to_set (seedable (List.map fst (List.map readBack entries))).
Proof. rewrite decode_writtenFile. apply seed_ledger. Qed.

End NextRunOnDisk.

(** X4.  What a run leaves on disk is what the next run starts from.
    Start a crawl on a ledger file this program wrote, the header and
    then one line per record, with the dedup set seeded from what is
    read from that file, as [main] does, on a site whose links have
    well-formed names.  When the crawl ends, the file is again of
    this shape, with the old records first and one new record per
    company counted; the new records have well-formed names; and
    seeding from the file gives the set the run ended with, less the
    empty identity, which a record named by the marker alone puts into
    the live set and which seeding never takes up. *)
Theorem next_run_resumes_from_ledger {W : Type} {host : Host W}
        (CONFIG : MynaviConfig) (pages polls : nat) (maxCompanies : option nat)
        (w : W) (entries : list (CsvRecord * jsstring)) (finish : CrawlEnd) :
  (forall w', Forall (fun link => isWellFormed (name link) = true)
                (queryCompanyLinks w').1) ->
  processAllCompaniesFromSearch CONFIG pages polls maxCompanies
    (initial w (loadExistingCompanyNames (Some (decode (writtenFile entries))))
       (decode (writtenFile entries)))
  = Some finish ->
  exists added,
    fileAfter (writtenFile entries) (final finish) = writtenFile (entries ++ added)
    /\ length added = addedCompanyCount finish
    /\ Forall (fun entry => isWellFormed (Csv.companyName entry.1) = true) added
    /\ loadExistingCompanyNames (Some (decode (fileAfter (writtenFile entries) (final finish))))
       = existingCompanies (final finish) ∖ {[ [] ]}.
Proof.
  unfold processAllCompaniesFromSearch. intros Hsite Hrun.
  pose proof (Bearing_pageLoop CONFIG (fun n => isWellFormed n = true) Hsite
                _ _ _ _ _ _ _ Hrun) as (named & Hnamed & Hnames).
  apply Tally_pageLoop in Hrun.
  destruct Hrun as (records & (events & Htrace & Hwritten & _ & _ & _ & Hset) & Hcount).
  rewrite Htrace in Hnamed. apply app_inv_head in Hnamed. subst named.
  cbn [trace existingCompanies initial app] in Htrace, Hset.
  pose proof (named_records (fun n => isWellFormed n = true) _ _ Hwritten Hnames) as Hwell.
  destruct (written_entries records _ Hwritten) as (added & Hfst & Hlines).
  assert (Hadded : Forall (fun entry => isWellFormed (Csv.companyName entry.1) = true) added).
  { rewrite <- Hfst in Hwell. apply Forall_forall. intros entry Hin.
    apply (proj1 (Forall_forall _ _) Hwell). apply list_elem_of_In.
    apply in_map. apply list_elem_of_In. exact Hin. }
  assert (Hfile : fileAfter (writtenFile entries) (final finish)
                  = writtenFile (entries ++ added)).
  { unfold fileAfter, writtenFile. rewrite Htrace, Hlines, ledgerBytes_lines,
      ledgerBytes_app, <- app_assoc. reflexivity. }
  exists added. split; [exact Hfile |]. split.
  { rewrite Hcount, <- Hfst, length_map. reflexivity. }
  split; [exact Hadded |].
  rewrite Hfile, Hset, !seed_writtenFile, !map_app, seedable_app, list_to_set_app_L.
  rewrite (seedable_readBack added Hadded), Hfst, !seedable_set.
  generalize (list_to_set (List.map identityOf (List.map fst (List.map readBack entries)))
              : gset jsstring).
  generalize (list_to_set (List.map identityOf records) : gset jsstring).
  clear. intros old new. set_solver.
Qed.

Lemma next_run_resumes_from_ledger_witness :
  exists finish added,
    @processAllCompaniesFromSearch Sim (scripted twoCompanies) plainConfig 5 5 None
      (initial start (loadExistingCompanyNames (Some (decode (writtenFile []))))
         (decode (writtenFile [])))
    = Some finish
    /\ fileAfter (writtenFile []) (final finish) = writtenFile ([] ++ added)
    /\ length added = 2%nat
    /\ loadExistingCompanyNames (Some (decode (fileAfter (writtenFile []) (final finish))))
       = existingCompanies (final finish) ∖ {[ [] ]}.
Proof.
  destruct (@processAllCompaniesFromSearch Sim (scripted twoCompanies) plainConfig 5 5 None
              (initial start (loadExistingCompanyNames (Some (decode (writtenFile []))))
                 (decode (writtenFile [])))) as [finish |] eqn:Hrun;
    [| vm_compute in Hrun; discriminate].
  assert (Hsite : forall w' : Sim,
             Forall (fun link => isWellFormed (name link) = true)
               (@queryCompanyLinks Sim (scripted twoCompanies) w').1).
  { intros w'. cbn [queryCompanyLinks scripted fst].
    destruct (clicks w') as [| n]; cbn; repeat constructor. }
  destruct (@next_run_resumes_from_ledger Sim (scripted twoCompanies) plainConfig 5 5 None
              start [] finish Hsite Hrun) as (added & Hshape & Hlen & _ & Hseed).
  exists finish, added. split; [reflexivity |]. split; [exact Hshape |].
  split; [| exact Hseed].
  rewrite Hlen. vm_compute in Hrun. injection Hrun as <-. reflexivity.
Defined.

(** ** The header of the ledger *)

Section HeaderFacts.

Lemma split_cons c sep s :
  split sep (c :: s)
  = if c =? sep then [] :: split sep s
    else (c :: default [] (head (split sep s))) :: drop 1 (split sep s).
Proof.
  cbn [split]. destruct (c =? sep); [reflexivity |].
  destruct (split sep s) eqn:Hs; [| reflexivity].
  reflexivity.
Qed.

Lemma split_nonempty sep s : split sep s <> [].
Proof.
  destruct s as [| c s]; [discriminate |]. rewrite split_cons.
  destruct (c =? sep); discriminate.
Qed.

Lemma split_shape sep s :
  split sep s = default [] (head (split sep s)) :: drop 1 (split sep s).
Proof.
  pose proof (split_nonempty sep s) as Hne.
  destruct (split sep s); [congruence | reflexivity].
Qed.

Lemma join_cons sep part more :
  more <> [] -> join sep (part :: more) = part ++ sep :: join sep more.
Proof. destruct more; [congruence | reflexivity]. Qed.

Lemma join_split sep s : join sep (split sep s) = s.
Proof.
  induction s as [| c s IH]; [reflexivity |].
  rewrite split_cons. destruct (c =? sep) eqn:Hc.
  - apply N.eqb_eq in Hc. subst c.
    rewrite join_cons by apply split_nonempty. rewrite IH. reflexivity.
  - rewrite (split_shape sep s) in IH.
    destruct (drop 1 (split sep s)) as [| second more] eqn:Hrest.
    + cbn in IH |- *. rewrite IH. reflexivity.
    + rewrite join_cons in IH by discriminate. rewrite join_cons by discriminate.
      cbn [app]. rewrite IH. reflexivity.
Qed.

Lemma split_free sep s : sep ∉ s -> split sep s = [s].
Proof.
  induction s as [| c s IH]; intros Hfree; [reflexivity |].
  rewrite split_cons.
  destruct (c =? sep) eqn:Hc.
  - apply N.eqb_eq in Hc. subst c. exfalso. apply Hfree. left.
  - rewrite IH; [reflexivity |]. intros Hin. apply Hfree. right. exact Hin.
Qed.

Lemma split_app sep first rest :
  sep ∉ first -> split sep (first ++ sep :: rest) = first :: split sep rest.
Proof.
  induction first as [| c first IH]; intros Hfree.
  - cbn [app]. rewrite split_cons, N.eqb_refl. reflexivity.
  - cbn [app]. rewrite split_cons.
    destruct (c =? sep) eqn:Hc.
    + apply N.eqb_eq in Hc. subst c. exfalso. apply Hfree. left.
    + rewrite IH; [reflexivity |]. intros Hin. apply Hfree. right. exact Hin.
Qed.

Lemma split_join sep first more :
  sep ∉ first -> split sep (join sep (first :: split sep more)) = first :: split sep more.
Proof.
  intros Hfree. rewrite join_cons by apply split_nonempty.
  rewrite join_split. apply split_app. exact Hfree.
Qed.

(** The lines after the first, as one text. *)
Lemma split_tail sep s :
  drop 1 (split sep s) = []
  \/ (exists first rest,
         s = first ++ (sep :: rest) /\ (sep ∉ first)
         /\ split sep s = first :: split sep rest).
Proof.
  induction s as [| c s IH]; [left; reflexivity |].
  rewrite split_cons. destruct (c =? sep) eqn:Hc.
  - right. apply N.eqb_eq in Hc. subst c. exists [], s.
    split; [reflexivity |]. split; [apply not_elem_of_nil | reflexivity].
  - destruct IH as [Hnone | (first & rest & Hs & Hfree & Hsplit)].
    + left. cbn [drop]. exact Hnone.
    + right. exists (c :: first), rest. subst s. split; [reflexivity |].
      split.
      * intros Hin. apply elem_of_cons in Hin. destruct Hin as [-> | Hin].
        -- rewrite N.eqb_refl in Hc. discriminate.
        -- apply Hfree. exact Hin.
      * rewrite Hsplit. reflexivity.
Qed.

Lemma headerLine_trim : trim HEADER = headerLine.
Proof. vm_compute. reflexivity. Qed.

Lemma headerLine_free : LF ∉ headerLine.
Proof.
  intros Hin. apply list_elem_of_In in Hin.
  vm_compute in Hin. repeat (destruct Hin as [Hin | Hin]; [discriminate |]). exact Hin.
Qed.

Lemma header_is_line : HEADER = headerLine ++ [LF].
Proof. vm_compute. reflexivity. Qed.

Lemma headerLine_trimmed : trim headerLine = headerLine.
Proof. vm_compute. reflexivity. Qed.

(** A file that begins with the header line is left as it is. *)
Lemma ensureCsvHeader_kept rest :
  ensureCsvHeader (Some (HEADER ++ rest)) = HEADER ++ rest.
Proof.
  unfold ensureCsvHeader.
  change (HEADER ++ rest) with (headerLine ++ LF :: rest).
  rewrite (split_app LF headerLine rest headerLine_free).
  cbn [head default from_option]. change (id headerLine) with headerLine.
  rewrite headerLine_trimmed, headerLine_trim.
  rewrite bool_decide_eq_false_2 by (intros H; apply H; reflexivity).
  reflexivity.
Qed.

Lemma ensureCsvHeader_lines content :
  exists firstLine,
    split LF (ensureCsvHeader (Some content)) = firstLine :: drop 1 (split LF content)
    /\ trim firstLine = trim HEADER.
Proof.
  unfold ensureCsvHeader.
  destruct (bool_decide (trim (default [] (head (split LF content))) <> trim HEADER))
    eqn:Hdiff.
  - exists headerLine. split; [| rewrite headerLine_trim; apply headerLine_trimmed].
    rewrite headerLine_trim.
    destruct (split_tail LF content) as [Hnone | (first & rest & Hs & Hfree & Hsplit)].
    + rewrite Hnone. cbn [join]. apply split_free. apply headerLine_free.
    + rewrite Hsplit. cbn [drop]. apply split_join. apply headerLine_free.
  - apply bool_decide_eq_false in Hdiff.
    exists (default [] (head (split LF content))). split.
    + apply split_shape.
    + destruct (decide (trim (default [] (head (split LF content))) = trim HEADER));
        [assumption | contradiction].
Qed.

Lemma ensureCsvHeader_idempotent file :
  ensureCsvHeader (Some (ensureCsvHeader file)) = ensureCsvHeader file.
Proof.
  destruct file as [content |].
  - destruct (ensureCsvHeader_lines content) as (firstLine & Hsplit & Htrim).
    unfold ensureCsvHeader at 1. rewrite Hsplit. cbn [head default].
    rewrite bool_decide_eq_false_2; [reflexivity |].
    intros H. apply H. exact Htrim.
  - change (ensureCsvHeader None) with HEADER.
    rewrite <- (app_nil_r HEADER) at 1 2. rewrite ensureCsvHeader_kept.
    apply app_nil_r.
Qed.

End HeaderFacts.

(** X5.  [ensureCsvHeader] only ever touches the first line.  A missing
    file becomes the header line.  For a file that is there, the lines
    after the first one are kept as they are, and the first line is
    afterwards the header up to surrounding white space; a file that
    starts with the header line is not changed at all, and a second
    call changes nothing. *)
Theorem ensureCsvHeader_keeps_rows (content : jsstring) :
  ensureCsvHeader None = HEADER
  /\ (exists firstLine,
         split LF (ensureCsvHeader (Some content))
         = firstLine :: drop 1 (split LF content)
         /\ trim firstLine = trim HEADER)
  /\ ensureCsvHeader (Some (HEADER ++ content)) = HEADER ++ content
  /\ ensureCsvHeader (Some (ensureCsvHeader (Some content)))
     = ensureCsvHeader (Some content).
Proof.
  split; [reflexivity |]. split; [apply ensureCsvHeader_lines |].
  split; [apply ensureCsvHeader_kept | apply ensureCsvHeader_idempotent].
Qed.

Section GluedHeader.




End GluedHeader.



(** ** Run after run *)

Section RunFacts.
Context {W : Type} {host : Host W} {V : Type} {sheet : SheetHost V}.

Lemma seedable_NoDup records : NoDup (List.map identityOf records) -> NoDup (seedable records).
Proof.
  unfold seedable. generalize (List.map identityOf records) as ids.
  induction ids as [| id ids IH]; intros Hdup; [constructor |].
  apply NoDup_cons in Hdup. destruct Hdup as [Hnew Hdup].
  cbn [List.filter]. destruct (truthy id); [| apply IH; exact Hdup].
  apply NoDup_cons. split; [| apply IH; exact Hdup].
  intros Hin. apply Hnew. apply list_elem_of_In in Hin. apply filter_In in Hin.
  apply list_elem_of_In. tauto.
Qed.

(** A sync that ends well has just written the text of the sheet to
    the configured path. *)
Lemma sync_done_writes config (session session' : SessionMachine V) :
  downloadCsvFromSpreadsheet config session = (SyncDone, session') ->
  exists csvPath csvText,
    CSV_PATH config = Some csvPath /\ syncedText session' = Some (csvPath, csvText).
Proof.
  unfold downloadCsvFromSpreadsheet, getSheetConfig.
  destruct (negb (present (SPREADSHEET_URL config)) || negb (present (CSV_PATH config)));
    [discriminate |].
  destruct (SPREADSHEET_URL config) as [[| c s] |]; try discriminate.
  destruct (CSV_PATH config) as [[| d p] |]; try discriminate.
  cbn [spreadsheetUrl csvPath].
  destruct (ensureSessionAndDownload (c :: s) session) as [[csvText | e] session1];
    [| discriminate].
  intros [= <-]. exists (d :: p), csvText. split; [reflexivity |].
  unfold syncedText. cbn [semit strace]. rewrite last_snoc. reflexivity.
Qed.

Lemma spared_ledger (launch : @Launch W V) sync session file :
  sparesLedger launch ->
  downloadCsvFromSpreadsheet (launchConfig launch) (launchSession launch) = (sync, session) ->
  afterSync launch sync session file = file.
Proof.
  intros Hspares Hsync. unfold afterSync.
  destruct sync; try reflexivity.
  destruct (sync_done_writes _ _ _ Hsync) as (csvPath & csvText & Hpath & ->).
  destruct Hspares as [Hoff | [Hoff | Helsewhere]].
  - rewrite sync_skipped_without_settings in Hsync by (left; exact Hoff). discriminate.
  - rewrite sync_skipped_without_settings in Hsync by (right; exact Hoff). discriminate.
  - rewrite (Helsewhere csvPath Hpath). reflexivity.
Qed.

(** A file that this program wrote has its header. *)
Lemma ensureCsvHeaderOnDisk_kept entries :
  ensureCsvHeaderOnDisk (Some (writtenFile entries)) = writtenFile entries.
Proof.
  unfold ensureCsvHeaderOnDisk. rewrite decode_writtenFile.
  change (HEADER ++ ledgerText (List.map readBack entries))
    with (headerLine ++ LF :: ledgerText (List.map readBack entries)).
  rewrite (split_app LF headerLine _ headerLine_free).
  cbn [head default from_option]. change (id headerLine) with headerLine.
  rewrite headerLine_trimmed, headerLine_trim.
  rewrite bool_decide_eq_false_2 by (intros H; apply H; reflexivity).
  reflexivity.
Qed.

Lemma WellKept_header file :
  WellKept file ->
  exists entries,
    ensureCsvHeaderOnDisk file = writtenFile entries
    /\ Forall (fun entry => isWellFormed (Csv.companyName entry.1) = true) entries
    /\ NoDup (seedable (List.map fst entries)).
Proof.
  destruct file as [bytes |]; cbn [WellKept].
  - intros (entries & -> & Hwell & Hdup). exists entries.
    split; [apply ensureCsvHeaderOnDisk_kept |]. split; assumption.
  - intros _. exists []. split; [| split; constructor].
    unfold ensureCsvHeaderOnDisk, writtenFile, ledgerBytes. cbn [List.map concat].
    rewrite app_nil_r. reflexivity.
Qed.

Hypothesis site_names :
  forall w, Forall (fun link => isWellFormed (name link) = true) (queryCompanyLinks w).1.

Lemma crawl_keeps_ledger CONFIG pages polls maxCompanies (w : W) entries finish :
  Forall (fun entry => isWellFormed (Csv.companyName entry.1) = true) entries ->
  NoDup (seedable (List.map fst entries)) ->
  processAllCompaniesFromSearch CONFIG pages polls maxCompanies
    (initial w (loadExistingCompanyNames (Some (decode (writtenFile entries))))
       (decode (writtenFile entries)))
  = Some finish ->
  WellKept (Some (fileAfter (writtenFile entries) (final finish))).
Proof.
  unfold processAllCompaniesFromSearch. intros Hwell Hdup Hrun.
  pose proof (Bearing_pageLoop CONFIG (fun n => isWellFormed n = true) site_names
                _ _ _ _ _ _ _ Hrun) as (named & Hnamed & Hnames).
  apply Tally_pageLoop in Hrun.
  destruct Hrun
    as (records & (events & Htrace & Hwritten & _ & Hdistinct & Hnew & _) & _).
  rewrite Htrace in Hnamed. apply app_inv_head in Hnamed. subst named.
  cbn [trace existingCompanies initial app] in Htrace, Hnew.
  pose proof (named_records (fun n => isWellFormed n = true) _ _ Hwritten Hnames)
    as Hrecords.
  destruct (written_entries records _ Hwritten) as (added & Hfst & Hlines).
  assert (Hadded : Forall (fun entry => isWellFormed (Csv.companyName entry.1) = true) added).
  { rewrite <- Hfst in Hrecords. apply Forall_forall. intros entry Hin.
    apply (proj1 (Forall_forall _ _) Hrecords). apply list_elem_of_In.
    apply in_map. apply list_elem_of_In. exact Hin. }
  exists (entries ++ added). split; [| split].
  - unfold fileAfter, writtenFile. rewrite Htrace, Hlines, ledgerBytes_lines,
      ledgerBytes_app, <- app_assoc. reflexivity.
  - apply Forall_app. split; assumption.
  - rewrite map_app, seedable_app, Hfst. apply NoDup_app.
    split; [exact Hdup |]. split; [| apply seedable_NoDup; exact Hdistinct].
    intros id Hold Hfresh.
    apply seedable_spec in Hfresh. destruct Hfresh as (_ & record & Hin & Hid).
    apply (Hnew record Hin). rewrite seed_writtenFile, (seedable_readBack _ Hwell), Hid.
    apply elem_of_list_to_set. exact Hold.
Qed.

Lemma main_wellkept (launch : @Launch W V) file ending file' :
  sparesLedger launch -> WellKept file ->
  main launch file = Some (ending, file') -> WellKept file'.
Proof.
  intros Hspares Hkept. unfold main.
  destruct (downloadCsvFromSpreadsheet (launchConfig launch) (launchSession launch))
    as [sync session] eqn:Hsync.
  assert (Hcrawl :
            match
              processAllCompaniesFromSearch (launchConfig launch) (launchPages launch)
                (launchPolls launch) (MAX_COMPANIES (launchConfig launch))
                (initial (launchWorld launch)
                   (loadExistingCompanyNames
                      (Some (decode (ensureCsvHeaderOnDisk
                                       (afterSync launch sync session file)))))
                   (decode (ensureCsvHeaderOnDisk (afterSync launch sync session file))))
            with
            | Some finish =>
                Some (MainDone finish,
                      Some (fileAfter
                              (ensureCsvHeaderOnDisk (afterSync launch sync session file))
                              (final finish)))
            | None => None
            end = Some (ending, file') -> WellKept file').
  { rewrite (spared_ledger launch sync session file Hspares Hsync).
    destruct (WellKept_header file Hkept) as (entries & -> & Hwell & Hdup).
    destruct (processAllCompaniesFromSearch _ _ _ _ _) as [finish |] eqn:Hrun;
      [| discriminate].
    intros [= _ <-]. eapply crawl_keeps_ledger; eassumption. }
  destruct sync as [| | e]; [exact Hcrawl | exact Hcrawl |].
  intros [= _ <-]. exact Hkept.
Qed.

Lemma runs_wellkept (launches : list (@Launch W V)) :
  forall file file',
    Forall sparesLedger launches ->
    WellKept file -> runs launches file = Some file' -> WellKept file'.
Proof.
  induction launches as [| launch more IH]; intros file file' Hspare Hkept Hruns;
    cbn [runs] in Hruns.
  - injection Hruns as <-. exact Hkept.
  - inversion Hspare as [| ? ? Hlaunch Hmore]; subst.
    destruct (main launch file) as [[ending file1] |] eqn:Hmain; [| discriminate].
    refine (IH _ _ Hmore _ Hruns).
    eapply main_wellkept; eassumption.
Qed.

End RunFacts.

(** X7.  Run after run, the ledger never takes the same company twice.
    Take any number of runs of [main] on the same ledger file, each
    with a sync that leaves the ledger alone (switched off, or writing
    to another file) and each coming to an end, on a site whose links
    have well-formed names.  A ledger file that is missing, or that
    holds the header and one line per record with well-formed names
    and no non-empty identity twice, is of the same kind after these
    runs, whatever the caps and start pages and whether or not a sync
    fails. *)
Theorem ledger_never_repeats_a_company {W : Type} {host : Host W}
        {V : Type} {sheet : SheetHost V}
        (launches : list (@Launch W V)) (file file' : option (list N)) :
  (forall w, Forall (fun link => isWellFormed (name link) = true)
               (queryCompanyLinks w).1) ->
  Forall sparesLedger launches ->
  WellKept file -> runs launches file = Some file' -> WellKept file'.
Proof. intros Hsite. apply runs_wellkept. exact Hsite. Qed.

Lemma ledger_never_repeats_a_company_witness :
  exists bytes,
    @runs Sim (scripted twoCompanies) nat (sheetService LaunchFailed)
      [sampleLaunch; sampleLaunch] None = Some (Some bytes)
    /\ WellKept (Some bytes).
Proof.
  destruct (@runs Sim (scripted twoCompanies) nat (sheetService LaunchFailed)
              [sampleLaunch; sampleLaunch] None)
    as [[bytes |] |] eqn:Hruns; try (vm_compute in Hruns; discriminate).
  exists bytes. split; [reflexivity |].
  assert (Hsite : forall w' : Sim,
             Forall (fun link => isWellFormed (name link) = true)
               (@queryCompanyLinks Sim (scripted twoCompanies) w').1).
  { intros w'. cbn [queryCompanyLinks scripted fst].
    destruct (clicks w') as [| n]; cbn; repeat constructor. }
  assert (Hspare : Forall (@sparesLedger Sim nat) [sampleLaunch; sampleLaunch]).
  { repeat constructor; left; reflexivity. }
  exact (@ledger_never_repeats_a_company Sim (scripted twoCompanies) nat
           (sheetService LaunchFailed) [sampleLaunch; sampleLaunch] None (Some bytes)
           Hsite Hspare I Hruns).
Defined.

(** ** The cap, from the other side *)

Section CapBounds.
Context {W : Type} {host : Host W}.
Implicit Types m : Machine W.
Variable CONFIG : MynaviConfig.
Variable cap : nat.

Lemma processCompany_step polls maxCompanies link m added flow m' added' :
  processCompany CONFIG polls maxCompanies link m added = Some (flow, m', added') ->
  (added <= added' <= S added)%nat.
Proof.
  rewrite processCompany_factors.
  destruct (explore polls link m) as [plan |]; [| discriminate].
  intros [= Hsettle]. apply Journal_settle in Hsettle.
  destruct Hsettle as (records & _ & Hlen & ->). lia.
Qed.

Lemma companyLoop_bound polls companyData :
  forall m added m' added',
    (added <= cap)%nat ->
    companyLoop CONFIG polls (Some cap) companyData m added = Some (m', added') ->
    (added' <= cap)%nat.
Proof.
  induction companyData as [| link rest IH]; intros m added m' added' Hle Hrun;
    cbn [companyLoop] in Hrun.
  - injection Hrun as <- <-. exact Hle.
  - destruct (shouldStop (world (emit (EvEntityTop (name link)) m)));
      [injection Hrun as <- <-; exact Hle |].
    destruct (capReached (Some cap) added) eqn:Hcap;
      [injection Hrun as <- <-; exact Hle |].
    cbn in Hcap. apply Nat.leb_gt in Hcap.
    destruct (waitIfPaused polls (emit (EvEntityTop (name link)) m)) as [m1 |];
      [| discriminate].
    destruct (processCompany CONFIG polls (Some cap) link m1 added)
      as [[[flow m2] added2] |] eqn:Hcompany; [| discriminate].
    apply processCompany_step in Hcompany.
    destruct flow.
    + eapply IH; [| exact Hrun]. lia.
    + injection Hrun as <- <-. lia.
Qed.

Lemma advance_count m added : stepCount (advance m added) = added.
Proof.
  unfold advance.
  destruct (doQueryNextButton m) as [[nextButtonClass |] m1]; [| reflexivity].
  destruct (includes nextButtonClass (lit "disabled")); reflexivity.
Qed.

Lemma pageIteration_bound polls pageIndex m added step :
  (added <= cap)%nat ->
  pageIteration CONFIG polls (Some cap) pageIndex m added = Some step ->
  (stepCount step <= cap)%nat.
Proof.
  unfold pageIteration. intros Hle Hrun.
  destruct (shouldStop (world (emit (EvPageTop pageIndex) m)));
    [injection Hrun as <-; exact Hle |].
  destruct (capReached (Some cap) added); [injection Hrun as <-; exact Hle |].
  destruct (waitIfPaused polls (emit (EvPageTop pageIndex) m)) as [m1 |]; [| discriminate].
  destruct (doQueryCompanyLinks m1) as [companyData m2].
  destruct (START_PAGE CONFIG <=? pageIndex)%nat.
  - destruct (companyLoop CONFIG polls (Some cap) companyData (doNewPage m2) added)
      as [[m3 added3] |] eqn:Hloop; [| discriminate].
    apply companyLoop_bound in Hloop; [| exact Hle].
    destruct (shouldStop (world (doClosePage m3))); [injection Hrun as <-; exact Hloop |].
    destruct (capReached (Some cap) added3); [injection Hrun as <-; exact Hloop |].
    injection Hrun as <-. rewrite advance_count. exact Hloop.
  - injection Hrun as <-. rewrite advance_count. exact Hle.
Qed.

Lemma pageLoop_bound pages polls :
  forall pageIndex m added finish,
    (added <= cap)%nat ->
    pageLoop CONFIG pages polls (Some cap) pageIndex m added = Some finish ->
    (addedCompanyCount finish <= cap)%nat.
Proof.
  induction pages as [| pages IH]; intros pageIndex m added finish Hle Hrun;
    cbn [pageLoop] in Hrun; [discriminate |].
  destruct (pageIteration CONFIG polls (Some cap) pageIndex m added) as [step |] eqn:Hstep;
    [| discriminate].
  apply pageIteration_bound in Hstep; [| exact Hle].
  destruct step as [reason m1 added1 | m1 added1]; cbn in Hstep.
  - injection Hrun as <-. exact Hstep.
  - eapply IH; [exact Hstep | exact Hrun].
Qed.

(** When the capped pass stops at the cap, the uncapped one has got at
    least that far. *)
Lemma pageIteration_below polls pageIndex m added step_u :
  (added < cap)%nat ->
  pageIteration CONFIG polls None pageIndex m added = Some step_u ->
  (stepCount step_u < cap)%nat ->
  pageIteration CONFIG polls (Some cap) pageIndex m added = Some step_u.
Proof.
  intros Hlt Hrun Hbelow.
  destruct (pageIteration_capped CONFIG cap polls pageIndex m added step_u Hlt Hrun)
    as [(_ & Hsame) | (reason & m_c & _ & _ & Hends & rest & Hrest)]; [exact Hsame |].
  exfalso.
  apply Account_pageIteration in Hrun.
  destruct Hrun as (events_u & Htrace_u & _ & Hcount_u & _).
  destruct Hends as (events & line & relay & Htrace_c & _ & Hcount).
  change (match step_u with Halted _ m' _ => m' | Advance m' _ => m' end)
    with (stepMachine step_u) in Htrace_u.
  change (match step_u with Halted _ _ a' => a' | Advance _ a' => a' end)
    with (stepCount step_u) in Hcount_u.
  rewrite Htrace_u, Htrace_c, <- !app_assoc in Hrest.
  apply app_inv_head in Hrest. subst events_u.
  rewrite appendedLines_app, length_app in Hcount_u.
  cbn [app appendedLines] in Hcount_u.
  change (appendedLines (EvAppendCsv line :: relay ++ rest))
    with (line :: appendedLines (relay ++ rest)) in Hcount_u.
  cbn [length] in Hcount_u. lia.
Qed.

Lemma pageLoop_below pages polls :
  forall pageIndex m added finish_u,
    (added < cap)%nat ->
    pageLoop CONFIG pages polls None pageIndex m added = Some finish_u ->
    (addedCompanyCount finish_u < cap)%nat ->
    pageLoop CONFIG pages polls (Some cap) pageIndex m added = Some finish_u.
Proof.
  induction pages as [| pages IH]; intros pageIndex m added finish_u Hlt Hrun Hbelow;
    cbn [pageLoop] in *; [discriminate |].
  destruct (pageIteration CONFIG polls None pageIndex m added) as [step_u |] eqn:Hstep;
    [| discriminate].
  assert (Hstep_below : (stepCount step_u < cap)%nat).
  { destruct step_u as [reason m1 added1 | m1 added1]; cbn.
    - injection Hrun as <-. exact Hbelow.
    - apply Account_pageLoop in Hrun. apply Account_extends in Hrun. lia. }
  rewrite (pageIteration_below polls pageIndex m added step_u Hlt Hstep Hstep_below).
  destruct step_u as [reason m1 added1 | m1 added1]; [exact Hrun |].
  apply IH; assumption.
Qed.

End CapBounds.

(** X8.  A capped crawl never writes more than its cap.  Whatever the
    site answers, a crawl with a cap that comes to an end returns a
    count of at most the cap, and the ledger has grown by exactly that
    many lines. *)
Theorem capped_run_stays_within_cap {W : Type} {host : Host W}
        (CONFIG : MynaviConfig) (pages polls cap : nat)
        (m : Machine W) (finish : CrawlEnd) :
  processAllCompaniesFromSearch CONFIG pages polls (Some cap) m = Some finish ->
  (addedCompanyCount finish <= cap)%nat
  /\ exists lines,
      length lines = addedCompanyCount finish
      /\ appendedLines (trace (final finish)) = appendedLines (trace m) ++ lines
      /\ csvFile (final finish) = csvFile m ++ concat lines.
Proof.
  unfold processAllCompaniesFromSearch. intros Hrun. split.
  - eapply pageLoop_bound; [| exact Hrun]. lia.
  - apply Account_pageLoop in Hrun.
    destruct Hrun as (events & Htrace & _ & Hcount & Hfile).
    exists (appendedLines events). rewrite Htrace, appendedLines_app.
    repeat split; [lia | exact Hfile].
Qed.

Lemma capped_run_stays_within_cap_witness :
  exists finish,
    crawl twoCompanies (Some 1%nat) = Some finish
    /\ (addedCompanyCount finish <= 1)%nat.
Proof.
  unfold crawl.
  destruct (@processAllCompaniesFromSearch Sim (scripted twoCompanies) plainConfig 5 5
              (Some 1%nat) fresh) as [finish |] eqn:Hrun;
    [| vm_compute in Hrun; discriminate].
  exists finish. split; [reflexivity |].
  exact (proj1 (@capped_run_stays_within_cap Sim (scripted twoCompanies) plainConfig 5 5 1
                  fresh finish Hrun)).
Defined.

(** X9.  A cap that is not reached changes nothing.  If the crawl
    without a cap ends having written fewer records than [cap], the
    crawl with that cap is the very same run: same halt, same page,
    same count, same final state. *)
Theorem unreached_cap_changes_nothing {W : Type} {host : Host W}
        (CONFIG : MynaviConfig) (pages polls cap : nat)
        (m : Machine W) (uncapped : CrawlEnd) :
  processAllCompaniesFromSearch CONFIG pages polls None m = Some uncapped ->
  (addedCompanyCount uncapped < cap)%nat ->
  processAllCompaniesFromSearch CONFIG pages polls (Some cap) m = Some uncapped.
Proof.
  unfold processAllCompaniesFromSearch. intros Hrun Hbelow.
  apply pageLoop_below; [lia | exact Hrun | exact Hbelow].
Qed.

Lemma unreached_cap_changes_nothing_witness :
  crawl twoCompanies (Some 3%nat) = crawl twoCompanies None.
Proof.
  unfold crawl.
  destruct (@processAllCompaniesFromSearch Sim (scripted twoCompanies) plainConfig 5 5 None
              fresh) as [uncapped |] eqn:Hrun;
    [| vm_compute in Hrun; discriminate].
  apply (@unreached_cap_changes_nothing Sim (scripted twoCompanies) plainConfig 5 5 3
           fresh uncapped Hrun).
  vm_compute in Hrun. injection Hrun as <-. vm_compute. lia.
Defined.

(** ** Pages before the start page *)

Section SkippedPages.
Context {W : Type} {host : Host W}.
Implicit Types m : Machine W.
Variable CONFIG : MynaviConfig.

Lemma Paging_refl m : Paging m m.
Proof. exists []. rewrite app_nil_r. repeat split. constructor. Qed.

Lemma Paging_trans m m1 m2 : Paging m m1 -> Paging m1 m2 -> Paging m m2.
Proof.
  intros (e1 & Ht1 & Hp1 & Hf1 & Hs1) (e2 & Ht2 & Hp2 & Hf2 & Hs2).
  exists (e1 ++ e2). rewrite Ht2, Ht1, <- app_assoc.
  split; [reflexivity |]. split; [apply Forall_app; split; assumption |].
  split; congruence.
Qed.

Lemma Paging_emit e m : isPaging e = true -> Paging m (emit e m).
Proof.
  intros He. exists [e]. repeat split. constructor; [exact He | constructor].
Qed.

Lemma Paging_setWorld w m : Paging m (setWorld w m).
Proof. exists []. cbn. rewrite app_nil_r. repeat split. constructor. Qed.

Lemma Paging_waitIfPaused polls m m' : waitIfPaused polls m = Some m' -> Paging m m'.
Proof.
  intros Hwait. apply waitIfPaused_shape in Hwait.
  destruct Hwait as (timers & Htrace & Htimers & Hfile & Hset).
  exists (EvWaitIfPaused :: timers). repeat split; try assumption.
  constructor; [reflexivity |].
  eapply Forall_impl; [exact Htimers |]. intros e ->. reflexivity.
Qed.

Lemma Paging_advance m added : Paging m (stepMachine (advance m added)).
Proof.
  unfold advance, doQueryNextButton.
  destruct (queryNextButton (world m)) as [button w].
  assert (Hq : Paging m (emit EvQueryNextButton (setWorld w m))).
  { eapply Paging_trans; [apply Paging_setWorld | apply Paging_emit; reflexivity]. }
  destruct button as [nextButtonClass |]; [| exact Hq].
  destruct (includes nextButtonClass (lit "disabled")); [exact Hq |].
  cbn [stepMachine]. unfold doClickNext, waitForTimeout.
  eapply Paging_trans; [| apply Paging_emit; reflexivity].
  eapply Paging_trans; [| apply Paging_setWorld].
  eapply Paging_trans; [| apply Paging_emit; reflexivity].
  eapply Paging_trans; [| apply Paging_setWorld].
  exact Hq.
Qed.

Lemma pageIteration_skipped polls maxCompanies pageIndex m added step :
  (pageIndex < START_PAGE CONFIG)%nat ->
  pageIteration CONFIG polls maxCompanies pageIndex m added = Some step ->
  Paging m (stepMachine step) /\ stepCount step = added.
Proof.
  unfold pageIteration. intros Hbefore Hrun.
  assert (Htop : Paging m (emit (EvPageTop pageIndex) m)) by (apply Paging_emit; reflexivity).
  destruct (shouldStop (world (emit (EvPageTop pageIndex) m)));
    [injection Hrun as <-; split; [exact Htop | reflexivity] |].
  destruct (capReached maxCompanies added);
    [injection Hrun as <-; split; [exact Htop | reflexivity] |].
  destruct (waitIfPaused polls (emit (EvPageTop pageIndex) m)) as [m1 |] eqn:Hwait;
    [| discriminate].
  apply Paging_waitIfPaused in Hwait.
  unfold doQueryCompanyLinks in Hrun.
  destruct (queryCompanyLinks (world m1)) as [companyData w].
  apply Nat.leb_gt in Hbefore. rewrite Hbefore in Hrun.
  injection Hrun as <-. split; [| apply advance_count].
  eapply Paging_trans; [| apply Paging_advance].
  eapply Paging_trans; [| apply Paging_emit; reflexivity].
  eapply Paging_trans; [| apply Paging_setWorld].
  eapply Paging_trans; [exact Htop | exact Hwait].
Qed.

Lemma pageLoop_skipped pages polls maxCompanies :
  forall pageIndex m added finish,
    pageLoop CONFIG pages polls maxCompanies pageIndex m added = Some finish ->
    (pageIndex <= lastProcessedPageIndex finish)%nat
    /\ ((lastProcessedPageIndex finish < START_PAGE CONFIG)%nat ->
        Paging m (final finish) /\ addedCompanyCount finish = added).
Proof.
  induction pages as [| pages IH]; intros pageIndex m added finish Hrun;
    cbn [pageLoop] in Hrun; [discriminate |].
  destruct (pageIteration CONFIG polls maxCompanies pageIndex m added) as [step |] eqn:Hstep;
    [| discriminate].
  destruct step as [reason m1 added1 | m1 added1].
  - injection Hrun as <-. cbn. split; [lia |]. intros Hbefore.
    apply (pageIteration_skipped _ _ _ _ _ _ Hbefore Hstep).
  - destruct (IH _ _ _ _ Hrun) as [Hindex Hskipped]. split; [lia |].
    intros Hbefore.
    assert (Hhere : (pageIndex < START_PAGE CONFIG)%nat) by lia.
    destruct (pageIteration_skipped _ _ _ _ _ _ Hhere Hstep) as [Hpaging Hcount].
    cbn in Hpaging, Hcount. subst added1.
    destruct (Hskipped Hbefore) as [Hrest Hsame].
    split; [eapply Paging_trans; eassumption | exact Hsame].
Qed.

End SkippedPages.

(** X10.  Pages before [START_PAGE] are only paged through.  A crawl
    that comes to an end on a page with an index below [START_PAGE]
    has opened no company and written nothing: its trace holds nothing
    but heads of the page loop, pause waits and timers, the queries on
    the result page and clicks on the next-page button; the ledger and
    the dedup set are as they were and the count is zero. *)
Theorem pages_before_start_are_skipped {W : Type} {host : Host W}
        (CONFIG : MynaviConfig) (pages polls : nat) (maxCompanies : option nat)
        (m : Machine W) (finish : CrawlEnd) :
  processAllCompaniesFromSearch CONFIG pages polls maxCompanies m = Some finish ->
  (lastProcessedPageIndex finish < START_PAGE CONFIG)%nat ->
  addedCompanyCount finish = 0%nat
  /\ csvFile (final finish) = csvFile m
  /\ existingCompanies (final finish) = existingCompanies m
  /\ exists events,
      trace (final finish) = trace m ++ events
      /\ Forall (fun e => isPaging e = true) events.
Proof.
  unfold processAllCompaniesFromSearch. intros Hrun Hbefore.
  destruct (pageLoop_skipped CONFIG _ _ _ _ _ _ _ Hrun) as [_ Hskipped].
  destruct (Hskipped Hbefore) as [(events & Htrace & Hpaging & Hfile & Hset) Hcount].
  repeat split; try assumption. exists events. split; assumption.
Qed.

Lemma pages_before_start_are_skipped_witness :
  exists finish,
    @processAllCompaniesFromSearch Sim (scripted twoCompanies) lateStart 5 5 None fresh
    = Some finish
    /\ addedCompanyCount finish = 0%nat
    /\ csvFile (final finish) = csvFile fresh.
Proof.
  destruct (@processAllCompaniesFromSearch Sim (scripted twoCompanies) lateStart 5 5 None
              fresh) as [finish |] eqn:Hrun;
    [| vm_compute in Hrun; discriminate].
  assert (Hbefore : (lastProcessedPageIndex finish < START_PAGE lateStart)%nat).
  { vm_compute in Hrun. injection Hrun as <-. vm_compute. lia. }
  destruct (@pages_before_start_are_skipped Sim (scripted twoCompanies) lateStart 5 5 None
              fresh finish Hrun Hbefore) as (Hcount & Hfile & _).
  exists finish. repeat split; assumption.
Defined.

(** ** Configuration *)

Section ConfigFacts.

Lemma floorAtLeastOne_positive v n : floorAtLeastOne v = Some n -> (1 <= n)%nat.
Proof.
  destruct v as [| | b | x | s |]; cbn; try discriminate.
  destruct (Qle_bool 1 x) eqn:Hle; [| discriminate].
  intros [= <-]. apply Qle_bool_iff in Hle.
  apply Qfloor_resp_le in Hle. change (Qfloor 1) with 1%Z in Hle. lia.
Qed.

Lemma digit_not_space c : isDigit c = true -> isWhiteSpace c = false.
Proof.
  unfold isDigit, isWhiteSpace. intros H.
  apply andb_true_iff in H. destruct H as [Hlo Hhi].
  apply N.leb_le in Hlo, Hhi.
  repeat (apply orb_false_iff; split); try (apply N.eqb_neq; lia).
  apply andb_false_iff. left. apply N.leb_gt. lia.
Qed.

Lemma parseInt10_digits c rest :
  isDigit c = true -> parseInt10 (c :: rest) = Some (digitsValue 0 (c :: rest)).
Proof.
  intros Hdigit. unfold parseInt10, trimStart. cbn [skipWhile].
  rewrite (digit_not_space c Hdigit).
  pose proof Hdigit as Hrange. unfold isDigit in Hrange.
  apply andb_true_iff in Hrange. destruct Hrange as [Hlo Hhi].
  apply N.leb_le in Hlo, Hhi.
  replace (c =? 45) with false by (symmetry; apply N.eqb_neq; lia).
  replace (c =? 43) with false by (symmetry; apply N.eqb_neq; lia).
  cbn [runLength]. rewrite Hdigit.
  f_equal. apply Z.mul_1_l.
Qed.

Lemma lit_String c s : lit (String c s) = N_of_ascii c :: lit s.
Proof. reflexivity. Qed.

Ltac read_digit :=
  rewrite lit_String; cbn [digitsValue];
  match goal with
  | |- context [isDigit ?c] => change (isDigit c) with true
  end;
  match goal with
  | |- context [Z.of_N ?e] =>
      let v := eval vm_compute in (Z.of_N e) in change (Z.of_N e) with v
  end;
  cbv iota.

Lemma digitsValue_acc (d : Decimal.uint) :
  forall p : positive,
    digitsValue (Z.pos p) (lit (DecimalString.NilEmpty.string_of_uint d))
    = Z.pos (Pos.of_uint_acc d p).
Proof.
  induction d; intros p;
    cbn [DecimalString.NilEmpty.string_of_uint Pos.of_uint_acc];
    [reflexivity | ..]; read_digit; rewrite <- IHd; f_equal; lia.
Qed.

Lemma digitsValue_zero (d : Decimal.uint) :
  digitsValue 0 (lit (DecimalString.NilEmpty.string_of_uint d)) = Z.of_N (Pos.of_uint d).
Proof.
  induction d; cbn [DecimalString.NilEmpty.string_of_uint Pos.of_uint];
    [reflexivity | ..]; read_digit;
    first [exact IHd | apply digitsValue_acc].
Qed.

(** Reading back the digits that were printed. *)
Lemma parseInt10_decimal (n : N) : parseInt10 (decimal n) = Some (Z.of_N n).
Proof.
  unfold decimal.
  assert (Hnonnil : N.to_uint n <> Decimal.Nil).
  { destruct n as [| p]; [discriminate | apply DecimalPos.Unsigned.to_uint_nonnil]. }
  rewrite <- (DecimalN.Unsigned.of_to n) at 2.
  unfold N.of_uint. rewrite <- digitsValue_zero.
  destruct (N.to_uint n) as [| d | d | d | d | d | d | d | d | d | d]; [congruence | ..];
    cbn [DecimalString.NilZero.string_of_uint DecimalString.NilEmpty.string_of_uint];
    rewrite lit_String; apply parseInt10_digits; reflexivity.
Qed.

Lemma readConfig_bounds file envMax config :
  readConfig file envMax = inl config ->
  SEARCH_URL config <> []
  /\ (1 <= START_PAGE config)%nat
  /\ (forall cap, MAX_COMPANIES config = Some cap -> (1 <= cap)%nat).
Proof.
  unfold readConfig. destruct file as [parsed |]; [| discriminate].
  destruct (parsed_SEARCH_URL parsed) as [| | b | x | [| c s] |]; try discriminate.
  intros [= <-]. cbn [SEARCH_URL START_PAGE MAX_COMPANIES].
  split; [discriminate |]. split.
  - destruct (floorAtLeastOne (parsed_START_PAGE parsed)) as [n |] eqn:Hstart; [| lia].
    eapply floorAtLeastOne_positive. exact Hstart.
  - intros cap.
    destruct (present envMax); [destruct (parseInt10 (default [] envMax)) as [v |] |];
      try (apply floorAtLeastOne_positive).
    destruct (1 <=? v)%Z eqn:Hv; [| apply floorAtLeastOne_positive].
    intros [= <-]. apply Z.leb_le in Hv. lia.
Qed.

End ConfigFacts.

(** X11.  Whatever the configuration file holds, and whatever the
    environment holds as long as its digits are worth no more than two
    to the 53, the configuration the scraper runs with has a search
    URL, a start page of at least one and, when it has a cap, a cap of
    at least one.  An environment entry that reads as a whole number
    of at least one is the cap, whatever the file says about it. *)
Theorem loadConfig_bounds (file : option ParsedConfig) (envMax : option jsstring) :
  (forall text, envMax = Some text -> readsExactly text) ->
  SEARCH_URL (loadConfig file envMax).1 <> []
  /\ (1 <= START_PAGE (loadConfig file envMax).1)%nat
  /\ (forall cap, MAX_COMPANIES (loadConfig file envMax).1 = Some cap -> (1 <= cap)%nat)
  /\ (forall parsed text v,
         file = Some parsed -> envMax = Some text -> text <> [] ->
         parseInt10 text = Some v -> (1 <= v)%Z ->
         (loadConfig file envMax).2 = false ->
         MAX_COMPANIES (loadConfig file envMax).1 = Some (Z.to_nat v)).
Proof.
  intros _. unfold loadConfig.
  destruct (readConfig file envMax) as [config | e] eqn:Hread; cbn [fst snd].
  - destruct (readConfig_bounds _ _ _ Hread) as (Hurl & Hstart & Hcap).
    repeat split; try assumption.
    intros parsed text v -> -> Htext Hparse Hv _.
    unfold readConfig in Hread.
    destruct (parsed_SEARCH_URL parsed) as [| | b | x | [| c s] |]; try discriminate.
    injection Hread as <-. cbn [MAX_COMPANIES present default from_option].
    change (id text) with text.
    destruct text as [| c0 text']; [congruence |]. cbn [truthy].
    rewrite Hparse. apply Z.leb_le in Hv. rewrite Hv. reflexivity.
  - repeat split; try discriminate; cbn; lia.
Qed.

Lemma loadConfig_bounds_witness :
  (1 <= START_PAGE (loadConfig (Some cappedFile) (Some (lit "7"))).1)%nat
  /\ MAX_COMPANIES (loadConfig (Some cappedFile) (Some (lit "7"))).1 = Some 7%nat.
Proof.
  assert (Hexact : forall text, Some (lit "7") = Some text -> readsExactly text).
  { intros text [= <-] v Hparse. vm_compute in Hparse. injection Hparse as <-.
    vm_compute. discriminate. }
  destruct (loadConfig_bounds (Some cappedFile) (Some (lit "7")) Hexact)
    as (_ & Hstart & _ & Henv).
  split; [exact Hstart |].
  apply (Henv cappedFile (lit "7") 7%Z); try reflexivity; [discriminate | lia].
Defined.

(** X12.  The desktop shell hands the cap over intact.  When the
    configuration file holds a cap (a number of at least one, below two
    to the 53), [startScraper] puts its whole part into the environment
    as decimal digits, over whatever was inherited, and the scraper
    reads from these digits the very cap it would have taken from the
    file: started from the shell or by hand without the variable, it
    loads the same configuration.  When the file holds no usable cap,
    the inherited entry is passed on as it is. *)
Theorem shell_hands_over_the_cap
        (parsed : ParsedConfig) (inherited : option jsstring) (cap : nat) :
  floorAtLeastOne (parsed_MAX_COMPANIES parsed) = Some cap ->
  (N.of_nat cap <= 2 ^ 53)%N ->
  scraperEnv (Some (parsed_MAX_COMPANIES parsed)) inherited = Some (numberToString cap)
  /\ parseInt10 (numberToString cap) = Some (Z.of_nat cap)
  /\ loadConfig (Some parsed)
       (scraperEnv (Some (parsed_MAX_COMPANIES parsed)) inherited)
     = loadConfig (Some parsed) None.
Proof.
  intros Hcap _. unfold scraperEnv. rewrite Hcap.
  assert (Hparse : parseInt10 (numberToString cap) = Some (Z.of_nat cap)).
  { unfold numberToString. rewrite parseInt10_decimal. f_equal. lia. }
  split; [reflexivity |]. split; [exact Hparse |].
  unfold loadConfig, readConfig.
  destruct (parsed_SEARCH_URL parsed) as [| | b | x | [| c s] |]; try reflexivity.
  assert (Hpresent : present (Some (numberToString cap)) = true).
  { cbn [present]. unfold numberToString, decimal.
    destruct (N.to_uint (N.of_nat cap)); reflexivity. }
  rewrite Hpresent. cbn [default from_option].
  change (id (numberToString cap)) with (numberToString cap).
  rewrite Hparse.
  pose proof (floorAtLeastOne_positive _ _ Hcap) as Hpos.
  replace (1 <=? Z.of_nat cap)%Z with true by (symmetry; apply Z.leb_le; lia).
  rewrite Nat2Z.id, Hcap. cbn [present]. reflexivity.
Qed.

Lemma shell_hands_over_the_cap_witness :
  scraperEnv (Some (parsed_MAX_COMPANIES cappedFile)) (Some (lit "7"))
  = Some (numberToString 2)
  /\ parseInt10 (numberToString 2) = Some (Z.of_nat 2)
  /\ loadConfig (Some cappedFile)
       (scraperEnv (Some (parsed_MAX_COMPANIES cappedFile)) (Some (lit "7")))
     = loadConfig (Some cappedFile) None.
Proof.
  apply (shell_hands_over_the_cap cappedFile (Some (lit "7")) 2).
  - reflexivity.
  - vm_compute. discriminate.
Defined.

(** ** The export URL of the sheet *)

Section ExportUrlFacts.

Lemma matchSheetId_eq s :
  matchSheetId s
  = if startsWith SHEET_MARKER s
       && (0 <? runLength notSlash (drop (length SHEET_MARKER) s))%nat
    then Some (take (runLength notSlash (drop (length SHEET_MARKER) s))
                 (drop (length SHEET_MARKER) s))
    else match s with
         | [] => None
         | _ :: t => matchSheetId t
         end.
Proof. destruct s; reflexivity. Qed.

Lemma matchSheetId_skip c s :
  startsWith SHEET_MARKER (c :: s) = false -> matchSheetId (c :: s) = matchSheetId s.
Proof. intros Hno. rewrite matchSheetId_eq, Hno. reflexivity. Qed.

Lemma runLength_app p (run rest : jsstring) :
  forallb p run = true ->
  match rest with [] => True | c :: _ => p c = false end ->
  runLength p (run ++ rest) = length run.
Proof.
  intros Hrun Hrest. induction run as [| c run IH]; cbn [app runLength length].
  - destruct rest as [| c rest]; [reflexivity |]. cbn [runLength]. rewrite Hrest. reflexivity.
  - cbn [forallb] in Hrun. apply andb_true_iff in Hrun. destruct Hrun as [Hc Hrun].
    rewrite Hc, IH by exact Hrun. reflexivity.
Qed.

Lemma take_runLength p (s : jsstring) : forallb p (take (runLength p s) s) = true.
Proof.
  induction s as [| c s IH]; [reflexivity |]. cbn [runLength].
  destruct (p c) eqn:Hc; [| reflexivity]. cbn [take forallb]. rewrite Hc. exact IH.
Qed.

Lemma matchSheetId_shape s sheetId :
  matchSheetId s = Some sheetId -> sheetId <> [] /\ forallb notSlash sheetId = true.
Proof.
  induction s as [| c s IH]; rewrite matchSheetId_eq.
  - cbn. discriminate.
  - generalize (drop (length SHEET_MARKER) (c :: s)) as after. intros after.
    destruct (startsWith SHEET_MARKER (c :: s) && (0 <? runLength notSlash after)%nat)
      eqn:Hhere; [| exact IH].
    apply andb_true_iff in Hhere. destruct Hhere as [_ Hrun]. apply Nat.ltb_lt in Hrun.
    intros [= <-]. split; [| apply take_runLength].
    destruct after as [| d after]; [cbn in Hrun; lia |].
    cbn [runLength] in *. destruct (notSlash d); [cbn [take]; discriminate | lia].
Qed.

Lemma matchSheetId_none s : includes s SHEET_MARKER = false -> matchSheetId s = None.
Proof.
  induction s as [| c s IH]; intros Hno; rewrite matchSheetId_eq.
  - reflexivity.
  - cbn [includes] in Hno. apply orb_false_iff in Hno. destruct Hno as [Hhere Hlater].
    rewrite Hhere. cbn [andb]. apply IH. exact Hlater.
Qed.

Lemma matchSheetId_standard sheetId rest :
  sheetId <> [] ->
  forallb notSlash sheetId = true ->
  match rest with [] => True | c :: _ => c = 47 end ->
  matchSheetId (lit "https://docs.google.com/spreadsheets/d/" ++ sheetId ++ rest)
  = Some sheetId.
Proof.
  intros Hne Hfree Hrest.
  assert (Hrun : runLength notSlash (sheetId ++ rest) = length sheetId).
  { apply runLength_app; [exact Hfree |].
    destruct rest as [| c rest]; [exact I |]. subst c. reflexivity. }
  set (tail := sheetId ++ rest) in *.
  let base := eval vm_compute in (lit "https://docs.google.com/spreadsheets/d/") in
  change (lit "https://docs.google.com/spreadsheets/d/") with base.
  cbn [app].
  repeat (rewrite matchSheetId_skip by reflexivity).
  rewrite matchSheetId_eq.
  change (startsWith SHEET_MARKER _) with true.
  change (drop (length SHEET_MARKER) _) with tail.
  rewrite Hrun. cbn [andb].
  destruct sheetId as [| c sheetId]; [congruence |].
  cbn [length Nat.ltb Nat.leb]. subst tail.
  change (S (length sheetId)) with (length (c :: sheetId)).
  rewrite take_app_length. reflexivity.
Qed.

End ExportUrlFacts.

(** X13.  [buildCsvExportUrl] takes the sheet id, the run of characters
    other than a slash behind the first [/spreadsheets/d/] that has
    one, and puts it into the export address.  A sheet address of the
    usual form gives the export address of its id whatever follows the
    id; an export address is mapped to itself; an address without the
    marker is refused. *)
Theorem buildCsvExportUrl_spec (spreadsheetUrl : jsstring) :
  (forall sheetId rest,
      sheetId <> [] -> forallb notSlash sheetId = true ->
      match rest with [] => True | c :: _ => c = 47 end ->
      buildCsvExportUrl (lit "https://docs.google.com/spreadsheets/d/" ++ sheetId ++ rest)
      = inl (lit "https://docs.google.com/spreadsheets/d/" ++ sheetId
               ++ lit "/export?format=csv"))
  /\ (forall csvUrl,
         buildCsvExportUrl spreadsheetUrl = inl csvUrl ->
         buildCsvExportUrl csvUrl = inl csvUrl
         /\ exists sheetId,
             sheetId <> [] /\ forallb notSlash sheetId = true
             /\ csvUrl = lit "https://docs.google.com/spreadsheets/d/" ++ sheetId
                           ++ lit "/export?format=csv")
  /\ (includes spreadsheetUrl (lit "/spreadsheets/d/") = false ->
      buildCsvExportUrl spreadsheetUrl = inr BadSpreadsheetUrl).
Proof.
  assert (Hstandard :
            forall sheetId rest,
              sheetId <> [] -> forallb notSlash sheetId = true ->
              match rest with [] => True | c :: _ => c = 47 end ->
              buildCsvExportUrl
                (lit "https://docs.google.com/spreadsheets/d/" ++ sheetId ++ rest)
              = inl (lit "https://docs.google.com/spreadsheets/d/" ++ sheetId
                       ++ lit "/export?format=csv")).
  { intros sheetId rest Hne Hfree Hrest. unfold buildCsvExportUrl.
    rewrite (matchSheetId_standard sheetId rest Hne Hfree Hrest). reflexivity. }
  split; [exact Hstandard |]. split.
  - unfold buildCsvExportUrl at 1.
    destruct (matchSheetId spreadsheetUrl) as [sheetId |] eqn:Hmatch; [| discriminate].
    destruct (matchSheetId_shape _ _ Hmatch) as [Hne Hfree].
    intros csvUrl [= <-]. split.
    + apply Hstandard; [exact Hne | exact Hfree | reflexivity].
    + exists sheetId. repeat split; assumption.
  - intros Hno. unfold buildCsvExportUrl.
    rewrite (matchSheetId_none _ Hno). reflexivity.
Qed.

(** ** The relay script *)

Section GasFacts.

Lemma orElse_nil_r a : orElse a [] = a.
Proof. destruct a; reflexivity. Qed.

Lemma orElse_nil_l a : orElse [] a = a.
Proof. reflexivity. Qed.

(** The token [doPost] compares, for a request of [postRowToGas]. *)
Lemma relayed_token withHeaders gas row :
  orElse
    (orElse (headerValue (lit "X-Auth-Token")
               (default [] (headers (deliver withHeaders (relayRequest gas row)))))
       (orElse (headerValue (lit "x-auth-token")
                  (default [] (headers (deliver withHeaders (relayRequest gas row))))) []))
    (default [] (Some (bodyToken (relayRequest gas row))))
  = default [] (token gas).
Proof.
  unfold deliver, relayRequest. cbn [headers requestHeaders bodyToken].
  destruct withHeaders; cbn [default from_option id].
  - destruct (token gas) as [[| c t] |]; cbn [present truthy default from_option id];
      reflexivity.
  - reflexivity.
Qed.

End GasFacts.

(** X14.  [doPost] changes the sheet only when it answers [OK], and
    then by one row at the end: the row of the body.  With a token set
    in the script that answer needs the token; the token of the header
    counts before that of the body.  Every other answer leaves the
    sheet as it was. *)
Theorem doPost_appends_only_on_ok
        (authToken : jsstring) (e : PostEvent) (sheet : option (list (list jsstring))) :
  ((doPostWith authToken e sheet).1 <> Ok -> (doPostWith authToken e sheet).2 = sheet)
  /\ ((doPostWith authToken e sheet).1 = Ok ->
      exists rows row tokenField,
        sheet = Some rows
        /\ postData e = BodyData (Some row) tokenField
        /\ (doPostWith authToken e sheet).2 = Some (rows ++ [row])
        /\ (authToken <> [] ->
            orElse
              (orElse (headerValue (lit "X-Auth-Token") (default [] (headers e)))
                 (headerValue (lit "x-auth-token") (default [] (headers e))))
              (default [] tokenField)
            = authToken)).
Proof.
  unfold doPostWith.
  destruct (postData e) as [| | | row tokenField]; cbn [fst snd];
    try (split; [reflexivity | discriminate]).
  rewrite orElse_nil_r.
  set (token := orElse _ (default [] tokenField)).
  destruct (truthy authToken && bool_decide (token <> authToken)) eqn:Hguard; cbn [fst snd].
  { split; [reflexivity | discriminate]. }
  destruct row as [row |]; cbn [fst snd]; [| split; [reflexivity | discriminate]].
  destruct sheet as [rows |]; cbn [fst snd]; [| split; [reflexivity | discriminate]].
  split; [congruence |]. intros _. exists rows, row, tokenField.
  repeat split. intros Hset.
  apply andb_false_iff in Hguard. destruct Hguard as [Hempty | Hsame].
  - destruct authToken; [congruence | discriminate].
  - apply bool_decide_eq_false in Hsame.
    destruct (decide (token = authToken)); [assumption | contradiction].
Qed.

(** X15.  From the scraper to the sheet.  A row that [postRowToGas]
    sends ends up as the last row of the sheet, with the answer [OK],
    exactly when the script has no token set or the token of the
    scraper's configuration is the token of the script; otherwise the
    answer is [Unauthorized] and the sheet stays as it is.  It makes no
    difference whether the platform passes the request headers on. *)
Theorem relayed_row_reaches_the_sheet
        (authToken : jsstring) (withHeaders : bool) (gas : GasConfig)
        (row : list jsstring) (rows : list (list jsstring)) :
  doPostWith authToken (deliver withHeaders (relayRequest gas row)) (Some rows)
  = if bool_decide (authToken = [] \/ default [] (token gas) = authToken)
    then (Ok, Some (rows ++ [row]))
    else (Unauthorized, Some rows).
Proof.
  unfold doPostWith.
  change (postData (deliver withHeaders (relayRequest gas row)))
    with (BodyData (Some (bodyRow (relayRequest gas row)))
            (Some (bodyToken (relayRequest gas row)))).
  cbv iota beta. rewrite relayed_token.
  change (bodyRow (relayRequest gas row)) with row.
  destruct authToken as [| c authToken].
  - cbn [truthy andb]. rewrite bool_decide_eq_true_2 by (left; reflexivity). reflexivity.
  - cbn [truthy andb].
    destruct (decide (default [] (token gas) = c :: authToken)) as [Hsame | Hdiff].
    + rewrite bool_decide_eq_false_2 by (intros H; apply H; exact Hsame).
      rewrite bool_decide_eq_true_2 by (right; exact Hsame). reflexivity.
    + rewrite bool_decide_eq_true_2 by exact Hdiff.
      rewrite bool_decide_eq_false_2 by (intros [H | H]; [discriminate | contradiction]).
      reflexivity.
Qed.

(** ** From the settings form to the scraper *)

Section FormFacts.





End FormFacts.



(** ** How long a pause lasts *)

Section PauseFacts.
Context {W : Type} {host : Host W}.
Implicit Types m : Machine W.

Lemma pauseLoop_released polls :
  forall m m',
    pauseLoop polls m = Some m' ->
    exists k,
      (k <= polls)%nat
      /\ world m' = ticks k (world m)
      /\ trace m' = trace m ++ repeat (EvTimer 500) k
      /\ held (world m') = false
      /\ (forall j, (j < k)%nat -> held (ticks j (world m)) = true).
Proof.
  induction polls as [| polls IH]; intros m m' Hrun; cbn [pauseLoop] in Hrun;
    fold (held (world m)) in Hrun; destruct (held (world m)) eqn:Hheld;
    try discriminate.
  - injection Hrun as <-. exists 0%nat. cbn. rewrite app_nil_r.
    repeat split; [lia | exact Hheld | intros j Hj; lia].
  - apply IH in Hrun. destruct Hrun as (k & Hk & Hworld & Htrace & Hfree & Hbefore).
    exists (S k). cbn [ticks repeat].
    split; [lia |]. split; [exact Hworld |].
    split; [rewrite Htrace; cbn; rewrite <- app_assoc; reflexivity |].
    split; [exact Hfree |].
    intros [| j] Hj; [exact Hheld |]. cbn [ticks]. apply Hbefore. lia.
  - injection Hrun as <-. exists 0%nat. cbn. rewrite app_nil_r.
    repeat split; [lia | exact Hheld | intros j Hj; lia].
Qed.

Lemma pauseLoop_stuck polls :
  forall m,
    pauseLoop polls m = None ->
    forall j, (j <= polls)%nat -> held (ticks j (world m)) = true.
Proof.
  induction polls as [| polls IH]; intros m Hrun j Hj; cbn [pauseLoop] in Hrun;
    fold (held (world m)) in Hrun; destruct (held (world m)) eqn:Hheld;
    try discriminate.
  - replace j with 0%nat by lia. exact Hheld.
  - destruct j as [| j]; [exact Hheld |]. cbn [ticks].
    apply (IH _ Hrun). lia.
Qed.

End PauseFacts.

(** X17.  A pause lasts until the first half-second tick at which the
    crawl is resumed or told to stop.  When [waitIfPaused] returns it
    has slept some number of times, half a second each; at every tick
    before the last the crawl was paused and not stopped, at the last
    it is not; ledger and dedup set are untouched.  A stop request
    ends the wait at once, paused or not.  When the wait does not
    return within its fuel, the crawl was paused and not stopped at
    every tick. *)
Theorem pause_ends_at_first_release {W : Type} {host : Host W}
        (polls : nat) (m : Machine W) :
  (forall m',
      waitIfPaused polls m = Some m' ->
      exists k,
        (k <= polls)%nat
        /\ world m' = ticks k (world m)
        /\ trace m' = trace m ++ EvWaitIfPaused :: repeat (EvTimer 500) k
        /\ held (world m') = false
        /\ (forall j, (j < k)%nat -> held (ticks j (world m)) = true)
        /\ csvFile m' = csvFile m
        /\ existingCompanies m' = existingCompanies m)
  /\ (shouldStop (world m) = true ->
      waitIfPaused polls m = Some (emit EvWaitIfPaused m))
  /\ (waitIfPaused polls m = None ->
      forall j, (j <= polls)%nat -> held (ticks j (world m)) = true).
Proof.
  split; [| split].
  - intros m' Hrun.
    destruct (waitIfPaused_shape _ _ _ Hrun) as (_ & _ & _ & Hfile & Hset).
    unfold waitIfPaused in Hrun. apply pauseLoop_released in Hrun.
    destruct Hrun as (k & Hk & Hworld & Htrace & Hfree & Hbefore).
    exists k. cbn in Htrace. rewrite <- app_assoc in Htrace.
    repeat split; assumption.
  - intros Hstop. unfold waitIfPaused.
    destruct polls; cbn [pauseLoop];
      change (world (emit EvWaitIfPaused m)) with (world m);
      rewrite Hstop, andb_false_r; reflexivity.
  - intros Hrun. unfold waitIfPaused in Hrun.
    apply (pauseLoop_stuck _ _ Hrun).
Qed.

(** ** Keys and signals *)

Section ControlFacts.
Import Controls.

Lemma lowers_apart s : lowersTo 112 s = true -> lowersTo 113 s = false.
Proof.
  unfold lowersTo. intros Hp. apply bool_decide_eq_true in Hp.
  apply bool_decide_eq_false. rewrite Hp. discriminate.
Qed.

Lemma interrupt_is_no_letter :
  lowersTo 112 (trim [3]) = false /\ lowersTo 113 (trim [3]) = false.
Proof. split; vm_compute; reflexivity. Qed.

Lemma handle_flags flags input :
  shouldStop (handle flags input) = shouldStop flags || asksStop input
  /\ isPaused (handle flags input) = xorb (isPaused flags) (togglesPause input).
Proof.
  destruct input as [| key]; cbn [handle asksStop togglesPause].
  { split; [cbn; rewrite orb_true_r; reflexivity | cbn; rewrite xorb_false_r; reflexivity]. }
  unfold onData. destruct (bool_decide (key = [3])) eqn:Hkey.
  { apply bool_decide_eq_true in Hkey. subst key.
    rewrite (proj1 interrupt_is_no_letter). cbn.
    rewrite orb_true_r, xorb_false_r. split; reflexivity. }
  cbn [orb]. destruct (lowersTo 112 (trim key)) eqn:Hp.
  { rewrite (lowers_apart _ Hp). cbn. rewrite orb_false_r.
    split; [reflexivity | destruct (isPaused flags); reflexivity]. }
  destruct (lowersTo 113 (trim key)); cbn; rewrite ?orb_true_r, ?orb_false_r, xorb_false_r;
    split; reflexivity.
Qed.

End ControlFacts.

(** X18.  Keys and signals.  After any sequence of signals and key
    input the stop flag is set exactly when it was set before or one of
    the inputs asked for the end (a signal, Ctrl+C, or the letter q in
    either case, white space around it aside): a stop is never taken
    back.  The pause flag has flipped once for each input that is the
    letter p, so that two of them cancel. *)
Theorem stop_is_final_and_pause_toggles
        (inputs : list Controls.Input) (flags : Controls.Flags) :
  Controls.shouldStop (fold_left Controls.handle inputs flags)
  = Controls.shouldStop flags || existsb Controls.asksStop inputs
  /\ Controls.isPaused (fold_left Controls.handle inputs flags)
     = xorb (Controls.isPaused flags)
         (Nat.odd (countIf Controls.togglesPause inputs)).
Proof.
  revert flags. induction inputs as [| input inputs IH]; intros flags.
  - cbn. rewrite orb_false_r, xorb_false_r. split; reflexivity.
  - cbn [fold_left existsb countIf].
    destruct (IH (Controls.handle flags input)) as [Hstop Hpause].
    destruct (handle_flags flags input) as [Hstop1 Hpause1].
    rewrite Hstop, Hpause, Hstop1, Hpause1. split.
    + rewrite orb_assoc. reflexivity.
    + rewrite xorb_assoc. f_equal.
      destruct (Controls.togglesPause input); cbn [Nat.add].
      * rewrite Nat.odd_succ, <- Nat.negb_odd.
        destruct (Nat.odd (countIf Controls.togglesPause inputs)); reflexivity.
      * destruct (Nat.odd (countIf Controls.togglesPause inputs)); reflexivity.
Qed.

(** ** The links of the second scraper *)

Section RikunabiFacts.
Import Rikunabi.

Lemma startsWith_app pat s : startsWith pat s = true -> s = pat ++ drop (length pat) s.
Proof.
  revert s. induction pat as [| p pat IH]; intros s Hs; [reflexivity |].
  destruct s as [| c s]; [discriminate |]. cbn [startsWith] in Hs.
  apply andb_true_iff in Hs. destruct Hs as [Hc Hs]. apply N.eqb_eq in Hc. subst c.
  cbn [app length drop]. f_equal. apply IH. exact Hs.
Qed.

Lemma companyUrlPattern_shape url :
  companyUrlPattern url = true ->
  exists prefix digits,
    digits <> [] /\ forallb isDigit digits = true
    /\ (url = prefix ++ COMPANY_MARK ++ digits
        \/ url = prefix ++ COMPANY_MARK ++ digits ++ [47]).
Proof.
  induction url as [| c url IH]; intros Hmatch.
  - cbn in Hmatch. discriminate.
  - cbn [companyUrlPattern] in Hmatch. apply orb_true_iff in Hmatch.
    destruct Hmatch as [Hhere | Hlater].
    + apply andb_true_iff in Hhere. destruct Hhere as [Hmark Htail].
      apply startsWith_app in Hmark. revert Hmark Htail.
      generalize (drop (length COMPANY_MARK) (c :: url)) as rest. intros rest Hmark Htail.
      unfold companyTail in Htail. apply andb_true_iff in Htail.
      destruct Htail as [Hsome Hend]. apply Nat.ltb_lt in Hsome.
      exists [], (take (runLength isDigit rest) rest).
      split.
      { destruct rest as [| d rest]; [cbn in Hsome; lia |].
        cbn [runLength] in *. destruct (isDigit d); [cbn [take]; discriminate | lia]. }
      split; [apply take_runLength |].
      cbn [app]. rewrite Hmark.
      pose proof (take_drop (runLength isDigit rest) rest) as Hrest.
      apply orb_true_iff in Hend.
      destruct Hend as [Hend | Hend]; apply bool_decide_eq_true in Hend;
        rewrite Hend in Hrest.
      * left. rewrite app_nil_r in Hrest. rewrite Hrest. reflexivity.
      * right. rewrite Hrest. reflexivity.
    + destruct (IH Hlater) as (prefix & digits & Hne & Hdigits & Hshape).
      exists (c :: prefix), digits. split; [exact Hne |]. split; [exact Hdigits |].
      destruct Hshape as [-> | ->]; [left | right]; reflexivity.
Qed.

Lemma stripSlash_snoc s : stripSlash (s ++ [47]) = s.
Proof.
  unfold stripSlash. rewrite rev_app_distr. cbn. apply rev_involutive.
Qed.

Lemma stripSlash_keep s c : (c =? 47) = false -> stripSlash (s ++ [c]) = s ++ [c].
Proof.
  intros Hc. unfold stripSlash. rewrite rev_app_distr. cbn. rewrite Hc. reflexivity.
Qed.

Lemma digits_last digits :
  digits <> [] -> forallb isDigit digits = true ->
  exists front d, digits = front ++ [d] /\ (d =? 47) = false.
Proof.
  intros Hne Hdigits.
  destruct (exists_last Hne) as (front & d & ->). exists front, d. split; [reflexivity |].
  rewrite forallb_app in Hdigits. apply andb_true_iff in Hdigits.
  destruct Hdigits as [_ Hd]. cbn in Hd. rewrite andb_true_r in Hd.
  unfold isDigit in Hd. apply andb_true_iff in Hd. destruct Hd as [Hlo _].
  apply N.leb_le in Hlo. apply N.eqb_neq. lia.
Qed.

End RikunabiFacts.

(** X19.  The links the second scraper takes from a result page.
    Every link that [extractCompanyLinks] returns has a name, trimmed
    and not empty, and an address that ends in the company mark,
    digits and at most one slash.  The detail tab is sent to that
    address without the slash, so that both spellings of a company
    page lead to the same place. *)
Theorem rikunabi_links_are_company_pages
        (anchors : option (list Rikunabi.Anchor)) (link : CompanyLink) :
  In link (Rikunabi.extractCompanyLinks anchors) ->
  name link <> []
  /\ trim (name link) = name link
  /\ exists prefix digits,
      digits <> [] /\ forallb isDigit digits = true
      /\ (url link = prefix ++ Rikunabi.COMPANY_MARK ++ digits
          \/ url link = prefix ++ Rikunabi.COMPANY_MARK ++ digits ++ [47])
      /\ Rikunabi.normalizedUrl (url link) = prefix ++ Rikunabi.COMPANY_MARK ++ digits.
Proof.
  unfold Rikunabi.extractCompanyLinks.
  destruct anchors as [elements |]; [| intros []].
  intros Hin. apply filter_In in Hin. destruct Hin as [Hin Hkeep].
  apply andb_true_iff in Hkeep. destruct Hkeep as [Hname Hurl].
  split; [destruct (name link); [discriminate | discriminate] |].
  split.
  { apply in_map_iff in Hin. destruct Hin as (anchor & <- & _).
    cbn [Rikunabi.toLink name]. destruct (Rikunabi.textContent anchor);
      [apply trim_idempotent | reflexivity]. }
  destruct (companyUrlPattern_shape _ Hurl) as (prefix & digits & Hne & Hdigits & Hshape).
  exists prefix, digits. split; [exact Hne |]. split; [exact Hdigits |].
  split; [exact Hshape |].
  destruct (digits_last digits Hne Hdigits) as (front & d & -> & Hd).
  unfold Rikunabi.normalizedUrl.
  destruct Hshape as [-> | ->].
  - rewrite !app_assoc. rewrite stripSlash_keep by exact Hd.
    unfold orElse. destruct ((prefix ++ Rikunabi.COMPANY_MARK) ++ front) ; reflexivity.
  - rewrite !app_assoc. rewrite stripSlash_snoc.
    unfold orElse.
    destruct (((prefix ++ Rikunabi.COMPANY_MARK) ++ front) ++ [d]) eqn:Hshape; [| reflexivity].
    apply app_eq_nil in Hshape. destruct Hshape as [_ Hshape]. discriminate.
Qed.

Lemma rikunabi_links_are_company_pages_witness :
  In acmeLink (Rikunabi.extractCompanyLinks (Some resultAnchors))
  /\ name acmeLink <> []
  /\ trim (name acmeLink) = name acmeLink
  /\ exists prefix digits,
      digits <> [] /\ forallb isDigit digits = true
      /\ (url acmeLink = prefix ++ Rikunabi.COMPANY_MARK ++ digits
          \/ url acmeLink = prefix ++ Rikunabi.COMPANY_MARK ++ digits ++ [47])
      /\ Rikunabi.normalizedUrl (url acmeLink) = prefix ++ Rikunabi.COMPANY_MARK ++ digits.
Proof.
  assert (Hin : In acmeLink (Rikunabi.extractCompanyLinks (Some resultAnchors)))
    by (vm_compute; left; reflexivity).
  split; [exact Hin |].
  exact (rikunabi_links_are_company_pages (Some resultAnchors) acmeLink Hin).
Defined.

(** ** The shape of a normalised name *)

Section NameShape.

Lemma replaceAll_skip matchAt by_ (s : jsstring) :
  forall skip, replaceAll matchAt by_ skip s = replaceAll matchAt by_ O (drop skip s).
Proof.
  induction s as [| c t IH]; intros [| skip]; try reflexivity.
  cbn [replaceAll drop]. apply IH.
Qed.

Lemma skipWhile_runLength p (s : jsstring) : drop (runLength p s) s = skipWhile p s.
Proof.
  induction s as [| c t IH]; [reflexivity |]. cbn [runLength skipWhile].
  destruct (p c); [exact IH | reflexivity].
Qed.

Lemma skipWhile_length p (s : jsstring) : (length (skipWhile p s) <= length s)%nat.
Proof.
  induction s as [| c t IH]; [cbn; lia |]. cbn [skipWhile].
  destruct (p c); cbn [length]; lia.
Qed.

Lemma collapse_ink c t : isWhiteSpace c = false -> collapse (c :: t) = c :: collapse t.
Proof.
  intros Hc. unfold collapse. cbn [replaceAll]. unfold matchRun. cbn [runLength].
  rewrite Hc. reflexivity.
Qed.

Lemma collapse_space c t :
  isWhiteSpace c = true -> collapse (c :: t) = SP :: collapse (skipWhile isWhiteSpace t).
Proof.
  intros Hc. unfold collapse. cbn [replaceAll]. unfold matchRun. cbn [runLength].
  rewrite Hc. cbn [app Nat.pred]. rewrite replaceAll_skip, skipWhile_runLength. reflexivity.
Qed.

Lemma collapse_loose_bounded n :
  forall s, (length s <= n)%nat -> looseSpaced (collapse s) = true.
Proof.
  induction n as [| n IH]; intros s Hlen.
  - destruct s; [reflexivity | cbn in Hlen; lia].
  - destruct s as [| c t]; [reflexivity |]. cbn [length] in Hlen.
    destruct (isWhiteSpace c) eqn:Hc.
    + rewrite collapse_space by exact Hc. cbn [looseSpaced].
      change (isWhiteSpace SP) with true. rewrite N.eqb_refl. cbn [andb].
      pose proof (skipWhile_length isWhiteSpace t) as Hshort.
      rewrite IH by lia. rewrite andb_true_r.
      destruct (skipWhile isWhiteSpace t) as [| d rest] eqn:Hrest; [reflexivity |].
      pose proof (skipWhile_head _ _ _ _ Hrest) as Hd.
      rewrite collapse_ink by exact Hd. rewrite Hd. reflexivity.
    + rewrite collapse_ink by exact Hc. cbn [looseSpaced]. rewrite Hc.
      apply IH. lia.
Qed.

Lemma collapse_loose s : looseSpaced (collapse s) = true.
Proof. apply (collapse_loose_bounded (length s)). lia. Qed.

Lemma looseSpaced_tail c s : looseSpaced (c :: s) = true -> looseSpaced s = true.
Proof. cbn [looseSpaced]. intros H. apply andb_true_iff in H. tauto. Qed.

Lemma looseSpaced_skipWhile p s : looseSpaced s = true -> looseSpaced (skipWhile p s) = true.
Proof.
  induction s as [| c t IH]; intros Hs; [reflexivity |]. cbn [skipWhile].
  destruct (p c); [apply IH; eapply looseSpaced_tail; exact Hs | exact Hs].
Qed.

Lemma looseSpaced_prefix a :
  forall b, looseSpaced (a ++ b) = true -> looseSpaced a = true.
Proof.
  induction a as [| c a IH]; intros b Hab; [reflexivity |].
  cbn [app looseSpaced] in *. apply andb_true_iff in Hab. destruct Hab as [Hc Hrest].
  apply andb_true_iff. split; [| eapply IH; exact Hrest].
  destruct (isWhiteSpace c); [| reflexivity].
  apply andb_true_iff in Hc. destruct Hc as [Hsp Hnext].
  rewrite Hsp. cbn [andb]. destruct a as [| d a]; [reflexivity | exact Hnext].
Qed.

Lemma singleSpaced_inked b :
  forall c, isWhiteSpace c = false ->
            looseSpaced (b ++ [c]) = true -> singleSpaced (b ++ [c]) = true.
Proof.
  induction b as [| x b IH]; intros c Hc Hloose.
  - cbn. rewrite Hc. reflexivity.
  - cbn [app looseSpaced singleSpaced] in *.
    apply andb_true_iff in Hloose. destruct Hloose as [Hx Hrest].
    apply andb_true_iff. split; [| apply IH; assumption].
    destruct (isWhiteSpace x); [| reflexivity].
    destruct (b ++ [c]) as [| d rest] eqn:Hshape; [| exact Hx].
    destruct b; discriminate.
Qed.

(** What [trimEnd] leaves: nothing, or a text that ends in ink. *)
Lemma trimEnd_split s :
  exists dropped,
    s = trimEnd s ++ dropped
    /\ (trimEnd s = [] \/ exists b c, trimEnd s = b ++ [c] /\ isWhiteSpace c = false).
Proof.
  unfold trimEnd.
  assert (Hsplit : forall r : jsstring,
             exists w, r = w ++ skipWhile isWhiteSpace r).
  { induction r as [| c r IH]; [exists []; reflexivity |].
    cbn [skipWhile]. destruct (isWhiteSpace c); [| exists []; reflexivity].
    destruct IH as (w & Hw). exists (c :: w). cbn. rewrite <- Hw. reflexivity. }
  destruct (Hsplit (rev s)) as (w & Hw).
  exists (rev w). split.
  - rewrite <- rev_app_distr, <- Hw, rev_involutive. reflexivity.
  - destruct (skipWhile isWhiteSpace (rev s)) as [| c rest] eqn:Hrest; [left; reflexivity |].
    right. exists (rev rest), c. split; [reflexivity |].
    eapply skipWhile_head. exact Hrest.
Qed.

Lemma trim_singleSpaced s : looseSpaced s = true -> singleSpaced (trim s) = true.
Proof.
  intros Hs. unfold trim, trimStart.
  pose proof (looseSpaced_skipWhile isWhiteSpace s Hs) as Hstart.
  destruct (trimEnd_split (skipWhile isWhiteSpace s)) as (dropped & Hsplit & Hend).
  rewrite Hsplit in Hstart. apply looseSpaced_prefix in Hstart.
  destruct Hend as [-> | (b & c & Hshape & Hc)]; [reflexivity |].
  rewrite Hshape in *. apply singleSpaced_inked; assumption.
Qed.

End NameShape.

(** X20.  The shape of a normalised name.  Whatever the raw name, its
    normal form has no white space at either end, and inside it every
    white-space unit is a plain space with a unit that is not white
    space right behind it: no line break, no tab, no wide space, no two
    spaces in a row.  A raw name of white space only has the empty
    normal form, and white space around a raw name makes no
    difference. *)
Theorem normalized_name_shape (companyName : jsstring) :
  singleSpaced (normalizeCompanyName companyName) = true
  /\ trim (normalizeCompanyName companyName) = normalizeCompanyName companyName
  /\ normalizeCompanyName (trim companyName) = normalizeCompanyName companyName
  /\ (trim companyName = [] -> normalizeCompanyName companyName = []).
Proof.
  split; [| split; [| split]].
  - unfold normalizeCompanyName. apply trim_singleSpaced. apply collapse_loose.
  - unfold normalizeCompanyName. apply trim_idempotent.
  - apply normalizeCompanyName_trim.
  - intros Hblank. apply normalizeCompanyName_blank. rewrite Hblank. reflexivity.
Qed.

(** ** The time stamp of a record *)

Section TimestampFacts.

Lemma replaceFirst_T d rest :
  84 ∉ d -> replaceFirst (lit "T") [SP] (d ++ 84 :: rest) = d ++ SP :: rest.
Proof.
  induction d as [| c d IH]; intros Hfree.
  - reflexivity.
  - cbn [app]. unfold replaceFirst; fold replaceFirst.
    assert (Hc : (84 =? c) = false).
    { apply N.eqb_neq. intros <-. apply Hfree. left. }
    change (startsWith (lit "T") (c :: d ++ 84 :: rest)) with ((84 =? c) && true).
    rewrite Hc. cbn [andb]. f_equal. apply IH.
    intros Hin. apply Hfree. right. exact Hin.
Qed.

Lemma runLength_all p (s : jsstring) : forallb p s = true -> runLength p s = length s.
Proof.
  induction s as [| c s IH]; [reflexivity |]. cbn [forallb runLength length].
  intros H. apply andb_true_iff in H. destruct H as [Hc Hs].
  rewrite Hc, IH by exact Hs. reflexivity.
Qed.

Lemma stripFraction_dot head fraction :
  46 ∉ head -> fraction <> [] -> forallb notLineTerminator fraction = true ->
  stripFraction (head ++ 46 :: fraction) = head.
Proof.
  intros Hfree Hne Hline. induction head as [| c head IH].
  - cbn [app stripFraction]. rewrite N.eqb_refl, (runLength_all _ _ Hline).
    replace (0 <? length fraction)%nat with true
      by (destruct fraction; [congruence | reflexivity]).
    cbn [andb]. apply drop_all.
  - cbn [app stripFraction].
    assert (Hc : (c =? 46) = false).
    { apply N.eqb_neq. intros ->. apply Hfree. left. }
    rewrite Hc. cbn [andb]. f_equal. apply IH.
    intros Hin. apply Hfree. right. exact Hin.
Qed.

End TimestampFacts.

(** X21.  The time stamp of a record.  From a time in the form of
    [toISOString], a date, the letter T, a time of day, a dot and the
    fraction with its zone letter, [formatTimestamp] keeps the date and
    the time of day with a space in between and drops everything from
    the dot on. *)
Theorem formatTimestamp_iso (date time fraction : jsstring) :
  84 ∉ date -> 46 ∉ date -> 46 ∉ time ->
  fraction <> [] -> forallb notLineTerminator fraction = true ->
  formatTimestamp (date ++ lit "T" ++ time ++ lit "." ++ fraction)
  = date ++ lit " " ++ time.
Proof.
  intros HT Hdate Htime Hne Hline. unfold formatTimestamp.
  change (date ++ lit "T" ++ time ++ lit "." ++ fraction)
    with (date ++ 84 :: (time ++ 46 :: fraction)).
  rewrite replaceFirst_T by exact HT.
  change (date ++ SP :: time ++ 46 :: fraction)
    with (date ++ (SP :: time) ++ 46 :: fraction).
  rewrite app_assoc. rewrite stripFraction_dot; [reflexivity | | exact Hne | exact Hline].
  intros Hin. apply elem_of_app in Hin. destruct Hin as [Hin | Hin]; [exact (Hdate Hin) |].
  apply elem_of_cons in Hin.
  destruct Hin as [Hin | Hin]; [unfold SP in Hin; discriminate | exact (Htime Hin)].
Qed.

Lemma formatTimestamp_iso_witness :
  formatTimestamp (lit "2025-01-02" ++ lit "T" ++ lit "03:04:05" ++ lit "." ++ lit "678Z")
  = lit "2025-01-02" ++ lit " " ++ lit "03:04:05".
Proof.
  apply (formatTimestamp_iso (lit "2025-01-02") (lit "03:04:05") (lit "678Z"));
    refine (bool_decide_unpack _ _); vm_compute; exact I.
Defined.

(** ** Reading quoted CSV text *)

Section SheetFacts.

Lemma pushRow_filter rows row : pushRow rows row = rows ++ List.filter keepRow [row].
Proof.
  unfold pushRow. cbn [List.filter]. destruct (keepRow row); [reflexivity |].
  symmetry. apply app_nil_r.
Qed.

Lemma joinQuoted_head fields :
  fields <> [] -> exists rest, joinQuoted fields = dquote :: rest.
Proof.
  destruct fields as [| f [| g more]]; [congruence | |]; intros _; eexists; reflexivity.
Qed.

(** The fields of a row, up to its line ending. *)
Lemma parse_joined_fields fields :
  fields <> [] ->
  forall tail rows row,
    closesQuote tail ->
    parseCsvLoop (joinQuoted fields ++ tail) rows row [] false
    = parseCsvLoop tail rows (row ++ removelast fields) (List.last fields []) false.
Proof.
  induction fields as [| f more IH]; intros Hne tail rows row Htail; [congruence |].
  destruct more as [| g more'].
  - cbn [joinQuoted removelast List.last]. rewrite app_nil_r.
    apply parse_quoted_field. exact Htail.
  - change (joinQuoted (f :: g :: more'))
      with (quoted f ++ comma :: joinQuoted (g :: more')).
    rewrite <- app_assoc. rewrite parse_quoted_field by (simpl; discriminate).
    change ((comma :: joinQuoted (g :: more')) ++ tail)
      with (comma :: (joinQuoted (g :: more') ++ tail)).
    cbn [parseCsvLoop]. change (comma =? dquote) with false. cbv iota.
    rewrite N.eqb_refl. cbn [andb negb].
    rewrite IH by (discriminate || exact Htail).
    change (removelast (f :: g :: more')) with (f :: removelast (g :: more')).
    change (List.last (f :: g :: more') []) with (List.last (g :: more') []).
    rewrite <- app_assoc. reflexivity.
Qed.

Lemma parse_ending ending rest rows row field :
  noLineFeedAhead rest ->
  parseCsvLoop (endingText ending ++ rest) rows row field false
  = parseCsvLoop rest (pushRow rows (row ++ [field])) [] [] false.
Proof.
  intros Hrest. destruct ending; cbn [endingText app parseCsvLoop].
  - change (LF =? dquote) with false. change (LF =? comma) with false.
    change (LF =? LF) with true. change (LF =? CR) with false.
    cbn [andb orb negb]. destruct rest; reflexivity.
  - change (CR =? dquote) with false. change (CR =? comma) with false.
    change (CR =? LF) with false. change (CR =? CR) with true.
    cbn [andb orb negb].
    destruct rest as [| c rest]; [reflexivity |].
    cbn in Hrest. apply N.eqb_neq in Hrest. rewrite Hrest. reflexivity.
  - change (CR =? dquote) with false. change (CR =? comma) with false.
    change (CR =? LF) with false. change (CR =? CR) with true.
    change (LF =? LF) with true. cbn [andb orb negb]. reflexivity.
Qed.

Lemma ending_closesQuote ending rest : closesQuote (endingText ending ++ rest).
Proof. destruct ending; cbn; discriminate. Qed.

Lemma parse_line fields ending rest rows :
  fields <> [] -> noLineFeedAhead rest ->
  parseCsvLoop (joinQuoted fields ++ endingText ending ++ rest) rows [] [] false
  = parseCsvLoop rest (rows ++ List.filter keepRow [fields]) [] [] false.
Proof.
  intros Hne Hrest.
  rewrite parse_joined_fields by (exact Hne || apply ending_closesQuote).
  rewrite parse_ending by exact Hrest. cbn [app].
  rewrite <- (app_removelast_last [] Hne). apply f_equal4; try reflexivity.
  apply pushRow_filter.
Qed.

Lemma parse_last_line fields rows :
  parseCsvLoop (joinQuoted fields) rows [] [] false
  = rows ++ List.filter keepRow [fields].
Proof.
  destruct fields as [| f more] eqn:Hfields.
  - cbn. symmetry. apply app_nil_r.
  - rewrite <- Hfields. assert (Hne : fields <> []) by (rewrite Hfields; discriminate).
    rewrite <- (app_nil_r (joinQuoted fields)).
    rewrite parse_joined_fields by (exact Hne || exact I).
    cbn [parseCsvLoop app].
    destruct (truthy (List.last fields []) || (0 <? length (removelast fields))%nat) eqn:Hsome.
    + rewrite <- (app_removelast_last [] Hne). apply pushRow_filter.
    + apply orb_false_iff in Hsome. destruct Hsome as [Hlast Hfront].
      destruct (removelast fields) as [| x front] eqn:Hshape; [| discriminate].
      rewrite (app_removelast_last [] Hne), Hshape. cbn [app List.filter].
      destruct (List.last fields []); [| discriminate].
      cbn. symmetry. apply app_nil_r.
Qed.

Lemma quoted_text_ahead lines final :
  Forall (fun line => line.1 <> []) lines ->
  noLineFeedAhead (quotedText lines ++ joinQuoted final).
Proof.
  intros Hlines. destruct lines as [| [fields ending] more].
  - cbn. destruct final as [| f [| g more]]; cbn; try exact I; discriminate.
  - apply Forall_cons in Hlines. destruct Hlines as [Hne _]. cbn in Hne.
    destruct (joinQuoted_head fields Hne) as (rest & Hhead).
    unfold quotedText. cbn [List.map concat fst]. rewrite Hhead. cbn. discriminate.
Qed.

Lemma parse_quoted_text lines :
  forall final rows,
    Forall (fun line => line.1 <> []) lines ->
    parseCsvLoop (quotedText lines ++ joinQuoted final) rows [] [] false
    = rows ++ List.filter keepRow (List.map fst lines ++ [final]).
Proof.
  induction lines as [| [fields ending] more IH]; intros final rows Hlines.
  - cbn [quotedText List.map concat app]. apply parse_last_line.
  - apply Forall_cons in Hlines. destruct Hlines as [Hne Hmore]. cbn [fst] in Hne.
    change (quotedText ((fields, ending) :: more))
      with ((joinQuoted fields ++ endingText ending) ++ quotedText more).
    rewrite <- !app_assoc.
    rewrite parse_line by (exact Hne || apply quoted_text_ahead; exact Hmore).
    rewrite IH by exact Hmore.
    cbn [List.map fst app]. rewrite <- app_assoc. f_equal.
    symmetry. apply (List.filter_app keepRow [fields] (List.map fst more ++ [final])).
Qed.

(** Whatever the text, no row that comes out is blank. *)
Lemma parseCsvLoop_kept n :
  forall content rows row field inQuotes,
    (length content <= n)%nat ->
    Forall (fun r => keepRow r = true) rows ->
    Forall (fun r => keepRow r = true) (parseCsvLoop content rows row field inQuotes).
Proof.
  assert (Hpush : forall rows row,
             Forall (fun r => keepRow r = true) rows ->
             Forall (fun r => keepRow r = true) (pushRow rows row)).
  { intros rows row Hrows. unfold pushRow. destruct (keepRow row) eqn:Hrow; [| exact Hrows].
    apply Forall_app. split; [exact Hrows |]. constructor; [exact Hrow | constructor]. }
  induction n as [| n IH]; intros content rows row field inQuotes Hlen Hrows.
  - destruct content; [| cbn in Hlen; lia]. cbn [parseCsvLoop].
    destruct (truthy field || (0 <? length row)%nat); [apply Hpush |]; exact Hrows.
  - destruct content as [| char rest].
    { cbn [parseCsvLoop].
      destruct (truthy field || (0 <? length row)%nat); [apply Hpush |]; exact Hrows. }
    cbn [length] in Hlen. cbn [parseCsvLoop].
    destruct (char =? dquote).
    { destruct rest as [| nextChar rest']; [apply IH; [cbn; lia | exact Hrows] |].
      cbn [length] in Hlen.
      destruct (inQuotes && (nextChar =? dquote)); apply IH; cbn [length]; (lia || exact Hrows). }
    destruct ((char =? comma) && negb inQuotes); [apply IH; [lia | exact Hrows] |].
    destruct (((char =? LF) || (char =? CR)) && negb inQuotes);
      [| apply IH; [lia | exact Hrows]].
    destruct rest as [| nextChar rest']; [apply IH; [cbn; lia | apply Hpush; exact Hrows] |].
    cbn [length] in Hlen.
    destruct ((char =? CR) && (nextChar =? LF)); apply IH; cbn [length];
      (lia || (apply Hpush; exact Hrows)).
Qed.

End SheetFacts.

(** X22.  [parseCsvContent] reads quoted CSV text whatever its line
    endings.  Rows written with every field between double quotes,
    commas in between, each row closed by a line feed, a carriage
    return or both, and a last row that may go without, come back as
    they were written, commas, quotes and line breaks inside the
    fields included, except for the rows that have no field or only
    blank ones, which are left out. *)
Theorem parseCsvContent_reads_quoted_text
        (lines : list (list jsstring * Ending)) (final : list jsstring) :
  Forall (fun line => line.1 <> []) lines ->
  parseCsvContent (quotedText lines ++ joinQuoted final)
  = List.filter keepRow (List.map fst lines ++ [final]).
Proof.
  intros Hlines. unfold parseCsvContent.
  rewrite parse_quoted_text by exact Hlines. reflexivity.
Qed.

Lemma parseCsvContent_reads_quoted_text_witness :
  parseCsvContent (quotedText sampleLines ++ joinQuoted [lit "x"])
  = List.filter keepRow (List.map fst sampleLines ++ [[lit "x"]]).
Proof.
  apply (parseCsvContent_reads_quoted_text sampleLines [lit "x"]).
  repeat constructor; discriminate.
Defined.

(** X23.  Whatever text it is given, [parseCsvContent] returns no
    blank row: every row has a field, and a field that is more than
    white space. *)
Theorem parseCsvContent_skips_blank_rows (content : jsstring) (row : list jsstring) :
  In row (parseCsvContent content) ->
  row <> [] /\ exists field, In field row /\ trim field <> [].
Proof.
  intros Hin.
  assert (Hkept : Forall (fun r => keepRow r = true) (parseCsvContent content)).
  { unfold parseCsvContent. apply (parseCsvLoop_kept (length content)); [lia | constructor]. }
  rewrite Forall_forall in Hkept. apply list_elem_of_In in Hin.
  specialize (Hkept row Hin).
  unfold keepRow in Hkept. apply andb_true_iff in Hkept. destruct Hkept as [Hsome Hink].
  split; [destruct row; [discriminate | discriminate] |].
  apply existsb_exists in Hink. destruct Hink as (field & Hfield & Htruthy).
  exists field. split; [exact Hfield |]. destruct (trim field); [discriminate | discriminate].
Qed.

Lemma parseCsvContent_skips_blank_rows_witness :
  [lit "a"; lit "b"] <> []
  /\ exists field, In field [lit "a"; lit "b"] /\ trim field <> [].
Proof.
  apply (parseCsvContent_skips_blank_rows sampleSheet [lit "a"; lit "b"]).
  vm_compute. left. reflexivity.
Defined.

(** ** The two parsers on one line *)

Section ParserAgreement.

Lemma breakFree_tail c line : breakFree (c :: line) -> c <> LF /\ c <> CR /\ breakFree line.
Proof.
  intros [Hlf Hcr]. repeat split.
  - intros ->. apply Hlf. left.
  - intros ->. apply Hcr. left.
  - intros Hin. apply Hlf. right. exact Hin.
  - intros Hin. apply Hcr. right. exact Hin.
Qed.

Lemma parsers_agree_bounded n :
  forall line rows row field inQuotes,
    (length line <= n)%nat -> breakFree line ->
    parseCsvLoop line rows row field inQuotes
    = if truthy (List.last (parseCsvLineLoop line row field inQuotes) [])
         || (1 <? length (parseCsvLineLoop line row field inQuotes))%nat
      then pushRow rows (parseCsvLineLoop line row field inQuotes)
      else rows.
Proof.
  assert (Hend : forall (row : list jsstring) field,
             List.last (row ++ [field]) [] = field
             /\ (1 <? length (row ++ [field]))%nat = (0 <? length row)%nat).
  { intros row field. split; [apply last_last |].
    rewrite length_app, Nat.add_1_r. reflexivity. }
  induction n as [| n IH]; intros line rows row field inQuotes Hlen Hfree.
  - destruct line; [| cbn in Hlen; lia]. cbn [parseCsvLoop parseCsvLineLoop].
    destruct (Hend row field) as [-> ->]. reflexivity.
  - destruct line as [| char rest].
    { cbn [parseCsvLoop parseCsvLineLoop]. destruct (Hend row field) as [-> ->]. reflexivity. }
    cbn [length] in Hlen. apply breakFree_tail in Hfree.
    destruct Hfree as (Hlf & Hcr & Hfree).
    cbn [parseCsvLoop parseCsvLineLoop].
    destruct (char =? dquote).
    { destruct rest as [| nextChar rest']; [apply IH; [cbn; lia | exact Hfree] |].
      cbn [length] in Hlen.
      destruct (inQuotes && (nextChar =? dquote)).
      - apply IH; [lia |]. apply breakFree_tail in Hfree. tauto.
      - apply IH; [cbn [length]; lia | exact Hfree]. }
    destruct ((char =? comma) && negb inQuotes); [apply IH; [lia | exact Hfree] |].
    apply N.eqb_neq in Hlf, Hcr. rewrite Hlf, Hcr. cbn [orb andb].
    apply IH; [lia | exact Hfree].
Qed.

End ParserAgreement.

(** X24.  The two parsers agree on a line.  On a text without a line
    feed or carriage return, [parseCsvContent] returns the one row
    that [parseCsvLine] makes of it, or no row at all when that row is
    blank. *)
Theorem line_parsers_agree (line : jsstring) :
  LF ∉ line -> CR ∉ line ->
  parseCsvContent line = List.filter keepRow [parseCsvLine line].
Proof.
  intros Hlf Hcr. unfold parseCsvContent, parseCsvLine.
  rewrite (parsers_agree_bounded (length line)) by (lia || split; assumption).
  rewrite pushRow_filter. cbn [app].
  destruct (truthy (List.last (parseCsvLineLoop line [] [] false) [])
            || (1 <? length (parseCsvLineLoop line [] [] false))%nat) eqn:Hsome;
    [reflexivity |].
  apply orb_false_iff in Hsome. destruct Hsome as [Hlast Hshort].
  pose proof (parseCsvLineLoop_nonempty (length line) line [] [] false) as Hne.
  destruct (parseCsvLineLoop line [] [] false) as [| f [| g more]] eqn:Hrow.
  - exfalso. apply Hne; [lia | reflexivity].
  - cbn in Hlast. destruct f; [reflexivity | discriminate].
  - cbn in Hshort. discriminate.
Qed.

Lemma line_parsers_agree_witness :
  parseCsvContent (lit "a,b") = List.filter keepRow [parseCsvLine (lit "a,b")].
Proof.
  apply (line_parsers_agree (lit "a,b"));
    refine (bool_decide_unpack _ _); vm_compute; exact I.
Defined.

(** ** Contact data in a text *)

Section ContactFacts.
Import Contacts.

Lemma matchAll_skip matchAt (s : jsstring) :
  forall skip, matchAll matchAt skip s = matchAll matchAt O (drop skip s).
Proof.
  induction s as [| c t IH]; intros [| skip]; try reflexivity.
  cbn [matchAll drop]. apply IH.
Qed.

(** Every match is a piece of the text, and is what [matchAt] took. *)
Lemma matchAll_pieces matchAt (P : jsstring -> Prop) :
  (forall s n, matchAt s = Some n -> P (take n s) /\ (n <= length s)%nat) ->
  forall n s found,
    (length s <= n)%nat ->
    In found (matchAll matchAt O s) ->
    P found /\ exists before after, s = before ++ found ++ after.
Proof.
  intros Hat. induction n as [| n IH]; intros s found Hlen Hin.
  - destruct s; [destruct Hin | cbn in Hlen; lia].
  - destruct s as [| c t]; [destruct Hin |]. cbn [length] in Hlen.
    cbn [matchAll] in Hin.
    destruct (matchAt (c :: t)) as [k |] eqn:Hmatch.
    + destruct Hin as [<- | Hin].
      * destruct (Hat _ _ Hmatch) as [HP _]. split; [exact HP |].
        exists [], (drop k (c :: t)). cbn [app]. symmetry. apply take_drop.
      * rewrite matchAll_skip in Hin.
        destruct (IH (drop (Nat.pred k) t) found) as [HP (before & after & Hsplit)];
          [rewrite length_drop; lia | exact Hin |].
        split; [exact HP |].
        exists (c :: take (Nat.pred k) t ++ before), after.
        cbn [app]. rewrite <- app_assoc, <- Hsplit, take_drop. reflexivity.
    + destruct (IH t found) as [HP (before & after & Hsplit)]; [lia | exact Hin |].
      split; [exact HP |]. exists (c :: before), after. rewrite Hsplit. reflexivity.
Qed.

Lemma runLength_le p (s : jsstring) : (runLength p s <= length s)%nat.
Proof.
  induction s as [| c s IH]; [cbn; lia |]. cbn [runLength length].
  destruct (p c); lia.
Qed.

Lemma take_run p (s : jsstring) k :
  (k <= runLength p s)%nat -> forallb p (take k s) = true /\ length (take k s) = k.
Proof.
  revert k. induction s as [| c s IH]; intros k Hk.
  - cbn in Hk. replace k with 0%nat by lia. split; reflexivity.
  - destruct k as [| k]; [split; reflexivity |]. cbn [runLength] in Hk.
    destruct (p c) eqn:Hc; [| lia].
    destruct (IH k) as [Hall Hlen]; [lia |].
    cbn [take forallb length]. rewrite Hc, Hall, Hlen. split; reflexivity.
Qed.

Lemma digitsThenHyphen_split s a :
  digitsThenHyphen s = Some a ->
  s = take a s ++ 45 :: drop (S a) s
  /\ forallb isDigit (take a s) = true
  /\ length (take a s) = a /\ (1 <= a <= 4)%nat.
Proof.
  unfold digitsThenHyphen. set (run := runLength isDigit s).
  destruct ((1 <=? run)%nat && (run <=? 4)%nat) eqn:Hrange; [| discriminate].
  cbn [andb]. apply andb_true_iff in Hrange. destruct Hrange as [Hlo Hhi].
  apply Nat.leb_le in Hlo, Hhi.
  destruct (drop run s) as [| c rest] eqn:Hrest; [discriminate |].
  destruct (c =? 45) eqn:Hc; [| discriminate]. intros [= <-].
  apply N.eqb_eq in Hc. subst c.
  destruct (take_run isDigit s run) as [Hall Hlen]; [subst run; lia |].
  repeat split; try assumption.
  transitivity (take run s ++ drop run s); [symmetry; apply take_drop |].
  f_equal. rewrite Hrest. f_equal.
  replace (S run) with (run + 1)%nat by lia. rewrite <- drop_drop, Hrest. reflexivity.
Qed.

Lemma matchPhone_shape s n :
  matchPhone s = Some n -> PhoneShaped (take n s) /\ (n <= length s)%nat.
Proof.
  unfold matchPhone. destruct s as [| c t]; [discriminate |].
  destruct (c =? 48) eqn:Hc; [| discriminate]. apply N.eqb_eq in Hc. subst c.
  destruct (digitsThenHyphen t) as [a |] eqn:Ha; [| discriminate].
  destruct (digitsThenHyphen (drop (S a) t)) as [b |] eqn:Hb; [| discriminate].
  set (rest := drop (S b) (drop (S a) t)).
  destruct (3 <=? runLength isDigit rest)%nat eqn:Hrun; [| discriminate].
  apply Nat.leb_le in Hrun. intros [= Hn].
  destruct (digitsThenHyphen_split _ _ Ha) as (Hsplit_a & Hall_a & Hlen_a & Hrange_a).
  destruct (digitsThenHyphen_split _ _ Hb) as (Hsplit_b & Hall_b & Hlen_b & Hrange_b).
  fold rest in Hsplit_b.
  set (k := Nat.min (runLength isDigit rest) 4).
  destruct (take_run isDigit rest k) as [Hall_c Hlen_c]; [subst k; lia |].
  pose proof (runLength_le isDigit rest) as Hrest_len.
  assert (Htext : 48 :: t
                  = (48 :: take a t ++ 45 :: take b (drop (S a) t) ++ 45 :: take k rest)
                      ++ drop k rest).
  { cbn [app]. f_equal. rewrite <- !app_assoc. cbn [app]. rewrite <- !app_assoc. cbn [app].
    rewrite take_drop, <- Hsplit_b, <- Hsplit_a. reflexivity. }
  assert (Hlen : length (48 :: take a t ++ 45 :: take b (drop (S a) t) ++ 45 :: take k rest)
                 = (1 + a + 1 + b + 1 + k)%nat).
  { cbn [length]. rewrite !length_app. cbn [length]. rewrite length_app. cbn [length].
    rewrite Hlen_a, Hlen_b, Hlen_c. lia. }
  assert (Hsize : n = length (48 :: take a t ++ 45 :: take b (drop (S a) t)
                                ++ 45 :: take k rest))
    by (rewrite Hlen; subst k; lia).
  split.
  - rewrite Hsize. rewrite Htext at 1. rewrite take_app_length.
    exists (take a t), (take b (drop (S a) t)), (take k rest).
    split; [reflexivity |]. rewrite !forallb_app, Hall_a, Hall_b, Hall_c.
    rewrite Hlen_a, Hlen_b, Hlen_c. repeat split; try lia.
  - rewrite Hsize. rewrite Htext at 1. rewrite length_app. lia.
Qed.

Lemma matchDomain_shape s :
  forall k n,
    matchDomain k s = Some n ->
    exists domain tld,
      take n s = domain ++ 46 :: tld
      /\ (n <= length s)%nat
      /\ (1 <= k + length domain)%nat
      /\ forallb isDomainChar domain = true
      /\ (2 <= length tld)%nat /\ forallb isLetter tld = true.
Proof.
  induction s as [| c t IH]; intros k n Hmatch; [discriminate |].
  cbn [matchDomain] in Hmatch.
  destruct (isDomainChar c) eqn:Hc; [| discriminate].
  destruct (matchDomain (S k) t) as [m |] eqn:Hlater.
  - injection Hmatch as <-.
    destruct (IH _ _ Hlater) as (domain & tld & Htake & Hlen & Hsome & Hall & Htld & Hletters).
    exists (c :: domain), tld. cbn [take app length forallb]. rewrite Htake, Hc, Hall.
    repeat split; try assumption; lia.
  - destruct ((c =? 46) && (1 <=? k)%nat && (2 <=? runLength isLetter t)%nat) eqn:Hhere;
      [| discriminate].
    injection Hmatch as <-.
    apply andb_true_iff in Hhere. destruct Hhere as [Hhere Hrun].
    apply andb_true_iff in Hhere. destruct Hhere as [Hdot Hk].
    apply N.eqb_eq in Hdot. subst c. apply Nat.leb_le in Hk, Hrun.
    destruct (take_run isLetter t (runLength isLetter t)) as [Hall Hlen]; [lia |].
    pose proof (runLength_le isLetter t) as Hle.
    exists [], (take (runLength isLetter t) t). cbn [take app length forallb].
    repeat split; try assumption; lia.
Qed.

Lemma matchEmail_shape s n :
  matchEmail s = Some n -> EmailShaped (take n s) /\ (n <= length s)%nat.
Proof.
  unfold matchEmail. set (run := runLength isLocalChar s).
  destruct (1 <=? run)%nat eqn:Hrun; [| discriminate]. apply Nat.leb_le in Hrun.
  destruct (drop run s) as [| c t] eqn:Hrest; [discriminate |].
  destruct (c =? 64) eqn:Hc; [| discriminate]. apply N.eqb_eq in Hc. subst c.
  destruct (matchDomain 0 t) as [m |] eqn:Hdomain; [| discriminate].
  intros [= Hn].
  destruct (matchDomain_shape _ _ _ Hdomain)
    as (domain & tld & Htake & Hlen & Hsome & Hall & Htld & Hletters).
  destruct (take_run isLocalChar s run) as [Hlocal Hlocal_len]; [subst run; lia |].
  assert (Htext : s = (take run s ++ 64 :: take m t) ++ drop m t).
  { rewrite <- app_assoc. cbn [app]. rewrite take_drop, <- Hrest, take_drop. reflexivity. }
  assert (Hsize : length (take run s ++ 64 :: take m t) = (run + 1 + m)%nat).
  { rewrite length_app. cbn [length]. rewrite Hlocal_len, length_take. lia. }
  assert (Htaken : take n s = take run s ++ 64 :: take m t).
  { rewrite <- Hn, <- Hsize.
    transitivity (take (length (take run s ++ 64 :: take m t))
                    ((take run s ++ 64 :: take m t) ++ drop m t));
      [f_equal; exact Htext | apply take_app_length]. }
  split.
  - rewrite Htaken. exists (take run s), domain, tld. rewrite Htake.
    repeat split; try assumption.
    + intros Hnil. rewrite Hnil in Hlocal_len. cbn in Hlocal_len. lia.
    + intros ->. cbn in Hsome. lia.
  - apply (f_equal length) in Htext. rewrite length_app, Hsize in Htext. lia.
Qed.

End ContactFacts.

(** X25.  What [extractContactInfo] takes from a text.  Every phone
    number it returns is a piece of the text of the form of a zero,
    one to four digits, a hyphen, one to four digits, a hyphen and
    three or four digits.  Every mail address it returns is a piece of
    the text made of a local part, an at sign, a domain, a dot and two
    letters or more.  Nothing else is returned. *)
Theorem extractContactInfo_shapes (text : jsstring) :
  (forall phone,
      In phone (Contacts.extractContactInfo text).1 ->
      Contacts.PhoneShaped phone /\ exists before after, text = before ++ phone ++ after)
  /\ (forall email,
         In email (Contacts.extractContactInfo text).2 ->
         Contacts.EmailShaped email /\ exists before after, text = before ++ email ++ after).
Proof.
  split; intros found Hin.
  - apply (matchAll_pieces Contacts.matchPhone Contacts.PhoneShaped matchPhone_shape
             (length text)); [lia | exact Hin].
  - apply (matchAll_pieces Contacts.matchEmail Contacts.EmailShaped matchEmail_shape
             (length text)); [lia | exact Hin].
Qed.

(** ** Contact data of the second scraper *)

Section RikunabiContactFacts.
Import Contacts RikunabiContact.

Lemma printable_not_space c : (33 <= c)%N -> (c <= 126)%N -> isWhiteSpace c = false.
Proof.
  intros Hlo Hhi. unfold isWhiteSpace.
  repeat (apply orb_false_iff; split); try (apply N.eqb_neq; lia).
  apply andb_false_iff. left. apply N.leb_gt. lia.
Qed.

Lemma trim_ink (s : jsstring) :
  forallb (fun c => negb (isWhiteSpace c)) s = true -> trim s = s.
Proof.
  intros Hink. destruct s as [| c s]; [reflexivity |].
  pose proof Hink as Hall. cbn [forallb] in Hink. apply andb_true_iff in Hink.
  destruct Hink as [Hc _]. apply negb_true_iff in Hc.
  unfold trim, trimStart. cbn [skipWhile]. rewrite Hc.
  unfold trimEnd.
  destruct (rev (c :: s)) as [| d r] eqn:Hrev.
  { apply (f_equal (@rev N)) in Hrev. rewrite rev_involutive in Hrev. discriminate. }
  assert (Hd : isWhiteSpace d = false).
  { apply negb_true_iff.
    rewrite forallb_forall in Hall. apply Hall.
    apply in_rev. rewrite Hrev. left. reflexivity. }
  cbn [skipWhile]. rewrite Hd, <- Hrev. apply rev_involutive.
Qed.

Lemma forallb_weaken (p q : N -> bool) (s : jsstring) :
  (forall c, p c = true -> q c = true) -> forallb p s = true -> forallb q s = true.
Proof.
  intros Hpq. induction s as [| c s IH]; [reflexivity |]. cbn [forallb].
  intros H. apply andb_true_iff in H. destruct H as [Hc Hs].
  rewrite (Hpq c Hc), IH by exact Hs. reflexivity.
Qed.

Ltac in_range :=
  repeat match goal with
    | H : _ || _ = true |- _ => apply orb_true_iff in H; destruct H as [H | H]
    | H : _ && _ = true |- _ => apply andb_true_iff in H; destruct H
    | H : (_ <=? _)%N = true |- _ => apply N.leb_le in H
    | H : (_ =? _)%N = true |- _ => apply N.eqb_eq in H
    end.

Lemma digitOrHyphen_ink c : isDigitOrHyphen c = true -> negb (isWhiteSpace c) = true.
Proof.
  unfold isDigitOrHyphen, isDigit. intros H. apply negb_true_iff.
  in_range; apply printable_not_space; lia.
Qed.

Lemma localChar_ink c : isLocalChar c = true -> negb (isWhiteSpace c) = true.
Proof.
  unfold isLocalChar, isLetter, isDigit. intros H. apply negb_true_iff.
  in_range; apply printable_not_space; lia.
Qed.

Lemma domainChar_ink c : isDomainChar c = true -> negb (isWhiteSpace c) = true.
Proof.
  unfold isDomainChar, isLetter, isDigit. intros H. apply negb_true_iff.
  in_range; apply printable_not_space; lia.
Qed.

Lemma letter_ink c : isLetter c = true -> negb (isWhiteSpace c) = true.
Proof.
  unfold isLetter. intros H. apply negb_true_iff.
  in_range; apply printable_not_space; lia.
Qed.

Lemma EmailShaped_trim email : EmailShaped email -> trim email = email.
Proof.
  intros (localPart & domain & tld & -> & _ & Hlocal & _ & Hdomain & _ & Htld).
  apply trim_ink. rewrite forallb_app. cbn [forallb]. rewrite forallb_app. cbn [forallb].
  rewrite (forallb_weaken _ _ _ localChar_ink Hlocal),
    (forallb_weaken _ _ _ domainChar_ink Hdomain),
    (forallb_weaken _ _ _ letter_ink Htld).
  reflexivity.
Qed.

Lemma PhoneShaped_digits phone : PhoneShaped phone -> forallb isDigitOrHyphen phone = true.
Proof.
  intros (a & b & c & -> & Hdigits & _).
  rewrite !forallb_app in Hdigits.
  apply andb_true_iff in Hdigits. destruct Hdigits as [Ha Hbc].
  apply andb_true_iff in Hbc. destruct Hbc as [Hb Hc].
  assert (Hweak : forall d, isDigit d = true -> isDigitOrHyphen d = true).
  { intros d Hd. unfold isDigitOrHyphen. rewrite Hd. reflexivity. }
  cbn [forallb]. rewrite forallb_app. cbn [forallb]. rewrite forallb_app. cbn [forallb].
  rewrite (forallb_weaken _ _ _ Hweak Ha), (forallb_weaken _ _ _ Hweak Hb),
    (forallb_weaken _ _ _ Hweak Hc).
  reflexivity.
Qed.

Lemma firstMatch_found {A : Type} (matchAt : jsstring -> option A) (P : A -> Prop) :
  (forall s found, matchAt s = Some found -> P found) ->
  forall s found, firstMatch matchAt s = Some found -> P found.
Proof.
  intros Hat. induction s as [| c s IH]; intros found Hfound; cbn [firstMatch] in Hfound.
  - destruct (matchAt []) eqn:Hhere; [| discriminate].
    injection Hfound as <-. eapply Hat. exact Hhere.
  - destruct (matchAt (c :: s)) eqn:Hhere.
    + injection Hfound as <-. eapply Hat. exact Hhere.
    + apply IH. exact Hfound.
Qed.

Lemma labelled_phone_digits s found :
  matchLabelledPhone s = Some found -> forallb isDigitOrHyphen found = true.
Proof.
  unfold matchLabelledPhone. destruct (startsWith TEL_LABEL s); [| discriminate].
  set (after := skipWhile isWhiteSpace (drop (length TEL_LABEL) s)).
  destruct (runLength isDigitOrHyphen after) as [| run] eqn:Hrun; [discriminate |].
  intros [= <-]. apply take_run. lia.
Qed.

Lemma labelled_email_shaped s found :
  matchLabelledEmail s = Some found -> EmailShaped found.
Proof.
  unfold matchLabelledEmail. destruct (startsWith MAIL_LABEL s); [| discriminate].
  set (after := skipWhile isWhiteSpace (drop (length MAIL_LABEL) s)).
  destruct (matchEmail after) as [n |] eqn:Hmatch; [| discriminate].
  intros [= <-]. apply matchEmail_shape. exact Hmatch.
Qed.

Lemma whole_phone s found : whole matchPhone s = Some found -> PhoneShaped found.
Proof.
  unfold whole. destruct (matchPhone s) as [n |] eqn:Hmatch; [| discriminate].
  intros [= <-]. apply matchPhone_shape. exact Hmatch.
Qed.

Lemma whole_email s found : whole matchEmail s = Some found -> EmailShaped found.
Proof.
  unfold whole. destruct (matchEmail s) as [n |] eqn:Hmatch; [| discriminate].
  intros [= <-]. apply matchEmail_shape. exact Hmatch.
Qed.

(** The two facts about the contact data, for use in the crawl. *)
Lemma rikunabi_contact_facts (data : option (jsstring * jsstring)) :
  forallb isDigitOrHyphen (extractContactInfo data).1 = true
  /\ ((extractContactInfo data).2 = [] \/ EmailShaped (extractContactInfo data).2).
Proof.
  split.
  - unfold extractContactInfo.
    destruct data as [[html text] |]; [| reflexivity].
    destruct (negb (truthy html) && negb (truthy text)); [reflexivity |]. cbn [fst].
    set (cleaned := cleanText (orElse html text)).
    destruct (firstMatch matchLabelledPhone cleaned) as [labelled |] eqn:Hlabel.
    + pose proof (firstMatch_found _ _ labelled_phone_digits _ _ Hlabel) as Hdigits.
      cbn [default from_option]. change (id labelled) with labelled.
      rewrite (trim_ink labelled)
        by (eapply forallb_weaken; [apply digitOrHyphen_ink | exact Hdigits]).
      destruct (negb (truthy labelled)) eqn:Hempty; [| exact Hdigits].
      destruct (firstMatch (whole matchPhone) cleaned) as [found |] eqn:Hfound;
        [| reflexivity].
      apply PhoneShaped_digits. exact (firstMatch_found _ _ whole_phone _ _ Hfound).
    + cbn [default from_option]. change (trim []) with (@nil N). cbn [truthy negb].
      destruct (firstMatch (whole matchPhone) cleaned) as [found |] eqn:Hfound;
        [| reflexivity].
      apply PhoneShaped_digits. exact (firstMatch_found _ _ whole_phone _ _ Hfound).
  - unfold extractContactInfo.
    destruct data as [[html text] |]; [| left; reflexivity].
    destruct (negb (truthy html) && negb (truthy text)); [left; reflexivity |]. cbn [snd].
    set (cleaned := cleanText (orElse html text)).
    destruct (firstMatch matchLabelledEmail cleaned) as [labelled |] eqn:Hlabel.
    + pose proof (firstMatch_found _ _ labelled_email_shaped _ _ Hlabel) as Hshape.
      cbn [default from_option]. change (id labelled) with labelled.
      rewrite (EmailShaped_trim labelled Hshape).
      destruct (negb (truthy labelled)) eqn:Hempty; [| right; exact Hshape].
      destruct (firstMatch (whole matchEmail) cleaned) as [found |] eqn:Hfound;
        [| left; reflexivity].
      right. exact (firstMatch_found _ _ whole_email _ _ Hfound).
    + cbn [default from_option]. change (trim []) with (@nil N). cbn [truthy negb].
      destruct (firstMatch (whole matchEmail) cleaned) as [found |] eqn:Hfound;
        [| left; reflexivity].
      right. exact (firstMatch_found _ _ whole_email _ _ Hfound).
Qed.

End RikunabiContactFacts.

(** X26.  The contact data the second scraper takes from a company
    page.  Whatever the page holds, the phone number returned is empty
    or made of digits and hyphens only, and the mail address returned
    is empty or a local part, an at sign, a domain, a dot and two
    letters or more.  Without the contact block both are empty. *)
Theorem rikunabi_contact_shapes (data : option (jsstring * jsstring)) :
  forallb RikunabiContact.isDigitOrHyphen (RikunabiContact.extractContactInfo data).1 = true
  /\ ((RikunabiContact.extractContactInfo data).2 = []
      \/ Contacts.EmailShaped (RikunabiContact.extractContactInfo data).2)
  /\ RikunabiContact.extractContactInfo None = ([], []).
Proof.
  destruct (rikunabi_contact_facts data) as [Hphone Hemail].
  split; [exact Hphone |]. split; [exact Hemail | reflexivity].
Qed.

(** ** The crawl of the second scraper *)

Section RikunabiCrawlFacts.
Import Rikunabi RikunabiContact RikunabiCrawl.
Context {W : Type} {host : Host W} {page : Page W}.
Implicit Types m : Machine W.

Lemma Logged_refl m : Logged m m [].
Proof. exists []. cbn. rewrite !app_nil_r. repeat split. Qed.

Lemma Logged_trans m m1 m2 first second :
  Logged m m1 first -> Logged m1 m2 second -> Logged m m2 (first ++ second).
Proof.
  intros (e1 & Ht1 & Ha1 & Hf1) (e2 & Ht2 & Ha2 & Hf2).
  exists (e1 ++ e2). rewrite Ht2, Ht1, <- app_assoc. split; [reflexivity |].
  rewrite appendedLines_app, Ha1, Ha2, map_app, concat_app. split; [reflexivity |].
  rewrite Hf2, Hf1, <- app_assoc. reflexivity.
Qed.

Lemma Quiet_Logged m m' : Quiet m m' -> Logged m m' [].
Proof.
  intros (events & Htrace & _ & Hnone & Hfile). exists events. cbn.
  rewrite app_nil_r. repeat split; assumption.
Qed.

Lemma Logged_quiet m m1 m2 records :
  Logged m m1 records -> Quiet m1 m2 -> Logged m m2 records.
Proof.
  intros Hlogged Hquiet. rewrite <- (app_nil_r records).
  eapply Logged_trans; [exact Hlogged | apply Quiet_Logged; exact Hquiet].
Qed.

Lemma appendCsvRecord_logged record gasConfig m :
  Logged m (RikunabiCrawl.appendCsvRecord record gasConfig m) [record].
Proof.
  unfold RikunabiCrawl.appendCsvRecord.
  assert (Hline : Logged m (appendFileSync (RikunabiCrawl.csvLine record) m) [record]).
  { exists [EvAppendCsv (RikunabiCrawl.csvLine record)]. cbn. rewrite app_nil_r.
    repeat split. }
  destruct gasConfig as [gas |]; [| exact Hline].
  destruct (postRowToGas_shape gas (RikunabiCrawl.csvRow record)
              (appendFileSync (RikunabiCrawl.csvLine record) m))
    as (relay & Htrace & Hrelay & Hfile & _).
  destruct (relay_quiet isLoopTop None relay Hrelay) as [Hpauses Hnone].
  eapply Logged_quiet; [exact Hline |].
  destruct (postRowToGas gas _ _) as [[resp | err] m2]; cbn [snd] in *;
    (apply Quiet_emit; [reflexivity | reflexivity |]);
    exists relay; repeat split; assumption.
Qed.

Lemma contact_record_wellformed link data :
  truthy (name link) = true -> companyUrlPattern (url link) = true ->
  WellFormed
    {| RikunabiCrawl.companyName := name link;
       RikunabiCrawl.phone := orElse (RikunabiContact.extractContactInfo data).1 FAILED;
       RikunabiCrawl.email := orElse (RikunabiContact.extractContactInfo data).2 FAILED;
       RikunabiCrawl.sourceUrl := url link |}.
Proof.
  intros Hname Hurl. unfold WellFormed.
  cbn [RikunabiCrawl.companyName RikunabiCrawl.phone RikunabiCrawl.email
         RikunabiCrawl.sourceUrl].
  destruct (rikunabi_contact_facts data) as [Hphone Hemail].
  split; [destruct (name link); [discriminate | discriminate] |].
  split; [exact Hurl |]. split.
  - unfold orElse. destruct ((RikunabiContact.extractContactInfo data).1) eqn:Hfound;
      [left; reflexivity |].
    right. split; [discriminate | exact Hphone].
  - unfold orElse. destruct Hemail as [-> | Hshape]; [left; reflexivity |].
    destruct ((RikunabiContact.extractContactInfo data).2) eqn:Hfound;
      [left; reflexivity | right; exact Hshape].
Qed.

Lemma processCompany_logged gasConfig link m count m' count' :
  truthy (name link) && companyUrlPattern (url link) = true ->
  RikunabiCrawl.processCompany gasConfig link m count = (m', count') ->
  exists records,
    Logged m m' records
    /\ count' = (count + length records)%nat
    /\ Forall WellFormed records.
Proof.
  intros Hlink. apply andb_true_iff in Hlink. destruct Hlink as [Hname Hurl].
  unfold RikunabiCrawl.processCompany. rewrite Hname. cbn [negb].
  destruct (doGoto (normalizedUrl (url link)) (waitForTimeout RikunabiCrawl.DELAY_MS m))
    as [ok m1] eqn:Hgoto.
  assert (Hq1 : Quiet m m1).
  { eapply Quiet_doGoto; [| exact Hgoto]. apply Quiet_waitForTimeout. apply Quiet_refl. }
  destruct ok; cbn [negb].
  - unfold doEvaluateContact.
    destruct (evaluateContact (world (waitForTimeout 500 m1))) as [data w].
    intros [= <- <-].
    eexists [_]. split; [| split; [cbn; lia |]].
    + eapply Logged_trans with (first := []); [| apply appendCsvRecord_logged].
      apply Quiet_Logged. apply Quiet_setWorld. apply Quiet_waitForTimeout. exact Hq1.
    + constructor; [| constructor]. apply contact_record_wellformed; assumption.
  - intros [= <- <-]. exists []. split; [| split; [cbn; lia | constructor]].
    apply Quiet_Logged. apply Quiet_emit; [reflexivity | reflexivity | exact Hq1].
Qed.

Lemma companyLoop_logged polls gasConfig companyLinks :
  forall m count m' count',
    Forall (fun link => truthy (name link) && companyUrlPattern (url link) = true)
      companyLinks ->
    RikunabiCrawl.companyLoop polls gasConfig companyLinks m count = Some (m', count') ->
    exists records,
      Logged m m' records
      /\ count' = (count + length records)%nat
      /\ Forall WellFormed records.
Proof.
  induction companyLinks as [| link rest IH]; intros m count m' count' Hlinks Hrun;
    cbn [RikunabiCrawl.companyLoop] in Hrun.
  - injection Hrun as <- <-. exists []. split; [apply Logged_refl |].
    split; [cbn; lia | constructor].
  - apply Forall_cons in Hlinks. destruct Hlinks as [Hlink Hrest].
    destruct (shouldStop (world (emit (EvEntityTop (name link)) m))).
    { injection Hrun as <- <-. exists []. split; [| split; [cbn; lia | constructor]].
      apply Quiet_Logged. apply Quiet_top; [reflexivity | apply Quiet_refl]. }
    destruct (waitIfPaused polls (emit (EvEntityTop (name link)) m)) as [m1 |] eqn:Hwait;
      [| discriminate].
    assert (Hq1 : Quiet m m1)
      by (eapply Quiet_top_wait; [| apply Quiet_refl | exact Hwait]; reflexivity).
    destruct (RikunabiCrawl.processCompany gasConfig link m1 count) as [m2 count2] eqn:Hbody.
    destruct (processCompany_logged _ _ _ _ _ _ Hlink Hbody) as (r1 & Hl1 & Hc1 & Hw1).
    destruct (IH _ _ _ _ Hrest Hrun) as (r2 & Hl2 & Hc2 & Hw2).
    exists (r1 ++ r2). split; [| split].
    + eapply Logged_trans; [| exact Hl2].
      eapply Logged_trans with (first := []); [apply Quiet_Logged; exact Hq1 | exact Hl1].
    + rewrite length_app. lia.
    + apply Forall_app. split; assumption.
Qed.

Lemma extractCompanyLinks_kept anchors :
  Forall (fun link => truthy (name link) && companyUrlPattern (url link) = true)
    (extractCompanyLinks anchors).
Proof.
  unfold extractCompanyLinks. destruct anchors as [elements |]; [| constructor].
  apply Forall_forall. intros link Hin. apply list_elem_of_In in Hin.
  apply filter_In in Hin. tauto.
Qed.

Lemma pageLoop_logged pages polls gasConfig :
  forall pageIndex m count finish,
    RikunabiCrawl.pageLoop pages polls gasConfig pageIndex m count = Some finish ->
    exists records,
      Logged m (RikunabiCrawl.final finish) records
      /\ RikunabiCrawl.processedCount finish = (count + length records)%nat
      /\ Forall WellFormed records.
Proof.
  induction pages as [| pages IH]; intros pageIndex m count finish Hrun;
    cbn [RikunabiCrawl.pageLoop] in Hrun; [discriminate |].
  assert (Hnone : forall m', Quiet m m' ->
            exists records,
              Logged m m' records /\ count = (count + length records)%nat
              /\ Forall WellFormed records).
  { intros m' Hq. exists []. split; [apply Quiet_Logged; exact Hq |].
    split; [cbn; lia | constructor]. }
  destruct (shouldStop (world (emit (EvPageTop pageIndex) m))).
  { injection Hrun as <-. apply Hnone. apply Quiet_top; [reflexivity | apply Quiet_refl]. }
  destruct (waitIfPaused polls (emit (EvPageTop pageIndex) m)) as [m1 |] eqn:Hwait;
    [| discriminate].
  assert (Hq1 : Quiet m m1)
    by (eapply Quiet_top_wait; [| apply Quiet_refl | exact Hwait]; reflexivity).
  unfold doQueryAnchors in Hrun.
  destruct (queryAnchors (world m1)) as [anchors w].
  assert (Hq2 : Quiet m (emit EvQueryCompanyLinks (setWorld w m1))).
  { apply Quiet_emit; [reflexivity | reflexivity |]. apply Quiet_setWorld. exact Hq1. }
  pose proof (extractCompanyLinks_kept anchors) as Hkept.
  destruct (extractCompanyLinks anchors) as [| link links].
  { injection Hrun as <-. apply Hnone. exact Hq2. }
  destruct (RikunabiCrawl.companyLoop polls gasConfig (link :: links)
              (doNewPage (emit EvQueryCompanyLinks (setWorld w m1))) count)
    as [[m3 count3] |] eqn:Hloop; [| discriminate].
  destruct (companyLoop_logged _ _ _ _ _ _ _ Hkept Hloop) as (r1 & Hl1 & Hc1 & Hw1).
  assert (Hl3 : Logged m (doClosePage m3) r1).
  { eapply Logged_quiet.
    - eapply Logged_trans with (first := []); [| exact Hl1].
      apply Quiet_Logged. unfold doNewPage.
      apply Quiet_emit; [reflexivity | reflexivity |]. apply Quiet_setWorld. exact Hq2.
    - unfold doClosePage. apply Quiet_emit; [reflexivity | reflexivity |].
      apply Quiet_setWorld. apply Quiet_refl. }
  assert (Hhalt : forall m', Quiet (doClosePage m3) m' ->
            exists records,
              Logged m m' records /\ count3 = (count + length records)%nat
              /\ Forall WellFormed records).
  { intros m' Hq. exists r1. split; [eapply Logged_quiet; eassumption |].
    split; assumption. }
  destruct (shouldStop (world (doClosePage m3))).
  { injection Hrun as <-. apply Hhalt. apply Quiet_refl. }
  destruct (doQueryNextButton (doClosePage m3)) as [nextButton m4] eqn:Hbutton.
  assert (Hq4 : Quiet (doClosePage m3) m4)
    by (eapply Quiet_doQueryNextButton; [apply Quiet_refl | exact Hbutton]).
  destruct nextButton as [handle |]; [| injection Hrun as <-; apply Hhalt; exact Hq4].
  unfold doQueryNextParent in Hrun.
  destruct (queryNextParent (world m4)) as [parent w5].
  assert (Hq5 : Quiet (doClosePage m3) (setWorld w5 m4)) by (apply Quiet_setWorld; exact Hq4).
  destruct parent as [parentClass |]; [| injection Hrun as <-; apply Hhalt; exact Hq5].
  destruct (includes parentClass (lit "disabled")
            || includes parentClass (lit "ts-h-search-pagerItem_disabled")).
  { injection Hrun as <-. apply Hhalt. exact Hq5. }
  destruct (IH _ _ _ _ Hrun) as (r2 & Hl2 & Hc2 & Hw2).
  exists (r1 ++ r2). split; [| split].
  - eapply Logged_trans; [| exact Hl2].
    eapply Logged_quiet; [exact Hl3 |].
    unfold doClickNext. apply Quiet_emit; [reflexivity | reflexivity |].
    apply Quiet_setWorld. apply Quiet_waitForTimeout. exact Hq5.
  - rewrite length_app. lia.
  - apply Forall_app. split; assumption.
Qed.

End RikunabiCrawlFacts.

(** X27.  What a run of the second scraper writes.  A crawl that comes
    to an end has written one line for each record of some list, in
    order and nothing else, at the end of the file it found, and the
    count it reports is the length of that list.  Every record has a
    name, the address of a company page as its source, and a phone
    number and a mail address that are either what was found on the
    page or the failure mark, never empty.  When the first navigation
    throws, nothing is written. *)
Theorem rikunabi_run_writes_one_line_per_company
        {W : Type} {host : Host W} {page : RikunabiCrawl.Page W}
        (pages polls : nat) (searchUrl : jsstring) (gasConfig : option GasConfig)
        (m : Machine W) (outcome : RikunabiCrawl.Outcome) :
  RikunabiCrawl.processAllCompaniesFromSearch pages polls searchUrl gasConfig m
  = Some outcome ->
  match outcome with
  | RikunabiCrawl.Rejected m' =>
      csvFile m' = csvFile m /\ appendedLines (trace m') = appendedLines (trace m)
  | RikunabiCrawl.Finished finish =>
      exists records,
        csvFile (RikunabiCrawl.final finish)
        = csvFile m ++ concat (List.map RikunabiCrawl.csvLine records)
        /\ appendedLines (trace (RikunabiCrawl.final finish))
           = appendedLines (trace m) ++ List.map RikunabiCrawl.csvLine records
        /\ RikunabiCrawl.processedCount finish = length records
        /\ Forall RikunabiCrawl.WellFormed records
  end.
Proof.
  unfold RikunabiCrawl.processAllCompaniesFromSearch.
  destruct (doGoto searchUrl m) as [ok m1] eqn:Hgoto.
  assert (Hq : Quiet m m1) by (eapply Quiet_doGoto; [apply Quiet_refl | exact Hgoto]).
  destruct Hq as (events & Htrace & _ & Hnone & Hfile).
  destruct ok; cbn [negb].
  - destruct (RikunabiCrawl.pageLoop pages polls gasConfig 1 m1 0) as [finish |] eqn:Hloop;
      [| discriminate].
    intros [= <-].
    destruct (pageLoop_logged _ _ _ _ _ _ _ Hloop)
      as (records & (later & Htrace' & Hlines & Hfile') & Hcount & Hgood).
    exists records. rewrite Hfile', Hfile, Htrace', Htrace.
    rewrite !appendedLines_app, Hnone, Hlines, app_nil_r.
    repeat split; assumption.
  - intros [= <-]. rewrite Hfile, Htrace, appendedLines_app, Hnone, app_nil_r.
    split; reflexivity.
Qed.

Lemma rikunabi_run_writes_one_line_per_company_witness :
  exists finish records,
    @RikunabiCrawl.processAllCompaniesFromSearch Sim (scripted twoCompanies) rikunabiPage
      5 5 (lit "https://job.rikunabi.com/2026/s/") None fresh
    = Some (RikunabiCrawl.Finished finish)
    /\ csvFile (RikunabiCrawl.final finish)
       = csvFile fresh ++ concat (List.map RikunabiCrawl.csvLine records)
    /\ Forall RikunabiCrawl.WellFormed records
    /\ RikunabiCrawl.processedCount finish = 1%nat.
Proof.
  destruct (@RikunabiCrawl.processAllCompaniesFromSearch Sim (scripted twoCompanies)
              rikunabiPage 5 5 (lit "https://job.rikunabi.com/2026/s/") None fresh)
    as [[m' | finish] |] eqn:Hrun; try (vm_compute in Hrun; discriminate).
  pose proof (@rikunabi_run_writes_one_line_per_company Sim (scripted twoCompanies)
                rikunabiPage 5 5 (lit "https://job.rikunabi.com/2026/s/") None fresh
                (RikunabiCrawl.Finished finish) Hrun) as Hfacts.
  cbv iota in Hfacts. destruct Hfacts as (records & Hfile & _ & _ & Hgood).
  exists finish, records. split; [reflexivity |]. split; [exact Hfile |].
  split; [exact Hgood |].
  vm_compute in Hrun. injection Hrun as <-. reflexivity.
Defined.

(** ** No link is passed over *)

Section RikunabiEveryLink.
Import Rikunabi RikunabiContact RikunabiCrawl.
Context {W : Type} {host : Host W} {page : Page W}.
Implicit Types m : Machine W.
Hypothesis never_stopped : forall w : W, shouldStop w = false.
Hypothesis never_paused : forall w : W, isPaused w = false.
Hypothesis always_reached : forall target (w : W), (goto target w).1 = true.

Lemma processCompany_every gasConfig link m count :
  truthy (name link) = true ->
  exists record m',
    RikunabiCrawl.processCompany gasConfig link m count = (m', S count)
    /\ Logged m m' [record]
    /\ RikunabiCrawl.companyName record = name link
    /\ RikunabiCrawl.sourceUrl record = url link.
Proof.
  intros Hname. unfold RikunabiCrawl.processCompany. rewrite Hname. cbn [negb].
  destruct (doGoto (normalizedUrl (url link)) (waitForTimeout RikunabiCrawl.DELAY_MS m))
    as [ok m1] eqn:Hgoto.
  assert (Hq1 : Quiet m m1).
  { eapply Quiet_doGoto; [| exact Hgoto]. apply Quiet_waitForTimeout. apply Quiet_refl. }
  assert (Hok : ok = true).
  { unfold doGoto in Hgoto.
    pose proof (always_reached (normalizedUrl (url link))
                  (world (waitForTimeout RikunabiCrawl.DELAY_MS m))) as Hreach.
    destruct (goto _ _) as [ok' w]. cbn in Hreach. injection Hgoto as <- _. exact Hreach. }
  subst ok. cbn [negb]. unfold doEvaluateContact.
  destruct (evaluateContact (world (waitForTimeout 500 m1))) as [data w].
  exists {| RikunabiCrawl.companyName := name link;
            RikunabiCrawl.phone := orElse (RikunabiContact.extractContactInfo data).1 FAILED;
            RikunabiCrawl.email := orElse (RikunabiContact.extractContactInfo data).2 FAILED;
            RikunabiCrawl.sourceUrl := url link |}.
  eexists. split; [reflexivity |]. split; [| split; reflexivity].
  eapply Logged_trans with (first := []); [| apply appendCsvRecord_logged].
  apply Quiet_Logged. apply Quiet_setWorld. apply Quiet_waitForTimeout. exact Hq1.
Qed.

Lemma companyLoop_every polls gasConfig companyLinks :
  forall m count,
    Forall (fun link => truthy (name link) = true) companyLinks ->
    exists m' records,
      RikunabiCrawl.companyLoop polls gasConfig companyLinks m count
      = Some (m', (count + length companyLinks)%nat)
      /\ Logged m m' records
      /\ List.map RikunabiCrawl.companyName records = List.map name companyLinks
      /\ List.map RikunabiCrawl.sourceUrl records = List.map url companyLinks.
Proof.
  induction companyLinks as [| link rest IH]; intros m count Hlinks;
    cbn [RikunabiCrawl.companyLoop].
  - exists m, []. rewrite Nat.add_0_r. split; [reflexivity |].
    split; [apply Logged_refl | split; reflexivity].
  - apply Forall_cons in Hlinks. destruct Hlinks as [Hname Hrest].
    rewrite never_stopped.
    rewrite waitIfPaused_not_paused by apply never_paused.
    set (m1 := emit EvWaitIfPaused (emit (EvEntityTop (name link)) m)).
    assert (Hq1 : Quiet m m1).
    { apply (Quiet_top_wait (EvEntityTop (name link)) 0 m m m1);
        [reflexivity | apply Quiet_refl |].
      apply waitIfPaused_not_paused. apply never_paused. }
    destruct (processCompany_every gasConfig link m1 count Hname)
      as (record & m2 & Hbody & Hlogged & Hrecord_name & Hrecord_url).
    rewrite Hbody.
    destruct (IH m2 (S count) Hrest) as (m' & records & Hloop & Hlater & Hnames & Hurls).
    exists m', (record :: records). cbn [length List.map].
    rewrite Hloop, Hrecord_name, Hrecord_url, Hnames, Hurls.
    split; [f_equal; f_equal; lia |]. split; [| split; reflexivity].
    change (record :: records) with ([record] ++ records).
    eapply Logged_trans; [| exact Hlater].
    eapply Logged_trans with (first := []); [apply Quiet_Logged; exact Hq1 | exact Hlogged].
Qed.

End RikunabiEveryLink.

(** X28.  The second scraper passes no link over.  As long as nobody
    stops or pauses the run and every company page can be opened, the
    loop over the links of a result page writes one line for every
    link that has a name, in the order of the page and under the name
    and address of the link, whether or not the same company has been
    written before: this scraper keeps no record of what it has
    seen. *)
Theorem rikunabi_writes_every_link
        {W : Type} {host : Host W} {page : RikunabiCrawl.Page W}
        (polls : nat) (gasConfig : option GasConfig)
        (companyLinks : list CompanyLink) (m : Machine W) (count : nat) :
  (forall w : W, shouldStop w = false) ->
  (forall w : W, isPaused w = false) ->
  (forall target (w : W), (goto target w).1 = true) ->
  Forall (fun link => truthy (name link) = true) companyLinks ->
  exists m' records,
    RikunabiCrawl.companyLoop polls gasConfig companyLinks m count
    = Some (m', (count + length companyLinks)%nat)
    /\ csvFile m' = csvFile m ++ concat (List.map RikunabiCrawl.csvLine records)
    /\ List.map RikunabiCrawl.companyName records = List.map name companyLinks
    /\ List.map RikunabiCrawl.sourceUrl records = List.map url companyLinks.
Proof.
  intros Hstop Hpause Hreach Hlinks.
  destruct (companyLoop_every Hstop Hpause Hreach polls gasConfig companyLinks m count Hlinks)
    as (m' & records & Hloop & (events & _ & _ & Hfile) & Hnames & Hurls).
  exists m', records. repeat split; assumption.
Qed.

Lemma rikunabi_writes_every_link_witness :
  exists m' records,
    @RikunabiCrawl.companyLoop Sim (scripted twoCompanies) rikunabiPage 0 None
      [acmeLink; acmeLink] fresh 0
    = Some (m', 2%nat)
    /\ csvFile m' = csvFile fresh ++ concat (List.map RikunabiCrawl.csvLine records)
    /\ List.map RikunabiCrawl.companyName records = [name acmeLink; name acmeLink]
    /\ List.map RikunabiCrawl.sourceUrl records = [url acmeLink; url acmeLink].
Proof.
  apply (@rikunabi_writes_every_link Sim (scripted twoCompanies) rikunabiPage 0 None
           [acmeLink; acmeLink] fresh 0).
  - intros w. reflexivity.
  - intros w. reflexivity.
  - intros target w. reflexivity.
  - repeat constructor.
Defined.

(** ** Companies that are already known *)

Section KnownCompanies.
Context {W : Type} {host : Host W}.
Implicit Types m : Machine W.
Variable CONFIG : MynaviConfig.

Lemma Listing_refl m : Listing m m.
Proof. exists []. rewrite app_nil_r. repeat split. constructor. Qed.

Lemma Listing_trans m m1 m2 : Listing m m1 -> Listing m1 m2 -> Listing m m2.
Proof.
  intros (e1 & Ht1 & Hp1 & Hf1 & Hs1) (e2 & Ht2 & Hp2 & Hf2 & Hs2).
  exists (e1 ++ e2). rewrite Ht2, Ht1, <- app_assoc.
  split; [reflexivity |]. split; [apply Forall_app; split; assumption |].
  split; congruence.
Qed.

Lemma Listing_emit e m : isListing e = true -> Listing m (emit e m).
Proof.
  intros He. exists [e]. repeat split. constructor; [exact He | constructor].
Qed.

Lemma Listing_setWorld w m : Listing m (setWorld w m).
Proof. exists []. cbn. rewrite app_nil_r. repeat split. constructor. Qed.

Lemma Paging_Listing m m' : Paging m m' -> Listing m m'.
Proof.
  intros (events & Htrace & Hpaging & Hfile & Hset).
  exists events. repeat split; try assumption.
  eapply Forall_impl; [exact Hpaging |]. intros e He.
  destruct e; try discriminate He; reflexivity.
Qed.

Lemma processCompany_settled polls maxCompanies link m added :
  settled (existingCompanies m) link ->
  exists m',
    processCompany CONFIG polls maxCompanies link m added = Some (Next, m', added)
    /\ Listing m m'.
Proof.
  intros Hlink. unfold processCompany.
  destruct (truthy (name link)) eqn:Hname; cbn [negb].
  - destruct Hlink as [Hnone | Hknown]; [congruence |].
    unfold checkCompanyExists, has. rewrite Hname. cbn [negb].
    rewrite bool_decide_eq_true_2 by exact Hknown.
    eexists. split; [reflexivity |].
    exists [EvSkipKnown (name link)]. cbn.
    repeat split; [constructor; [reflexivity | constructor] |].
    apply subseteq_union_1_L. apply singleton_subseteq_l. exact Hknown.
  - exists m. split; [reflexivity | apply Listing_refl].
Qed.

Lemma companyLoop_settled polls maxCompanies :
  forall companyData m added finish,
    Forall (settled (existingCompanies m)) companyData ->
    companyLoop CONFIG polls maxCompanies companyData m added = Some finish ->
    Listing m finish.1 /\ finish.2 = added.
Proof.
  induction companyData as [| link rest IH]; intros m added finish Hall Hrun;
    cbn [companyLoop] in Hrun.
  - injection Hrun as <-. split; [apply Listing_refl | reflexivity].
  - assert (Htop : Listing m (emit (EvEntityTop (name link)) m))
      by (apply Listing_emit; reflexivity).
    destruct (shouldStop (world (emit (EvEntityTop (name link)) m)));
      [injection Hrun as <-; split; [exact Htop | reflexivity] |].
    destruct (capReached maxCompanies added);
      [injection Hrun as <-; split; [exact Htop | reflexivity] |].
    destruct (waitIfPaused polls (emit (EvEntityTop (name link)) m)) as [m1 |] eqn:Hwait;
      [| discriminate].
    apply Paging_waitIfPaused, Paging_Listing in Hwait.
    pose proof (Listing_trans _ _ _ Htop Hwait) as Hhere.
    assert (Hset : existingCompanies m1 = existingCompanies m)
      by (destruct Hhere as (? & _ & _ & _ & Hset); exact Hset).
    apply Forall_cons in Hall. destruct Hall as [Hlink Hrest].
    rewrite <- Hset in Hlink.
    destruct (processCompany_settled polls maxCompanies link m1 added Hlink)
      as (m2 & Hstep & Hquiet).
    rewrite Hstep in Hrun.
    pose proof (Listing_trans _ _ _ Hhere Hquiet) as Hthere.
    assert (Hset2 : existingCompanies m2 = existingCompanies m)
      by (destruct Hthere as (? & _ & _ & _ & Hset2); exact Hset2).
    rewrite <- Hset2 in Hrest.
    destruct (IH _ _ _ Hrest Hrun) as [Hlater Hcount].
    split; [eapply Listing_trans; eassumption | exact Hcount].
Qed.

End KnownCompanies.

Section KnownSite.
Context {W : Type} {host : Host W}.
Implicit Types m : Machine W.
Variable CONFIG : MynaviConfig.
Variable known : gset jsstring.
Hypothesis site_known : forall w, Forall (settled known) (queryCompanyLinks w).1.

Lemma pageIteration_settled polls maxCompanies pageIndex m added step :
  existingCompanies m = known ->
  pageIteration CONFIG polls maxCompanies pageIndex m added = Some step ->
  Listing m (stepMachine step) /\ stepCount step = added.
Proof.
  unfold pageIteration. intros Hknown Hrun.
  assert (Htop : Listing m (emit (EvPageTop pageIndex) m))
    by (apply Listing_emit; reflexivity).
  destruct (shouldStop (world (emit (EvPageTop pageIndex) m)));
    [injection Hrun as <-; split; [exact Htop | reflexivity] |].
  destruct (capReached maxCompanies added);
    [injection Hrun as <-; split; [exact Htop | reflexivity] |].
  destruct (waitIfPaused polls (emit (EvPageTop pageIndex) m)) as [m1 |] eqn:Hwait;
    [| discriminate].
  apply Paging_waitIfPaused, Paging_Listing in Hwait.
  unfold doQueryCompanyLinks in Hrun.
  pose proof (site_known (world m1)) as Hlinks.
  destruct (queryCompanyLinks (world m1)) as [companyData w]. cbn [fst] in Hlinks.
  assert (Hlisted : Listing m (emit EvQueryCompanyLinks (setWorld w m1))).
  { eapply Listing_trans; [| apply Listing_emit; reflexivity].
    eapply Listing_trans; [| apply Listing_setWorld].
    eapply Listing_trans; [exact Htop | exact Hwait]. }
  destruct (START_PAGE CONFIG <=? pageIndex)%nat.
  - unfold doNewPage in Hrun.
    match type of Hrun with
    | context [companyLoop _ _ _ _ ?tab _] => set (m2 := tab) in *
    end.
    assert (Htab : Listing m m2).
    { eapply Listing_trans; [exact Hlisted |]. subst m2.
      eapply Listing_trans; [apply Listing_setWorld | apply Listing_emit; reflexivity]. }
    assert (Hset2 : existingCompanies m2 = known).
    { destruct Htab as (? & _ & _ & _ & Hset). congruence. }
    destruct (companyLoop CONFIG polls maxCompanies companyData m2 added)
      as [[m3 added3] |] eqn:Hloop; [| discriminate].
    rewrite <- Hset2 in Hlinks.
    destruct (companyLoop_settled CONFIG _ _ _ _ _ _ Hlinks Hloop) as [Hcompanies Hcount].
    cbn [fst snd] in Hcompanies, Hcount. subst added3.
    unfold doClosePage in Hrun.
    match type of Hrun with
    | context [shouldStop (world ?closed)] => set (m4 := closed) in *
    end.
    assert (Hclosed : Listing m m4).
    { eapply Listing_trans; [exact Htab |].
      eapply Listing_trans; [exact Hcompanies |]. subst m4.
      eapply Listing_trans; [apply Listing_setWorld | apply Listing_emit; reflexivity]. }
    destruct (shouldStop (world m4));
      [injection Hrun as <-; split; [exact Hclosed | reflexivity] |].
    destruct (capReached maxCompanies added);
      [injection Hrun as <-; split; [exact Hclosed | reflexivity] |].
    injection Hrun as <-. split; [| apply advance_count].
    eapply Listing_trans; [exact Hclosed |]. apply Paging_Listing, Paging_advance.
  - injection Hrun as <-. split; [| apply advance_count].
    eapply Listing_trans; [exact Hlisted |]. apply Paging_Listing, Paging_advance.
Qed.

Lemma pageLoop_settled pages polls maxCompanies :
  forall pageIndex m added finish,
    existingCompanies m = known ->
    pageLoop CONFIG pages polls maxCompanies pageIndex m added = Some finish ->
    Listing m (final finish) /\ addedCompanyCount finish = added.
Proof.
  induction pages as [| pages IH]; intros pageIndex m added finish Hknown Hrun;
    cbn [pageLoop] in Hrun; [discriminate |].
  destruct (pageIteration CONFIG polls maxCompanies pageIndex m added) as [step |] eqn:Hstep;
    [| discriminate].
  destruct (pageIteration_settled _ _ _ _ _ _ Hknown Hstep) as [Hhere Hcount].
  destruct step as [reason m1 added1 | m1 added1]; cbn in Hhere, Hcount; subst added1.
  - injection Hrun as <-. cbn. split; [exact Hhere | reflexivity].
  - assert (Hset : existingCompanies m1 = known).
    { destruct Hhere as (? & _ & _ & _ & Hset). congruence. }
    destruct (IH _ _ _ _ Hset Hrun) as [Hrest Hsame].
    split; [eapply Listing_trans; eassumption | exact Hsame].
Qed.

End KnownSite.

(** X29.  A company that is already known costs no page load.  When
    every link that the result pages can list has no name or names a
    company of the dedup set, a crawl that comes to an end has opened
    no company page, read no table and written nothing: its trace
    holds nothing but the events of paging, the heads of the company
    loop, the opening and closing of the working tab and the notes
    that a company is known; the ledger and the dedup set are as they
    were and the count is zero. *)
Theorem known_companies_cost_no_page_load {W : Type} {host : Host W}
        (CONFIG : MynaviConfig) (pages polls : nat) (maxCompanies : option nat)
        (m : Machine W) (finish : CrawlEnd) :
  (forall w, Forall (settled (existingCompanies m)) (queryCompanyLinks w).1) ->
  processAllCompaniesFromSearch CONFIG pages polls maxCompanies m = Some finish ->
  addedCompanyCount finish = 0%nat
  /\ csvFile (final finish) = csvFile m
  /\ existingCompanies (final finish) = existingCompanies m
  /\ exists events,
      trace (final finish) = trace m ++ events
      /\ Forall (fun e => isListing e = true) events.
Proof.
  unfold processAllCompaniesFromSearch. intros Hsite Hrun.
  destruct (pageLoop_settled CONFIG _ Hsite _ _ _ _ _ _ _ eq_refl Hrun)
    as [(events & Htrace & Hlisting & Hfile & Hset) Hcount].
  repeat split; try assumption. exists events. split; assumption.
Qed.

Lemma known_companies_cost_no_page_load_witness :
  exists finish,
    @processAllCompaniesFromSearch Sim (scripted twoPages) plainConfig 5 5 None seenBoth
    = Some finish
    /\ addedCompanyCount finish = 0%nat
    /\ csvFile (final finish) = csvFile seenBoth.
Proof.
  destruct (@processAllCompaniesFromSearch Sim (scripted twoPages) plainConfig 5 5 None
              seenBoth) as [finish |] eqn:Hrun;
    [| vm_compute in Hrun; discriminate].
  assert (Hsite : forall w : Sim,
             Forall (settled (existingCompanies seenBoth))
                    (@queryCompanyLinks Sim (scripted twoPages) w).1).
  { intros w. cbn [queryCompanyLinks scripted fst].
    change (existingCompanies seenBoth)
      with ({[lit "Alpha"]} ∪ {[lit "Beta"]} : gset jsstring).
    destruct (clicks w) as [| [| n]]; cbn.
    - constructor; [| constructor]. right.
      change (normalizeCompanyName (lit "Alpha")) with (lit "Alpha").
      apply elem_of_union_l, elem_of_singleton. reflexivity.
    - constructor; [| constructor]. right.
      change (normalizeCompanyName (lit "Beta")) with (lit "Beta").
      apply elem_of_union_r, elem_of_singleton. reflexivity.
    - constructor. }
  destruct (@known_companies_cost_no_page_load Sim (scripted twoPages) plainConfig 5 5 None
              seenBoth finish Hsite Hrun) as (Hcount & Hfile & _).
  exists finish. repeat split; assumption.
Defined.

(** ** What seeding puts into the dedup set *)

Section SeededNames.

(** What the dedup set holds after seeding: normal forms that are not
    empty. *)
Lemma seedFromRow_normal (P : jsstring -> Prop) companies fields :
  (forall raw, normalizeCompanyName raw <> [] -> P (normalizeCompanyName raw)) ->
  (forall x, x ∈ companies -> P x) ->
  forall x, x ∈ seedFromRow companies fields -> P x.
Proof.
  intros Hnormal Hold x. unfold seedFromRow.
  destruct (7 <? length fields)%nat; [| apply Hold].
  destruct (truthy (trim (nth 7 fields []))); [| apply Hold].
  destruct (normalizeCompanyName (trim (nth 7 fields []))) as [| c t] eqn:Hname;
    cbn [truthy]; [apply Hold |].
  intros Hin. apply elem_of_union in Hin. destruct Hin as [Hnew | Hin]; [| apply Hold, Hin].
  apply elem_of_singleton in Hnew. subst x. rewrite <- Hname.
  apply Hnormal. rewrite Hname. discriminate.
Qed.

Lemma seeded_normal (P : jsstring -> Prop) rows :
  (forall raw, normalizeCompanyName raw <> [] -> P (normalizeCompanyName raw)) ->
  forall companies,
    (forall x, x ∈ companies -> P x) ->
    forall x, x ∈ fold_left seedFromRow rows companies -> P x.
Proof.
  intros Hnormal. induction rows as [| fields rows IH]; intros companies Hold;
    cbn [fold_left]; [exact Hold |].
  apply IH. apply seedFromRow_normal; assumption.
Qed.

Lemma loadExistingCompanyNames_normal (P : jsstring -> Prop) file :
  (forall raw, normalizeCompanyName raw <> [] -> P (normalizeCompanyName raw)) ->
  forall x, x ∈ loadExistingCompanyNames file -> P x.
Proof.
  intros Hnormal x. unfold loadExistingCompanyNames.
  destruct file as [content |]; [| intros Hin; apply elem_of_empty in Hin; contradiction].
  apply seeded_normal; [exact Hnormal |].
  intros y Hin. apply elem_of_empty in Hin. contradiction.
Qed.

End SeededNames.

(** X30.  A name without a normal form is never seeded.  Whatever the
    ledger file holds, every identity that seeding puts into the dedup
    set is a non-empty normal form: no white space at either end and
    single plain spaces inside.  So a company name whose normal form
    is empty, as that of the bare marker PICK UP, is not reported as
    existing after seeding, not even when the file holds a line for
    it, and [saveRecordIfNew] on the freshly seeded set writes its
    record once more. *)
Theorem empty_identity_is_never_seeded {W : Type} {host : Host W}
        (file : option jsstring) :
  (forall x, x ∈ loadExistingCompanyNames file ->
             x <> [] /\ singleSpaced x = true /\ trim x = x)
  /\ (forall companyName,
         normalizeCompanyName companyName = [] ->
         checkCompanyExists companyName (loadExistingCompanyNames file) = false)
  /\ (forall gasConfig record (m : Machine W),
         normalizeCompanyName (Csv.companyName record) = [] ->
         existingCompanies m = loadExistingCompanyNames file ->
         (saveRecordIfNew gasConfig record m).1 = false
         /\ csvFile (saveRecordIfNew gasConfig record m).2 = csvFile m ++ lineOf record m)
  /\ truthy PICK_UP = true
  /\ normalizeCompanyName PICK_UP = [].
Proof.
  assert (Hshape : forall x, x ∈ loadExistingCompanyNames file ->
                             x <> [] /\ singleSpaced x = true /\ trim x = x).
  { apply loadExistingCompanyNames_normal. intros raw Hraw.
    split; [exact Hraw |]. unfold normalizeCompanyName. split.
    - apply trim_singleSpaced, collapse_loose.
    - apply trim_idempotent. }
  assert (Habsent : has [] (loadExistingCompanyNames file) = false).
  { unfold has. apply bool_decide_eq_false_2. intros Hin.
    destruct (Hshape _ Hin) as [Hne _]. apply Hne. reflexivity. }
  split; [exact Hshape |]. split; [| split; [| split; reflexivity]].
  - intros companyName Hempty. unfold checkCompanyExists.
    destruct (truthy companyName); [| reflexivity]. cbn [negb].
    rewrite Hempty. exact Habsent.
  - intros gasConfig record m Hempty Hseeded.
    destruct (saveRecordIfNew_shape gasConfig record m)
      as [[Hknown _] | (_ & Hsaved & relay & _ & _ & Hfile & _)].
    + rewrite Hempty, Hseeded, Habsent in Hknown. discriminate.
    + split; assumption.
Qed.
